(* ===== verification/_CoqProject ===== *)
-Q . S2P
Prelude.v
External.v
Concrete.v
Denylist.v
Jsonrpc.v
Pool.v
World.v
Served.v
Forwarder.v
Records.v
Reader.v
Writer.v
Stats.v
Chain.v
Config.v
Admission.v
Agent.v
Patches.v
Mirror.v
Reconcile.v
Offers.v
Flush.v
Billing.v
Lifecycle.v
FakeChain.v
Proxy.v
Monitor.v
Recovery.v
Scenarios.v
Integrity.v
Relay.v
Load.v
Admin.v
Guarantee.v
Service.v
Entry.v
Shutdown.v
Rig.v
Machine.v
Handles.v
Scripts.v
Teardown.v
Runs.v
Ends.v
Settings.v
TestKit.v
ConfigTests.v
PoolTests.v
RecordTests.v
RequestTests.v
ChainTests.v
CheckTests.v
StatsTests.v
RelayTests.v
