(* ===== verification/Prelude.v ===== *)
(** * Verification of the Arkiv community load balancer

    The program (the crate [lb], [crates/lb/src/]) is a JSON-RPC load
    balancer in front of Arkiv nodes run by independent providers. It
    forwards client requests to a pool of providers, probes them, compares
    their data with a reference node's, and buys capacity on a marketplace
    whose records live on the chain itself: it writes a listing, turns
    offers into agreements, keeps both alive, counts what each provider
    served and writes the counts into counter records. This file is the
    root of the library; it also holds the vocabulary the others share.

    ** The parts and their files

    - [Prelude] (here): results, a state monad, machine integers with their
      wrap and saturation, time in nanoseconds, text, generic lemmas, the
      hint databases [lb].
    - [External], [Concrete]: what the program takes from other crates, as
      classes (URLs, addresses and keys, [serde_json] values and text), and
      one instance of each, for the witnesses only.
    - [Denylist] ([denylist.rs]), [Jsonrpc] ([jsonrpc.rs]).
    - [Pool] ([pool.rs]): an entry with its atomics, its operations, the
      membership list, round-robin selection. An [Arc<Provider>] is a
      reference into the store [heap], so an entry someone holds outlives
      its removal.
    - [World]: the state a task runs on - the pool, the world outside
      (clock, network, chain, randomness), the history of steps - and the
      other tasks; [Served] follows the served counters through a history.
    - [Forwarder] ([forwarder.rs]) and [Proxy] ([proxy.rs]): one attempt, and
      the public listener with its refusals and its failover.
    - [Monitor] ([monitor.rs]): the probe loop.
    - [Records], [Reader], [Writer] ([chain/records.rs], [chain/reader.rs],
      [chain/writer.rs]): the records' encodings, the read client, the
      client of the writer sidecar. [Chain] states what the agent relies on
      of the two.
    - [Config] and [Settings] ([config.rs]): the configuration with its
      checks and defaults, and what serde's derives read of its file;
      [Admission] ([marketplace/admission.rs]).
    - [Agent], [Mirror], [Reconcile], [Offers], [Flush], [Billing],
      [Lifecycle] ([marketplace/agent.rs]): its memory, the reconciles, the
      discovery, refresh and flush, the counters, the start, the polls and
      the admissions. [Patches] says what a write leaves a counter record
      reading as, for the theorems on the counters.
    - [Stats] ([stats.rs]), [Integrity] ([integrity.rs]), [Admin]
      ([admin.rs]), [Service] ([service.rs]): the hourly rings and their
      file, the integrity rounds, the admin listener, the boot.
    - [Entry] ([main.rs]): the arguments, the file and the environment a run
      is told by. [Shutdown] ([service.rs]): what asks it to stop, and how
      the tasks end.
    - [FakeChain] ([crates/lb/tests/common/fake_chain.rs]): the in-memory
      chain of the integration tests, a second implementation of the two
      chain traits; [Scenarios] runs the agent on it.
    - [Recovery]: the monitor and the pool over many sweeps. [Guarantee]: what
      each task promises the others.
    - [Relay], [Load], [Rig] ([crates/rig/src/], relay.rs, load.rs, and
      main.rs with fleet.rs and provider.rs): the test rig's lying relay, its
      load generator, and the rest that drives no process: the command line,
      the configurations it renders, what it posts to the admin port and
      reads there. They are proved against the load balancer's own model, so
      their theorems say what the scenarios are to show.
    - [Machine], [Handles], [Scripts] (main.rs, fleet.rs, writer.rs,
      provider.rs): what a scenario asks of its machine, as an inductive type
      [Ask] indexed by the answer, and what each answered call starts,
      tells to go or sees gone; the values with a [Drop] it holds; and
      each scenario as a script that ends, panics, is cancelled, or hangs
      at a call that never answers. [Teardown] has a logic of such scripts
      and the drops, [Runs] what every scenario leaves behind, [Ends] that
      none of its loops goes on for ever.
    - [ConfigTests], [PoolTests], [RecordTests], [RequestTests],
      [ChainTests], [CheckTests], [StatsTests], [RelayTests], over [TestKit]:
      the unit tests of the sources, each a definition of its Rust name that
      is true when its assertions hold of the model. They check the
      definitions themselves against what the code's authors expect of the
      code; the [*_tests_pass] theorems evaluate them.

    Definitions keep the source's names. Where a Rust name is taken, it gets
    the type in front ([Ring::tick] is [ring_tick]) or lives in its file
    ([Monitor.run]).

    ** State, awaits and the other tasks

    A task is a computation of the state monad [M] over [Sys W]: it reads and
    changes the pool in steps that are the code's own atomic operations, and
    every change is a [Step] of the [history]. It gives up control only
    where the code awaits; there [others] says what the rest of the program
    does, any list of pool operations. The lemmas [*_steps] say that the pool
    is what the history made of it, so a theorem can tell this task's
    steps from the others'. Some theorems need that the others do only what
    the rest of the program does ([benign], class [Rely]): no other task adds
    or removes entries or settles counts, which only the agent does. [does]
    says which steps a computation takes of its own, whatever it is
    answered; [quiet] is the case of the chain clients, and [Guarantee] uses
    it to prove the rely of the proxy, the side door, the monitor and the
    checker. The
    agent's own memory is behind a lock; what other holders of the lock do at
    an await is a [MemoryStep] ([Agent]). The asks of one integrity look run
    concurrently in the code; none of them changes an entry, so the model runs
    them one after another in the order they complete, which the environment
    chooses. Selections race on the rotation cursor: [next_eligible] takes how
    far the others move it before each sample.

    Rust's [Result] is [result]; a panic ([expect], an out-of-range index)
    is a value of its own where one could occur, and theorems show it does
    not ([round_records_verdicts], [start_has_its_clients]). Integers are [Z]
    with the source's wrap or saturation written out ([add_u64], [sat_sub],
    [sat_add_i64]); [pool_stays_typed] shows that they stay in range.

    ** Interfaces

    - [ChainReader], [ChainWriter]: the two traits, with the operations of
      the HTTP clients and of the test chain as instances. [Chain] adds the
      laws: a read or a write changes no entry, a query's rows are of
      entities the chain has issued, each once, and a create's key is new.
      The agent is proved against [Chain]; [FakeChain] discharges it.
    - [IntegrityCheck] with [QuietCheck]: what an admission asks of the
      checker; [Integrity] discharges it.
    - [Agreements]: what the admin listener asks of the agent.
    - [Machine]: what the rig asks of the operating system and the network,
      with [Addresses] (a listener has the address it is given) and [Passing]
      (its clock, and that a call that waits on no other program answers).
    - [Timed]: a sleep lasts at least as long as asked and the clock does not
      go back; [CheckerOutside], [BootOutside], [QuietLoopback], [QuietSleep]
      and [QuietMemory]: exchanges outside change no entry themselves.
    - [Record_]: the five marketplace records and their versioned codec.

    ** What the theorems show

    - Pool: [healthy_iff_admitted], [traffic_never_admits] and
      [integrity_gate_history] say which histories put a provider in
      rotation; [next_eligible_spec] and [round_robin_even] that selection is
      right under contention and even; [pool_stays_typed] is type safety
      under any steps of any task.
    - Requests: [forward_refines] (the tries, the response and the steps on
      the pool are a run of the specification [Failover], under one deadline
      and one budget of attempts), [forward_accounts] (each try is charged to
      the provider it went to, and each outcome counted once),
      [only_allowed_requests_forwarded], [denied_not_evaded] (no spelling by
      letter case evades the denylist), [attempt_outcomes];
      [ok_requests_are_billed] ties what a client counts to what is
      credited.
    - Monitor: [probe_one_refines] (what is asked of the provider and done to
      its entry is a run of the specification [ProbeRun]),
      [probe_success_means];
      [provider_in_step_returns] and [provider_behind_goes_out] (where
      [flip_after] sweeps lead), and [frozen_head_goes_out] for the relay
      that makes a provider look stuck.
    - The tasks together: [other_tasks_keep_the_rely].
    - Records and clients: [records_round_trip], [text_unambiguous],
      [send_reports_every_operation].
    - Agent: [pool_mirrors_agreements] (after any operations the marketplace
      members are exactly the agreements in memory),
      [reconcile_follows_chain] (to the last write of an agreement that
      ended), [discovery_accepts_within_bounds],
      [refresh_extends_exactly], [flush_bills_each_call_once],
      [counters_follow_chain], [oldest_record_wins],
      [admission_extends_only_passed], [refused_start_writes_nothing],
      [first_life_told_apart].
    - Admission and admin: [admission_iff],
      [admitted_tunnel_feeds_its_member], [token_opens_one_tunnel].
    - Integrity: [judge_spec], [same_entities_spec] (the comparison that
      sorts attributes equals the one up to permutation),
      [round_records_verdicts] (from the reference's block to each entry),
      [checker_is_quiet]; [wrong_block_scenario]
      and [entity_liar_is_taken_out] (a provider behind a lying relay goes
      out, and shows it), [relay_tells_only_its_lie].
    - Stats: [ring_keeps_the_ledger], [save_keeps_a_good_file] (a crash at
      any point of a save), [report_rows_are_whole].
    - Configuration and boot: [validate_iff], [marketplace_validate_iff],
      [started_service_is_in_order], [refused_before_it_binds],
      [run_serves_what_was_checked]; [file_sets_its_settings] (what a file
      can set, and what it cannot).
    - The stop: [shutdown_waits_for_all] (it returns once every task it joins
      is over), [admission_outlives_shutdown] (what it does not wait for),
      [signals_that_stop], [answered_after_the_last_flush].
    - Load generator: [windows_lose_nothing], [lb_errors_counted],
      [worker_ends].
    - The rig's runs: [rig_leaves_nothing_running] (whether a scenario
      passes, panics or is interrupted, what its calls started is waited
      for, aborted or told to stop, in order), [every_run_ends] (only a call
      that waits on another program can hang it), [wait_ends],
      [silent_sidecar_hangs].

    A theorem with a hypothesis has a witness, [<theorem>_witness], that
    applies it to a concrete run.

    ** Fuel and bounds

    [send] splits a refused batch until single operations are left; a batch
    of [n] operations takes at most [2 n] rounds and the statement includes
    that they are enough. An admission's polls end with its first life: [polls_for] is the
    number of poll intervals in it. A lap of [next_eligible] is one pass over
    the members, as in the code. Loops that run for as long as the service
    does (the monitor, the integrity rounds, the stats task) take the number
    of rounds to run. A load worker and a wait of the rig take fuel too:
    [worker_ends] and [wait_ends] say that the time left to the deadline, in
    rounds, is enough. The loops of a scenario each sleep and give up at a
    timeout of two minutes at most, in rounds of 200 ms at least:
    [every_run_ends] shows that 601 rounds are enough for all of them. A call
    that never answers is a value of its own, and ends a run as [Hung].
    Trimming a text drops a byte a round, so its length is
    enough. [round_robin_even] assumes the [u64] cursor is not
    about to wrap: at the wrap a lap can skip members.

    ** Not modelled

    - Tracing set-up and process exit, and the printing of an error's causes
      by [fail]. Log lines everywhere; the texts of errors are constructors
      with their arguments, except where the text reaches a client or a
      record.
    - The internals of tokio, axum, reqwest, serde and alloy: each is used
      through its documented behaviour. Body limits, path splitting and CORS
      happen before a handler runs and arrive as results.
    - At the stop, what a task does between two awaits is not run together
      with the others' (each file has its task's own): a task, and an
      admission the agent spawned, is there as the awaits it has left. A
      reference URL that only the monitor uses is parsed after binding; the
      model has it there as well.
    - Two unit tests that race threads on the pool, the one on humantime's
      text of times, and the one on the agent's log text of amounts.
    - What the rig's scenarios print, the load tasks a scenario that panics
      leaves to the runtime, which ends with the run, and what becomes of
      the files it writes.
    - An operation of a pool entry that touches several atomics is one step
      of the history, so no other task is seen between them.
    - [writer/] and [settle/] (TypeScript programs of their own): the load
      balancer depends on none of their code, only on the sidecar's HTTP
      contract, which [Writer] has.
    - Memory ordering: the atomics are [Relaxed], and the model interleaves
      them sequentially. *)

From stdpp Require Export base tactics option list list_numbers numbers gmap strings sorting
  pretty.
From Stdlib Require Export Strings.Ascii.
From Stdlib Require Export Init.Byte Lia ZArith.
From Stdlib Require Strings.Byte.

#[local] Open Scope Z_scope.
#[export] Set Default Proof Using "Type".
#[export] Set Warnings "-clear-no-such-hyp".

(** * Results *)

(** Rust's [Result<A, E>]. *)
Inductive result (E A : Type) : Type :=
| Ok (a : A)
| Err (e : E).
Arguments Ok {E A} a.
Arguments Err {E A} e.

#[export] Instance result_ret E : MRet (result E) := fun _ a => Ok a.
#[export] Instance result_bind E : MBind (result E) :=
  fun _ _ f r => match r with Ok a => f a | Err e => Err e end.
#[export] Instance result_fmap E : FMap (result E) :=
  fun _ _ f r => match r with Ok a => Ok (f a) | Err e => Err e end.

(** [Result::map_err], [Option::ok_or] and [Result::ok]. *)
Definition map_err {E F A} (f : E -> F) (r : result E A) : result F A :=
  match r with Ok a => Ok a | Err e => Err (f e) end.
Definition ok_or {E A} (e : E) (o : option A) : result E A :=
  match o with Some a => Ok a | None => Err e end.
Definition result_ok {E A} (r : result E A) : option A :=
  match r with Ok a => Some a | Err _ => None end.
Definition is_ok {E A} (r : result E A) : bool :=
  match r with Ok _ => true | Err _ => false end.

Lemma bind_Ok {E A B} (f : A -> result E B) (r : result E A) b :
  r ≫= f = Ok b <-> exists a, r = Ok a /\ f a = Ok b.
Proof.
  destruct r as [x|x]; cbn.
  - split; [intros H; by exists x | by intros (? & [= ->] & H)].
  - split; [done|]. by intros (? & ? & _).
Qed.

Lemma ok_or_Ok {E A} (e : E) (o : option A) a : ok_or e o = Ok a <-> o = Some a.
Proof. destruct o; cbn; naive_solver. Qed.

Lemma map_err_Ok {E F A} (f : E -> F) (r : result E A) a :
  map_err f r = Ok a <-> r = Ok a.
Proof. destruct r; cbn; naive_solver. Qed.

(** [guard_err c e]: the early return [if c { return Err(e) }]. *)
Definition guard_err {E} (c : bool) (e : E) : result E unit :=
  if c then Err e else Ok tt.

Lemma guard_err_Ok {E} c (e : E) u : guard_err c e = Ok u <-> c = false.
Proof. destruct c, u; cbn; naive_solver. Qed.

(** A [for] loop whose body may return early with an error. *)
Fixpoint for_each_ok {E A} (f : A -> result E unit) (l : list A) : result E unit :=
  match l with
  | [] => Ok tt
  | x :: l => _ ← f x; for_each_ok f l
  end.

Lemma for_each_ok_Ok {E A} (f : A -> result E unit) l u :
  for_each_ok f l = Ok u <-> Forall (fun x => f x = Ok tt) l.
Proof.
  destruct u. induction l as [|x l IH]; cbn.
  - split; [constructor | done].
  - rewrite Forall_cons, <- IH. destruct (f x) as [[]|]; cbn; split; [done | by intros [] | done | by intros [[=] _]].
Qed.

(** * The state monad of stateful code *)

(** A computation that reads and changes a state. *)
Definition M (S A : Type) : Type := S -> A * S.

#[export] Instance M_ret S : MRet (M S) := fun _ a s => (a, s).
#[export] Instance M_bind S : MBind (M S) :=
  fun _ _ f m s => let '(a, s') := m s in f a s'.
#[export] Instance M_fmap S : FMap (M S) :=
  fun _ _ f m s => let '(a, s') := m s in (f a, s').

Definition get_state {S} : M S S := fun s => (s, s).
Definition modify {S} (f : S -> S) : M S unit := fun s => (tt, f s).

(** [try_m m f]: the [?] of a fallible step inside stateful code. *)
Definition try_m {S E A B} (m : M S (result E A)) (f : A -> M S (result E B)) :
  M S (result E B) :=
  r ← m; match r with Ok a => f a | Err e => mret (Err e) end.

Declare Scope lb_scope.
Delimit Scope lb_scope with lb.
#[global] Open Scope lb_scope.
Notation "x '<?-' m ';' k" := (try_m m (fun x => k))
  (at level 100, m at next level, right associativity) : lb_scope.

(** A Hoare triple for stateful code: total, since [M] is. *)
Definition triple {S A} (P : S -> Prop) (m : M S A) (Q : A -> S -> Prop) : Prop :=
  forall s, P s -> Q (fst (m s)) (snd (m s)).

Section triples.
Context {S : Type}.

Lemma triple_ret {A} (a : A) (Q : A -> S -> Prop) : triple (Q a) (mret a) Q.
Proof. intros s Hs. exact Hs. Qed.

Lemma triple_bind {A B} P (m : M S A) (f : A -> M S B) Q R :
  triple P m Q -> (forall a, triple (Q a) (f a) R) -> triple P (m ≫= f) R.
Proof.
  intros Hm Hf s Hs. specialize (Hm s Hs). unfold mbind, M_bind.
  destruct (m s) as [a s'] eqn:E; cbn in *. by apply Hf.
Qed.

Lemma triple_weaken {A} (P P' : S -> Prop) (m : M S A) (Q Q' : A -> S -> Prop) :
  triple P' m Q' -> (forall s, P s -> P' s) -> (forall a s, Q' a s -> Q a s) ->
  triple P m Q.
Proof. intros Hm HP HQ s Hs. apply HQ, Hm, HP, Hs. Qed.

Lemma triple_modify (f : S -> S) (P : S -> Prop) (Q : unit -> S -> Prop) :
  (forall s, P s -> Q tt (f s)) -> triple P (modify f) Q.
Proof. intros H s Hs. exact (H s Hs). Qed.

Lemma triple_get (P : S -> Prop) : triple P get_state (fun s s' => s = s' /\ P s).
Proof. intros s Hs. split; [done | exact Hs]. Qed.

Lemma triple_try {E A B} P (m : M S (result E A)) (f : A -> M S (result E B)) Q R :
  triple P m Q ->
  (forall a, triple (Q (Ok a)) (f a) R) ->
  (forall e s, Q (Err e) s -> R (Err e) s) ->
  triple P (try_m m f) R.
Proof.
  intros Hm Hf He. eapply triple_bind; [exact Hm|]. intros [a|e]; [apply Hf|].
  intros s Hs. cbn. by apply He.
Qed.
End triples.

(** * Machine integers

    A [u8], [u32], [u64], [i64] or [usize] is the [Z] it denotes. The
    program is built with [cargo build --release] and no profile of its
    own, so a plain [+] on a machine integer wraps; [saturating_*] and
    [min] are written out. A [usize] has 64 bits. *)

Definition u16_max : Z := 65535.
Definition u32_max : Z := 4294967295.
Definition u64_max : Z := 18446744073709551615.
Definition i64_max : Z := 9223372036854775807.
Definition i64_min : Z := -9223372036854775808.

Definition add_u64 (a b : Z) : Z := (a + b) mod (u64_max + 1).
Definition sat_sub (a b : Z) : Z := Z.max 0 (a - b).
Definition sat_add_u64 (a b : Z) : Z := Z.min u64_max (a + b).
Definition sat_add_i64 (a b : Z) : Z := Z.min i64_max (a + b).
Definition sat_sub_i64 (a b : Z) : Z := Z.max i64_min (a - b).

Definition is_u64 (a : Z) : Prop := 0 <= a <= u64_max.
Definition is_u32 (a : Z) : Prop := 0 <= a <= u32_max.
#[export] Instance is_u64_dec a : Decision (is_u64 a).
Proof. unfold is_u64. apply _. Defined.
#[export] Instance is_u32_dec a : Decision (is_u32 a).
Proof. unfold is_u32. apply _. Defined.

Ltac machine_unfold :=
  unfold is_u64, is_u32, add_u64, sat_sub, sat_add_u64, sat_add_i64, sat_sub_i64,
    u16_max, u32_max, u64_max, i64_max, i64_min in *.

(** Linear arithmetic with divisions by constants. *)
Ltac zdiv := cbn in *; Z.to_euclidean_division_equations; lia.

Lemma add_u64_small a b : 0 <= a + b <= u64_max -> add_u64 a b = a + b.
Proof. intros H. unfold add_u64. apply Z.mod_small. machine_unfold. lia. Qed.

Lemma add_u64_range a b : is_u64 (add_u64 a b).
Proof.
  machine_unfold.
  pose proof (Z.mod_pos_bound (a + b) (18446744073709551615 + 1)). lia.
Qed.

(** Time. An [Instant] is its reading of the monotonic clock and a
    [Duration] its length, both in nanoseconds. *)
Definition NANOS : Z := 1000000000.
Definition MILLIS : Z := 1000000.
Definition duration_max : Z := u64_max * NANOS + (NANOS - 1).
Definition as_secs (d : Z) : Z := d / NANOS.
Definition subsec_nanos (d : Z) : Z := d mod NANOS.
Definition as_millis (d : Z) : Z := d / MILLIS.
Definition from_secs (s : Z) : Z := s * NANOS.
(** [Instant::elapsed] and [saturating_duration_since]. *)
Definition since (later earlier : Z) : Z := Z.max 0 (later - earlier).

(** * Bytes and text *)

Abbreviation Bytes := (list Byte.byte) (only parsing).

#[export] Instance byte_eq_dec : EqDecision Byte.byte := Byte.byte_eq_dec.

Definition b (s : string) : Bytes := String.list_byte_of_string s.

Definition byte_in (lo hi : N) (c : Byte.byte) : bool :=
  (N.leb lo (Byte.to_N c) && N.leb (Byte.to_N c) hi)%bool.

(** [u8::to_ascii_lowercase], [is_ascii_whitespace], [is_ascii_digit]. *)
Definition to_ascii_lowercase (c : Byte.byte) : Byte.byte :=
  if byte_in 65 90 c
  then default c (Byte.of_N (Byte.to_N c + 32))
  else c.
Definition is_ascii_whitespace (c : Byte.byte) : bool :=
  bool_decide (c ∈ [x09; x0a; x0c; x0d; x20]).
Definition is_ascii_digit (c : Byte.byte) : bool := byte_in 48 57 c.
Definition is_ascii_lower (c : Byte.byte) : bool := byte_in 97 122 c.

(** [[u8]::eq_ignore_ascii_case]. *)
Definition eq_ignore_ascii_case (x y : Bytes) : bool :=
  bool_decide (to_ascii_lowercase <$> x = to_ascii_lowercase <$> y).

Lemma to_ascii_lowercase_idem c :
  to_ascii_lowercase (to_ascii_lowercase c) = to_ascii_lowercase c.
Proof. by destruct c; vm_compute. Qed.

(** The value of a digit, [char::to_digit]. *)
Definition digit_value (radix : Z) (c : ascii) : option Z :=
  let n := Z.of_N (N_of_ascii c) in
  let v := if Z.leb 48 n && Z.leb n 57 then n - 48
           else if Z.leb 97 n && Z.leb n 122 then n - 87
           else if Z.leb 65 n && Z.leb n 90 then n - 55
           else radix in
  if Z.ltb v radix then Some v else None.

Fixpoint parse_digits (max radix acc : Z) (s : string) : option Z :=
  match s with
  | EmptyString => Some acc
  | String c s =>
      match digit_value radix c with
      | Some d => let acc := acc * radix + d in
                  if Z.ltb max acc then None else parse_digits max radix acc s
      | None => None
      end
  end.

(** [u64::from_str_radix] and [str::parse], which are one function: an
    optional plus sign, at least one digit, nothing else, no overflow. *)
Definition from_str_radix (max radix : Z) (s : string) : option Z :=
  match s with
  | EmptyString => None
  | String "+" EmptyString => None
  | String "+" s => parse_digits max radix 0 s
  | _ => parse_digits max radix 0 s
  end.

(** Whether a byte starts a character of UTF-8. *)
Definition starts_character (c : ascii) : bool :=
  let n := N_of_ascii c in N.ltb n 128 || N.leb 192 n.

(** [str::strip_prefix]. *)
Fixpoint strip_prefix (pre s : string) : option string :=
  match pre, s with
  | EmptyString, _ => Some s
  | String c pre, String d s => if Ascii.eqb c d then strip_prefix pre s else None
  | _, _ => None
  end.

Lemma strip_prefix_Some pre s t : strip_prefix pre s = Some t <-> s = (pre ++ t)%string.
Proof.
  revert s. induction pre as [|c pre IH]; intros s; cbn.
  - split; [by intros [= ->] | by intros ->].
  - destruct s as [|d s]; [done|]. destruct (Ascii.eqb_spec c d) as [->|Hne].
    + rewrite IH. split; [by intros -> | by intros [= ->]].
    + split; [done|]. intros [= <- _]. done.
Qed.

(** The decimal form of an unsigned integer. *)
Definition decimal (n : Z) : string := pretty (Z.to_N n).

(** [format!("{n:#x}")] of an unsigned integer. *)
Definition hex_digit (d : Z) : ascii :=
  ascii_of_N (Z.to_N (if Z.ltb d 10 then 48 + d else 87 + d)).
Fixpoint hex_digits (fuel : nat) (n : Z) (acc : string) : string :=
  match fuel with
  | O => acc
  | S fuel =>
      let acc := String (hex_digit (n mod 16)) acc in
      if Z.eqb (n / 16) 0 then acc else hex_digits fuel (n / 16) acc
  end.
Definition hex_u64 (n : Z) : string := ("0x" ++ hex_digits 16 n "")%string.

(** A decidable property of the first numbers, shown by evaluating it. *)
Lemma below_by_eval (bound : nat) (P : N -> Prop) `{forall d, Decision (P d)} :
  forallb (fun d => bool_decide (P (N.of_nat d))) (seq 0 bound) = true ->
  forall d, (d < N.of_nat bound)%N -> P d.
Proof.
  intros Hall d Hd. rewrite forallb_forall in Hall. apply (bool_decide_eq_true_1 (P d)).
  specialize (Hall (N.to_nat d)). rewrite N2Nat.id in Hall. apply Hall, in_seq. lia.
Qed.

Ltac below bound P := apply (below_by_eval bound P); [by vm_compute | lia].

Lemma digit_value_pretty n :
  (n < 10)%N -> digit_value 10 (pretty_N_char n) = Some (Z.of_N n).
Proof.
  intros Hn. below 10%nat (fun n => digit_value 10 (pretty_N_char n) = Some (Z.of_N n)).
Qed.

Lemma from_str_radix_no_plus max radix c t :
  c <> "+"%char -> from_str_radix max radix (String c t) = parse_digits max radix 0 (String c t).
Proof. intros Hc. destruct c as [[] [] [] [] [] [] [] []]; try reflexivity. by destruct Hc. Qed.

Lemma parse_pretty_go max (n : N) s :
  0 <= max -> Z.of_N n <= max ->
  parse_digits max 10 0 (pretty_N_go n s) = parse_digits max 10 (Z.of_N n) s.
Proof.
  intros Hm. revert s. induction (N.lt_wf_0 n) as [n _ IH]; intros s Hn.
  destruct (decide (n = 0)%N) as [->|Hpos]; [by rewrite pretty_N_go_0|].
  rewrite pretty_N_go_step by lia.
  rewrite IH; [|apply N.div_lt; lia | rewrite N2Z.inj_div; zdiv].
  cbn [parse_digits]. rewrite digit_value_pretty by (apply N.mod_lt; lia).
  assert (Z.of_N (n / 10) * 10 + Z.of_N (n mod 10) = Z.of_N n) as ->.
  { rewrite N2Z.inj_div, N2Z.inj_mod. zdiv. }
  by rewrite (proj2 (Z.ltb_ge _ _) Hn).
Qed.

Lemma pretty_N_go_head n s :
  (0 < n)%N -> exists d t, (d < 10)%N /\ pretty_N_go n s = String (pretty_N_char d) t.
Proof.
  revert s. induction (N.lt_wf_0 n) as [n _ IH]; intros s Hn.
  rewrite pretty_N_go_step by lia.
  destruct (decide (n / 10 = 0)%N) as [E|Hne].
  - rewrite E, pretty_N_go_0. exists (n mod 10)%N, s. split; [apply N.mod_lt; lia|done].
  - apply IH; [apply N.div_lt; lia | by apply N.neq_0_lt_0].
Qed.

(** Reading a decimal form back. *)
Lemma from_str_radix_decimal max n :
  0 <= n <= max -> from_str_radix max 10 (decimal n) = Some n.
Proof.
  intros Hn. unfold decimal. destruct (decide (n = 0)) as [->|Hne].
  { change (from_str_radix max 10 _) with (if Z.ltb max 0 then None else Some 0).
    by rewrite (proj2 (Z.ltb_ge _ _)) by lia. }
  assert (pretty (Z.to_N n) = pretty_N_go (Z.to_N n) "") as ->.
  { unfold pretty, pretty_N. rewrite decide_False by lia. done. }
  destruct (pretty_N_go_head (Z.to_N n) "" ltac:(lia)) as (d & t & Hd & E).
  rewrite E, from_str_radix_no_plus by (below 10%nat (fun d => pretty_N_char d <> "+"%char)).
  rewrite <- E.
  rewrite parse_pretty_go by lia. cbn. f_equal. lia.
Qed.

(** * Sorting

    [slice::sort_by_key] is stable: equal keys keep their order. *)
Section sort_by.
Context {A : Type} (leb : A -> A -> bool).

Fixpoint insert_by (x : A) (l : list A) : list A :=
  match l with
  | [] => [x]
  | y :: l' => if leb x y then x :: l else y :: insert_by x l'
  end.

Definition sort_by (l : list A) : list A := foldr insert_by [] l.

Lemma insert_by_perm x l : insert_by x l ≡ₚ x :: l.
Proof.
  induction l as [|y l IH]; cbn; [done|]. destruct (leb x y); [done|].
  rewrite IH. constructor.
Qed.

Lemma sort_by_perm l : sort_by l ≡ₚ l.
Proof.
  induction l as [|x l IH]; [done|]. cbn. rewrite insert_by_perm.
  by constructor.
Qed.

Lemma elem_of_sort_by x l : x ∈ sort_by l <-> x ∈ l.
Proof. by rewrite sort_by_perm. Qed.

Context (leb_total : forall x y, leb x y = true \/ leb y x = true)
        (leb_trans : forall x y z, leb x y = true -> leb y z = true -> leb x z = true).

Lemma insert_by_sorted x l :
  StronglySorted (fun x y => leb x y = true) l ->
  StronglySorted (fun x y => leb x y = true) (insert_by x l).
Proof using leb_total leb_trans.
  induction 1 as [|y l Hl IH Hy]; cbn; [by repeat constructor|].
  destruct (leb x y) eqn:E.
  - constructor; [by constructor|]. constructor; [done|].
    eapply Forall_impl; [exact Hy|]. intros z Hz. by eapply leb_trans.
  - constructor; [done|]. rewrite insert_by_perm. constructor; [|done].
    destruct (leb_total x y); congruence.
Qed.

Lemma sort_by_sorted l : StronglySorted (fun x y => leb x y = true) (sort_by l).
Proof using leb_total leb_trans.
  induction l; cbn; [constructor | by apply insert_by_sorted].
Qed.
End sort_by.

(** The order [(created_at, key)] records are read in, oldest first. *)
Definition pair_leb (x y : Z * Z) : bool :=
  (Z.ltb x.1 y.1 || (Z.eqb x.1 y.1 && Z.leb x.2 y.2))%bool.

Lemma pair_leb_total x y : pair_leb x y = true \/ pair_leb y x = true.
Proof. unfold pair_leb. destruct x, y; cbn. lia. Qed.

Lemma pair_leb_trans x y z :
  pair_leb x y = true -> pair_leb y z = true -> pair_leb x z = true.
Proof. unfold pair_leb. destruct x, y, z; cbn. lia. Qed.

(** * Lists *)

Lemma find_first {A} (f : A -> bool) l x :
  List.find f l = Some x <->
  exists l1 l2, l = l1 ++ x :: l2 /\ f x = true /\ Forall (fun y => f y = false) l1.
Proof.
  induction l as [|y l IH]; cbn.
  - split; [done|]. intros (l1 & l2 & H & _). by destruct l1.
  - destruct (f y) eqn:E.
    + split.
      * intros [= ->]. exists [], l. by repeat split.
      * intros (l1 & l2 & H & Hx & Hl). destruct l1 as [|z l1]; cbn in H; simplify_eq.
        { done. } apply Forall_cons in Hl as [? _]. congruence.
    + rewrite IH. split.
      * intros (l1 & l2 & -> & Hx & Hl). exists (y :: l1), l2. by repeat constructor.
      * intros ([|z l1] & l2 & H & Hx & Hl); injection H as -> ->; [congruence|].
        exists l1, l2. apply Forall_cons in Hl as [_ ?]. by repeat split.
Qed.

Lemma find_is_Some {A} (f : A -> bool) l :
  is_Some (List.find f l) <-> Exists (fun x => f x = true) l.
Proof.
  rewrite Exists_exists. split.
  - intros [x Hx]. apply List.find_some in Hx as [? ?]. exists x.
    by rewrite list_elem_of_In.
  - intros (x & Hx & Hf). destruct (List.find f l) eqn:E; [done|].
    apply list_elem_of_In in Hx. eapply List.find_none in E; [|done]. congruence.
Qed.

(** [slice::windows]. *)
Fixpoint windows {A} (n : nat) (l : list A) : list (list A) :=
  if Nat.ltb (length l) n then []
  else match l with
       | [] => [[]]
       | _ :: l' => take n l :: windows n l'
       end.

Fixpoint sum_Z (l : list Z) : Z :=
  match l with [] => 0 | x :: l => x + sum_Z l end.

Lemma sum_Z_app l1 l2 : sum_Z (l1 ++ l2) = sum_Z l1 + sum_Z l2.
Proof. induction l1; cbn; lia. Qed.

#[export] Instance sum_Z_perm : Proper ((≡ₚ) ==> (=)) sum_Z.
Proof. induction 1; cbn; lia. Qed.

Lemma sum_Z_nonneg l : Forall (fun x => 0 <= x) l -> 0 <= sum_Z l.
Proof. induction 1; cbn; lia. Qed.

(** * Automation *)

Create HintDb lb discriminated.
#[export] Hint Resolve insert_by_perm sort_by_perm pair_leb_total pair_leb_trans
  add_u64_range : lb.

(** Splits the tests of a goal one after another. *)
Ltac split_tests :=
  repeat match goal with
         | |- context [if ?c then _ else _] => destruct c eqn:?
         | H : context [if ?c then _ else _] |- _ => destruct c eqn:?
         end.
