(* ===== verification/External.v ===== *)
(** What the program takes from code outside its repository, as
    interfaces: the URL parser, the hexadecimal forms of addresses and
    keys, the JSON text format, and the data type [serde_json::Value]
    that code builds and takes apart. Each class states only documented
    behaviour; the concrete instances at the end exist for the witnesses. *)

From S2P Require Import Prelude.

#[local] Open Scope Z_scope.

(** * Addresses and entity keys ([alloy_primitives])

    An [Address] and a [B256] are fixed-length byte strings, compared
    bytewise: the big-endian integers they spell. *)

Abbreviation Address := Z (only parsing).
Abbreviation EntityKey := Z (only parsing).
Definition ENTITY_KEY_ZERO : EntityKey := 0.

Definition is_address (a : Address) : Prop := 0 <= a < 2 ^ 160.
Definition is_key (k : EntityKey) : Prop := 0 <= k < 2 ^ 256.
Definition is_u256 (w : Z) : Prop := 0 <= w < 2 ^ 256.
#[export] Instance is_u256_dec w : Decision (is_u256 w).
Proof. unfold is_u256. apply _. Defined.
#[export] Instance is_address_dec a : Decision (is_address a).
Proof. unfold is_address. apply _. Defined.
#[export] Instance is_key_dec a : Decision (is_key a).
Proof. unfold is_key. apply _. Defined.

(** * URLs and bodies ([url], [reqwest])

    A parsed URL is its serialization. *)
Abbreviation Url := string (only parsing).

Class UrlLib := {
  url_parse : string -> option Url;
  url_scheme : Url -> string;
  url_join : Url -> string -> Url;
  (** [Response::text]: the body decoded, what is not text replaced. *)
  decode_text : Bytes -> string;
}.

(** * JSON values ([serde_json])

    An object keeps its fields in the order they were written or read.
    A number is an unsigned integer, a negative one, or anything else,
    kept as its text. *)
Inductive Number : Type :=
| NPos (n : Z)
| NNeg (n : Z)
| NFloat (text : string).

#[warnings="-register-all"]
Inductive Value : Type :=
| Null
| Bool (v : bool)
| Num (n : Number)
| Str (s : string)
| Array (items : list Value)
| Object (fields : list (string * Value)).

(** Induction that reaches into arrays and objects. *)
Section value_ind.
Context (P : Value -> Prop)
  (Hnull : P Null) (Hbool : forall v, P (Bool v)) (Hnum : forall n, P (Num n))
  (Hstr : forall s, P (Str s)) (Harr : forall l, Forall P l -> P (Array l))
  (Hobj : forall l, Forall (fun f => P f.2) l -> P (Object l)).

Fixpoint value_ind' (v : Value) : P v :=
  match v with
  | Null => Hnull
  | Bool x => Hbool x
  | Num n => Hnum n
  | Str s => Hstr s
  | Array l => Harr l ((fix go l := match l return Forall P l with
      | [] => Forall_nil_2 _
      | x :: l => Forall_cons_2 _ _ _ (value_ind' x) (go l) end) l)
  | Object l => Hobj l ((fix go l := match l return Forall (fun f => P f.2) l with
      | [] => Forall_nil_2 _
      | x :: l => Forall_cons_2 _ _ _ (value_ind' x.2) (go l) end) l)
  end.
End value_ind.

#[export] Instance number_eq_dec : EqDecision Number.
Proof. solve_decision. Defined.

#[export] Instance value_eq_dec : EqDecision Value.
Proof.
  hnf. fix go 1. intros v w. pose proof (go : EqDecision Value) as Hgo.
  unfold Decision. decide equality; apply (decide (_ = _)).
Defined.

(** The accessors of a value the code uses. A repeated field's last
    occurrence is the one a map keeps. *)
Definition value_get (key : string) (v : Value) : option Value :=
  match v with
  | Object fields => snd <$> List.find (fun f => bool_decide (f.1 = key)) (rev fields)
  | _ => None
  end.
Definition as_str (v : Value) : option string :=
  match v with Str s => Some s | _ => None end.
Definition as_u64 (v : Value) : option Z :=
  match v with Num (NPos n) => Some n | _ => None end.
Definition as_i64 (v : Value) : option Z :=
  match v with
  | Num (NPos n) => if Z.leb n i64_max then Some n else None
  | Num (NNeg n) => Some n
  | _ => None
  end.
Definition is_object (v : Value) : bool := match v with Object _ => true | _ => false end.
Definition is_array (v : Value) : bool := match v with Array _ => true | _ => false end.

(** ** Indexing

    Reading what is not there is [Null]. Writing makes the place: a
    missing field is added, [Null] becomes an object; on any other value
    the indexing panics. *)
Definition index (key : string) (v : Value) : Value := default Null (value_get key v).
Definition index_at (i : nat) (v : Value) : Value :=
  match v with Array items => default Null (items !! i) | _ => Null end.

Definition has_field (key : string) (fields : list (string * Value)) : bool :=
  existsb (fun f => bool_decide (f.1 = key)) fields.

Definition set_fields (key : string) (x : Value) (fields : list (string * Value)) :
    list (string * Value) :=
  if has_field key fields
  then (fun f => if bool_decide (f.1 = key) then (f.1, x) else f) <$> fields
  else fields ++ [(key, x)].

(** [v[key] = x]; [None] is the panic. *)
Definition set_index (key : string) (x : Value) (v : Value) : option Value :=
  match v with
  | Object fields => Some (Object (set_fields key x fields))
  | Null => Some (Object [(key, x)])
  | _ => None
  end.

(** [&mut v[key]]: what is there, and the value with the place made. *)
Definition index_mut (key : string) (v : Value) : option (Value * Value) :=
  v' ← set_index key (index key v) v; Some (index key v, v').

(** [value == text]. *)
Definition is_text (v : Value) (s : string) : bool := bool_decide (v = Str s).

(** Documents that survive a trip through their text: no floating-point
    number, every integer in range. *)
Fixpoint plain (v : Value) : bool :=
  match v with
  | Null | Bool _ | Str _ => true
  | Num (NPos n) => (Z.leb 0 n && Z.leb n u64_max)%bool
  | Num (NNeg n) => (Z.leb i64_min n && Z.ltb n 0)%bool
  | Num (NFloat _) => false
  | Array l => forallb plain l
  | Object l => forallb (fun f => plain f.2) l
  end.

(** The [{:#x}] forms and [FromStr]; a 256-bit integer's decimal form and
    [from_str_radix]; the hexadecimal form of bytes; a key's own JSON form. *)
Class Alloy := {
  addr_hex : Address -> string;
  key_hex : EntityKey -> string;
  addr_parse : string -> option Address;
  key_parse : string -> option EntityKey;
  u256_to_string : Z -> string;
  u256_from_str10 : string -> option Z;
  bytes_hex : Bytes -> string;
  bytes_parse : string -> option Bytes;
  key_to_json : EntityKey -> Value;
  key_from_json : Value -> option EntityKey;
  addr_from_json : Value -> option Address;
  (** The node's [U256], a hex quantity. *)
  u256_from_json : Value -> option Z;
  addr_parse_hex : forall a, is_address a -> addr_parse (addr_hex a) = Some a;
  key_parse_hex : forall k, is_key k -> key_parse (key_hex k) = Some k;
  addr_parse_range : forall s a, addr_parse s = Some a -> is_address a;
  key_parse_range : forall s k, key_parse s = Some k -> is_key k;
  u256_round_trip : forall w, is_u256 w -> u256_from_str10 (u256_to_string w) = Some w;
  (** [{:#x}] is of one length. *)
  addr_hex_length : forall a, String.length (addr_hex a) = 42%nat;
  key_hex_length : forall k, String.length (key_hex k) = 66%nat;
  (** Digits alone are read as the number they spell. *)
  u256_digits : forall s, s <> EmptyString ->
    forallb (fun c => bool_decide (is_Some (digit_value 10 c))) (String.list_ascii_of_string s) = true ->
    u256_from_str10 s = parse_digits (2 ^ 256 - 1) 10 0 s;
  bytes_round_trip : forall x, bytes_parse (bytes_hex x) = Some x;
  key_json_plain : forall k, plain (key_to_json k) = true;
  key_json_round_trip : forall k, is_key k -> key_from_json (key_to_json k) = Some k;
}.

Lemma key_hex_inj `{Alloy} k k' : is_key k -> is_key k' -> key_hex k = key_hex k' -> k = k'.
Proof.
  intros Hk Hk' E. apply (f_equal key_parse) in E.
  rewrite !key_parse_hex in E by done. congruence.
Qed.

Lemma addr_hex_inj `{Alloy} a a' :
  is_address a -> is_address a' -> addr_hex a = addr_hex a' -> a = a'.
Proof.
  intros Ha Ha' E. apply (f_equal addr_parse) in E.
  rewrite !addr_parse_hex in E by done. congruence.
Qed.

(** The text of a key is read digit by digit: another last digit is
    another key, as well formed. *)
Class HexDigits `{Alloy} : Prop := {
  key_last_digit : forall head c d k,
    key_from_json (Str (head ++ String c "")%string) = Some k -> is_Some (digit_value 16 d) ->
    exists k', key_from_json (Str (head ++ String d "")%string) = Some k' /\
      (digit_value 16 d <> digit_value 16 c -> k' <> k);
}.

(** [alloy_primitives::keccak256]. *)
Class Keccak := { keccak256 : Bytes -> EntityKey }.

(** [serde_json::to_vec] and [from_slice]. A JSON text's first byte that
    is not white space says what it is. *)
Class SerdeJson := {
  to_vec : Value -> Bytes;
  from_slice : Bytes -> option Value;
  (** The text of the error, by the type that was read. *)
  from_slice_error : string -> Bytes -> string;
  (** [Display], and the text of a [from_value] error. *)
  value_text : Value -> string;
  from_value_error : string -> Value -> string;
  from_slice_to_vec : forall v, plain v = true -> from_slice (to_vec v) = Some v;
}.
