(* ===== verification/Concrete.v ===== *)
(** One concrete instance of each interface of [External], which is
    where the theorems' witnesses run: fixed-width hexadecimal, a JSON
    text format that keeps a document's first character and codes the
    rest in bits, and URLs recognised by their scheme. *)

From S2P Require Import Prelude External.

#[local] Open Scope Z_scope.

(** * Fixed-width hexadecimal *)

Fixpoint hex_fixed (width : nat) (v : Z) (acc : string) : string :=
  match width with
  | O => acc
  | S width => hex_fixed width (v / 16) (String (hex_digit (v mod 16)) acc)
  end.

Lemma digit_value_hex_digit d : 0 <= d < 16 -> digit_value 16 (hex_digit d) = Some d.
Proof.
  intros Hd. rewrite <- (Z2N.id d) by lia.
  below 16%nat (fun d => digit_value 16 (hex_digit (Z.of_N d)) = Some (Z.of_N d)).
Qed.

Lemma parse_hex_fixed max width v a acc :
  0 <= a -> 0 <= v < 16 ^ Z.of_nat width -> a * 16 ^ Z.of_nat width + v <= max ->
  parse_digits max 16 a (hex_fixed width v acc) =
    parse_digits max 16 (a * 16 ^ Z.of_nat width + v) acc.
Proof.
  revert v acc. induction width as [|width IH]; intros v acc Ha Hv Hmax; cbn [hex_fixed].
  - f_equal. cbn in *. lia.
  - rewrite Nat2Z.inj_succ, Z.pow_succ_r in * by lia.
    assert (v / 16 < 16 ^ Z.of_nat width) by (apply Z.div_lt_upper_bound; lia).
    assert (0 <= v mod 16 < 16) by (apply Z.mod_pos_bound; lia).
    assert (v = 16 * (v / 16) + v mod 16) as Ev by (apply Z.div_mod; lia).
    assert (0 <= v / 16) by (apply Z.div_pos; lia).
    set (q := 16 ^ Z.of_nat width) in *.
    rewrite IH by nia. cbn [parse_digits]. rewrite digit_value_hex_digit by done.
    rewrite (proj2 (Z.ltb_ge _ _)) by nia. f_equal. nia.
Qed.

Lemma hex_fixed_length width v acc :
  String.length (hex_fixed width v acc) = (width + String.length acc)%nat.
Proof.
  revert v acc. induction width as [|width IH]; intros v acc; cbn; [done|].
  rewrite IH. cbn. lia.
Qed.

Lemma digit_value_nonneg radix c d : 0 < radix -> digit_value radix c = Some d -> 0 <= d.
Proof.
  unfold digit_value. intros Hr. split_tests; intros [= <-]; cbn in *; lia.
Qed.

Lemma digit_value_below radix c d : digit_value radix c = Some d -> d < radix.
Proof. unfold digit_value. cbv zeta. case_match eqn:E; [|done]. intros [= <-]. by apply Z.ltb_lt. Qed.

Lemma parse_digits_range max radix a s v :
  0 < radix -> 0 <= a <= max -> parse_digits max radix a s = Some v -> 0 <= v <= max.
Proof.
  intros Hr. revert a. induction s as [|c s IH]; intros a Ha; cbn.
  - by intros [= <-].
  - destruct (digit_value radix c) as [d|] eqn:Ed; [|done].
    apply digit_value_nonneg in Ed; [|done].
    destruct (Z.ltb_spec max (a * radix + d)); [done|]. apply IH. nia.
Qed.

(** ["0x"] and exactly [width] digits; the prefix may be left out. *)
Definition hex_of (width : nat) (v : Z) : string := ("0x" ++ hex_fixed width v "")%string.
Definition hex_parse (width : nat) (s : string) : option Z :=
  let t := default s (strip_prefix "0x"%string s) in
  if Nat.eqb (String.length t) width
  then parse_digits (16 ^ Z.of_nat width - 1) 16 0 t else None.

Lemma String_length_hex_of width v : String.length (hex_of width v) = S (S width).
Proof.
  change (S (S (String.length (hex_fixed width v ""))) = S (S width)).
  rewrite hex_fixed_length. cbn. by rewrite Nat.add_0_r.
Qed.

Lemma hex_parse_of width v : 0 <= v < 16 ^ Z.of_nat width -> hex_parse width (hex_of width v) = Some v.
Proof.
  intros Hv. unfold hex_parse.
  assert (strip_prefix "0x"%string (hex_of width v) = Some (hex_fixed width v "")) as ->
    by by apply strip_prefix_Some.
  cbn [default from_option id]. rewrite hex_fixed_length. cbn. rewrite Nat.add_0_r, Nat.eqb_refl.
  by rewrite parse_hex_fixed by lia.
Qed.

Lemma hex_parse_range width s v : hex_parse width s = Some v -> 0 <= v < 16 ^ Z.of_nat width.
Proof.
  unfold hex_parse. destruct (Nat.eqb _ _); [|done]. intros Hp.
  apply parse_digits_range in Hp; lia.
Qed.

(** * Bytes *)

Fixpoint bytes_digits (x : Bytes) : string :=
  match x with
  | [] => EmptyString
  | c :: x => String (hex_digit (Z.of_N (Byte.to_N c) / 16))
                (String (hex_digit (Z.of_N (Byte.to_N c) mod 16)) (bytes_digits x))
  end.

Fixpoint parse_bytes (s : string) : option Bytes :=
  match s with
  | EmptyString => Some []
  | String c (String d s) =>
      hi ← digit_value 16 c; lo ← digit_value 16 d;
      x ← Byte.of_N (Z.to_N (hi * 16 + lo));
      rest ← parse_bytes s; Some (x :: rest)
  | _ => None
  end.

Lemma parse_bytes_digits x : parse_bytes (bytes_digits x) = Some x.
Proof.
  induction x as [|c x IH]; [done|].
  assert (parse_bytes (bytes_digits (c :: x)) =
    (rest ← parse_bytes (bytes_digits x); Some (c :: rest))) as -> by by destruct c.
  by rewrite IH.
Qed.

(** The hexadecimal forms are 20 and 32 bytes wide. *)
#[export] Instance concrete_alloy : Alloy.
Proof.
  refine {|
    addr_hex := hex_of 40; key_hex := hex_of 64;
    addr_parse := hex_parse 40; key_parse := hex_parse 64;
    u256_to_string := decimal; u256_from_str10 := from_str_radix (2 ^ 256 - 1) 10;
    bytes_hex x := ("0x" ++ bytes_digits x)%string;
    bytes_parse s := parse_bytes (default s (strip_prefix "0x"%string s));
    key_to_json k := Str (hex_of 64 k); key_from_json v := as_str v ≫= hex_parse 64;
    addr_from_json v := as_str v ≫= hex_parse 40;
    u256_from_json v := (as_str v ≫= strip_prefix "0x"%string) ≫= from_str_radix (2 ^ 256 - 1) 16;
  |}.
  - intros a Ha. by apply hex_parse_of.
  - intros k Hk. by apply hex_parse_of.
  - intros s a. apply hex_parse_range.
  - intros s k. apply hex_parse_range.
  - intros w Hw. apply from_str_radix_decimal. unfold is_u256 in Hw. lia.
  - intros a. by rewrite String_length_hex_of.
  - intros k. by rewrite String_length_hex_of.
  - intros [|c s] Hne Hs; [done|]. cbn in Hs. apply andb_true_iff in Hs as [Hc _].
    apply bool_decide_eq_true in Hc as [d Hd]. apply from_str_radix_no_plus. by intros ->.
  - intros x. assert (strip_prefix "0x"%string ("0x" ++ bytes_digits x)%string =
      Some (bytes_digits x)) as -> by by apply strip_prefix_Some.
    apply parse_bytes_digits.
  - done.
  - intros k Hk. by apply hex_parse_of.
Defined.

#[local] Arguments String.append !_ _ / : simpl nomatch.

Lemma parse_digits_snoc max a t c :
  parse_digits max 16 a (t ++ String c "")%string =
    (v ← parse_digits max 16 a t; d ← digit_value 16 c;
     if Z.ltb max (v * 16 + d) then None else Some (v * 16 + d)).
Proof.
  revert a. induction t as [|e t IH]; intros a; cbn; [by destruct (digit_value 16 c)|].
  destruct (digit_value 16 e) as [x|]; [|done]. case_match; [done|]. apply IH.
Qed.

Lemma string_length_snoc t c : String.length (t ++ String c "")%string = S (String.length t).
Proof. induction t as [|e t IH]; cbn; [done|]. by rewrite IH. Qed.

(** What is read when only the last digit is in question. *)
Lemma hex_parse_snoc width head :
  (2 < width)%nat ->
  exists t, forall c, hex_parse width (head ++ String c "")%string =
    if Nat.eqb (S (String.length t)) width
    then parse_digits (16 ^ Z.of_nat width - 1) 16 0 (t ++ String c "")%string else None.
Proof.
  intros Hw. unfold hex_parse. destruct (strip_prefix "0x" head) as [t|] eqn:E.
  - exists t. intros c. apply strip_prefix_Some in E as ->.
    assert (strip_prefix "0x" ("0x" ++ t ++ String c "")%string = Some (t ++ String c ""))%string
      as E by by apply strip_prefix_Some.
    change (("0x" ++ t) ++ String c "")%string with ("0x" ++ t ++ String c "")%string.
    rewrite E. cbn [default from_option id]. by rewrite string_length_snoc.
  - exists head. intros c. destruct head as [|x [|y head]].
    + assert (strip_prefix "0x" ("" ++ String c "")%string = None) as ->
        by by destruct c as [[] [] [] [] [] [] [] []].
      cbn. by destruct width as [|[|[|]]]; try lia.
    + destruct width as [|[|[|width]]]; try lia. cbn [String.length Nat.eqb].
      cbn [String.append strip_prefix].
      by destruct (Ascii.eqb "0" x); [destruct (Ascii.eqb "x" c)|].
    + assert (strip_prefix "0x" (String x (String y head) ++ String c "")%string = None) as ->.
      { cbn [String.append strip_prefix] in E |- *.
        destruct (Ascii.eqb "0" x); [|done]. by destruct (Ascii.eqb "x" y). }
      cbn [default from_option id]. by rewrite string_length_snoc.
Qed.

#[export] Instance concrete_hex_digits : HexDigits.
Proof.
  split. intros head c d k Hk [y Hy]. cbn in Hk |- *.
  destruct (hex_parse_snoc 64 head) as [t Ht]; [lia|]. rewrite Ht in Hk |- *.
  destruct (Nat.eqb _ 64); [|done]. rewrite parse_digits_snoc in Hk |- *.
  destruct (parse_digits _ 16 0 t) as [v|] eqn:Ev; [|done]. cbn in Hk |- *. rewrite Hy. cbn.
  destruct (digit_value 16 c) as [x|] eqn:Ex; [|done]. cbn in Hk.
  assert (0 <= y < 16 /\ 0 <= x < 16) as [Hy' Hx'].
  { pose proof (digit_value_nonneg 16 d y eq_refl Hy).
    pose proof (digit_value_nonneg 16 c x eq_refl Ex).
    pose proof (digit_value_below 16 d y Hy). pose proof (digit_value_below 16 c x Ex). lia. }
  change (16 ^ Z.of_nat 64 - 1) with (16 * 16 ^ 63 - 1) in Hk |- *. revert Hk.
  generalize (16 ^ 63). intros q Hk.
  destruct (Z.ltb_spec (16 * q - 1) (v * 16 + x)); [done|]. injection Hk as <-.
  rewrite (proj2 (Z.ltb_ge _ _)) by lia. eexists. split; [done|]. intros Hne ?. apply Hne.
  f_equal. lia.
Qed.

(** * JSON text *)

Fixpoint value_tree (v : Value) : gen_tree (bool + Z * bool + string) :=
  match v with
  | Null => GenNode 0 []
  | Bool x => GenLeaf (inl (inl x))
  | Num (NPos n) => GenLeaf (inl (inr (n, true)))
  | Num (NNeg n) => GenLeaf (inl (inr (n, false)))
  | Num (NFloat t) => GenNode 1 [GenLeaf (inr t)]
  | Str s => GenLeaf (inr s)
  | Array l => GenNode 2 (value_tree <$> l)
  | Object l => GenNode 3 ((fun f => GenNode 4 [GenLeaf (inr f.1); value_tree f.2]) <$> l)
  end.

Fixpoint tree_value (t : gen_tree (bool + Z * bool + string)) : Value :=
  match t with
  | GenLeaf (inl (inl x)) => Bool x
  | GenLeaf (inl (inr (n, true))) => Num (NPos n)
  | GenLeaf (inl (inr (n, false))) => Num (NNeg n)
  | GenLeaf (inr s) => Str s
  | GenNode 1 [GenLeaf (inr t)] => Num (NFloat t)
  | GenNode 2 l => Array (tree_value <$> l)
  | GenNode 3 l =>
      Object ((fun t => match t with
                        | GenNode 4 [GenLeaf (inr s); x] => (s, tree_value x)
                        | _ => (EmptyString, Null)
                        end) <$> l)
  | _ => Null
  end.

Lemma tree_value_tree v : tree_value (value_tree v) = v.
Proof.
  induction v as [|x|[n|n|t]|s|l IH|l IH] using value_ind'; try done; cbn; f_equal.
  - induction IH as [|x l Hx Hl IH]; cbn; [done|]. by rewrite Hx, IH.
  - induction IH as [|[s x] l Hx Hl IH]; cbn in *; [done|]. by rewrite Hx, IH.
Qed.

Fixpoint positive_bits (p : positive) : Bytes :=
  match p with xH => [] | xO p => x30 :: positive_bits p | xI p => x31 :: positive_bits p end.
Fixpoint bits_positive (l : Bytes) : option positive :=
  match l with
  | [] => Some xH
  | x30 :: l => xO <$> bits_positive l
  | x31 :: l => xI <$> bits_positive l
  | _ => None
  end.

Lemma bits_positive_bits p : bits_positive (positive_bits p) = Some p.
Proof. induction p as [p IH|p IH|]; cbn; by rewrite ?IH. Qed.

Definition first_byte (v : Value) : Byte.byte :=
  match v with Object _ => x7b | Array _ => x5b | Str _ => x22 | _ => x30 end.

#[export] Instance concrete_serde_json : SerdeJson.
Proof.
  refine {|
    to_vec v := first_byte v :: positive_bits (encode (value_tree v));
    from_slice x :=
      match x with
      | c :: x => t ← bits_positive x ≫= decode;
                  let v := tree_value t in
                  if bool_decide (first_byte v = c) then Some v else None
      | [] => None
      end;
    value_text _ := "{}"%string;
    from_value_error what _ := (what ++ " does not read")%string;
    from_slice_error what _ := (what ++ " does not parse")%string;
  |}.
  intros v _. rewrite bits_positive_bits. cbn. rewrite decode_encode. cbn.
  by rewrite tree_value_tree, bool_decide_true.
Defined.

(** * URLs *)

#[export] Instance concrete_url : UrlLib := {|
  url_parse s := match strip_prefix "http://"%string s, strip_prefix "https://"%string s with
                 | None, None => None
                 | _, _ => Some s
                 end;
  url_scheme u := match strip_prefix "https://"%string u with Some _ => "https" | None => "http" end;
  url_join u s := (u ++ s)%string;
  decode_text := String.string_of_list_byte;
|}.
