(* ===== verification/Denylist.v ===== *)
(** The method denylist, [crates/lb/src/denylist.rs]: a case-insensitive
    substring search over the raw request body. *)

From S2P Require Import Prelude.

(** Method names the endpoint refuses. *)
Definition DENIED : list Bytes :=
  b <$> ["admin_"; "engine_"; "miner_";
         "debug_set"; "debug_verbosity"; "debug_vmodule"; "debug_freezeclient";
         "eth_sendtransaction"; "eth_sign"; "eth_accounts"; "personal_";
         "eth_newfilter"; "eth_newblockfilter"; "eth_newpendingtransactionfilter";
         "eth_getfilterchanges"; "eth_getfilterlogs"; "eth_uninstallfilter";
         "eth_subscribe"; "eth_unsubscribe"]%string.

Definition contains_ignore_case (haystack needle : Bytes) : bool :=
  if Nat.ltb (length haystack) (length needle) then false
  else existsb (fun window => eq_ignore_ascii_case window needle)
         (windows (length needle) haystack).

Definition denied (body : Bytes) : option Bytes :=
  List.find (fun name => contains_ignore_case body name) DENIED.

(** * Lemmas *)

(** [mid] sits somewhere in [l]. *)
Definition occurs {A} (mid l : list A) : Prop := exists pre post, l = pre ++ mid ++ post.

Lemma elem_of_windows {A} n (l w : list A) :
  (0 < n)%nat -> w ∈ windows n l <-> occurs w l /\ length w = n.
Proof.
  intros Hn. unfold occurs. induction l as [|x l IH].
  - cbn [windows length]. rewrite (proj2 (Nat.ltb_lt 0 n)) by done.
    rewrite elem_of_nil. split; [done|]. intros [(pre & post & E) <-].
    symmetry in E. apply app_nil in E as [_ E]. apply app_nil in E as [-> _]. cbn in Hn. lia.
  - cbn [windows]. destruct (Nat.ltb_spec (length (x :: l)) n) as [Hlt|Hge].
    + rewrite elem_of_nil. split; [done|]. intros [(pre & post & E) <-].
      apply (f_equal length) in E. rewrite !length_app in E. lia.
    + rewrite elem_of_cons, IH. split.
      * intros [->|[(pre & post & ->) Hw]].
        { split; [exists [], (drop n (x :: l)); by rewrite app_nil_l, take_drop|].
          rewrite length_take. lia. }
        split; [by exists (x :: pre), post|done].
      * intros [([|y pre] & post & E) <-].
        { left. cbn in E. rewrite E. by rewrite take_app_length. }
        right. injection E as <- ->. split; [by eexists _, _|done].
Qed.

Lemma contains_ignore_case_spec haystack needle :
  needle <> [] ->
  contains_ignore_case haystack needle = true <->
  exists mid, occurs mid haystack /\
    to_ascii_lowercase <$> mid = to_ascii_lowercase <$> needle.
Proof.
  intros Hne. unfold contains_ignore_case, eq_ignore_ascii_case.
  assert (0 < length needle)%nat as Hpos by (destruct needle; [done|cbn; lia]).
  assert (forall mid, to_ascii_lowercase <$> mid = to_ascii_lowercase <$> needle ->
    length mid = length needle) as Hlen.
  { intros mid E. apply (f_equal length) in E. by rewrite !length_fmap in E. }
  destruct (Nat.ltb_spec (length haystack) (length needle)) as [Hlt|Hge].
  - split; [done|]. intros (mid & (pre & post & ->) & E%Hlen).
    rewrite !length_app in Hlt. lia.
  - rewrite existsb_exists. split.
    + intros (w & Hin & Hw%bool_decide_eq_true). apply list_elem_of_In, elem_of_windows in Hin; [|done].
      naive_solver.
    + intros (mid & Ho & E). exists mid. rewrite bool_decide_eq_true.
      split; [|done]. apply list_elem_of_In, elem_of_windows; [done|]. eauto.
Qed.

Lemma denied_nonempty : Forall (fun name => name <> []) DENIED.
Proof. unfold DENIED. repeat (constructor; [done|]). constructor. Qed.

(** The names are lowercase, so a window is compared with the name itself. *)
Lemma denied_lowercase : Forall (fun name => to_ascii_lowercase <$> name = name) DENIED.
Proof. vm_compute. repeat constructor. Qed.

Lemma occurs_lower body mid :
  occurs mid (to_ascii_lowercase <$> body) <->
  exists mid', mid = to_ascii_lowercase <$> mid' /\ occurs mid' body.
Proof.
  unfold occurs. split.
  - intros (pre & post & E). apply fmap_app_inv in E as (pre' & rest & -> & E & ->).
    symmetry in E. apply fmap_app_inv in E as (mid' & post' & -> & -> & ->).
    exists mid'. split; [done|by exists pre', post'].
  - intros (mid' & -> & pre & post & ->). exists (to_ascii_lowercase <$> pre), (to_ascii_lowercase <$> post).
    by rewrite !fmap_app.
Qed.

Lemma find_ext {A} (f g : A -> bool) l :
  Forall (fun x => f x = g x) l -> List.find f l = List.find g l.
Proof. induction 1 as [|x l E _ IH]; cbn; [done|]. by rewrite E, IH. Qed.

(** * Theorems *)

(** What the denylist answers: the first of the refused names that the
    body contains anywhere, in any letter case; none exactly when it
    contains no refused name. *)
Theorem denied_spec body :
  (forall name, denied body = Some name <->
     exists l1 l2, DENIED = l1 ++ name :: l2 /\
       (exists mid, occurs mid body /\ to_ascii_lowercase <$> mid = name) /\
       Forall (fun other => ~ exists mid, occurs mid body /\
                 to_ascii_lowercase <$> mid = other) l1).
Proof.
  intros name. unfold denied. rewrite find_first.
  assert (forall n, n ∈ DENIED -> contains_ignore_case body n = true <->
    exists mid, occurs mid body /\ to_ascii_lowercase <$> mid = n) as Hc.
  { intros n Hn. pose proof denied_nonempty as H1. pose proof denied_lowercase as H2.
    rewrite Forall_forall in H1, H2. rewrite contains_ignore_case_spec by auto.
    by rewrite H2. }
  split; intros (l1 & l2 & E & Hn & Hl); exists l1, l2; split_and!; try done.
  - apply Hc; [rewrite E; set_solver|done].
  - rewrite Forall_forall in *. intros x Hx Hex. specialize (Hl x Hx).
    apply Hc in Hex; [congruence|]. rewrite E. set_solver.
  - apply Hc; [rewrite E; set_solver|done].
  - rewrite Forall_forall in *. intros x Hx. specialize (Hl x Hx) as Hf.
    apply not_true_is_false. intros Ht. apply Hf, Hc; [|done]. rewrite E. set_solver.
Qed.

(** Letter case does not evade the denylist, and neither does whatever
    surrounds a name: a body is judged like its lowercase, and a batch or
    a longer request around a refused one is refused too. *)
Theorem denied_not_evaded body pre post :
  denied (to_ascii_lowercase <$> body) = denied body /\
  (is_Some (denied body) -> is_Some (denied (pre ++ body ++ post))).
Proof.
  unfold denied. split.
  - apply find_ext. pose proof denied_nonempty as H1. rewrite Forall_forall in *.
    intros n Hn. apply eq_true_iff_eq. rewrite !contains_ignore_case_spec by auto.
    split.
    + intros (mid & Ho & E). apply occurs_lower in Ho as (mid' & -> & Ho).
      exists mid'. split; [done|]. rewrite <- E, <- list_fmap_compose.
      apply list_fmap_ext. intros _ c _. symmetry. apply to_ascii_lowercase_idem.
    + intros (mid & Ho & E). exists (to_ascii_lowercase <$> mid).
      split; [apply occurs_lower; eauto|]. rewrite <- E, <- list_fmap_compose.
      apply list_fmap_ext. intros _ c _. apply to_ascii_lowercase_idem.
  - rewrite !find_is_Some. pose proof denied_nonempty as H1. rewrite Forall_forall in H1.
    rewrite !Exists_exists. intros (n & Hn & Hc). exists n. split; [done|].
    rewrite contains_ignore_case_spec in Hc |- * by auto.
    destruct Hc as (mid & (p & q & ->) & E). exists mid. split; [|done].
    exists (pre ++ p), (q ++ post). by rewrite <- !(assoc_L (++)).
Qed.

Lemma denied_not_evaded_witness :
  denied (b "[{}, {method: ADMIN_peers}]") = Some (b "admin_") /\
  is_Some (denied (b "[" ++ b "Admin_" ++ b "]")).
Proof.
  split; [reflexivity|].
  apply (proj2 (denied_not_evaded (b "Admin_") (b "[") (b "]"))). by eexists.
Defined.
