(* ===== verification/Jsonrpc.v ===== *)
(** JSON-RPC error envelopes, [crates/lb/src/jsonrpc.rs]. *)

From S2P Require Import Prelude External.

#[local] Open Scope Z_scope.

Definition METHOD_DENIED : Z := -32050.
Definition NO_HEALTHY_PROVIDER : Z := -32051.
Definition REQUEST_TIMED_OUT : Z := -32052.
Definition RESPONSE_TOO_LARGE : Z := -32053.
Definition REQUEST_TOO_LARGE : Z := -32054.

(** A JSON integer, as [json!] writes an [i32]. *)
Definition json_int (n : Z) : Value := Num (if Z.leb 0 n then NPos n else NNeg n).

Definition error_response (code : Z) (message : string) (id : Value) : Value :=
  Object [("jsonrpc", Str "2.0");
          ("id", id);
          ("error", Object [("code", json_int code);
                            ("message", Str ("lb: " ++ message)%string)])]%string.

Section extract_id.
Context `{SerdeJson}.

(** [from_slice::<Value>(body).ok().and_then(|r| r.get("id").cloned()).unwrap_or(Null)]. *)
Definition extract_id (body : Bytes) : Value :=
  default Null (from_slice body ≫= value_get "id").
End extract_id.
