(* ===== verification/Pool.v ===== *)
(** The provider pool, [crates/lb/src/pool.rs].

    A pool entry is an [Arc<Provider>]: the membership list, the agent's
    memory and a request in flight all hold the same one, and an entry
    someone holds outlives its removal. So the entries live in a store,
    [heap], and everybody else holds their reference [ptr]. Every field
    that changes is an atomic of its own; an operation of [Provider] is
    the sequence of its atomic steps. *)

From S2P Require Import Prelude External.

#[local] Open Scope Z_scope.

(** * Verdicts ([integrity::Verdict]) *)

Inductive Verdict : Type := Match | Stale | Divergence | Unknown.

#[export] Instance verdict_eq_dec : EqDecision Verdict.
Proof. solve_decision. Defined.

Definition verdict_as_str (v : Verdict) : string :=
  match v with
  | Match => "match"
  | Stale => "stale"
  | Divergence => "divergence"
  | Unknown => "unknown"
  end.

Definition encode_verdict (v : Verdict) : Z :=
  match v with Match => 1 | Stale => 2 | Divergence => 3 | Unknown => 4 end.

Definition decode_verdict (code : Z) : option Verdict :=
  if Z.eqb code 1 then Some Match
  else if Z.eqb code 2 then Some Stale
  else if Z.eqb code 3 then Some Divergence
  else if Z.eqb code 4 then Some Unknown
  else None.

(** * The two gates on eligibility *)

Inductive Gate : Type := GateHealth | GateIntegrity.

Definition bit (g : Gate) : Z := match g with GateHealth => 1 | GateIntegrity => 2 end.

Definition ALL_GATES : Z := Z.lor (bit GateHealth) (bit GateIntegrity).

(** * Health signals *)

Inductive HealthSignal : Type := Probe | Traffic | Lag | Chain | Integrity.

#[export] Instance health_signal_eq_dec : EqDecision HealthSignal.
Proof. solve_decision. Defined.

(** The discriminants, [#[repr(u8)]]. *)
Definition signal_code (s : HealthSignal) : Z :=
  match s with Probe => 1 | Traffic => 2 | Lag => 3 | Chain => 4 | Integrity => 5 end.

Definition from_code (code : Z) : option HealthSignal :=
  if Z.eqb code 1 then Some Probe
  else if Z.eqb code 2 then Some Traffic
  else if Z.eqb code 3 then Some Lag
  else if Z.eqb code 4 then Some Chain
  else if Z.eqb code 5 then Some Integrity
  else None.

Definition signal_as_str (s : HealthSignal) : string :=
  match s with
  | Probe => "probe"
  | Traffic => "traffic"
  | Lag => "lag"
  | Chain => "chain"
  | Integrity => "integrity"
  end.

(** * One pool entry *)

Inductive Source : Type :=
| Static
| Marketplace (address : Address) (agreement_id : EntityKey) (port : Z).

#[export] Instance source_eq_dec : EqDecision Source.
Proof. solve_decision. Defined.

Record Provider : Type := mkProvider {
  id : string;
  url : Url;
  source : Source;
  eligibility : Z;
  verdict : Z;
  verdict_height : Z;
  health_streak : Z;
  height : Z;
  chain_verified : bool;
  chain_check_due : bool;
  next_probe : Z;
  unanswered_probe_streak : Z;
  served : Z;
  served_total : Z;
  transport_failures : Z;
  last_health_source : Z;
  last_probe_ms : Z;
  created : Z;
  last_answer_ms : Z;
}.

#[export] Instance provider_eq_dec : EqDecision Provider.
Proof. solve_decision. Defined.

(** Writes to one atomic. *)
Definition store_eligibility (x : Z) (p : Provider) : Provider :=
  {| id := p.(id); url := p.(url); source := p.(source); eligibility := x;
     verdict := p.(verdict); verdict_height := p.(verdict_height);
     health_streak := p.(health_streak); height := p.(height);
     chain_verified := p.(chain_verified); chain_check_due := p.(chain_check_due);
     next_probe := p.(next_probe); unanswered_probe_streak := p.(unanswered_probe_streak);
     served := p.(served); served_total := p.(served_total);
     transport_failures := p.(transport_failures);
     last_health_source := p.(last_health_source); last_probe_ms := p.(last_probe_ms);
     created := p.(created); last_answer_ms := p.(last_answer_ms) |}.
Definition store_verdict (v h : Z) (p : Provider) : Provider :=
  {| id := p.(id); url := p.(url); source := p.(source); eligibility := p.(eligibility);
     verdict := v; verdict_height := h; health_streak := p.(health_streak);
     height := p.(height); chain_verified := p.(chain_verified);
     chain_check_due := p.(chain_check_due); next_probe := p.(next_probe);
     unanswered_probe_streak := p.(unanswered_probe_streak); served := p.(served);
     served_total := p.(served_total); transport_failures := p.(transport_failures);
     last_health_source := p.(last_health_source); last_probe_ms := p.(last_probe_ms);
     created := p.(created); last_answer_ms := p.(last_answer_ms) |}.
Definition store_health_streak (x : Z) (p : Provider) : Provider :=
  {| id := p.(id); url := p.(url); source := p.(source); eligibility := p.(eligibility);
     verdict := p.(verdict); verdict_height := p.(verdict_height); health_streak := x;
     height := p.(height); chain_verified := p.(chain_verified);
     chain_check_due := p.(chain_check_due); next_probe := p.(next_probe);
     unanswered_probe_streak := p.(unanswered_probe_streak); served := p.(served);
     served_total := p.(served_total); transport_failures := p.(transport_failures);
     last_health_source := p.(last_health_source); last_probe_ms := p.(last_probe_ms);
     created := p.(created); last_answer_ms := p.(last_answer_ms) |}.
Definition store_height (x : Z) (p : Provider) : Provider :=
  {| id := p.(id); url := p.(url); source := p.(source); eligibility := p.(eligibility);
     verdict := p.(verdict); verdict_height := p.(verdict_height);
     health_streak := p.(health_streak); height := x;
     chain_verified := p.(chain_verified); chain_check_due := p.(chain_check_due);
     next_probe := p.(next_probe); unanswered_probe_streak := p.(unanswered_probe_streak);
     served := p.(served); served_total := p.(served_total);
     transport_failures := p.(transport_failures);
     last_health_source := p.(last_health_source); last_probe_ms := p.(last_probe_ms);
     created := p.(created); last_answer_ms := p.(last_answer_ms) |}.
Definition store_chain_verified (x : bool) (p : Provider) : Provider :=
  {| id := p.(id); url := p.(url); source := p.(source); eligibility := p.(eligibility);
     verdict := p.(verdict); verdict_height := p.(verdict_height);
     health_streak := p.(health_streak); height := p.(height); chain_verified := x;
     chain_check_due := p.(chain_check_due); next_probe := p.(next_probe);
     unanswered_probe_streak := p.(unanswered_probe_streak); served := p.(served);
     served_total := p.(served_total); transport_failures := p.(transport_failures);
     last_health_source := p.(last_health_source); last_probe_ms := p.(last_probe_ms);
     created := p.(created); last_answer_ms := p.(last_answer_ms) |}.
Definition store_chain_check_due (x : bool) (p : Provider) : Provider :=
  {| id := p.(id); url := p.(url); source := p.(source); eligibility := p.(eligibility);
     verdict := p.(verdict); verdict_height := p.(verdict_height);
     health_streak := p.(health_streak); height := p.(height);
     chain_verified := p.(chain_verified); chain_check_due := x;
     next_probe := p.(next_probe); unanswered_probe_streak := p.(unanswered_probe_streak);
     served := p.(served); served_total := p.(served_total);
     transport_failures := p.(transport_failures);
     last_health_source := p.(last_health_source); last_probe_ms := p.(last_probe_ms);
     created := p.(created); last_answer_ms := p.(last_answer_ms) |}.
Definition store_next_probe (x : Z) (p : Provider) : Provider :=
  {| id := p.(id); url := p.(url); source := p.(source); eligibility := p.(eligibility);
     verdict := p.(verdict); verdict_height := p.(verdict_height);
     health_streak := p.(health_streak); height := p.(height);
     chain_verified := p.(chain_verified); chain_check_due := p.(chain_check_due);
     next_probe := x; unanswered_probe_streak := p.(unanswered_probe_streak);
     served := p.(served); served_total := p.(served_total);
     transport_failures := p.(transport_failures);
     last_health_source := p.(last_health_source); last_probe_ms := p.(last_probe_ms);
     created := p.(created); last_answer_ms := p.(last_answer_ms) |}.
Definition store_unanswered_probe_streak (x : Z) (p : Provider) : Provider :=
  {| id := p.(id); url := p.(url); source := p.(source); eligibility := p.(eligibility);
     verdict := p.(verdict); verdict_height := p.(verdict_height);
     health_streak := p.(health_streak); height := p.(height);
     chain_verified := p.(chain_verified); chain_check_due := p.(chain_check_due);
     next_probe := p.(next_probe); unanswered_probe_streak := x; served := p.(served);
     served_total := p.(served_total); transport_failures := p.(transport_failures);
     last_health_source := p.(last_health_source); last_probe_ms := p.(last_probe_ms);
     created := p.(created); last_answer_ms := p.(last_answer_ms) |}.
Definition store_served (x : Z) (p : Provider) : Provider :=
  {| id := p.(id); url := p.(url); source := p.(source); eligibility := p.(eligibility);
     verdict := p.(verdict); verdict_height := p.(verdict_height);
     health_streak := p.(health_streak); height := p.(height);
     chain_verified := p.(chain_verified); chain_check_due := p.(chain_check_due);
     next_probe := p.(next_probe); unanswered_probe_streak := p.(unanswered_probe_streak);
     served := x; served_total := p.(served_total);
     transport_failures := p.(transport_failures);
     last_health_source := p.(last_health_source); last_probe_ms := p.(last_probe_ms);
     created := p.(created); last_answer_ms := p.(last_answer_ms) |}.
Definition store_served_total (x : Z) (p : Provider) : Provider :=
  {| id := p.(id); url := p.(url); source := p.(source); eligibility := p.(eligibility);
     verdict := p.(verdict); verdict_height := p.(verdict_height);
     health_streak := p.(health_streak); height := p.(height);
     chain_verified := p.(chain_verified); chain_check_due := p.(chain_check_due);
     next_probe := p.(next_probe); unanswered_probe_streak := p.(unanswered_probe_streak);
     served := p.(served); served_total := x;
     transport_failures := p.(transport_failures);
     last_health_source := p.(last_health_source); last_probe_ms := p.(last_probe_ms);
     created := p.(created); last_answer_ms := p.(last_answer_ms) |}.
Definition store_transport_failures (x : Z) (p : Provider) : Provider :=
  {| id := p.(id); url := p.(url); source := p.(source); eligibility := p.(eligibility);
     verdict := p.(verdict); verdict_height := p.(verdict_height);
     health_streak := p.(health_streak); height := p.(height);
     chain_verified := p.(chain_verified); chain_check_due := p.(chain_check_due);
     next_probe := p.(next_probe); unanswered_probe_streak := p.(unanswered_probe_streak);
     served := p.(served); served_total := p.(served_total); transport_failures := x;
     last_health_source := p.(last_health_source); last_probe_ms := p.(last_probe_ms);
     created := p.(created); last_answer_ms := p.(last_answer_ms) |}.
Definition store_last_health_source (x : Z) (p : Provider) : Provider :=
  {| id := p.(id); url := p.(url); source := p.(source); eligibility := p.(eligibility);
     verdict := p.(verdict); verdict_height := p.(verdict_height);
     health_streak := p.(health_streak); height := p.(height);
     chain_verified := p.(chain_verified); chain_check_due := p.(chain_check_due);
     next_probe := p.(next_probe); unanswered_probe_streak := p.(unanswered_probe_streak);
     served := p.(served); served_total := p.(served_total);
     transport_failures := p.(transport_failures); last_health_source := x;
     last_probe_ms := p.(last_probe_ms); created := p.(created);
     last_answer_ms := p.(last_answer_ms) |}.
Definition store_last_probe_ms (x : Z) (p : Provider) : Provider :=
  {| id := p.(id); url := p.(url); source := p.(source); eligibility := p.(eligibility);
     verdict := p.(verdict); verdict_height := p.(verdict_height);
     health_streak := p.(health_streak); height := p.(height);
     chain_verified := p.(chain_verified); chain_check_due := p.(chain_check_due);
     next_probe := p.(next_probe); unanswered_probe_streak := p.(unanswered_probe_streak);
     served := p.(served); served_total := p.(served_total);
     transport_failures := p.(transport_failures);
     last_health_source := p.(last_health_source); last_probe_ms := x;
     created := p.(created); last_answer_ms := p.(last_answer_ms) |}.
Definition store_last_answer_ms (x : Z) (p : Provider) : Provider :=
  {| id := p.(id); url := p.(url); source := p.(source); eligibility := p.(eligibility);
     verdict := p.(verdict); verdict_height := p.(verdict_height);
     health_streak := p.(health_streak); height := p.(height);
     chain_verified := p.(chain_verified); chain_check_due := p.(chain_check_due);
     next_probe := p.(next_probe); unanswered_probe_streak := p.(unanswered_probe_streak);
     served := p.(served); served_total := p.(served_total);
     transport_failures := p.(transport_failures);
     last_health_source := p.(last_health_source); last_probe_ms := p.(last_probe_ms);
     created := p.(created); last_answer_ms := x |}.

Section provider.
Context `{Alloy} `{UrlLib}.

(** A marketplace provider's id in the pool: its address, lowercase. *)
Definition marketplace_id (address : Address) : string := addr_hex address.

(** [InvalidUrl]: the provider and the text that does not parse. *)
Record InvalidUrl : Type := mkInvalidUrl { invalid_id : string; invalid_url : string }.

(** [Provider::new]: born with the health gate shut. *)
Definition provider_new (now : Z) (id : string) (url : Url) (source : Source) : Provider :=
  {| id := id; url := url; source := source;
     eligibility := bit GateIntegrity; verdict := 0; verdict_height := 0;
     health_streak := 0; height := u64_max; chain_verified := false;
     chain_check_due := true; next_probe := now; unanswered_probe_streak := 0;
     served := 0; served_total := 0; transport_failures := 0;
     last_health_source := signal_code Probe; last_probe_ms := u64_max;
     created := now; last_answer_ms := u64_max |}.

Definition from_config (now : Z) (cid curl : string) : result InvalidUrl Provider :=
  u ← ok_or (mkInvalidUrl cid curl) (url_parse curl);
  mret (provider_new now cid u Static).

(** [format!("http://127.0.0.1:{port}")]; that it parses is the
    [expect] of the code. *)
Definition loopback_url (port : Z) : string :=
  ("http://127.0.0.1:" ++ pretty (Z.to_N port))%string.

Definition from_marketplace (now : Z) (address : Address) (agreement_id : EntityKey)
    (port : Z) : Provider :=
  provider_new now (marketplace_id address)
    (default (loopback_url port) (url_parse (loopback_url port)))
    (Marketplace address agreement_id port).
End provider.

(** ** Probes and their schedule *)

Definition schedule_probe_now (now : Z) (p : Provider) : Provider :=
  store_chain_check_due true (store_next_probe now p).

Definition take_chain_check_due (p : Provider) : bool * Provider :=
  (p.(chain_check_due), store_chain_check_due false p).

Definition record_unanswered_probe (p : Provider) : Provider :=
  store_unanswered_probe_streak
    ((p.(unanswered_probe_streak) + 1) mod (u32_max + 1)) p.

(** [created.elapsed().as_millis() as u64]. *)
Definition age_ms (now : Z) (p : Provider) : Z :=
  as_millis (since now p.(created)) mod (u64_max + 1).

Definition record_answer (now : Z) (p : Provider) : Provider :=
  store_last_answer_ms (age_ms now p) p.

Definition record_answered_probe (now : Z) (p : Provider) : Provider :=
  record_answer now (store_unanswered_probe_streak 0 p).

Definition answered_since (p : Provider) (at_ : Z) : bool :=
  if Z.eqb p.(last_answer_ms) u64_max then false
  else Z.leb (as_millis (since at_ p.(created))) p.(last_answer_ms).

(** ** Counters *)

Definition record_served (now : Z) (p : Provider) : Provider :=
  let p := store_served (add_u64 p.(served) 1) p in
  let p := store_served_total (add_u64 p.(served_total) 1) p in
  record_answer now p.

Definition subtract_served (count : Z) (p : Provider) : Provider :=
  store_served (sat_sub p.(served) count) p.

Definition seed_served (count : Z) (p : Provider) : Provider :=
  store_served (add_u64 p.(served) count) p.

Definition record_transport_failure (p : Provider) : Provider :=
  store_transport_failures (add_u64 p.(transport_failures) 1) p.

(** ** Slots where [u64::MAX] means "none yet" *)

Definition record_probe_duration (duration : Z) (p : Provider) : Provider :=
  let millis := as_millis duration in
  store_last_probe_ms (if Z.leb millis u64_max then millis else u64_max - 1) p.

Definition read_last_probe_ms (p : Provider) : option Z :=
  if Z.eqb p.(last_probe_ms) u64_max then None else Some p.(last_probe_ms).

Definition record_height (h : Z) (p : Provider) : Provider :=
  store_height (Z.min h (u64_max - 1)) p.

Definition last_height (p : Provider) : option Z :=
  if Z.eqb p.(height) u64_max then None else Some p.(height).

Definition last_verdict (p : Provider) : option (Verdict * Z) :=
  (fun v => (v, p.(verdict_height))) <$> decode_verdict p.(verdict).

Definition agreement_id_of (p : Provider) : option EntityKey :=
  match p.(source) with Static => None | Marketplace _ a _ => Some a end.

(** ** Eligibility *)

Definition eligible (p : Provider) : bool := Z.eqb p.(eligibility) ALL_GATES.

Definition healthy (p : Provider) : bool :=
  negb (Z.eqb (Z.land p.(eligibility) (bit GateHealth)) 0).

Definition serving_wrong_data (p : Provider) : bool :=
  Z.eqb (Z.land p.(eligibility) (bit GateIntegrity)) 0.

Definition record_health_source (s : HealthSignal) (p : Provider) : Provider :=
  store_last_health_source (signal_code s) p.

Definition ineligibility_reason (p : Provider) : option string :=
  if eligible p then None
  else if negb (healthy p)
  then signal_as_str <$> from_code p.(last_health_source)
  else Some (signal_as_str Integrity).

(** One atomic update of the eligibility byte; answers what [eligible]
    said just before and says just after. [!bit] is on a [u8]. *)
Definition set_eligibility (g : Gate) (value : bool) (p : Provider) :
    (bool * bool) * Provider :=
  let before := p.(eligibility) in
  let after :=
    if value then Z.lor before (bit g) else Z.land before (Z.lxor (bit g) 255) in
  ((Z.eqb before ALL_GATES, Z.eqb after ALL_GATES), store_eligibility after p).

(** The flip that is logged, if any: the new answer and its source. *)
Definition set_eligibility_and_log (g : Gate) (value : bool) (s : HealthSignal)
    (p : Provider) : option (bool * HealthSignal) * Provider :=
  let '((was, now), p) := set_eligibility g value p in
  (if negb (Bool.eqb was now) then Some (now, s) else None, p).

Definition set_health (value : bool) (p : Provider) : Provider :=
  snd (set_eligibility GateHealth value p).

Definition record_integrity (v : Verdict) (h : Z) (p : Provider) : Provider :=
  let p := store_verdict (encode_verdict v) h p in
  match v with
  | Divergence => snd (set_eligibility_and_log GateIntegrity false Integrity p)
  | Match => snd (set_eligibility_and_log GateIntegrity true Integrity p)
  | Stale | Unknown => p
  end.

(** The closure [step] of [record_health]. *)
Definition streak_step (success : bool) (streak : Z) : Z :=
  if success then sat_add_i64 (Z.max streak 0) 1 else sat_sub_i64 (Z.min streak 0) 1.

Definition record_health (success : bool) (flip_after : Z) (s : HealthSignal)
    (p : Provider) : Provider :=
  let p := record_health_source s p in
  let streak := streak_step success p.(health_streak) in
  let p := store_health_streak streak p in
  if Z.leb flip_after streak
  then snd (set_eligibility_and_log GateHealth true s p)
  else if Z.leb streak (- flip_after)
  then snd (set_eligibility_and_log GateHealth false s p)
  else p.

Definition quarantine (s : HealthSignal) (p : Provider) : Provider :=
  let p := store_health_streak 0 p in
  let p := record_health_source s p in
  snd (set_eligibility_and_log GateHealth false s p).

(** * The pool *)

Record LbOutcomes : Type := mkLbOutcomes {
  no_healthy_provider : Z;
  timed_out : Z;
  no_provider_answered : Z;
}.

Definition record_no_healthy_provider (o : LbOutcomes) : LbOutcomes :=
  mkLbOutcomes (add_u64 o.(no_healthy_provider) 1) o.(timed_out) o.(no_provider_answered).
Definition record_timed_out (o : LbOutcomes) : LbOutcomes :=
  mkLbOutcomes o.(no_healthy_provider) (add_u64 o.(timed_out) 1) o.(no_provider_answered).
Definition record_no_provider_answered (o : LbOutcomes) : LbOutcomes :=
  mkLbOutcomes o.(no_healthy_provider) o.(timed_out) (add_u64 o.(no_provider_answered) 1).

Abbreviation ptr := nat (only parsing).

Record Pool : Type := mkPool {
  heap : gmap ptr Provider;
  next_ptr : ptr;
  members : list ptr;
  cursor : Z;
  lb_outcomes : LbOutcomes;
}.

Definition with_heap (h : gmap ptr Provider) (pl : Pool) : Pool :=
  mkPool h pl.(next_ptr) pl.(members) pl.(cursor) pl.(lb_outcomes).
Definition with_cursor (c : Z) (pl : Pool) : Pool :=
  mkPool pl.(heap) pl.(next_ptr) pl.(members) c pl.(lb_outcomes).
Definition with_members (ms : list ptr) (pl : Pool) : Pool :=
  mkPool pl.(heap) pl.(next_ptr) ms pl.(cursor) pl.(lb_outcomes).
Definition with_outcomes (f : LbOutcomes -> LbOutcomes) (pl : Pool) : Pool :=
  mkPool pl.(heap) pl.(next_ptr) pl.(members) pl.(cursor) (f pl.(lb_outcomes)).

(** A change to one entry, through whoever holds it. *)
Definition update (r : ptr) (f : Provider -> Provider) (pl : Pool) : Pool :=
  with_heap (alter f r pl.(heap)) pl.

(** A new [Arc]. *)
Definition alloc (p : Provider) (pl : Pool) : ptr * Pool :=
  (pl.(next_ptr),
   mkPool (<[pl.(next_ptr) := p]> pl.(heap)) (S pl.(next_ptr)) pl.(members) pl.(cursor)
     pl.(lb_outcomes)).

Definition empty_pool : Pool := mkPool ∅ 0%nat [] 0 (mkLbOutcomes 0 0 0).

Definition pool_add (p : Provider) (pl : Pool) : ptr * Pool :=
  let '(r, pl) := alloc p pl in (r, with_members (pl.(members) ++ [r]) pl).

Section pool_new.
Context `{UrlLib}.

(** [Pool::new] over the config's (id, url) pairs. *)
Fixpoint pool_push_all (now : Z) (providers : list (string * string)) (pl : Pool) :
    result InvalidUrl Pool :=
  match providers with
  | [] => mret pl
  | (cid, curl) :: rest =>
      p ← from_config now cid curl;
      pool_push_all now rest (snd (pool_add p pl))
  end.
Definition pool_new (now : Z) (providers : list (string * string)) :
    result InvalidUrl Pool := pool_push_all now providers empty_pool.
End pool_new.

(** What a reference reads; a dangling one cannot be held. *)
Definition entry (pl : Pool) (r : ptr) : option Provider := pl.(heap) !! r.

Definition test_entry (pl : Pool) (f : Provider -> bool) (r : ptr) : bool :=
  match entry pl r with Some p => f p | None => false end.

Definition snapshot (pl : Pool) : list ptr := pl.(members).

Definition has_id (pl : Pool) (i : string) (r : ptr) : bool :=
  test_entry pl (fun p => bool_decide (p.(id) = i)) r.

Definition pool_get (pl : Pool) (i : string) : option ptr :=
  List.find (has_id pl i) pl.(members).

(** [position] and [Vec::remove]: the first member with the id. *)
Fixpoint remove_first (f : ptr -> bool) (l : list ptr) : option ptr * list ptr :=
  match l with
  | [] => (None, [])
  | r :: l => if f r then (Some r, l) else let '(x, l') := remove_first f l in (x, r :: l')
  end.

Definition pool_remove (i : string) (pl : Pool) : option ptr * Pool :=
  let '(r, ms) := remove_first (has_id pl i) pl.(members) in (r, with_members ms pl).

(** [next_eligible]. Other selections advance the cursor between this
    one's samples: before sample [i] the others have taken [others i]
    more. One selection alone is [others := fun _ => 0]. *)
Fixpoint lap (pl : Pool) (len fuel : nat) (others : nat -> Z) (cur : Z) : option ptr * Z :=
  match fuel with
  | O => (None, cur)
  | S fuel =>
      let cur := add_u64 cur (others fuel) in
      let index := cur mod Z.of_nat len in
      let cur := add_u64 cur 1 in
      match pl.(members) !! Z.to_nat index with
      | Some r => if test_entry pl eligible r then (Some r, cur)
                  else lap pl len fuel others cur
      | None => lap pl len fuel others cur
      end
  end.

Definition next_eligible (others : nat -> Z) (pl : Pool) : option ptr * Pool :=
  let len := length pl.(members) in
  if Nat.eqb len 0 then (None, pl)
  else
    let '(found, cur) := lap pl len len others pl.(cursor) in
    (match found with
     | Some r => Some r
     | None => List.find (test_entry pl eligible) pl.(members)
     end, with_cursor cur pl).

(** * What happens to an entry over time

    Every task that holds an entry changes it through the operations
    above; a history is the list of those calls in the order their
    atomic writes took effect. *)

Inductive Event : Type :=
| OnHealth (success : bool) (s : HealthSignal)
| OnQuarantine (s : HealthSignal)
| OnVerdict (v : Verdict) (h : Z)
| OnServed (now : Z)
| OnTransportFailure
| OnUnansweredProbe
| OnAnsweredProbe (now : Z)
| OnHeight (h : Z)
| OnProbeDuration (d : Z)
| OnScheduleProbeNow (now : Z)
| OnTakeChainCheckDue
| OnChainVerified (v : bool)
| OnNextProbe (at_ : Z)
| OnSeed (count : Z)
| OnSubtract (count : Z).

Definition apply_event (flip_after : Z) (e : Event) (p : Provider) : Provider :=
  match e with
  | OnHealth success s => record_health success flip_after s p
  | OnQuarantine s => quarantine s p
  | OnVerdict v h => record_integrity v h p
  | OnServed now => record_served now p
  | OnTransportFailure => record_transport_failure p
  | OnUnansweredProbe => record_unanswered_probe p
  | OnAnsweredProbe now => record_answered_probe now p
  | OnHeight h => record_height h p
  | OnProbeDuration d => record_probe_duration d p
  | OnScheduleProbeNow now => schedule_probe_now now p
  | OnTakeChainCheckDue => snd (take_chain_check_due p)
  | OnChainVerified v => store_chain_verified v p
  | OnNextProbe at_ => store_next_probe at_ p
  | OnSeed count => seed_served count p
  | OnSubtract count => subtract_served count p
  end.

Definition run (flip_after : Z) (tr : list Event) (p : Provider) : Provider :=
  foldl (fun p e => apply_event flip_after e p) p tr.

(** The representation invariant of an entry. *)
Record provider_wf (p : Provider) : Prop := {
  wf_eligibility : 0 <= p.(eligibility) <= ALL_GATES;
  wf_verdict : 0 <= p.(verdict) <= 4;
  wf_streak : i64_min <= p.(health_streak) <= i64_max;
  wf_source : is_Some (from_code p.(last_health_source));
}.

(** The pool's representation: members and memory hold live references. *)
Record pool_wf (pl : Pool) : Prop := {
  wf_fresh : forall r, is_Some (pl.(heap) !! r) -> (r < pl.(next_ptr))%nat;
  wf_members : Forall (fun r => is_Some (pl.(heap) !! r)) pl.(members);
  wf_nodup : NoDup pl.(members);
}.

(** * Lemmas: one entry *)

Ltac provider_unfold :=
  unfold apply_event, record_health, quarantine, record_integrity, record_served,
    record_transport_failure, record_unanswered_probe, record_answered_probe, record_answer,
    record_height, record_probe_duration, schedule_probe_now, take_chain_check_due,
    seed_served, subtract_served, set_eligibility_and_log, set_eligibility,
    record_health_source in *.

(** The four values of the eligibility byte. *)
Lemma eligibility_cases p :
  0 <= p.(eligibility) <= ALL_GATES ->
  p.(eligibility) = 0 \/ p.(eligibility) = 1 \/ p.(eligibility) = 2 \/ p.(eligibility) = 3.
Proof. change ALL_GATES with 3. lia. Qed.

Ltac gate_cases :=
  match goal with
  | H : 0 <= ?e <= ALL_GATES |- _ =>
      let E := fresh "E" in
      assert (e = 0 \/ e = 1 \/ e = 2 \/ e = 3) as E
        by (change ALL_GATES with 3 in H; lia);
      destruct E as [E|[E|[E|E]]]
  end.

Lemma eligible_gates p :
  0 <= p.(eligibility) <= ALL_GATES ->
  eligible p = healthy p && negb (serving_wrong_data p).
Proof.
  intros H. unfold eligible, healthy, serving_wrong_data.
  gate_cases; rewrite E; reflexivity.
Qed.

Lemma set_eligibility_spec g v p :
  0 <= p.(eligibility) <= ALL_GATES ->
  let '((was, now), p') := set_eligibility g v p in
  was = eligible p /\ now = eligible p' /\ 0 <= p'.(eligibility) <= ALL_GATES /\
  healthy p' = (if g is GateHealth then v else healthy p) /\
  serving_wrong_data p' = (if g is GateIntegrity then negb v else serving_wrong_data p).
Proof.
  intros H. unfold set_eligibility, eligible, healthy, serving_wrong_data. cbn.
  gate_cases; rewrite E; destruct g, v; vm_compute; intuition congruence.
Qed.

Lemma set_eligibility_and_log_spec g v s p :
  0 <= p.(eligibility) <= ALL_GATES ->
  let '(logged, p') := set_eligibility_and_log g v s p in
  p' = snd (set_eligibility g v p) /\
  logged = (if Bool.eqb (eligible p) (eligible p') then None else Some (eligible p', s)).
Proof.
  intros H. unfold set_eligibility_and_log.
  pose proof (set_eligibility_spec g v p H) as Hs.
  destruct (set_eligibility g v p) as [[was now] p']. destruct Hs as (-> & -> & _).
  cbn. split; [done|]. by destruct (Bool.eqb _ _).
Qed.

Lemma set_eligibility_fields g v p :
  let p' := snd (set_eligibility g v p) in
  p'.(verdict) = p.(verdict) /\ p'.(health_streak) = p.(health_streak) /\
  p'.(last_health_source) = p.(last_health_source) /\ p'.(served) = p.(served) /\
  p'.(served_total) = p.(served_total).
Proof. by destruct p. Qed.

Lemma from_code_signal s : from_code (signal_code s) = Some s.
Proof. by destruct s. Qed.

Lemma decode_encode_verdict v : decode_verdict (encode_verdict v) = Some v.
Proof. by destruct v. Qed.

Lemma streak_step_range b n : i64_min <= n <= i64_max -> i64_min <= streak_step b n <= i64_max.
Proof. unfold streak_step. machine_unfold. destruct b; lia. Qed.
#[export] Hint Resolve streak_step_range : lb.

(** The three cells rotation depends on, and how an event moves them. *)
Definition health_after (flip_after : Z) (e : Event) (open : bool) (streak : Z) : bool * Z :=
  match e with
  | OnHealth success _ =>
      let k := streak_step success streak in
      (if Z.leb flip_after k then true else if Z.leb k (- flip_after) then false else open, k)
  | OnQuarantine _ => (false, 0)
  | _ => (open, streak)
  end.

Definition wrong_after (e : Event) (wrong : bool) : bool :=
  match e with
  | OnVerdict Match _ => false
  | OnVerdict Divergence _ => true
  | _ => wrong
  end.

Lemma apply_event_view flip_after e p :
  provider_wf p ->
  let p' := apply_event flip_after e p in
  provider_wf p' /\
  (healthy p', p'.(health_streak)) =
    health_after flip_after e (healthy p) p.(health_streak) /\
  serving_wrong_data p' = wrong_after e (serving_wrong_data p).
Proof.
  intros [He Hv Hs Hc].
  assert (forall g v (q : Provider), 0 <= q.(eligibility) <= ALL_GATES ->
    0 <= q.(verdict) <= 4 -> i64_min <= q.(health_streak) <= i64_max ->
    is_Some (from_code q.(last_health_source)) ->
    let q' := snd (set_eligibility g v q) in
    provider_wf q' /\
    healthy q' = (if g is GateHealth then v else healthy q) /\
    serving_wrong_data q' = (if g is GateIntegrity then negb v else serving_wrong_data q) /\
    q'.(health_streak) = q.(health_streak)) as Hset.
  { intros g v q Hq1 Hq2 Hq3 Hq4. pose proof (set_eligibility_spec g v q Hq1) as Hsp.
    destruct (set_eligibility_fields g v q) as (F1 & F2 & F3 & _).
    destruct (set_eligibility g v q) as [[was now] q']; cbn in *.
    destruct Hsp as (_ & _ & ? & ? & ?).
    split_and!; try done. constructor; try done; congruence. }
  assert (forall g v s (q : Provider), 0 <= q.(eligibility) <= ALL_GATES ->
    snd (set_eligibility_and_log g v s q) = snd (set_eligibility g v q)) as Hlog.
  { intros g v s q Hq. pose proof (set_eligibility_and_log_spec g v s q Hq) as Hsp.
    destruct (set_eligibility_and_log g v s q). by destruct Hsp. }
  destruct e as [b' s|s|v h| | | | | | | | | | | |];
    try (split_and!; [by constructor | done | done]).
  - cbn [apply_event]. unfold record_health. cbv zeta.
    change (health_streak (record_health_source s p)) with (health_streak p). set (k := streak_step _ _).
    assert (i64_min <= k <= i64_max) by (apply streak_step_range; done).
    assert (is_Some (from_code (signal_code s))) by (rewrite from_code_signal; done).
    destruct (Z.leb flip_after k) eqn:E1; [|destruct (Z.leb k (- flip_after)) eqn:E2].
    + rewrite Hlog by done. edestruct (Hset GateHealth true) as (? & Eh & Ew & Ek); cycle 4.
      { split_and!; [done | rewrite Eh, Ek; cbn; fold k; by rewrite E1 | rewrite Ew; done]. }
      all: done.
    + rewrite Hlog by done. edestruct (Hset GateHealth false) as (? & Eh & Ew & Ek); cycle 4.
      { split_and!; [done | rewrite Eh, Ek; cbn; fold k; by rewrite E1, E2 | rewrite Ew; done]. }
      all: done.
    + split_and!; [by constructor | cbn; fold k; by rewrite E1, E2 | done].
  - cbn [apply_event]. unfold quarantine. cbv zeta. rewrite Hlog by done.
    edestruct (Hset GateHealth false) as (? & Eh & Ew & Ek); cycle 4.
    { split_and!; [done | rewrite Eh, Ek; done | rewrite Ew; done]. }
    all: try done. cbn. by rewrite from_code_signal.
  - cbn [apply_event]. unfold record_integrity. cbv zeta.
    assert (0 <= encode_verdict v <= 4) by (destruct v; cbn; lia).
    destruct v; try (split_and!; [by constructor | done | done]).
    all: rewrite Hlog by done.
    + edestruct (Hset GateIntegrity true) as (? & Eh & Ew & Ek); cycle 4.
      { split_and!; [done | rewrite Eh, Ek; done | rewrite Ew; done]. } all: done.
    + edestruct (Hset GateIntegrity false) as (? & Eh & Ew & Ek); cycle 4.
      { split_and!; [done | rewrite Eh, Ek; done | rewrite Ew; done]. } all: done.
Qed.

Lemma provider_new_wf now i u s : provider_wf (provider_new now i u s).
Proof. constructor; [split; vm_compute; congruence .. | done]. Qed.
#[export] Hint Resolve provider_new_wf : lb.

Lemma run_app flip_after t1 t2 p :
  run flip_after (t1 ++ t2) p = run flip_after t2 (run flip_after t1 p).
Proof. apply foldl_app. Qed.

Lemma run_wf flip_after tr p : provider_wf p -> provider_wf (run flip_after tr p).
Proof.
  revert p. induction tr as [|e tr IH]; intros p H; [done|].
  cbn. by apply IH, apply_event_view.
Qed.
#[export] Hint Resolve run_wf : lb.

(** The health side of a history as a fold over its cells. *)
Lemma run_health flip_after tr p :
  provider_wf p ->
  (healthy (run flip_after tr p), (run flip_after tr p).(health_streak)) =
    foldl (fun c e => health_after flip_after e c.1 c.2) (healthy p, p.(health_streak)) tr.
Proof.
  revert p. induction tr as [|e tr IH]; intros p H; [done|].
  destruct (apply_event_view flip_after e p H) as (Hwf & Hh & _).
  change (run flip_after (e :: tr) p) with (run flip_after tr (apply_event flip_after e p)).
  rewrite IH by done. cbn [foldl]. by rewrite Hh.
Qed.

Lemma run_wrong flip_after tr p :
  provider_wf p ->
  serving_wrong_data (run flip_after tr p) =
    foldl (fun w e => wrong_after e w) (serving_wrong_data p) tr.
Proof.
  revert p. induction tr as [|e tr IH]; intros p H; [done|].
  destruct (apply_event_view flip_after e p H) as (Hwf & _ & Hw).
  change (run flip_after (e :: tr) p) with (run flip_after tr (apply_event flip_after e p)).
  rewrite IH by done. cbn [foldl]. by rewrite Hw.
Qed.

(** * The admission rule, as a property of the health signals alone *)

(** [Some true]: a success; [Some false]: a failure; [None]: a
    quarantine on the spot. *)
Definition health_signals (tr : list Event) : list (option bool) :=
  omap (fun e => match e with
                 | OnHealth success _ => Some (Some success)
                 | OnQuarantine _ => Some None
                 | _ => None
                 end) tr.

Definition signal_step (flip_after : Z) (c : bool * Z) (x : option bool) : bool * Z :=
  match x with
  | Some success =>
      let k := streak_step success c.2 in
      (if Z.leb flip_after k then true else if Z.leb k (- flip_after) then false else c.1, k)
  | None => (false, 0)
  end.

(** [n] results in a row that agree. *)
Definition in_a_row (n : nat) (success : bool) : list (option bool) :=
  replicate n (Some success).

(** Admitted by [n] successes in a row, and not taken out since: no
    quarantine, and no [n] failures in a row. *)
Definition admitted_by (n : nat) (xs : list (option bool)) : Prop :=
  exists l1 l2, xs = l1 ++ in_a_row n true ++ l2 /\ (None ∉ l2) /\
    ~ (exists m1 m2, l2 = m1 ++ in_a_row n false ++ m2).

Lemma health_signals_fold flip_after tr c :
  foldl (fun c e => health_after flip_after e c.1 c.2) c tr =
  foldl (signal_step flip_after) c (health_signals tr).
Proof.
  revert c. induction tr as [|e tr IH]; intros [h k]; [done|].
  destruct e; cbn; by rewrite IH.
Qed.

Section admission_rule.
Context (flip_after : Z) (Hflip : 1 <= flip_after <= u32_max).
Let n : nat := Z.to_nat flip_after.
Let after (xs : list (option bool)) : bool * Z := foldl (signal_step flip_after) (false, 0) xs.

Lemma after_snoc xs x : after (xs ++ [x]) = signal_step flip_after (after xs) x.
Proof. unfold after. by rewrite foldl_app. Qed.

Lemma after_range xs : i64_min <= (after xs).2 <= i64_max.
Proof using Hflip.
  induction xs as [|x xs IH] using rev_ind; [done|].
  rewrite after_snoc. destruct x as [b'|]; cbn; [by apply streak_step_range|done].
Qed.

(** The streak is a run of agreeing signals at the end of the history. *)
Lemma streak_suffix xs (b' : bool) :
  0 < (if b' then (after xs).2 else - (after xs).2) ->
  exists l, xs = l ++ in_a_row (Z.to_nat (if b' then (after xs).2 else - (after xs).2)) b'.
Proof using Hflip.
  induction xs as [|x xs IH] using rev_ind; [by destruct b'|].
  pose proof (after_range xs) as Hr.
  rewrite after_snoc. destruct x as [x|]; cbn; [|by destruct b'].
  unfold streak_step. intros Hpos.
  assert (x = b') as -> by (destruct x, b'; machine_unfold; [done|lia|lia|done]).
  set (k := if b' then _ else _).
  assert (1 <= k) as Hk by (unfold k; destruct b'; machine_unfold; lia).
  assert (Z.to_nat k = 1%nat \/ 0 < (if b' then (after xs).2 else - (after xs).2) /\
    (Z.to_nat k <= S (Z.to_nat (if b' then (after xs).2 else - (after xs).2)))%nat) as Hc.
  { unfold k. destruct b'; machine_unfold; lia. }
  destruct Hc as [-> | [H1 H2]]; [by exists xs|].
  destruct (IH H1) as [l Hl]. set (j := Z.to_nat (if b' then (after xs).2 else _)) in *.
  assert (Z.to_nat k = S (Z.to_nat k - 1)) as -> by lia.
  exists (l ++ in_a_row (j - (Z.to_nat k - 1)) b').
  rewrite Hl at 1. unfold in_a_row. rewrite replicate_S_end, <- !(assoc_L (++)). f_equal.
  rewrite (assoc_L (++)). f_equal. rewrite <- replicate_add. f_equal. lia.
Qed.

Lemma suffix_streak l m (b' : bool) :
  Z.of_nat m <= i64_max ->
  Z.of_nat m <= (if b' then (after (l ++ in_a_row m b')).2
                 else - (after (l ++ in_a_row m b')).2) \/ m = 0%nat.
Proof using Hflip.
  induction m as [|m IH]; intros Hm; [by right|]. left.
  unfold in_a_row in *. rewrite replicate_S_end, (assoc_L (++)), after_snoc.
  pose proof (after_range (l ++ replicate m (Some b'))) as Hr.
  cbn. unfold streak_step.
  destruct (IH ltac:(lia)) as [IH' | ->]; destruct b'; machine_unfold; lia.
Qed.

Lemma row_not_last l2 x (b' : bool) m1 m2 :
  x <> Some b' -> l2 ++ [x] = m1 ++ in_a_row n b' ++ m2 ->
  exists m2', m2 = m2' ++ [x] /\ l2 = m1 ++ in_a_row n b' ++ m2'.
Proof using Hflip.
  intros Hx E. destruct m2 as [|y m2' _] using rev_ind.
  - rewrite app_nil_r in E. unfold in_a_row in E.
    replace n with (S (n - 1)) in E by lia.
    rewrite replicate_S_end, (assoc_L (++)) in E. apply app_inj_tail in E as [_ E]. done.
  - rewrite !(assoc_L (++)) in E. apply app_inj_tail in E as [-> ->].
    exists m2'. by rewrite !(assoc_L (++)).
Qed.

Lemma row_after_row l1 l2 l :
  l1 ++ in_a_row n true ++ l2 = l ++ in_a_row n false ->
  exists m, l2 = m ++ in_a_row n false.
Proof using Hflip.
  rewrite (assoc_L (++)). intros E.
  apply app_eq_inv in E as [(k & E1 & E2)|(k & _ & ->)]; [|by exists k].
  destruct k as [|x k _] using rev_ind; [by exists []|].
  exfalso. unfold in_a_row in *. replace n with (S (n - 1)) in E1 by lia.
  rewrite replicate_S_end, !(assoc_L (++)) in E1. apply app_inj_tail in E1 as [_ <-].
  assert (Some true ∈ replicate n (Some false)) as Hin by (rewrite E2; set_solver).
  by apply elem_of_replicate_inv in Hin.
Qed.

Lemma admitted_extend xs x :
  admitted_by n xs -> x <> None ->
  (x = Some false -> - flip_after < (after (xs ++ [x])).2) ->
  admitted_by n (xs ++ [x]).
Proof using Hflip.
  intros (l1 & l2 & -> & Hq & Hno) Hx Hs. exists l1, (l2 ++ [x]).
  split_and!; [by rewrite !(assoc_L (++)) | set_solver |].
  intros (m1 & m2 & E). destruct (decide (x = Some false)) as [->|Hne].
  - destruct m2 as [|y m2 _] using rev_ind.
    + rewrite app_nil_r in E. specialize (Hs eq_refl).
      pose proof (suffix_streak (l1 ++ in_a_row n true ++ m1) n false) as Hss.
      rewrite <- !(assoc_L (++)), <- E, !(assoc_L (++)) in Hss.
      rewrite <- !(assoc_L (++)) in Hss, Hs.
      cbn in Hss. machine_unfold. lia.
    + rewrite !(assoc_L (++)) in E. apply app_inj_tail in E as [E _].
      apply Hno. exists m1, m2. by rewrite E, <- (assoc_L (++)).
  - apply row_not_last in E as (m2' & _ & E); [|done]. apply Hno. by exists m1, m2'.
Qed.

Lemma admitted_retract xs x :
  x <> Some true -> admitted_by n (xs ++ [x]) -> x <> None /\ admitted_by n xs.
Proof using Hflip.
  intros Hx (l1 & l2 & E & Hq & Hno).
  apply row_not_last in E as (l2' & -> & ->); [|done].
  split; [set_solver|]. exists l1, l2'. split_and!; [done | set_solver |].
  intros (m1 & m2 & ->). apply Hno. exists m1, (m2 ++ [x]). by rewrite <- !(assoc_L (++)).
Qed.

Lemma admission_rule xs : (after xs).1 = true <-> admitted_by n xs.
Proof using Hflip.
  induction xs as [|x xs IH] using rev_ind.
  - split; [done|]. intros (l1 & l2 & E & _).
    apply (f_equal length) in E. unfold in_a_row in E.
    rewrite !length_app, length_replicate in E. cbn in E. lia.
  - pose proof (streak_suffix (xs ++ [x])) as Hsuf. pose proof (after_range (xs ++ [x])) as Hr.
    assert (Hst := after_snoc xs x). destruct x as [[|]|]; unfold signal_step in Hst; cbv zeta in Hst.
    + rewrite Hst in Hsuf, Hr |- *. cbn [fst snd] in *. destruct (Z.leb_spec flip_after (streak_step true (after xs).2)).
      * split; [intros _|done]. destruct (Hsuf true) as [l Hl]; [lia|].
        rewrite Hl. set (k := Z.to_nat (streak_step _ _)) in *.
        exists (l ++ in_a_row (k - n) true), []. split_and!; [|set_solver|].
        { rewrite app_nil_r, <- (assoc_L (++)). f_equal. unfold in_a_row.
          rewrite <- replicate_add. f_equal. lia. }
        intros (m1 & m2 & E). apply (f_equal length) in E. unfold in_a_row in E.
        rewrite !length_app, length_replicate in E. cbn in E. lia.
      * rewrite (proj2 (Z.leb_gt _ _)) by (unfold streak_step; machine_unfold; lia).
        rewrite IH. split.
        { intros Ha. apply admitted_extend; [done..|]. done. }
        intros (l1 & l2 & E & Hq & Hno). destruct l2 as [|y l2 _] using rev_ind.
        { exfalso. rewrite app_nil_r in E.
          pose proof (suffix_streak l1 n true) as Hss. rewrite <- E, Hst in Hss.
          cbn [fst snd] in Hss. machine_unfold. lia. }
        rewrite !(assoc_L (++)) in E. apply app_inj_tail in E as [-> _].
        exists l1, l2. split_and!; [by rewrite <- (assoc_L (++)) | set_solver |].
        intros (m1 & m2 & ->). apply Hno. exists m1, (m2 ++ [y]).
        by rewrite <- !(assoc_L (++)).
    + rewrite Hst in Hsuf, Hr |- *. cbn [fst snd] in *.
      rewrite (proj2 (Z.leb_gt _ _)) by (unfold streak_step; machine_unfold; lia).
      destruct (Z.leb_spec (streak_step false (after xs).2) (- flip_after)).
      * split; [done|]. intros (l1 & l2 & E & _ & Hno). exfalso.
        destruct (Hsuf false) as [l Hl]; [lia|]. set (k := Z.to_nat (- streak_step _ _)) in *.
        assert (in_a_row k false = in_a_row (k - n) false ++ in_a_row n false) as Ek.
        { unfold in_a_row. rewrite <- replicate_add. f_equal. lia. }
        rewrite E, Ek, (assoc_L (++) l) in Hl. apply row_after_row in Hl as [m ->].
        apply Hno. exists m, []. by rewrite app_nil_r.
      * rewrite IH. split.
        { intros Ha. apply admitted_extend; [done..|]. intros _. rewrite Hst. cbn [snd]. lia. }
        intros Ha. by apply admitted_retract in Ha as [_ ?].
    + rewrite Hst. cbn [fst snd]. split; [done|]. intros Ha. by apply admitted_retract in Ha as [? _].
Qed.
End admission_rule.

(** * Theorems: one entry *)

(** C4: A provider that just joined the pool is healthy exactly when some
    [flip_after] health signals in a row were successes and nothing since
    took it out: no quarantine and no [flip_after] failures in a row.
    [flip_after] is in the range the configuration accepts. *)
Theorem healthy_iff_admitted flip_after now i u s tr :
  2 <= flip_after <= u32_max ->
  healthy (run flip_after tr (provider_new now i u s)) = true <->
  admitted_by (Z.to_nat flip_after) (health_signals tr).
Proof.
  intros Hf. rewrite <- (admission_rule flip_after ltac:(lia)), <- health_signals_fold.
  pose proof (run_health flip_after tr (provider_new now i u s) ltac:(auto with lb)) as Hr.
  change (healthy (provider_new now i u s), health_streak (provider_new now i u s))
    with (false, 0) in Hr.
  by rewrite <- Hr.
Qed.

(** Three passing probes admit under [flip_after = 3], two do not. *)
Lemma healthy_iff_admitted_witness :
  healthy (run 3 [OnHealth true Probe; OnServed 5; OnHealth true Probe; OnHealth true Probe]
             (provider_new 0 "a" "u" Static)) = true /\
  admitted_by 3 (health_signals
    [OnHealth true Probe; OnServed 5; OnHealth true Probe; OnHealth true Probe]).
Proof.
  split; [reflexivity|].
  apply (healthy_iff_admitted 3 0 "a" "u" Static
    [OnHealth true Probe; OnServed 5; OnHealth true Probe; OnHealth true Probe]);
    [unfold u32_max; lia | reflexivity].
Defined.

(** What could open a gate: a success, or a matching verdict. *)
Definition opens_a_gate (e : Event) : bool :=
  match e with OnHealth true _ => true | OnVerdict Match _ => true | _ => false end.

Lemma closed_gates_stay flip_after tr p :
  provider_wf p -> 1 <= flip_after -> Forall (fun e => opens_a_gate e = false) tr ->
  (p.(health_streak) < flip_after) ->
  (healthy (run flip_after tr p) = true -> healthy p = true) /\
  (serving_wrong_data (run flip_after tr p) = false -> serving_wrong_data p = false).
Proof.
  intros Hwf Hf Htr. revert p Hwf. induction Htr as [|e tr He _ IH]; intros p Hwf Hs; [done|].
  destruct (apply_event_view flip_after e p Hwf) as (Hwf' & Hh & Hw).
  change (run flip_after (e :: tr) p) with (run flip_after tr (apply_event flip_after e p)).
  assert ((apply_event flip_after e p).(health_streak) < flip_after) as Hs'.
  { apply (f_equal snd) in Hh. cbn in Hh. rewrite Hh.
    destruct e as [[] ? | | | | | | | | | | | | | | ]; cbn; try done; machine_unfold; lia. }
  destruct (IH _ Hwf' Hs') as [IH1 IH2]. split; intros Hx.
  - specialize (IH1 Hx). apply (f_equal fst) in Hh. cbn [fst] in Hh. rewrite Hh in IH1.
    destruct e as [[] ? | | | | | | | | | | | | | | ]; try done.
    revert IH1. cbn. rewrite (proj2 (Z.leb_gt _ _)) by (machine_unfold; lia).
    by destruct (Z.leb _ _).
  - specialize (IH2 Hx). rewrite Hw in IH2. by destruct e as [ | |[] | | | | | | | | | | | | ].
Qed.

(** Traffic can take a provider out of rotation but never bring one in:
    over any history without a health success and without a matching
    integrity verdict - requests served, failed or timed out, failing
    probes, quarantines, divergences, billing, scheduling - a provider
    that ends in rotation was in rotation at the start. *)
Theorem traffic_never_admits flip_after tr p :
  provider_wf p -> 2 <= flip_after -> p.(health_streak) < flip_after ->
  Forall (fun e => opens_a_gate e = false) tr ->
  eligible (run flip_after tr p) = true -> eligible p = true.
Proof.
  intros Hwf Hf Hs Htr He.
  destruct (closed_gates_stay flip_after tr p) as [H1 H2]; [done|lia|done|done|].
  rewrite eligible_gates in He by apply run_wf, Hwf.
  rewrite eligible_gates by apply Hwf.
  apply andb_prop in He as [He1 He2]. rewrite H1 by done.
  rewrite H2 by (by destruct (serving_wrong_data (run _ _ _))). done.
Qed.

Lemma traffic_never_admits_witness :
  let p := run 2 [OnHealth true Probe; OnHealth true Probe; OnHealth false Traffic]
             (provider_new 0 "a" "u" Static) in
  eligible (run 2 [OnServed 9; OnTransportFailure] p) = true /\ eligible p = true.
Proof.
  split; [reflexivity|].
  apply (traffic_never_admits 2 [OnServed 9; OnTransportFailure]);
    [auto with lb | lia | vm_compute; reflexivity | repeat constructor | reflexivity].
Defined.

(** The last verdict of a history that touches the integrity gate. *)
Definition gate_verdict (tr : list Event) : option Verdict :=
  last (omap (fun e => match e with
                       | OnVerdict Match _ => Some Match
                       | OnVerdict Divergence _ => Some Divergence
                       | _ => None
                       end) tr).

(** C31: Only a match lifts an integrity quarantine and only a divergence
    sets one: whatever else happened, an entry counts as serving wrong
    data exactly when the last match-or-divergence it was given was a
    divergence, or none was given and it already did. *)
Theorem integrity_gate_history flip_after tr p :
  provider_wf p ->
  serving_wrong_data (run flip_after tr p) =
  match gate_verdict tr with
  | Some v => bool_decide (v = Divergence)
  | None => serving_wrong_data p
  end.
Proof.
  intros Hwf. rewrite run_wrong by done. generalize (serving_wrong_data p) as w. clear Hwf.
  unfold gate_verdict. induction tr as [|e tr IH] using rev_ind; intros w; [done|].
  rewrite foldl_app, omap_app. cbn [foldl]. rewrite IH.
  destruct e as [ | |[] | | | | | | | | | | | | ]; cbn; rewrite ?app_nil_r; try done;
    by rewrite last_snoc.
Qed.

Lemma integrity_gate_history_witness :
  serving_wrong_data (run 3 [OnVerdict Divergence 7; OnHealth true Probe; OnVerdict Stale 8]
    (provider_new 0 "a" "u" Static)) = true.
Proof.
  rewrite (integrity_gate_history 3 _ (provider_new 0 "a" "u" Static)); [reflexivity|].
  auto with lb.
Defined.

(** The admin view's reason is there exactly while the provider is out
    of rotation: the latest health signal's source while it is unhealthy,
    [integrity] while it is healthy but serves wrong data. *)
Theorem ineligibility_reason_spec flip_after tr now i u s :
  let p := run flip_after tr (provider_new now i u s) in
  (eligible p = true <-> ineligibility_reason p = None) /\
  (healthy p = false ->
     exists h, p.(last_health_source) = signal_code h /\
       ineligibility_reason p = Some (signal_as_str h)) /\
  (healthy p = true -> serving_wrong_data p = true ->
     ineligibility_reason p = Some (signal_as_str Integrity)).
Proof.
  intros p. assert (provider_wf p) as Hwf by (unfold p; auto with lb).
  pose proof (eligible_gates p (wf_eligibility _ Hwf)) as Hg.
  destruct (wf_source _ Hwf) as [h Hh]. unfold ineligibility_reason.
  assert (p.(last_health_source) = signal_code h) as Hcode.
  { unfold from_code in Hh. split_tests; simplify_eq; cbn; lia. }
  rewrite Hh, Hg. destruct (healthy p), (serving_wrong_data p); cbn; naive_solver.
Qed.

(** A sequence of atomic changes to the gates of one entry, by any
    number of racing tasks, with the flips each logs. *)
Fixpoint gate_changes (cs : list (Gate * bool * HealthSignal)) (p : Provider) :
    list (bool * HealthSignal) * Provider :=
  match cs with
  | [] => ([], p)
  | (g, v, s) :: cs =>
      let '(logged, p) := set_eligibility_and_log g v s p in
      let '(logs, p) := gate_changes cs p in
      (match logged with Some x => x :: logs | None => logs end, p)
  end.

(** [alternates b l]: every flip logs the opposite of the answer before
    it, starting from [b]. *)
Fixpoint alternates (b' : bool) (l : list bool) : Prop :=
  match l with [] => True | x :: l => x = negb b' /\ alternates x l end.

Definition last_or (b' : bool) (l : list bool) : bool := default b' (last l).

(** A flip of what [eligible] answers is logged once: however the tasks
    that change the two gates interleave, the logged flips alternate,
    start from the opposite of the answer before, and end on the answer
    after, so no flip is logged twice and none is missed. *)
Theorem flips_logged_once cs p :
  provider_wf p ->
  let '(logs, p') := gate_changes cs p in
  alternates (eligible p) logs.*1 /\ last_or (eligible p) logs.*1 = eligible p'.
Proof.
  intros [He _ _ _]. revert p He. induction cs as [|[[g v] s] cs IH]; intros p He; [done|].
  cbn [gate_changes].
  pose proof (set_eligibility_and_log_spec g v s p He) as Hlog.
  pose proof (set_eligibility_spec g v p He) as Hset.
  destruct (set_eligibility_and_log g v s p) as [logged p1]. destruct Hlog as [-> ->].
  destruct (set_eligibility g v p) as [[was now] q]. cbn [snd] in *.
  destruct Hset as (_ & _ & Hq & _). specialize (IH q Hq).
  destruct (gate_changes cs q) as [logs p']. destruct IH as [Ha Hl].
  destruct (eligible p) eqn:E1, (eligible q) eqn:E2; cbn [Bool.eqb]; try done;
    (split; [by split|]); unfold last_or in *; cbn [fmap list_fmap fst];
    rewrite <- Hl; destruct (logs.*1) as [|x l]; try done;
    change (last (?a :: x :: l)) with (last (x :: l));
    destruct (last_is_Some (x :: l)) as [_ [y Hy]]; try done; by rewrite Hy.
Qed.

Lemma flips_logged_once_witness :
  let '(logs, p') := gate_changes
    [(GateHealth, true, Probe); (GateHealth, true, Probe); (GateIntegrity, false, Integrity);
     (GateHealth, false, Traffic)] (provider_new 0 "a" "u" Static) in
  logs.*1 = [true; false] /\ eligible p' = false /\ alternates false logs.*1.
Proof.
  split; [reflexivity|]. split; [reflexivity|].
  apply (flips_logged_once
    [(GateHealth, true, Probe); (GateHealth, true, Probe); (GateIntegrity, false, Integrity);
     (GateHealth, false, Traffic)] (provider_new 0 "a" "u" Static)).
  auto with lb.
Defined.

(** * Lemmas and theorems: selection *)

Lemma lap_found pl len fuel others cur r cur' :
  lap pl len fuel others cur = (Some r, cur') ->
  r ∈ pl.(members) /\ test_entry pl eligible r = true.
Proof.
  revert cur. induction fuel as [|fuel IH]; intros cur; cbn [lap]; [done|].
  destruct (pl.(members) !! _) as [r'|] eqn:E; [|by intros ?%IH].
  destruct (test_entry pl eligible r') eqn:Et; [|by intros ?%IH].
  intros [= -> _]. split; [by eapply list_elem_of_lookup_2|done].
Qed.

Lemma next_eligible_run others pl :
  (forall r, fst (next_eligible others pl) = Some r ->
     r ∈ pl.(members) /\ test_entry pl eligible r = true) /\
  (fst (next_eligible others pl) = None <->
     Forall (fun r => test_entry pl eligible r = false) pl.(members)) /\
  exists c, snd (next_eligible others pl) = with_cursor c pl.
Proof.
  unfold next_eligible.
  destruct (Nat.eqb_spec (length pl.(members)) 0) as [E|E].
  { apply nil_length_inv in E. rewrite E. split_and!; [done | done |].
    exists pl.(cursor). by destruct pl. }
  destruct (lap _ _ _ _ _) as [found cur] eqn:El. cbn [fst snd].
  destruct found as [r|].
  - apply lap_found in El as [Hin Ht]. split_and!; [by intros ? [= <-]| |by eexists].
    split; [done|]. intros Hall. rewrite Forall_forall in Hall.
    specialize (Hall r Hin). congruence.
  - split_and!; [| |by eexists].
    + intros r Hr. apply List.find_some in Hr as [Hin Ht]. by rewrite list_elem_of_In.
    + destruct (List.find _ _) as [r|] eqn:Ef.
      * apply List.find_some in Ef as [Hin Ht]. split; [done|]. intros Hall.
        rewrite Forall_forall in Hall. apply list_elem_of_In in Hin.
        specialize (Hall r Hin). congruence.
      * split; [|done]. intros _. apply Forall_forall. intros r Hin%list_elem_of_In.
        by eapply List.find_none in Ef.
Qed.

(** C32: Selection, however many other selections race on the cursor: it
    answers a member in rotation, it answers one whenever there is one,
    and apart from the cursor it changes nothing. *)
Theorem next_eligible_spec others pl :
  (forall r, fst (next_eligible others pl) = Some r ->
     r ∈ pl.(members) /\ test_entry pl eligible r = true) /\
  (fst (next_eligible others pl) = None <->
     Forall (fun r => test_entry pl eligible r = false) pl.(members)) /\
  exists c, snd (next_eligible others pl) = with_cursor c pl.
Proof. apply next_eligible_run. Qed.

(** The members as the cursor passes them from position [cur] on. *)
Fixpoint passed (ms : list ptr) (cur : Z) (m : nat) : list ptr :=
  match m with
  | O => []
  | S m => match ms !! Z.to_nat (cur mod Z.of_nat (length ms)) with
           | Some r => r :: passed ms (cur + 1) m
           | None => passed ms (cur + 1) m
           end
  end.

Definition alone : nat -> Z := fun _ => 0.

(** [k] selections one after another, nothing else running. *)
Fixpoint picks (k : nat) (pl : Pool) : list (option ptr) :=
  match k with
  | O => []
  | S k => let '(r, pl) := next_eligible alone pl in r :: picks k pl
  end.

(** One lap from [cur]: the first eligible member the cursor passes. *)
Lemma lap_alone pl fuel cur m r rest :
  let ms := pl.(members) in
  ms <> [] -> 0 <= cur -> cur + Z.of_nat fuel <= u64_max -> (m <= fuel)%nat ->
  filter (fun r => test_entry pl eligible r = true) (passed ms cur m) = r :: rest ->
  exists d m', (m = S d + m')%nat /\
    lap pl (length ms) fuel alone cur = (Some r, cur + Z.of_nat (S d)) /\
    rest = filter (fun r => test_entry pl eligible r = true)
             (passed ms (cur + Z.of_nat (S d)) m').
Proof.
  intros ms Hne. revert cur m. induction fuel as [|fuel IH]; intros cur m Hc Hb Hm Hf.
  { assert (m = 0)%nat as -> by lia. done. }
  destruct m as [|m]; [done|]. cbn [passed] in Hf. cbn [lap].
  assert (add_u64 cur (alone fuel) = cur) as -> by (unfold alone; rewrite add_u64_small; lia).
  assert (add_u64 cur 1 = cur + 1) as -> by (rewrite add_u64_small; lia).
  destruct (ms !! _) as [r'|] eqn:E.
  - destruct (test_entry pl eligible r') eqn:Et.
    + rewrite filter_cons_True in Hf by done. injection Hf as -> <-.
      exists 0%nat, m. split_and!; [done | fold ms; rewrite E, Et; do 2 f_equal; lia |].
      by rewrite Z.add_1_r, <- Z.add_1_r.
    + rewrite filter_cons_False in Hf by congruence.
      destruct (IH (cur + 1) m) as (d & m' & -> & Hl & ->); [lia..|done|].
      exists (S d), m'. fold ms. rewrite E, Et. split_and!; [lia | rewrite Hl; f_equal; lia |].
      f_equal. f_equal. lia.
  - exfalso. apply lookup_ge_None in E.
    pose proof (Z.mod_pos_bound cur (Z.of_nat (length ms))).
    destruct ms; [done|]. cbn in *. lia.
Qed.

Lemma picks_passed k pl m :
  let ms := pl.(members) in
  ms <> [] -> 0 <= pl.(cursor) ->
  pl.(cursor) + Z.of_nat m + Z.of_nat (length ms) <= u64_max -> (m <= length ms)%nat ->
  (k <= length (filter (fun r => test_entry pl eligible r = true)
                  (passed ms pl.(cursor) m)))%nat ->
  picks k pl = Some <$> take k (filter (fun r => test_entry pl eligible r = true)
                                  (passed ms pl.(cursor) m)).
Proof.
  revert pl m. induction k as [|k IH]; intros pl m ms Hne Hc Hb Hm Hk; subst ms.
  { by rewrite take_0. }
  destruct (filter _ _) as [|r rest] eqn:Ef; [cbn in Hk; lia|].
  destruct (lap_alone pl (length pl.(members)) pl.(cursor) m r rest) as (d & m' & -> & Hl & ->);
    [done|done|lia|lia|done|].
  cbn [picks]. unfold next_eligible.
  assert (Nat.eqb (length pl.(members)) 0 = false) as ->
    by (apply Nat.eqb_neq; by destruct pl.(members)).
  rewrite Hl. cbn [firstn fmap list_fmap]. f_equal.
  apply (IH (with_cursor (pl.(cursor) + Z.of_nat (S d)) pl) m'); cbn; [done|lia|..].
  - lia.
  - lia.
  - cbn in Hk. apply le_S_n in Hk. done.
Qed.

(** A whole lap passes every member once. *)
Lemma passed_drop ms cur m :
  0 <= cur -> (Z.to_nat (cur mod Z.of_nat (length ms)) + m <= length ms)%nat ->
  passed ms cur m = take m (drop (Z.to_nat (cur mod Z.of_nat (length ms))) ms).
Proof.
  revert cur. induction m as [|m IH]; intros cur Hc Hm; [by rewrite take_0|].
  set (i := Z.to_nat (cur mod Z.of_nat (length ms))) in *. cbn [passed]. fold i.
  destruct (ms !! i) as [r|] eqn:E; [|apply lookup_ge_None in E; lia].
  rewrite (drop_S _ r) by done. cbn [firstn]. f_equal.
  pose proof (Z.mod_pos_bound cur (Z.of_nat (length ms)) ltac:(lia)) as Hpos.
  destruct (decide (S i = length ms)) as [Hend|Hend].
  - assert (m = 0)%nat as -> by lia. by rewrite take_0.
  - assert ((cur + 1) mod Z.of_nat (length ms) = Z.of_nat (S i)) as Hmod.
    { rewrite <- Zplus_mod_idemp_l. rewrite Z.mod_small; lia. }
    rewrite IH by (rewrite ?Hmod, ?Nat2Z.id; lia). by rewrite Hmod, Nat2Z.id.
Qed.

Lemma passed_app ms cur m1 m2 :
  passed ms cur (m1 + m2) = passed ms cur m1 ++ passed ms (cur + Z.of_nat m1) m2.
Proof.
  revert cur. induction m1 as [|m1 IH]; intros cur; cbn.
  - f_equal. lia.
  - rewrite IH. replace (cur + 1 + Z.of_nat m1) with (cur + Z.of_nat (S m1)) by lia.
    by destruct (ms !! _).
Qed.

Lemma passed_lap ms cur : 0 <= cur -> passed ms cur (length ms) ≡ₚ ms.
Proof.
  intros Hc. destruct (decide (ms = [])) as [->|Hne]; [done|].
  assert (0 < Z.of_nat (length ms)) as Hpos by (destruct ms; [done|cbn; lia]).
  pose proof (Z.mod_pos_bound cur _ Hpos) as Hb.
  set (i := Z.to_nat (cur mod Z.of_nat (length ms))).
  assert (length ms = (length ms - i) + i)%nat as Hlen by lia.
  rewrite Hlen at 1. rewrite passed_app.
  rewrite (passed_drop ms cur) by (fold i; lia). fold i.
  assert ((cur + Z.of_nat (length ms - i)) mod Z.of_nat (length ms) = 0) as Hz.
  { replace (cur + Z.of_nat (length ms - i))
      with (cur - cur mod Z.of_nat (length ms) + Z.of_nat (length ms)) by lia.
    rewrite (Z.mod_eq cur) by lia.
    replace (_ - _ + _) with (0 + (cur / Z.of_nat (length ms) + 1) * Z.of_nat (length ms)) by lia.
    rewrite Z_mod_plus_full. done. }
  rewrite (passed_drop ms (cur + _)) by (rewrite ?Hz; cbn; lia). rewrite Hz. cbn [Z.to_nat].
  rewrite drop_0, firstn_all2 by (rewrite length_drop; lia).
  rewrite (comm (++)). by rewrite take_drop.
Qed.

(** C33: Round robin is even over the eligible: with [k] providers in
    rotation, any [k] selections in a row pick each of them exactly once,
    wherever the cursor stands and wherever the ineligible ones sit. The
    cursor is assumed not to be about to wrap at [2^64]. *)
Theorem round_robin_even pl :
  let ok := filter (fun r => test_entry pl eligible r = true) pl.(members) in
  0 <= pl.(cursor) -> pl.(cursor) + 2 * Z.of_nat (length pl.(members)) <= u64_max ->
  picks (length ok) pl ≡ₚ Some <$> ok.
Proof.
  intros ok Hc Hb. destruct (decide (pl.(members) = [])) as [E|Hne].
  { unfold ok. by rewrite E. }
  assert (filter (fun r => test_entry pl eligible r = true)
    (passed pl.(members) pl.(cursor) (length pl.(members))) ≡ₚ ok) as Hp.
  { unfold ok. by rewrite passed_lap. }
  rewrite (picks_passed _ pl (length pl.(members)) Hne Hc ltac:(lia) ltac:(lia))
    by (by rewrite Hp).
  rewrite <- Hp at 1. rewrite firstn_all. by rewrite Hp.
Qed.

Definition demo_pool : Pool :=
  let p i e := store_eligibility e (provider_new 0 i "u" Static) in
  snd (pool_add (p "d" 3) (snd (pool_add (p "c" 1) (snd (pool_add (p "b" 0)
    (snd (pool_add (p "a" 3) empty_pool))))))).

Lemma round_robin_even_witness :
  picks 2 demo_pool = [Some 0%nat; Some 3%nat] /\
  picks 2 demo_pool ≡ₚ Some <$> [0%nat; 3%nat].
Proof.
  split; [reflexivity|].
  apply (round_robin_even demo_pool); vm_compute; congruence.
Defined.

Lemma next_eligible_spec_witness :
  fst (next_eligible (fun _ => 5) demo_pool) = Some 3%nat /\
  3%nat ∈ members demo_pool /\ test_entry demo_pool eligible 3%nat = true.
Proof.
  split; [reflexivity|]. apply (proj1 (next_eligible_spec (fun _ => 5) demo_pool)).
  reflexivity.
Defined.

(** * Lemmas and theorems: membership *)

Lemma entry_update pl r f r' :
  entry (update r f pl) r' = if decide (r = r') then f <$> entry pl r' else entry pl r'.
Proof. unfold entry, update, with_heap. cbn [heap]. rewrite lookup_alter.
  case_decide; [by subst|done]. Qed.

Lemma update_wf r f pl : pool_wf pl -> pool_wf (update r f pl).
Proof.
  intros [H1 H2 H3].
  assert (forall r', is_Some ((update r f pl).(heap) !! r') <-> is_Some (pl.(heap) !! r')) as He.
  { intros r'. pose proof (entry_update pl r f r') as E. unfold entry in E. rewrite E.
    destruct (decide _); by rewrite ?fmap_is_Some. }
  constructor; cbn; [intros r' Hr'; apply H1, He, Hr' | | done].
  eapply Forall_impl; [exact H2|]. intros r' Hr'. by apply He.
Qed.

Lemma pool_add_wf p pl : pool_wf pl -> pool_wf (snd (pool_add p pl)).
Proof.
  intros [H1 H2 H3]. unfold pool_add, alloc, with_members. cbn. constructor; cbn.
  - intros r [q Hq]. rewrite lookup_insert in Hq. case_decide; [lia|].
    specialize (H1 r (mk_is_Some _ _ Hq)). lia.
  - apply Forall_app. split.
    + eapply Forall_impl; [exact H2|]. intros r Hr. rewrite lookup_insert.
      case_decide; [done|exact Hr].
    + repeat constructor. rewrite lookup_insert_eq. done.
  - apply NoDup_app. split_and!; [done| |apply NoDup_singleton].
    intros r Hr Hr'. rewrite list_elem_of_singleton in Hr'. subst r.
    rewrite Forall_forall in H2. specialize (H1 _ (H2 _ Hr)). lia.
Qed.

Lemma empty_pool_wf : pool_wf empty_pool.
Proof. constructor; cbn; [|constructor..]. intros r [q Hq]. by rewrite lookup_empty in Hq. Qed.
#[export] Hint Resolve update_wf pool_add_wf empty_pool_wf : lb.

Lemma pool_add_entry p pl r :
  entry (snd (pool_add p pl)) r = if decide (pl.(next_ptr) = r) then Some p else entry pl r.
Proof. unfold entry, pool_add, alloc. cbn. apply lookup_insert. Qed.

Lemma remove_first_spec (f : ptr -> bool) l :
  match remove_first f l with
  | (Some r, l') => exists l1 l2, l = l1 ++ r :: l2 /\ l' = l1 ++ l2 /\ f r = true /\
                      Forall (fun x => f x = false) l1
  | (None, l') => l' = l /\ Forall (fun x => f x = false) l
  end.
Proof.
  induction l as [|x l IH]; cbn; [done|]. destruct (f x) eqn:E.
  - exists [], l. by repeat split.
  - destruct (remove_first f l) as [[r|] l'].
    + destruct IH as (l1 & l2 & -> & -> & Hr & Hl). exists (x :: l1), l2. by repeat constructor.
    + destruct IH as [-> Hl]. by repeat constructor.
Qed.

Lemma pool_remove_wf i pl : pool_wf pl -> pool_wf (snd (pool_remove i pl)).
Proof.
  intros [H1 H2 H3]. unfold pool_remove.
  pose proof (remove_first_spec (has_id pl i) pl.(members)) as Hs.
  destruct (remove_first _ _) as [[r|] l']; cbn.
  - destruct Hs as (l1 & l2 & E & -> & _). rewrite E in H2, H3.
    constructor; cbn; [done|..].
    + rewrite Forall_app, Forall_cons in H2. apply Forall_app. naive_solver.
    + rewrite NoDup_app, NoDup_cons in H3. apply NoDup_app.
      destruct H3 as (? & Hx & ? & ?). split_and!; [done| |done].
      intros x Hx1 Hx2. apply (Hx x Hx1). by right.
  - destruct Hs as [-> _]. by constructor.
Qed.
#[export] Hint Resolve pool_remove_wf : lb.

(** No two members share an id. *)
Definition unique_ids (pl : Pool) : Prop :=
  forall i r1 r2, r1 ∈ pl.(members) -> r2 ∈ pl.(members) ->
    has_id pl i r1 = true -> has_id pl i r2 = true -> r1 = r2.

(** A removed provider is never selected again: once [remove] returns,
    no selection under any contention picks an entry with that id, the
    other members stay, and the entry itself is untouched, so whoever
    still holds it can go on using it. *)
Theorem remove_spec i pl :
  pool_wf pl -> unique_ids pl ->
  let '(removed, pl') := pool_remove i pl in
  removed = pool_get pl i /\
  (forall r, r ∈ pl'.(members) <-> r ∈ pl.(members) /\ removed <> Some r) /\
  (forall others r, fst (next_eligible others pl') = Some r -> has_id pl' i r = false) /\
  (forall r, entry pl' r = entry pl r).
Proof.
  intros [_ _ Hnd] Hu. unfold pool_remove, pool_get.
  pose proof (remove_first_spec (has_id pl i) pl.(members)) as Hs.
  assert (forall l', (forall r, r ∈ l' -> has_id pl i r = false) ->
    forall others r, fst (next_eligible others (with_members l' pl)) = Some r ->
      has_id (with_members l' pl) i r = false) as Hnext.
  { intros l' Hl' others r Hr. apply next_eligible_run in Hr as [Hr _]. by apply Hl'. }
  destruct (remove_first _ _) as [[r|] l'].
  - destruct Hs as (l1 & l2 & E & -> & Hr & Hl1).
    assert (List.find (has_id pl i) pl.(members) = Some r) as Hf
      by (apply find_first; by exists l1, l2).
    assert (forall x, x ∈ l1 ++ l2 <-> x ∈ pl.(members) /\ Some r <> Some x) as Hx.
    { intros x. rewrite E in Hnd |- *. rewrite elem_of_app, elem_of_app, elem_of_cons.
      apply NoDup_app in Hnd as (_ & Hd & Hnd). apply NoDup_cons in Hnd as [Hr2 _].
      split; [|naive_solver]. intros Hx. split; [tauto|]. intros [= <-].
      destruct Hx as [Hx|Hx]; [|done]. apply (Hd r Hx). left. }
    split_and!; [done|exact Hx| |done]. apply Hnext. intros x Hin.
    apply Hx in Hin as [Hin Hne]. destruct (has_id pl i x) eqn:Ex; [|done].
    exfalso. apply Hne. f_equal. apply (Hu i); [rewrite E; set_solver | done..].
  - destruct Hs as [-> Hall]. rewrite Forall_forall in Hall.
    assert (List.find (has_id pl i) pl.(members) = None) as ->.
    { apply eq_None_not_Some. rewrite find_is_Some, Exists_exists.
      intros (x & Hx & Hf). rewrite Hall in Hf; done. }
    split_and!; [done|naive_solver| |done]. by apply Hnext.
Qed.

Lemma remove_spec_witness :
  let '(removed, pl') := pool_remove "a" demo_pool in
  removed = Some 0%nat /\ removed = pool_get demo_pool "a" /\
  has_id pl' "a" 3%nat = false.
Proof.
  assert (pool_wf demo_pool) as Hwf by (unfold demo_pool; auto 10 with lb).
  assert (unique_ids demo_pool) as Hu.
  { intros i r1 r2 H1 H2. cbn in H1, H2. rewrite !elem_of_cons, elem_of_nil in H1, H2.
    assert (has_id demo_pool i 0%nat = bool_decide ("a" = i)%string) as Ea by reflexivity.
    assert (has_id demo_pool i 1%nat = bool_decide ("b" = i)%string) as Eb by reflexivity.
    assert (has_id demo_pool i 2%nat = bool_decide ("c" = i)%string) as Ec by reflexivity.
    assert (has_id demo_pool i 3%nat = bool_decide ("d" = i)%string) as Ed by reflexivity.
    destruct H1 as [->|[->|[->|[->|[]]]]], H2 as [->|[->|[->|[->|[]]]]];
      rewrite ?Ea, ?Eb, ?Ec, ?Ed, ?bool_decide_eq_true; intros E1 E2;
      try reflexivity; congruence. }
  destruct (remove_spec "a" demo_pool Hwf Hu) as (H1 & _ & H2 & _).
  split; [reflexivity|]. split; [exact H1|]. apply (H2 (fun _ => 0)). reflexivity.
Defined.

(** The one duration the sentinel swallows: [u64::MAX] milliseconds fit,
    so the clamp leaves them, and they read back as "never probed". *)
Lemma longest_probe_reads_as_none p :
  read_last_probe_ms (record_probe_duration (u64_max * MILLIS) p) = None.
Proof. reflexivity. Qed.
