(* ===== verification/World.v ===== *)
(** What surrounds a task of the service, and the state a task runs on.

    A task sees the pool, which every task shares, and the world: the
    monotonic clock, the providers behind their URLs, the chain. It gives
    up control only where it awaits; there the other tasks run. [Others]
    says what they do at each such point - any sequence of the operations
    of the pool - and the [history] records, in order, what this task did
    to the entries and what the others did, so that a theorem can speak of
    one of the two. *)

From S2P Require Import Prelude External Pool.

#[local] Open Scope Z_scope.

(** * HTTP, as [reqwest] gives it *)

Inductive Method : Type := GET | POST.

Record HttpRequest : Type := mkHttpRequest {
  req_method : Method;
  req_url : Url;
  req_content_type : string;
  req_bearer : option string;
  req_body : Bytes;
  req_timeout : Z;
}.

(** How a body ends: complete, or broken off by an error. *)
Inductive BodyEnd : Type := BodyDone | BodyBroken (timeout : bool).

Record HttpResponse : Type := mkHttpResponse {
  status : Z;
  content_length : option Z;
  chunks : list Bytes;
  body_end : BodyEnd;
}.

(** [reqwest::Error], as far as the code looks at it: [is_timeout]. *)
Definition HttpError : Type := bool.

Definition is_success (code : Z) : bool := Z.leb 200 code && Z.ltb code 300.

(** * The other tasks *)

(** The outcomes a request can end in without a provider's answer. *)
Inductive OutcomeKind : Type := NoHealthyProvider | RequestTimedOut | NoProviderAnswered.

Definition record_outcome (k : OutcomeKind) : LbOutcomes -> LbOutcomes :=
  match k with
  | NoHealthyProvider => record_no_healthy_provider
  | RequestTimedOut => record_timed_out
  | NoProviderAnswered => record_no_provider_answered
  end.

Inductive OtherStep : Type :=
| OEvent (r : ptr) (e : Event)
| OOutcome (k : OutcomeKind)
| OCursor (n : Z)
| OAdd (p : Provider)
| ORemove (i : string).

Class World (W : Type) := {
  (** [Instant::now]. *)
  clock : W -> Z * W;
  http_post : HttpRequest -> W -> result HttpError HttpResponse * W;
  (** What the others do while this task awaits. *)
  others : W -> list OtherStep * W;
  (** [rand::random_range(1..u32::MAX)]. *)
  random_id : W -> Z * W;
  (** How far other selections move the cursor during one of ours. *)
  others_select : W -> (nat -> Z) * W;
}.

Inductive Step : Type :=
| Mine (r : ptr) (e : Event)
| Counted (k : OutcomeKind)
| Added (p : Provider)
| Removed (i : string)
| Theirs (o : OtherStep)
| Sent (request : HttpRequest).

Record Sys (W : Type) : Type := mkSys {
  pool : Pool;
  world : W;
  history : list Step;
}.
Arguments mkSys {W}.
Arguments pool {W}.
Arguments world {W}.
Arguments history {W}.

Definition other_step (flip_after : Z) (o : OtherStep) (pl : Pool) : Pool :=
  match o with
  | OEvent r e => update r (apply_event flip_after e) pl
  | OOutcome k => with_outcomes (record_outcome k) pl
  | OCursor n => with_cursor (add_u64 pl.(cursor) n) pl
  | OAdd p => snd (pool_add p pl)
  | ORemove i => snd (pool_remove i pl)
  end.

(** [tokio::time::sleep], an await. *)
Class Sleep (W : Type) := { sleep : Z -> M (Sys W) unit }.

Section world.
Context {W : Type} `{World W} (flip_after : Z).

Definition read_clock : M (Sys W) Z := fun s =>
  let '(t, w) := clock s.(world) in (t, mkSys s.(pool) w s.(history)).

Definition random : M (Sys W) Z := fun s =>
  let '(n, w) := random_id s.(world) in (n, mkSys s.(pool) w s.(history)).

(** This task's own change to an entry. *)
Definition act (r : ptr) (e : Event) : M (Sys W) unit := fun s =>
  (tt, mkSys (update r (apply_event flip_after e) s.(pool)) s.(world) (s.(history) ++ [Mine r e])).

Definition count_outcome (k : OutcomeKind) : M (Sys W) unit := fun s =>
  (tt, mkSys (with_outcomes (record_outcome k) s.(pool)) s.(world)
         (s.(history) ++ [Counted k])).

(** [Pool::add] and [Pool::remove], by this task. *)
Definition add_entry (p : Provider) : M (Sys W) ptr := fun s =>
  let '(r, pl) := pool_add p s.(pool) in
  (r, mkSys pl s.(world) (s.(history) ++ [Added p])).
Definition remove_entry (i : string) : M (Sys W) (option ptr) := fun s =>
  let '(r, pl) := pool_remove i s.(pool) in
  (r, mkSys pl s.(world) (s.(history) ++ [Removed i])).

Definition read_entry {A} (r : ptr) (f : Provider -> A) (d : A) : M (Sys W) A := fun s =>
  (match entry s.(pool) r with Some p => f p | None => d end, s).

(** A point where the task awaits. *)
Definition let_others_run : M (Sys W) unit := fun s =>
  let '(os, w) := others s.(world) in
  (tt, mkSys (foldl (fun pl o => other_step flip_after o pl) s.(pool) os) w
         (s.(history) ++ (Theirs <$> os))).

(** One HTTP exchange; the others run until its answer is here. *)
Definition post (request : HttpRequest) : M (Sys W) (result HttpError HttpResponse) := fun s =>
  let '(r, w) := http_post request s.(world) in
  let '(_, s) := let_others_run (mkSys s.(pool) w (s.(history) ++ [Sent request])) in
  (r, s).

(** One selection, racing with the others' on the cursor. *)
Definition select : M (Sys W) (option ptr) := fun s =>
  let '(f, w) := others_select s.(world) in
  let '(r, pl) := next_eligible f s.(pool) in (r, mkSys pl w s.(history)).
End world.

(** This task's own part of a history. *)
Definition mine (hs : list Step) : list (ptr * Event) :=
  omap (fun x => match x with Mine r e => Some (r, e) | _ => None end) hs.
Definition sent (hs : list Step) : list HttpRequest :=
  omap (fun x => match x with Sent q => Some q | _ => None end) hs.

Definition counted (hs : list Step) : list OutcomeKind :=
  omap (fun x => match x with Counted k => Some k | _ => None end) hs.

Lemma mine_app h1 h2 : mine (h1 ++ h2) = mine h1 ++ mine h2.
Proof. apply omap_app. Qed.
Lemma sent_app h1 h2 : sent (h1 ++ h2) = sent h1 ++ sent h2.
Proof. apply omap_app. Qed.
Lemma counted_app h1 h2 : counted (h1 ++ h2) = counted h1 ++ counted h2.
Proof. apply omap_app. Qed.
Lemma mine_theirs os : mine (Theirs <$> os) = [].
Proof. induction os; done. Qed.
Lemma sent_theirs os : sent (Theirs <$> os) = [].
Proof. induction os; done. Qed.
Lemma counted_theirs os : counted (Theirs <$> os) = [].
Proof. induction os; done. Qed.
Create Rewrite HintDb lb.
#[export] Hint Rewrite mine_app sent_app counted_app mine_theirs sent_theirs counted_theirs : lb.

(** The pool is what the history made of the one before; only the
    rotation cursor, which every selection moves, is not in it. *)
Definition history_step (flip_after : Z) (pl : Pool) (x : Step) : Pool :=
  match x with
  | Mine r e => update r (apply_event flip_after e) pl
  | Counted k => with_outcomes (record_outcome k) pl
  | Added p => snd (pool_add p pl)
  | Removed i => snd (pool_remove i pl)
  | Theirs o => other_step flip_after o pl
  | Sent _ => pl
  end.

Definition same_pool (p1 p2 : Pool) : Prop := with_cursor 0 p1 = with_cursor 0 p2.

#[export] Instance same_pool_equiv : Equivalence same_pool.
Proof. split; red; unfold same_pool; congruence. Qed.

#[export] Instance history_step_proper flip_after :
  Proper (same_pool ==> eq ==> same_pool) (history_step flip_after).
Proof.
  intros [h1 n1 m1 c1 o1] [h2 n2 m2 c2 o2] E x ? <-. unfold same_pool in *.
  unfold with_cursor in E. cbn in E. injection E as -> -> -> ->.
  assert (forall i, with_cursor 0 (snd (pool_remove i (mkPool h2 n2 m2 c1 o2))) =
    with_cursor 0 (snd (pool_remove i (mkPool h2 n2 m2 c2 o2)))) as Hremove.
  { intros i. unfold pool_remove.
    change (has_id (mkPool h2 n2 m2 c1 o2) i) with (has_id (mkPool h2 n2 m2 c2 o2) i).
    cbn [members]. by destruct (remove_first _ m2). }
  destruct x as [r e|k|p|i|[r e|k|n|p|i]|q]; try reflexivity; apply Hremove.
Qed.

Lemma foldl_same_pool flip_after hs p1 p2 :
  same_pool p1 p2 ->
  same_pool (foldl (history_step flip_after) p1 hs) (foldl (history_step flip_after) p2 hs).
Proof.
  revert p1 p2. induction hs as [|x hs IH]; intros p1 p2 E; cbn; [done|].
  apply IH. by rewrite E.
Qed.

(** [s'] came from [s] by the steps [hs]. *)
Definition steps {W} (flip_after : Z) (s s' : Sys W) (hs : list Step) : Prop :=
  s'.(history) = s.(history) ++ hs /\
  same_pool s'.(pool) (foldl (history_step flip_after) s.(pool) hs).

Section steps_lemmas.
Context {W : Type} `{World W} (flip_after : Z).

Lemma steps_refl (s s' : Sys W) :
  s'.(pool) = s.(pool) -> s'.(history) = s.(history) -> steps flip_after s s' [].
Proof. intros Hp Hh. split; [by rewrite app_nil_r | by rewrite Hp]. Qed.

Lemma steps_trans (s1 s2 s3 : Sys W) h1 h2 :
  steps flip_after s1 s2 h1 -> steps flip_after s2 s3 h2 -> steps flip_after s1 s3 (h1 ++ h2).
Proof.
  intros [E1 P1] [E2 P2]. split; [by rewrite E2, E1, (assoc_L (++))|].
  rewrite foldl_app, P2. by apply foldl_same_pool.
Qed.

Lemma read_clock_steps (s : Sys W) : steps flip_after s (read_clock s).2 [].
Proof. unfold read_clock. destruct (clock _). by apply steps_refl. Qed.

Lemma random_steps (s : Sys W) : steps flip_after s (random s).2 [].
Proof. unfold random. destruct (random_id _). by apply steps_refl. Qed.

Lemma act_steps r e (s : Sys W) : steps flip_after s (act flip_after r e s).2 [Mine r e].
Proof. by split. Qed.

Lemma count_outcome_steps k (s : Sys W) : steps flip_after s (count_outcome k s).2 [Counted k].
Proof. by split. Qed.

Lemma let_others_run_steps (s : Sys W) :
  exists os, steps flip_after s (let_others_run flip_after s).2 (Theirs <$> os).
Proof.
  unfold let_others_run. destruct (others _) as [os w]. exists os. split; [done|]. cbn.
  assert (forall pl, foldl (history_step flip_after) pl (Theirs <$> os) =
    foldl (fun pl o => other_step flip_after o pl) pl os) as ->; [|done].
  induction os as [|o os IH]; intros pl; [done|]. apply IH.
Qed.

Lemma post_steps q (s : Sys W) :
  exists os, steps flip_after s (post flip_after q s).2 (Sent q :: (Theirs <$> os)).
Proof.
  unfold post. destruct (http_post q _) as [r w].
  destruct (let_others_run_steps (mkSys s.(pool) w (s.(history) ++ [Sent q]))) as [os Hos].
  exists os. destruct (let_others_run _ _) as [[] s']. cbn in *.
  change (Sent q :: (Theirs <$> os)) with ([Sent q] ++ (Theirs <$> os)).
  eapply steps_trans; [|exact Hos]. by split.
Qed.

Lemma select_steps (s : Sys W) : steps flip_after s (select s).2 [].
Proof.
  unfold select. destruct (others_select _) as [f w]. unfold next_eligible.
  destruct (Nat.eqb _ 0); [by apply steps_refl|].
  destruct (lap _ _ _ _ _). split; [by rewrite app_nil_r|]. cbn. by destruct s.(pool).
Qed.

(** An entry outlives every step. *)
Lemma history_step_entry x pl r :
  is_Some (entry pl r) -> is_Some (entry (history_step flip_after pl x) r).
Proof.
  intros Hr. unfold entry in *.
  assert (forall r' f pl', is_Some (heap pl' !! r) -> is_Some (heap (update r' f pl') !! r)) as Hu.
  { intros r' f pl' Hs. cbn. destruct (decide (r' = r)) as [->|Hne].
    - rewrite lookup_alter_eq. by apply fmap_is_Some.
    - by rewrite lookup_alter_ne. }
  assert (forall p, is_Some (heap (snd (pool_add p pl)) !! r)) as Hadd.
  { intros p. cbn. destruct (decide (r = next_ptr pl)) as [->|Hne];
      [by rewrite lookup_insert_eq | by rewrite lookup_insert_ne]. }
  assert (forall i, is_Some (heap (snd (pool_remove i pl)) !! r)) as Hremove.
  { intros i. unfold pool_remove. by destruct (remove_first _ _). }
  destruct x as [r' e|k|p|i|[r' e|k|n|p|i]|q]; cbn [history_step other_step]; try done;
    try by apply Hu.
Qed.

Lemma steps_entry (s s' : Sys W) hs r :
  steps flip_after s s' hs -> is_Some (entry s.(pool) r) -> is_Some (entry s'.(pool) r).
Proof.
  intros [_ Hp] Hr.
  assert (entry s'.(pool) r = entry (foldl (history_step flip_after) s.(pool) hs) r) as ->.
  { unfold same_pool, with_cursor in Hp. injection Hp as Hh _ _ _. unfold entry. by rewrite Hh. }
  clear Hp. revert Hr. generalize s.(pool). induction hs as [|x hs IH]; intros pl Hr; [done|].
  cbn. by apply IH, history_step_entry.
Qed.

Lemma read_entry_steps {A} r (f : Provider -> A) d (s : Sys W) :
  steps flip_after s (read_entry r f d s).2 [].
Proof. by apply steps_refl. Qed.
End steps_lemmas.

(** * Computations of certain steps

    What a computation did, whatever it answers: every step of it, its
    own and the others' in between, is one of [P]'s. *)
Definition does {W A} (flip_after : Z) (P : Step -> Prop) (m : M (Sys W) A) : Prop :=
  forall s, exists hs, steps flip_after s (m s).2 hs /\ Forall P hs.

Section does.
Context {W : Type} `{World W} (flip_after : Z) (P : Step -> Prop).
Abbreviation does := (does flip_after P) (only parsing).

Lemma does_nothing {A} (m : M (Sys W) A) : (forall s, steps flip_after s (m s).2 []) -> does m.
Proof. intros Hm s. by exists []. Qed.

Lemma does_ret {A} (a : A) : does (mret a : M (Sys W) A).
Proof. apply does_nothing. intros s. by apply steps_refl. Qed.

Lemma does_bind {A B} (m : M (Sys W) A) (f : A -> M (Sys W) B) :
  does m -> (forall a, does (f a)) -> does (m ≫= f).
Proof.
  intros Hm Hf s. unfold mbind, M_bind. destruct (Hm s) as (h1 & S1 & Q1).
  destruct (m s) as [a s1]. destruct (Hf a s1) as (h2 & S2 & Q2).
  exists (h1 ++ h2). split; [by eapply steps_trans | by apply Forall_app].
Qed.

Lemma does_fmap {A B} (f : A -> B) (m : M (Sys W) A) : does m -> does (f <$> m).
Proof.
  intros Hm s. unfold fmap, M_fmap. destruct (Hm s) as (hs & Hs). exists hs. by destruct (m s).
Qed.

Lemma does_try {E A B} (m : M (Sys W) (result E A)) (f : A -> M (Sys W) (result E B)) :
  does m -> (forall a, does (f a)) -> does (try_m m f).
Proof. intros Hm Hf. apply does_bind; [exact Hm|]. intros [a|e]; [apply Hf | apply does_ret]. Qed.

Lemma does_clock : does (read_clock : M (Sys W) Z).
Proof. apply does_nothing, read_clock_steps. Qed.
Lemma does_random : does (random : M (Sys W) Z).
Proof. apply does_nothing, random_steps. Qed.
Lemma does_entry {A} r (f : Provider -> A) d : does (read_entry (W:=W) r f d).
Proof. apply does_nothing. intros s. apply read_entry_steps. Qed.

Lemma does_act r e : P (Mine r e) -> does (act (W:=W) flip_after r e).
Proof. intros HP s. exists [Mine r e]. split; [apply act_steps | by constructor]. Qed.

Lemma does_others :
  (forall w : W, Forall (fun o => P (Theirs o)) (others w).1) ->
  does (let_others_run (W:=W) flip_after).
Proof.
  intros HP s. unfold let_others_run. pose proof (HP s.(world)) as Hb.
  pose proof (let_others_run_steps flip_after s) as [os Hos]. unfold let_others_run in Hos.
  destruct (others s.(world)) as [os' w]. exists (Theirs <$> os'). cbn in *.
  split; [|by apply Forall_fmap]. destruct Hos as [Hh _]. cbn in Hh.
  split; [done|]. cbn. clear. generalize (pool s). induction os' as [|o os IH]; intros pl; [done|].
  apply IH.
Qed.

Lemma does_post q :
  (forall w : W, Forall (fun o => P (Theirs o)) (others w).1) -> P (Sent q) ->
  does (post (W:=W) flip_after q).
Proof.
  intros HP Hq s. unfold post. destruct (http_post q _) as [r w].
  destruct (does_others HP (mkSys s.(pool) w (s.(history) ++ [Sent q]))) as (hs & Hs & Hhs).
  exists ([Sent q] ++ hs). destruct (let_others_run _ _) as [[] s']. split.
  - eapply steps_trans; [|exact Hs]. by split.
  - by constructor.
Qed.
End does.

(** * Quiet computations

    The calls of the chain clients, and whatever else changes no entry
    itself: only requests go out, and only the others act. What the
    others do is what the rest of the program does: only the agent
    brings entries in and out and moves their served counts at a
    settlement, so a rely says they do not. *)
Definition benign (o : OtherStep) : Prop :=
  match o with
  | OAdd _ | ORemove _ | OEvent _ (OnSeed _) | OEvent _ (OnSubtract _) => False
  | _ => True
  end.

Definition quiet_step (x : Step) : Prop :=
  match x with
  | Sent _ => True
  | Theirs o => benign o
  | _ => False
  end.

Definition quiet {W A} (flip_after : Z) (m : M (Sys W) A) : Prop := does flip_after quiet_step m.

Class Rely (W : Type) `{World W} : Prop := {
  others_benign : forall w, Forall benign (others w).1;
}.

Section quiet.
Context {W : Type} `{World W} (flip_after : Z).

Lemma quiet_ret {A} (a : A) : quiet flip_after (mret a : M (Sys W) A).
Proof. apply does_ret. Qed.
Lemma quiet_bind {A B} (m : M (Sys W) A) (f : A -> M (Sys W) B) :
  quiet flip_after m -> (forall a, quiet flip_after (f a)) -> quiet flip_after (m ≫= f).
Proof. apply does_bind. Qed.
Lemma quiet_fmap {A B} (f : A -> B) (m : M (Sys W) A) :
  quiet flip_after m -> quiet flip_after (f <$> m).
Proof. apply does_fmap. Qed.
Lemma quiet_try {E A B} (m : M (Sys W) (result E A)) (f : A -> M (Sys W) (result E B)) :
  quiet flip_after m -> (forall a, quiet flip_after (f a)) -> quiet flip_after (try_m m f).
Proof. apply does_try. Qed.
Lemma quiet_clock : quiet flip_after (read_clock : M (Sys W) Z).
Proof. apply does_clock. Qed.
Lemma quiet_random : quiet flip_after (random : M (Sys W) Z).
Proof. apply does_random. Qed.
Lemma quiet_entry {A} r (f : Provider -> A) d : quiet flip_after (read_entry (W:=W) r f d).
Proof. apply does_entry. Qed.
Lemma quiet_others `{!Rely W} : quiet flip_after (let_others_run (W:=W) flip_after).
Proof. apply does_others, others_benign. Qed.
Lemma quiet_post `{!Rely W} q : quiet flip_after (post (W:=W) flip_after q).
Proof. apply does_post; [apply others_benign | done]. Qed.
End quiet.

#[export] Hint Resolve quiet_ret quiet_bind quiet_fmap quiet_try quiet_clock quiet_random
  quiet_entry quiet_others quiet_post : lb.

(** A world where this task is alone, its clock a list of readings and
    the network a list of answers: for the witnesses. *)
Record Script : Type := mkScript {
  readings : list Z;
  answers : list (result HttpError HttpResponse);
  meanwhile : list (list OtherStep);
}.

#[export] Instance script_world : World Script := {
  clock w := (hd 0 w.(readings), mkScript (tl w.(readings)) w.(answers) w.(meanwhile));
  http_post _ w :=
    (hd (Err false) w.(answers), mkScript w.(readings) (tl w.(answers)) w.(meanwhile));
  others w := (hd [] w.(meanwhile), mkScript w.(readings) w.(answers) (tl w.(meanwhile)));
  random_id w := (1, w);
  others_select w := (fun _ => 0, w);
}.

(** One provider in the pool, and a script to run on it. *)
Definition demo_system (w : Script) : Sys Script :=
  mkSys (snd (pool_add (provider_new 0 "a" "http://a" Static) empty_pool)) w [].

(** * An entry through a history

    What happened to one entry, by any task, in order: an entry in the
    store is what these events made of it. *)
Definition events_on (r : ptr) (hs : list Step) : list Event :=
  omap (fun x => match x with
                 | Mine r' e | Theirs (OEvent r' e) => if decide (r' = r) then Some e else None
                 | _ => None
                 end) hs.

Lemma events_on_app r h1 h2 : events_on r (h1 ++ h2) = events_on r h1 ++ events_on r h2.
Proof. apply omap_app. Qed.

Lemma history_step_run flip_after pl x r p :
  pool_wf pl -> entry pl r = Some p ->
  pool_wf (history_step flip_after pl x) /\
  entry (history_step flip_after pl x) r = Some (run flip_after (events_on r [x]) p).
Proof.
  intros Hwf Hp.
  assert (forall q, entry (snd (pool_add q pl)) r = Some p) as Hadd.
  { intros q. rewrite pool_add_entry, decide_False; [done|]. intros <-.
    pose proof (wf_fresh _ Hwf (next_ptr pl)) as Hf. unfold entry in Hp. rewrite Hp in Hf.
    specialize (Hf (mk_is_Some _ _ eq_refl)). lia. }
  assert (forall i, entry (snd (pool_remove i pl)) r = Some p) as Hrm.
  { intros i. unfold pool_remove. by destruct (remove_first _ _). }
  assert (forall r' e, entry (update r' (apply_event flip_after e) pl) r =
    Some (run flip_after (if decide (r' = r) then [e] else []) p)) as Hup.
  { intros r' e. rewrite entry_update, Hp. by destruct (decide (r' = r)). }
  destruct x as [r' e|k|q|i|[r' e|k|n|q|i]|q]; cbn [history_step other_step events_on omap list_omap];
    (split; [auto with lb; destruct Hwf; by constructor|]); try done;
    rewrite Hup; by destruct (decide (r' = r)).
Qed.

Lemma steps_run {W} flip_after (s s' : Sys W) hs r p :
  steps flip_after s s' hs -> pool_wf s.(pool) -> entry s.(pool) r = Some p ->
  entry s'.(pool) r = Some (run flip_after (events_on r hs) p).
Proof.
  intros [_ Hp] Hwf He.
  assert (entry s'.(pool) r = entry (foldl (history_step flip_after) s.(pool) hs) r) as ->.
  { unfold same_pool, with_cursor in Hp. injection Hp as Hh _ _ _. unfold entry. by rewrite Hh. }
  clear Hp. revert p He Hwf. generalize s.(pool). induction hs as [|x hs IH]; intros pl p He Hwf; [done|].
  destruct (history_step_run flip_after pl x r p Hwf He) as [Hwf' He'].
  change (x :: hs) with ([x] ++ hs). rewrite events_on_app, run_app. cbn [app foldl]. by apply IH.
Qed.

Lemma history_step_wf flip_after pl x : pool_wf pl -> pool_wf (history_step flip_after pl x).
Proof.
  intros Hwf. destruct x as [r e|k|q|i|[r e|k|n|q|i]|q]; cbn [history_step other_step];
    auto with lb; destruct Hwf; by constructor.
Qed.

Lemma steps_wf {W} flip_after (s s' : Sys W) hs :
  steps flip_after s s' hs -> pool_wf s.(pool) -> pool_wf s'.(pool).
Proof.
  intros [_ Hp] Hwf.
  assert (pool_wf (foldl (history_step flip_after) s.(pool) hs)) as H.
  { clear Hp. revert Hwf. generalize s.(pool). induction hs as [|x hs IH]; intros pl Hwf; [done|].
    cbn. by apply IH, history_step_wf. }
  revert H Hp. unfold same_pool, with_cursor. destruct s'.(pool), (foldl _ _ hs). cbn.
  intros [? ? ?] [= -> -> -> ->]. by constructor.
Qed.

(** No event moves an entry to another place. *)
Lemma run_place flip_after es p :
  (run flip_after es p).(url) = p.(url) /\ (run flip_after es p).(id) = p.(id) /\
  (run flip_after es p).(source) = p.(source).
Proof.
  assert (forall e q, (apply_event flip_after e q).(url) = q.(url) /\
    (apply_event flip_after e q).(id) = q.(id) /\
    (apply_event flip_after e q).(source) = q.(source)) as Hstep.
  { intros e q. destruct e as [? ?|?|v ?| | | | | | | | | | | |]; try done; cbn;
      unfold record_health, quarantine, record_integrity; repeat case_match; done. }
  revert p. induction es as [|e es IH]; intros p; [done|].
  change (run flip_after (e :: es) p) with (run flip_after es (apply_event flip_after e p)).
  destruct (IH (apply_event flip_after e p)) as (-> & -> & ->). apply Hstep.
Qed.

(** * What an entry may hold

    Every field of an entry, the outcome counters and the cursor stay in
    their machine type's range, whatever the tasks of the service do. *)
Record provider_typed (p : Provider) : Prop := {
  ty_wf : provider_wf p;
  ty_verdict_height : is_u64 p.(verdict_height);
  ty_height : is_u64 p.(height);
  ty_served : is_u64 p.(served);
  ty_served_total : is_u64 p.(served_total);
  ty_failures : is_u64 p.(transport_failures);
  ty_streak : is_u32 p.(unanswered_probe_streak);
  ty_probe_ms : is_u64 p.(last_probe_ms);
  ty_answer_ms : is_u64 p.(last_answer_ms);
}.

Definition event_typed (e : Event) : Prop :=
  match e with
  | OnVerdict _ n | OnHeight n | OnSeed n | OnSubtract n => is_u64 n
  | OnProbeDuration d => 0 <= d
  | _ => True
  end.

Definition step_typed (x : Step) : Prop :=
  match x with
  | Mine _ e | Theirs (OEvent _ e) => event_typed e
  | Added p | Theirs (OAdd p) => provider_typed p
  | _ => True
  end.

Record pool_typed (pl : Pool) : Prop := {
  ty_pool : pool_wf pl;
  ty_entries : forall r p, entry pl r = Some p -> provider_typed p;
  ty_cursor : is_u64 pl.(cursor);
  ty_outcomes : is_u64 pl.(lb_outcomes).(no_healthy_provider) /\
                is_u64 pl.(lb_outcomes).(timed_out) /\
                is_u64 pl.(lb_outcomes).(no_provider_answered);
}.

Section typed.
Context (flip_after : Z).

Lemma mod_u64 a : is_u64 (a mod (u64_max + 1)).
Proof. rewrite <- (Z.add_0_r a). apply (add_u64_range a 0). Qed.

Lemma age_ms_range now p : is_u64 (age_ms now p).
Proof. apply mod_u64. Qed.

Lemma mod_u32 a : is_u32 (a mod (u32_max + 1)).
Proof. unfold is_u32. pose proof (Z.mod_pos_bound a (u32_max + 1) ltac:(done)). lia. Qed.

Lemma event_keeps_typed e p :
  event_typed e -> provider_typed p -> provider_typed (apply_event flip_after e p).
Proof.
  intros He [Hwf Hv Hh Hs Ht Hf Hu Hp Ha].
  constructor; [exact (run_wf flip_after [e] p Hwf)|..]; destruct e; cbn in *;
    provider_unfold; repeat case_match; cbn;
    auto using mod_u64, mod_u32, age_ms_range, add_u64_range.
  all: try (unfold is_u64, is_u32, sat_sub in *; machine_unfold; lia).
  split; [apply Z.div_pos; done | by apply Z.leb_le].
Qed.

Lemma new_entry_typed now i u src : provider_typed (provider_new now i u src).
Proof. repeat constructor; done || by eexists. Qed.

Lemma update_typed r f pl :
  (forall p, provider_typed p -> provider_typed (f p)) ->
  pool_typed pl -> pool_typed (update r f pl).
Proof.
  intros Hf [Hwf He Hc Ho]. constructor; [by apply update_wf| |done..].
  intros r' p. rewrite entry_update. destruct (decide (r = r')); [|apply He].
  intros (q & Hq & ->)%fmap_Some. eauto.
Qed.

Lemma add_typed p pl : provider_typed p -> pool_typed pl -> pool_typed (snd (pool_add p pl)).
Proof.
  intros Hp [Hwf He Hc Ho]. constructor; [by apply pool_add_wf| |done..].
  intros r q. rewrite pool_add_entry. destruct (decide _); [congruence|apply He].
Qed.

Lemma remove_typed i pl : pool_typed pl -> pool_typed (snd (pool_remove i pl)).
Proof.
  intros [Hwf He Hc Ho]. pose proof (pool_remove_wf i pl Hwf) as Hwf'. revert Hwf'.
  unfold pool_remove. destruct (remove_first _ _). by constructor.
Qed.

Lemma outcome_typed k pl : pool_typed pl -> pool_typed (with_outcomes (record_outcome k) pl).
Proof.
  intros [[W1 W2 W3] He Hc (O1 & O2 & O3)]. constructor; [by constructor|done..|].
  destruct k; cbn; auto using add_u64_range.
Qed.

Lemma cursor_typed n pl : is_u64 n -> pool_typed pl -> pool_typed (with_cursor n pl).
Proof. intros Hn [[W1 W2 W3] He Hc Ho]. by constructor; [constructor|..]. Qed.
#[local] Hint Resolve event_keeps_typed update_typed add_typed remove_typed outcome_typed
  cursor_typed add_u64_range : core.

Lemma step_keeps_typed x pl :
  step_typed x -> pool_typed pl -> pool_typed (history_step flip_after pl x).
Proof. destruct x as [r e|k|p|i|[r e|k|n|p|i]|q]; cbn [step_typed history_step other_step]; auto. Qed.

(** C25: Type safety of the shared pool: whatever sequence of this task's
    and the other tasks' operations runs on it, every entry keeps its
    cells in their machine type's range (the eligibility byte only its
    two gates, the health source a known signal), members stay distinct
    live references, and the cursor and the outcome counters stay [u64]s;
    the steps have only to bring arguments of their own types. *)
Theorem pool_stays_typed hs pl :
  pool_typed pl -> Forall step_typed hs ->
  pool_typed (foldl (history_step flip_after) pl hs).
Proof.
  intros Hpl Hhs. revert pl Hpl. induction Hhs as [|x hs Hx _ IH]; intros pl Hpl; cbn; [done|].
  by apply IH, step_keeps_typed.
Qed.
End typed.

Lemma empty_pool_typed : pool_typed empty_pool.
Proof.
  constructor; [apply empty_pool_wf| |done..].
  intros r p. unfold entry. cbn. by rewrite lookup_empty.
Qed.

Definition saturating_history : list Step :=
  [ Added (provider_new 0 "a" "http://a" Static);
    Mine 0%nat (OnSeed u64_max); Mine 0%nat (OnServed (as_millis duration_max));
    Theirs (OEvent 0%nat (OnVerdict Divergence u64_max));
    Theirs (OEvent 0%nat (OnHeight u64_max)); Mine 0%nat (OnSubtract 7);
    Mine 0%nat (OnProbeDuration duration_max); Theirs (OCursor u64_max); Removed "a" ].

Lemma pool_stays_typed_witness :
  let pl := foldl (history_step 3) empty_pool saturating_history in
  pool_typed pl /\ members pl = [] /\ served <$> entry pl 0%nat = Some 0 /\
  last_height <$> entry pl 0%nat = Some (Some (u64_max - 1)).
Proof.
  split; [|by split_and!].
  apply (pool_stays_typed 3 saturating_history empty_pool).
  - apply empty_pool_typed.
  - repeat constructor; done || by eexists.
Defined.
