(* ===== verification/Served.v ===== *)
(** What a provider served, followed through a history: the counter an
    entry holds is what the steps of every task made of it, so a flush
    can say of each call which period bills it. *)

From S2P Require Import Prelude External Pool World.

#[local] Open Scope Z_scope.

(** The counter after one event. *)
Definition served_event (e : Event) (n : Z) : Z :=
  match e with
  | OnServed _ => add_u64 n 1
  | OnSeed c => add_u64 n c
  | OnSubtract c => sat_sub n c
  | _ => n
  end.

Definition served_step (r : ptr) (n : Z) (x : Step) : Z :=
  match x with
  | Mine r' e | Theirs (OEvent r' e) => if decide (r' = r) then served_event e n else n
  | _ => n
  end.

Definition served_through (r : ptr) (hs : list Step) (n : Z) : Z := foldl (served_step r) n hs.

(** The calls credited to an entry in a history. *)
Definition calls (r : ptr) (hs : list Step) : Z :=
  Z.of_nat (length (List.filter (fun x =>
    match x with
    | Mine r' (OnServed _) | Theirs (OEvent r' (OnServed _)) => bool_decide (r' = r)
    | _ => false
    end) hs)).

Lemma calls_app r h1 h2 : calls r (h1 ++ h2) = calls r h1 + calls r h2.
Proof. unfold calls. rewrite List.filter_app, length_app. lia. Qed.

Lemma calls_nonneg r hs : 0 <= calls r hs.
Proof. unfold calls. lia. Qed.

Lemma apply_event_served flip_after e p :
  (apply_event flip_after e p).(served) = served_event e p.(served).
Proof.
  destruct e as [? ?|?|v ?| | | | | | | | | | | |]; try done; cbn;
    unfold record_health, quarantine, record_integrity; repeat case_match; done.
Qed.

Lemma update_served flip_after r r' e pl p :
  entry pl r = Some p ->
  exists p', entry (update r' (apply_event flip_after e) pl) r = Some p' /\
    p'.(served) = if decide (r' = r) then served_event e p.(served) else p.(served).
Proof.
  intros Hp. rewrite entry_update, Hp. case_decide; cbn; [|by exists p].
  eexists. split; [done|]. apply apply_event_served.
Qed.

Lemma history_step_served flip_after pl x r p :
  pool_wf pl -> entry pl r = Some p ->
  pool_wf (history_step flip_after pl x) /\
  exists p', entry (history_step flip_after pl x) r = Some p' /\
    p'.(served) = served_step r p.(served) x.
Proof.
  intros Hwf Hp.
  assert (forall q, pool_wf (snd (pool_add q pl)) /\ exists p',
    entry (snd (pool_add q pl)) r = Some p' /\ p'.(served) = p.(served)) as Hadd.
  { intros q. split; [by apply pool_add_wf|]. rewrite pool_add_entry, decide_False; [by exists p|].
    intros <-. pose proof (wf_fresh _ Hwf (next_ptr pl)) as Hf. unfold entry in Hp.
    rewrite Hp in Hf. specialize (Hf (mk_is_Some _ _ eq_refl)). lia. }
  assert (forall i, pool_wf (snd (pool_remove i pl)) /\ exists p',
    entry (snd (pool_remove i pl)) r = Some p' /\ p'.(served) = p.(served)) as Hrm.
  { intros i. split; [by apply pool_remove_wf|]. exists p. split; [|done].
    unfold pool_remove. by destruct (remove_first _ _). }
  destruct x as [r' e|k|q|i|[r' e|k|n|q|i]|q]; cbn [history_step other_step served_step]; auto;
    try (split; [by apply update_wf | by apply update_served]);
    (split; [destruct Hwf; by constructor | by exists p]).
Qed.

Lemma steps_served {W} flip_after (s s' : Sys W) hs r p :
  steps flip_after s s' hs -> pool_wf s.(pool) -> entry s.(pool) r = Some p ->
  exists p', entry s'.(pool) r = Some p' /\ p'.(served) = served_through r hs p.(served).
Proof.
  intros [_ Hp] Hwf He.
  assert (entry s'.(pool) r = entry (foldl (history_step flip_after) s.(pool) hs) r) as ->.
  { unfold same_pool, with_cursor in Hp. injection Hp as Hh _ _ _. unfold entry. by rewrite Hh. }
  clear Hp. revert p He Hwf. generalize s.(pool). induction hs as [|x hs IH]; intros pl p He Hwf.
  - by exists p.
  - cbn. destruct (history_step_served flip_after pl x r p Hwf He) as (Hwf' & p1 & He1 & Hs1).
    destruct (IH _ p1 He1 Hwf') as (p' & He' & Hs'). exists p'. split; [done|].
    by rewrite Hs', Hs1.
Qed.

(** A step that credits no call. *)
Ltac no_call IH :=
  match goal with Hmax : context [calls ?r [?y]] |- _ =>
    assert (calls r [y] = 0) as E by reflexivity; rewrite E in *; rewrite IH; lia
  end.

(** While only the others act, an entry's counter grows by the calls they
    credit to it. *)
Lemma quiet_served r hs n :
  Forall quiet_step hs -> 0 <= n -> n + calls r hs <= u64_max ->
  served_through r hs n = n + calls r hs.
Proof.
  unfold served_through. intros Hq. revert n. induction Hq as [|x hs Hx Hq IH]; intros n Hn Hmax.
  - change (calls r []) with 0. cbn [foldl]. lia.
  - change (x :: hs) with ([x] ++ hs) in Hmax |- *. rewrite calls_app in *. cbn [app foldl].
    pose proof (calls_nonneg r hs).
    destruct x as [r' e|k|q|i|[r' e|k|m|q|i]|q]; try done; cbn [served_step];
      try (no_call IH).
    case_decide as Hr.
    + subst r'. destruct e as [? ?|?|? ?|t| | | | | | | | | | |]; try done;
        cbn [served_event]; try (no_call IH).
      assert (calls r [Theirs (OEvent r (OnServed t))] = 1) as E.
      { unfold calls. cbn. by rewrite bool_decide_true. }
      rewrite E in *. rewrite add_u64_small by (machine_unfold; lia). rewrite IH; lia.
    + assert (calls r [Theirs (OEvent r' e)] = 0) as E.
      { unfold calls. cbn. destruct e; try done. by rewrite bool_decide_false. }
      rewrite E in *. rewrite IH; lia.
Qed.

(** ** One event per entry *)

Definition mine_of (l : list (ptr * Event)) : list Step := (fun x => Mine x.1 x.2) <$> l.

Lemma served_through_out r l n : r ∉ l.*1 -> served_through r (mine_of l) n = n.
Proof.
  unfold served_through, mine_of. revert n. induction l as [|[r' e] l IH]; intros n; [done|].
  cbn. rewrite not_elem_of_cons. intros [Hne Hr]. rewrite decide_False by done. by apply IH.
Qed.

Lemma served_through_in r e l n :
  NoDup l.*1 -> (r, e) ∈ l -> served_through r (mine_of l) n = served_event e n.
Proof.
  induction l as [|[r' e'] l IH]; [by intros _ ?%elem_of_nil|]. cbn.
  rewrite NoDup_cons, elem_of_cons. intros [Hr' Hnd] [[= <- <-]|Hin].
  - unfold served_through. cbn. rewrite decide_True by done. by apply served_through_out.
  - unfold served_through. cbn. rewrite decide_False; [by apply IH|].
    intros ->. apply Hr'. apply list_elem_of_fmap. by exists (r, e).
Qed.
