(* ===== verification/Forwarder.v ===== *)
(** One forwarding attempt, [crates/lb/src/forwarder.rs]: one client
    request to one provider. *)

From S2P Require Import Prelude External Concrete Pool World Jsonrpc.

#[local] Open Scope Z_scope.

(** An HTTP response as a handler makes it: a status, headers, and a body
    that is bytes, text or a JSON value. *)
Inductive RespBody : Type :=
| RBytes (x : Bytes)
| RText (s : string)
| RJson (v : Value).

Record Response : Type := mkResponse {
  resp_status : Z;
  resp_headers : list (string * string);
  resp_body : RespBody;
}.

Record Forwarder : Type := mkForwarder { max_response_size : Z }.

Inductive Outcome : Type :=
| Answer (r : Response)
| NoAnswer
| TimedOut
| TooLarge.

(** [failure]: the timeout told apart from the rest. *)
Definition failure (e : HttpError) : Outcome := if e then TimedOut else NoAnswer.

Definition REFUSAL_MAX : Z := 4096.

Definition looks_like_json (body : Bytes) : bool :=
  match List.find (fun c => negb (is_ascii_whitespace c)) body with
  | Some c => bool_decide (c = x7b) || bool_decide (c = x5b)
  | None => false
  end.

(** The chunks of a body, up to the cap, or the outcome that cuts the
    read short. *)
Fixpoint collect (cap : Z) (cs : list Bytes) (e : BodyEnd) (collected : Bytes) :
    Outcome + Bytes :=
  match cs with
  | [] => match e with
          | BodyDone => inr collected
          | BodyBroken timeout => inl (failure timeout)
          end
  | c :: cs =>
      if Z.ltb cap (Z.of_nat (length collected) + Z.of_nat (length c))
      then inl TooLarge
      else collect cap cs e (collected ++ c)
  end.

Section forwarder.
Context `{SerdeJson}.

(** A batch is judged entry by entry, each by its [jsonrpc] field. *)
Definition is_json_rpc_response (body : Bytes) : bool :=
  if Z.ltb REFUSAL_MAX (Z.of_nat (length body)) then false
  else match from_slice body with
       | Some (Object fields) => bool_decide (is_Some (value_get "jsonrpc" (Object fields)))
       | Some (Array batch) =>
           negb (Nat.eqb (length batch) 0) &&
           forallb (fun item => bool_decide (is_Some (value_get "jsonrpc" item))) batch
       | _ => false
       end.

(** What an attempt makes of the exchange's result. *)
Definition judge_response (f : Forwarder) (sent : result HttpError HttpResponse) : Outcome :=
  match sent with
  | Err e => failure e
  | Ok response =>
      let refused := Z.eqb response.(status) 400 in
      let answered := is_success response.(status) || refused in
      if negb answered then NoAnswer
      else
        let cap := f.(max_response_size) in
        if (match response.(content_length) with Some n => Z.ltb cap n | None => false end)
        then TooLarge
        else match collect cap response.(chunks) response.(body_end) [] with
             | inl outcome => outcome
             | inr collected =>
                 if negb (looks_like_json collected) then NoAnswer
                 else if refused && negb (is_json_rpc_response collected) then NoAnswer
                 else Answer (mkResponse response.(status)
                        [("content-type", "application/json")]%string (RBytes collected))
             end
  end.

(** [Forwarder::attempt]: the body crosses untouched, the headers are
    fresh ones. *)
Definition attempt {W} `{World W} (flip_after : Z) (f : Forwarder) (url : Url) (body : Bytes)
    (timeout : Z) : M (Sys W) Outcome :=
  sent ← post flip_after (mkHttpRequest POST url "application/json" None body timeout);
  mret (judge_response f sent).
End forwarder.

(** * Lemmas *)

(** What the loop read: everything, within the cap, or why it stopped. *)
Lemma collect_spec cap cs e acc :
  Z.of_nat (length acc) <= cap ->
  match collect cap cs e acc with
  | inr body => body = acc ++ concat cs /\ e = BodyDone /\ Z.of_nat (length body) <= cap
  | inl o => (o = TooLarge /\ cap < Z.of_nat (length (acc ++ concat cs))) \/
             (exists t, e = BodyBroken t /\ o = failure t)
  end.
Proof.
  revert acc. induction cs as [|c cs IH]; intros acc Hacc; cbn [collect concat].
  - destruct e; [by rewrite app_nil_r | right; by eexists].
  - destruct (Z.ltb_spec cap (Z.of_nat (length acc) + Z.of_nat (length c))) as [Hlt|Hge].
    + left. split; [done|]. rewrite !length_app. lia.
    + specialize (IH (acc ++ c)). rewrite <- !(assoc_L (++)) in IH. apply IH.
      rewrite length_app. lia.
Qed.

Lemma looks_like_json_spec body :
  looks_like_json body = true <->
  exists ws c rest, body = ws ++ c :: rest /\
    Forall (fun w => is_ascii_whitespace w = true) ws /\ (c = x7b \/ c = x5b).
Proof.
  unfold looks_like_json. destruct (List.find _ body) as [c|] eqn:E.
  - apply find_first in E as (ws & rest & -> & Hc & Hws).
    rewrite orb_true_iff, !bool_decide_eq_true. split.
    + intros Hb. exists ws, c, rest. split_and!; [done| |done].
      eapply Forall_impl; [exact Hws|]. intros w Hw. by apply negb_false_iff.
    + intros (ws' & c' & rest' & E & Hws' & Hc').
      assert (is_ascii_whitespace c' = false) as Hc'' by (by destruct Hc' as [->| ->]).
      assert (List.find (fun c => negb (is_ascii_whitespace c)) (ws ++ c :: rest) = Some c') as Hf.
      { apply find_first. exists ws', rest'. split_and!; [done | by rewrite Hc'' |].
        eapply Forall_impl; [exact Hws'|]. intros w Hw. by rewrite Hw. }
      assert (List.find (fun c => negb (is_ascii_whitespace c)) (ws ++ c :: rest) = Some c) as Hg.
      { apply find_first. by exists ws, rest. }
      rewrite Hf in Hg. by injection Hg as ->.
  - split; [done|]. intros (ws & c & rest & -> & Hws & Hc).
    assert (List.find (fun c => negb (is_ascii_whitespace c)) (ws ++ c :: rest) = Some c) as Hf.
    { apply find_first. exists ws, rest. split_and!; [done | by destruct Hc as [->| ->] |].
      eapply Forall_impl; [exact Hws|]. intros w Hw. by rewrite Hw. }
    congruence.
Qed.

(** * Theorems *)

(** An answer is what a node's RPC layer produced, passed on as it came:
    the exchange completed with a 2xx or a 400, the whole body fits the
    cap and starts as a JSON object or array, a 400's body is a JSON-RPC
    response; and the client gets that status and exactly those bytes.
    The other outcomes are told apart by what happened: over the cap
    means over it, timed out means the exchange or the body read did. *)
Theorem attempt_outcomes `{SerdeJson} f sent :
  0 <= f.(max_response_size) ->
  match judge_response f sent with
  | Answer r => exists resp, sent = Ok resp /\ resp.(body_end) = BodyDone /\
      r.(resp_status) = resp.(status) /\ r.(resp_body) = RBytes (concat resp.(chunks)) /\
      Z.of_nat (length (concat resp.(chunks))) <= f.(max_response_size) /\
      looks_like_json (concat resp.(chunks)) = true /\
      (is_success resp.(status) = true \/
       resp.(status) = 400 /\ is_json_rpc_response (concat resp.(chunks)) = true)
  | TimedOut => sent = Err true \/
      exists resp, sent = Ok resp /\ resp.(body_end) = BodyBroken true
  | TooLarge => exists resp, sent = Ok resp /\
      (is_success resp.(status) = true \/ resp.(status) = 400) /\
      ((exists n, resp.(content_length) = Some n /\ f.(max_response_size) < n) \/
       f.(max_response_size) < Z.of_nat (length (concat resp.(chunks))))
  | NoAnswer => sent = Err false \/ exists resp, sent = Ok resp /\
      ((is_success resp.(status) = false /\ resp.(status) <> 400) \/
       resp.(body_end) = BodyBroken false \/
       looks_like_json (concat resp.(chunks)) = false \/
       is_json_rpc_response (concat resp.(chunks)) = false /\ resp.(status) = 400)
  end.
Proof.
  intros Hcap. unfold judge_response. destruct sent as [resp|[]]; cbn [failure]; [|by left..].
  destruct (is_success resp.(status) || Z.eqb resp.(status) 400) eqn:Ea; cbn [negb].
  2:{ right. exists resp. split; [done|]. left. apply orb_false_iff in Ea as [-> Ea].
      split; [done|]. by apply Z.eqb_neq. }
  assert (is_success resp.(status) = true \/ resp.(status) = 400) as Hst.
  { apply orb_true_iff in Ea as [->|Ea]; [by left|]. right. by apply Z.eqb_eq. }
  destruct (match resp.(content_length) with Some n => _ | None => _ end) eqn:El.
  { exists resp. split_and!; [done|done|]. left.
    destruct resp.(content_length) as [n|]; [|done]. exists n. split; [done|].
    by apply Z.ltb_lt. }
  pose proof (collect_spec f.(max_response_size) resp.(chunks) resp.(body_end) [] Hcap) as Hc.
  destruct (collect _ _ _ _) as [o|body].
  - destruct Hc as [[-> Hc]|([] & He & ->)]; cbn [failure].
    + exists resp. split_and!; [done|done|by right].
    + right. by exists resp.
    + right. exists resp. split; [done|]. right. by left.
  - destruct Hc as (-> & He & Hlen). cbn [app] in *.
    destruct (looks_like_json _) eqn:Ej; cbn [negb].
    2:{ right. exists resp. split; [done|]. right. right. by left. }
    destruct (Z.eqb_spec resp.(status) 400) as [E4|E4], (is_json_rpc_response _) eqn:Er;
      cbn [andb negb].
    2:{ right. exists resp. split; [done|]. right. right. by right. }
    all: exists resp; split_and!; try done; destruct Hst; naive_solver.
Qed.

(** ** What an exchange is worth, told apart by what happened *)

Section judged.
Context `{SerdeJson} (f : Forwarder).

(** A status whose body is looked at. *)
Definition looked_at_status (resp : HttpResponse) : Prop :=
  is_success resp.(status) = true \/ resp.(status) = 400.
(** Over the cap: announced to be, or read so far. *)
Definition over_cap (resp : HttpResponse) : Prop :=
  (exists n, resp.(content_length) = Some n /\ f.(max_response_size) < n) \/
  (resp.(chunks) <> [] /\ f.(max_response_size) < Z.of_nat (length (concat resp.(chunks)))).
(** The whole body is the answer of a node's RPC layer. *)
Definition rpc_answer (resp : HttpResponse) : Prop :=
  looks_like_json (concat resp.(chunks)) = true /\
  (resp.(status) = 400 -> is_json_rpc_response (concat resp.(chunks)) = true).

Inductive Worth : result HttpError HttpResponse -> Outcome -> Prop :=
| worth_silent : Worth (Err true) TimedOut
| worth_failed : Worth (Err false) NoAnswer
| worth_status resp : ~ looked_at_status resp -> Worth (Ok resp) NoAnswer
| worth_over_cap resp : looked_at_status resp -> over_cap resp -> Worth (Ok resp) TooLarge
| worth_broken resp timeout :
    looked_at_status resp -> ~ over_cap resp -> resp.(body_end) = BodyBroken timeout ->
    Worth (Ok resp) (if timeout then TimedOut else NoAnswer)
| worth_not_rpc resp :
    looked_at_status resp -> ~ over_cap resp -> resp.(body_end) = BodyDone -> ~ rpc_answer resp ->
    Worth (Ok resp) NoAnswer
| worth_answer resp :
    looked_at_status resp -> ~ over_cap resp -> resp.(body_end) = BodyDone -> rpc_answer resp ->
    Worth (Ok resp) (Answer (mkResponse resp.(status) [("content-type", "application/json")]%string
                                (RBytes (concat resp.(chunks))))).

(** An exchange is worth one outcome only. *)
Lemma worth_functional x o1 o2 : Worth x o1 -> Worth x o2 -> o1 = o2.
Proof. intros H1 H2. destruct H1; inversion H2; subst; first [done | congruence | idtac].
  assert (timeout = timeout0) as -> by congruence. done.
Qed.

Lemma collect_over cap cs e acc :
  cs <> [] ->
  cap < Z.of_nat (length (acc ++ concat cs)) <-> collect cap cs e acc = inl TooLarge.
Proof.
  revert acc. induction cs as [|c cs IH]; [done|]. intros acc _. cbn [collect concat].
  destruct (Z.ltb_spec cap (Z.of_nat (length acc) + Z.of_nat (length c))) as [Hlt|Hge].
  { split; [done|]. intros _. rewrite !length_app. lia. }
  destruct cs as [|c' cs].
  - cbn [collect concat]. rewrite app_nil_r, length_app. split; [lia|].
    by destruct e as [|[]].
  - rewrite (assoc_L (++)). by apply IH.
Qed.

Lemma collect_within cap cs e acc :
  (cs = [] \/ Z.of_nat (length (acc ++ concat cs)) <= cap) ->
  collect cap cs e acc =
    match e with BodyDone => inr (acc ++ concat cs) | BodyBroken t => inl (failure t) end.
Proof.
  revert acc. induction cs as [|c cs IH]; intros acc Hc; cbn [collect concat].
  - by rewrite app_nil_r.
  - destruct Hc as [|Hc]; [done|]. cbn [concat] in Hc.
    rewrite (proj2 (Z.ltb_ge _ _)) by (rewrite !length_app in Hc; lia).
    rewrite (assoc_L (++)) in Hc |- *. apply IH. by right.
Qed.

Lemma judge_response_worth x : Worth x (judge_response f x).
Proof.
  unfold judge_response. destruct x as [resp|[]]; [|constructor..].
  destruct (is_success resp.(status) || Z.eqb resp.(status) 400) eqn:Ea; cbn [negb].
  2:{ apply worth_status. apply orb_false_iff in Ea as [Es Ea]. apply Z.eqb_neq in Ea.
      intros [?|?]; congruence. }
  assert (looked_at_status resp) as Hst.
  { unfold looked_at_status. apply orb_true_iff in Ea as [?|?%Z.eqb_eq]; auto. }
  destruct (match resp.(content_length) with Some n => _ | None => _ end) eqn:El.
  { apply worth_over_cap; [done|]. left. destruct resp.(content_length) as [n|]; [|done].
    exists n. split; [done|]. by apply Z.ltb_lt. }
  assert (~ exists n, resp.(content_length) = Some n /\ f.(max_response_size) < n) as Hn.
  { intros (n & E & Hlt). rewrite E in El. apply Z.ltb_ge in El. lia. }
  destruct (decide (resp.(chunks) <> [] /\
    f.(max_response_size) < Z.of_nat (length (concat resp.(chunks))))) as [[Hc Hlt]|Hle].
  { rewrite (proj1 (collect_over _ _ resp.(body_end) [] Hc)) by done.
    apply worth_over_cap; [done|]. by right. }
  assert (~ over_cap resp) as Hcap by (intros [?|?]; auto).
  rewrite collect_within.
  2:{ destruct resp.(chunks); [by left|]. right. cbn [app]. apply Z.nlt_ge. naive_solver. }
  destruct resp.(body_end) as [|t] eqn:Ee; cbn [app].
  2:{ pose proof (worth_broken resp t Hst Hcap Ee). by destruct t. }
  destruct (looks_like_json _) eqn:Ej; cbn [negb].
  2:{ apply worth_not_rpc; [done..|]. intros [? _]. congruence. }
  destruct (Z.eqb_spec resp.(status) 400) as [E4|E4]; cbn [andb].
  - destruct (is_json_rpc_response _) eqn:Er; cbn [negb].
    + apply worth_answer; [done..|]. by split.
    + apply worth_not_rpc; [done..|]. intros [_ Hr]. specialize (Hr E4). congruence.
  - apply worth_answer; [done..|]. by split.
Qed.
End judged.

(** * Witness *)

Definition demo_forwarder : Forwarder := mkForwarder 100.
Definition demo_answer : result HttpError HttpResponse :=
  Ok (mkHttpResponse 200 (Some 4) [b "{'a"; b "'}"] BodyDone).

Lemma attempt_outcomes_witness :
  exists r resp, judge_response demo_forwarder demo_answer = Answer r /\
    demo_answer = Ok resp /\ r.(resp_body) = RBytes (b "{'a'}").
Proof.
  pose proof (attempt_outcomes demo_forwarder demo_answer) as Ha.
  assert (0 <= demo_forwarder.(max_response_size)) as Hm by (cbn; lia).
  specialize (Ha Hm).
  assert (exists r, judge_response demo_forwarder demo_answer = Answer r) as [r Er]
    by (by eexists).
  rewrite Er in Ha. destruct Ha as (resp & Hresp & _ & _ & Hbody & _).
  exists r, resp. split; [exact Er|]. split; [exact Hresp|].
  injection Hresp as <-. exact Hbody.
Defined.
