(* ===== verification/Records.v ===== *)
(** The marketplace records, [crates/lb/src/chain/records.rs]: typed
    attributes, the payload among them, and the five records with their
    encoding and decoding. *)

From S2P Require Import Prelude External Concrete Jsonrpc.

#[local] Open Scope Z_scope.

Definition SCHEMA_VERSION : Z := 1.
Definition KIND_LB_LISTING : string := "rpc.lb_listing".
Definition KIND_OFFER : string := "rpc.offer".
Definition KIND_AGREEMENT : string := "rpc.agreement".
Definition KIND_COUNTER : string := "rpc.counter".
Definition KIND_RECEIPT : string := "rpc.receipt".

(** [Wei] is the 256-bit integer it wraps. *)
Abbreviation Wei := Z (only parsing).

Inductive RecordError : Type :=
| MissingAttribute (name : string)
| AttributeType (name found expected : string)
| Payload (text : string)
| NotThisRecord (kind : string)
| Version (v : Z).

#[export] Instance record_error_eq_dec : EqDecision RecordError.
Proof. solve_decision. Defined.

Inductive AttributeValue : Type :=
| AStr (s : string)
| AI32 (n : Z)
| AU64 (n : Z)
| AAddr (a : Address)
| AKey (k : EntityKey)
| ABytes (x : Bytes).

#[export] Instance attribute_value_eq_dec : EqDecision AttributeValue.
Proof. solve_decision. Defined.

Definition type_tag (v : AttributeValue) : string :=
  match v with
  | AStr _ => "str"
  | AI32 _ => "i32"
  | AU64 _ => "u64"
  | AAddr _ => "addr"
  | AKey _ => "key"
  | ABytes _ => "bytes"
  end.

Definition mismatch (v : AttributeValue) (name expected : string) : RecordError :=
  AttributeType name (type_tag v) expected.

(** One attribute as a query returns it. *)
Record ArkivAttribute : Type := mkArkivAttribute {
  attr_name : string;
  attr_type : string;
  attr_value : Value;
}.

#[export] Instance arkiv_attribute_eq_dec : EqDecision ArkivAttribute.
Proof. solve_decision. Defined.

(** A 64-bit number as a JSON number, a decimal string or a hex quantity. *)
Definition parse_u64 (value : Value) : option Z :=
  match as_u64 value with
  | Some n => Some n
  | None =>
      text ← as_str value;
      match strip_prefix "0x"%string text with
      | Some hex => from_str_radix u64_max 16 hex
      | None => from_str_radix u64_max 10 text
      end
  end.

Definition is_i32 (n : Z) : bool := Z.leb (-2147483648) n && Z.leb n 2147483647.

(** * Reading a struct ([#[derive(Deserialize)]])

    A JSON object: unknown fields are ignored, a known field given twice
    is refused. A JSON array: the fields in order, no more of them, the
    ones at the end only left out where they have a default. *)
Definition find_field (fields : list (string * Value)) (name : string) : option (option Value) :=
  match List.filter (fun f => bool_decide (f.1 = name)) fields with
  | [] => Some None
  | [f] => Some (Some f.2)
  | _ => None
  end.

Definition struct_fields (names : list string) (v : Value) : option (list (option Value)) :=
  match v with
  | Object fields => mapM (find_field fields) names
  | Array items =>
      if Nat.ltb (length names) (length items) then None
      else Some ((Some <$> items) ++ replicate (length names - length items) None)
  | _ => None
  end.

(** A struct whose last field is an [Option] without [#[serde(default)]]:
    an object may leave that field out, an array may not. *)
Definition struct_fields_all (names : list string) (v : Value) : option (list (option Value)) :=
  match v with
  | Array items => if Nat.ltb (length items) (length names) then None else struct_fields names v
  | _ => struct_fields names v
  end.

(** A field without a default, and one whose type is an [Option]. *)
Definition required {A} (f : Value -> option A) (v : option Value) : option A := v ≫= f.
Definition optional {A} (f : Value -> option A) (v : option Value) : option (option A) :=
  match v with
  | None | Some Null => Some None
  | Some v => Some <$> f v
  end.

(** An unsigned integer of at most [max]. *)
Definition uint (max : Z) (v : Value) : option Z :=
  n ← as_u64 v; if Z.leb n max then Some n else None.

Definition from_u64 (n : Z) : Value := Num (NPos n).

Definition PAYLOAD_ATTRIBUTE : string := "payload".

(** The key order of a [BTreeMap<String, _>]: bytewise. *)
Definition key_leb {A} (x y : string * A) : bool := String.leb x.1 y.1.

Section attributes.
Context `{Alloy}.

(** The write-side value, and its envelope. *)
Definition wire_value (v : AttributeValue) : Value :=
  match v with
  | AStr s => Str s
  | AI32 n => json_int n
  | AU64 n => Str (decimal n)
  | AAddr a => Str (addr_hex a)
  | AKey k => Str (key_hex k)
  | ABytes x => Str (bytes_hex x)
  end.

Definition value_to_wire (v : AttributeValue) : Value :=
  match v with
  | ABytes _ =>
      Object [("type", Str "bytes"); ("value", wire_value v); ("indexed", Bool false)]%string
  | _ => Object [("type", Str (type_tag v)); ("value", wire_value v)]%string
  end.

Definition from_read (read : ArkivAttribute) : option AttributeValue :=
  let value := read.(attr_value) in
  match read.(attr_type) with
  | "str" => AStr <$> as_str value
  | "i32" => n ← as_i64 value; if is_i32 n then Some (AI32 n) else None
  | "u64" => AU64 <$> parse_u64 value
  | "addr" => AAddr <$> (as_str value ≫= addr_parse)
  | "key" | "bytes32" => AKey <$> (as_str value ≫= key_parse)
  | "bytes" => ABytes <$> (as_str value ≫= bytes_parse)
  | _ => None
  end%string.

Definition value_to_read (v : AttributeValue) (name : string) : ArkivAttribute :=
  mkArkivAttribute name
    (match v with AKey _ => "bytes32"%string | other => type_tag other end)
    (default Null (value_get "value" (value_to_wire v))).

(** [Attributes]: a map by name, iterated in key order. *)
Definition Attributes : Type := gmap string AttributeValue.

Definition attributes_new (kind : string) : Attributes :=
  <["v"%string := AI32 SCHEMA_VERSION]> (<["kind"%string := AStr kind]> ∅).

Definition with_ (name : string) (value : AttributeValue) (a : Attributes) : Attributes :=
  <[name := value]> a.

Definition attributes_iter (a : Attributes) : list (string * AttributeValue) :=
  sort_by key_leb (map_to_list a).

Definition attributes_to_wire (a : Attributes) : Value :=
  Object ((fun kv => (kv.1, value_to_wire kv.2)) <$> attributes_iter a).

Definition attributes_to_read (a : Attributes) : list ArkivAttribute :=
  (fun kv => value_to_read kv.2 kv.1) <$> attributes_iter a.

(** [collect] into a [BTreeMap]: a repeated name's last value stays. *)
Definition collect_attributes (l : list (string * AttributeValue)) : Attributes :=
  foldl (fun m kv => <[kv.1 := kv.2]> m) ∅ l.

Definition keep (names : list string) (a : Attributes) : Attributes :=
  collect_attributes (filter (fun kv => kv.1 ∈ names) (attributes_iter a)).

Definition attributes_payload (a : Attributes) : option Bytes :=
  match a !! PAYLOAD_ATTRIBUTE with Some (ABytes x) => Some x | _ => None end.

Definition present (name : string) (a : Attributes) : result RecordError AttributeValue :=
  ok_or (MissingAttribute name) (a !! name).
Definition get_str (name : string) (a : Attributes) : result RecordError string :=
  v ← present name a;
  match v with AStr s => Ok s | other => Err (mismatch other name "str") end.
Definition get_i32 (name : string) (a : Attributes) : result RecordError Z :=
  v ← present name a;
  match v with AI32 n => Ok n | other => Err (mismatch other name "i32") end.
Definition get_addr (name : string) (a : Attributes) : result RecordError Address :=
  v ← present name a;
  match v with AAddr x => Ok x | other => Err (mismatch other name "addr") end.
Definition get_key (name : string) (a : Attributes) : result RecordError EntityKey :=
  v ← present name a;
  match v with AKey k => Ok k | other => Err (mismatch other name "key") end.

(** * Entities *)

Record ArkivEntity : Type := mkArkivEntity {
  ent_key : EntityKey;
  ent_creator : Address;
  ent_created_at : Z;
  ent_updated_at : Z;
  ent_expires_at : Z;
  ent_attributes : list ArkivAttribute;
}.

Definition ArkivAttribute_from_json (v : Value) : option ArkivAttribute :=
  fs ← struct_fields ["name"; "type"; "value"]%string v;
  match fs with
  | [n; t; x] =>
      n ← required as_str n; t ← required as_str t; x ← x;
      Some (mkArkivAttribute n t x)
  | _ => None
  end.

Definition list_from_json {A} (f : Value -> option A) (v : Value) : option (list A) :=
  match v with Array items => mapM f items | _ => None end.

Definition ArkivEntity_from_json (v : Value) : option ArkivEntity :=
  fs ← struct_fields ["key"; "creator"; "createdAt"; "updatedAt"; "expiresAt";
                      "attributes"]%string v;
  match fs with
  | [k; c; created; updated; expires; attrs] =>
      k ← required key_from_json k;
      c ← required addr_from_json c;
      created ← required parse_u64 created;
      updated ← required parse_u64 updated;
      expires ← required parse_u64 expires;
      attrs ← match attrs with
              | None => Some []
              | Some v => list_from_json ArkivAttribute_from_json v
              end;
      Some (mkArkivEntity k c created updated expires attrs)
  | _ => None
  end.

Definition typed_attributes (e : ArkivEntity) : Attributes :=
  collect_attributes
    (omap (fun read => (fun v => (read.(attr_name), v)) <$> from_read read) e.(ent_attributes)).

(** [ArkivEntity::is]. *)
Definition entity_is (kind : string) (e : ArkivEntity) : bool :=
  match typed_attributes e !! "kind"%string with
  | Some (AStr found) => bool_decide (found = kind)
  | _ => false
  end.

Definition entity_payload (e : ArkivEntity) : option Bytes :=
  attributes_payload (typed_attributes e).
End attributes.

(** * The trait [Record] and what a reader hands out *)

Class Record_ (T : Type) := {
  KIND : string;
  encode : T -> Attributes;
  decode_fields : ArkivEntity -> result RecordError T;
}.
Arguments KIND T {_}.

Section decode.
Context `{Alloy} {T : Type} `{Record_ T}.

(** The kind first, the version next, the fields last. *)
Definition decode (e : ArkivEntity) : result RecordError T :=
  _ ← guard_err (negb (entity_is (KIND T) e)) (NotThisRecord (KIND T));
  version ← get_i32 "v" (typed_attributes e);
  _ ← guard_err (negb (Z.eqb version SCHEMA_VERSION)) (Version version);
  decode_fields e.
End decode.

Record Stored (T : Type) : Type := mkStored {
  key : EntityKey;
  creator : Address;
  created_at : Z;
  expires_at : Z;
  record : T;
}.
Arguments mkStored {T}.
Arguments key {T}.
Arguments creator {T}.
Arguments created_at {T}.
Arguments expires_at {T}.
Arguments record {T}.

Definition stored_decode `{Alloy} {T} `{Record_ T} (e : ArkivEntity) :
    result RecordError (Stored T) :=
  mkStored e.(ent_key) e.(ent_creator) e.(ent_created_at) e.(ent_expires_at) <$> decode e.

(** * The five records *)

Record LbListing : Type := mkLbListing {
  lb_wei_per_call : Wei;
  tunnel_server : string;
  lb_max_providers : Z;
}.

Record Hardware : Type := mkHardware { cpus : Z; mem_gb : Z }.

Record Specs : Type := mkSpecs {
  specs_chain_id : Z;
  head : Z;
  el : string;
  cl : string;
  hw : Hardware;
}.

Record Offer : Type := mkOffer { offer_lb_listing : EntityKey; specs : Specs }.

Record AgreementPayload : Type := mkAgreementPayload {
  ap_wei_per_call : Wei;
  ap_remote_port : Z;
}.

Record Agreement : Type := mkAgreement {
  ag_provider : Address;
  ag_offer : EntityKey;
  ag_wei_per_call : Wei;
  ag_remote_port : Z;
}.

Inductive CounterState : Type := Open | Closed.

Definition counter_state_as_str (s : CounterState) : string :=
  match s with Open => "open" | Closed => "closed" end.

Record CounterPayload : Type := mkCounterPayload {
  cp_count : Z;
  cp_wei_per_call : Wei;
  cp_opened_block : Z;
  cp_closed_block : option Z;
}.

Record CounterRecord : Type := mkCounterRecord {
  c_agreement : EntityKey;
  c_provider : Address;
  c_state : CounterState;
  c_count : Z;
  c_wei_per_call : Wei;
  c_opened_block : Z;
  c_closed_block : option Z;
}.

Record Payout : Type := mkPayout { payout_chain_id : Z; tx : string }.

Record ReceiptPayload : Type := mkReceiptPayload {
  rp_agreement : EntityKey;
  rp_count : Z;
  rp_wei_per_call : Wei;
  rp_amount_wei : Wei;
  rp_payout : Payout;
}.

Record Receipt : Type := mkReceipt {
  r_counter : EntityKey;
  r_provider : Address;
  r_agreement : EntityKey;
  r_count : Z;
  r_wei_per_call : Wei;
  r_amount_wei : Wei;
  r_payout : Payout;
}.

#[export] Instance counter_state_eq_dec : EqDecision CounterState.
Proof. solve_decision. Defined.
#[export] Instance hardware_eq_dec : EqDecision Hardware.
Proof. solve_decision. Defined.
#[export] Instance specs_eq_dec : EqDecision Specs.
Proof. solve_decision. Defined.
#[export] Instance offer_eq_dec : EqDecision Offer.
Proof. solve_decision. Defined.
#[export] Instance agreement_eq_dec : EqDecision Agreement.
Proof. solve_decision. Defined.
#[export] Instance lb_listing_eq_dec : EqDecision LbListing.
Proof. solve_decision. Defined.
#[export] Instance counter_record_eq_dec : EqDecision CounterRecord.
Proof. solve_decision. Defined.

Section codecs.
Context `{Alloy} `{SerdeJson}.

(** ** The JSON of their payloads *)

Definition wei_to_json (w : Wei) : Value := Str (u256_to_string w).
Definition wei_from_json (v : Value) : option Wei := as_str v ≫= u256_from_str10.

Definition LbListing_to_json (l : LbListing) : Value :=
  Object [("wei_per_call", wei_to_json l.(lb_wei_per_call));
          ("tunnel_server", Str l.(tunnel_server));
          ("max_providers", from_u64 l.(lb_max_providers))]%string.
Definition LbListing_from_json (v : Value) : option LbListing :=
  fs ← struct_fields ["wei_per_call"; "tunnel_server"; "max_providers"]%string v;
  match fs with
  | [w; t; m] =>
      w ← required wei_from_json w; t ← required as_str t; m ← required (uint u32_max) m;
      Some (mkLbListing w t m)
  | _ => None
  end.

Definition Hardware_to_json (h : Hardware) : Value :=
  Object [("cpus", from_u64 h.(cpus)); ("mem_gb", from_u64 h.(mem_gb))]%string.
Definition Hardware_from_json (v : Value) : option Hardware :=
  fs ← struct_fields ["cpus"; "mem_gb"]%string v;
  match fs with
  | [c; m] =>
      c ← required (uint u32_max) c; m ← required (uint u32_max) m; Some (mkHardware c m)
  | _ => None
  end.

Definition Specs_to_json (s : Specs) : Value :=
  Object [("chain_id", from_u64 s.(specs_chain_id)); ("head", from_u64 s.(head));
          ("el", Str s.(el)); ("cl", Str s.(cl)); ("hw", Hardware_to_json s.(hw))]%string.
Definition Specs_from_json (v : Value) : option Specs :=
  fs ← struct_fields ["chain_id"; "head"; "el"; "cl"; "hw"]%string v;
  match fs with
  | [i; h; e; c; w] =>
      i ← required (uint u64_max) i; h ← required (uint u64_max) h;
      e ← required as_str e; c ← required as_str c; w ← required Hardware_from_json w;
      Some (mkSpecs i h e c w)
  | _ => None
  end.

Definition OfferPayload_to_json (s : Specs) : Value :=
  Object [("specs", Specs_to_json s)]%string.
Definition OfferPayload_from_json (v : Value) : option Specs :=
  fs ← struct_fields ["specs"]%string v;
  match fs with [s] => required Specs_from_json s | _ => None end.

Definition AgreementPayload_to_json (p : AgreementPayload) : Value :=
  Object [("wei_per_call", wei_to_json p.(ap_wei_per_call));
          ("remote_port", from_u64 p.(ap_remote_port))]%string.
Definition AgreementPayload_from_json (v : Value) : option AgreementPayload :=
  fs ← struct_fields ["wei_per_call"; "remote_port"]%string v;
  match fs with
  | [w; p] =>
      w ← required wei_from_json w; p ← required (uint u16_max) p;
      Some (mkAgreementPayload w p)
  | _ => None
  end.

Definition CounterPayload_to_json (p : CounterPayload) : Value :=
  Object ([("count", from_u64 p.(cp_count)); ("wei_per_call", wei_to_json p.(cp_wei_per_call));
           ("opened_block", from_u64 p.(cp_opened_block))]%string ++
          match p.(cp_closed_block) with
          | Some n => [("closed_block", from_u64 n)]%string
          | None => []
          end).
Definition CounterPayload_from_json (v : Value) : option CounterPayload :=
  fs ← struct_fields ["count"; "wei_per_call"; "opened_block"; "closed_block"]%string v;
  match fs with
  | [c; w; o; d] =>
      c ← required (uint u64_max) c; w ← required wei_from_json w;
      o ← required (uint u64_max) o; d ← optional (uint u64_max) d;
      Some (mkCounterPayload c w o d)
  | _ => None
  end.

Definition Payout_to_json (p : Payout) : Value :=
  Object [("chain_id", from_u64 p.(payout_chain_id)); ("tx", Str p.(tx))]%string.
Definition Payout_from_json (v : Value) : option Payout :=
  fs ← struct_fields ["chain_id"; "tx"]%string v;
  match fs with
  | [c; t] => c ← required (uint u64_max) c; t ← required as_str t; Some (mkPayout c t)
  | _ => None
  end.

Definition ReceiptPayload_to_json (p : ReceiptPayload) : Value :=
  Object [("agreement", key_to_json p.(rp_agreement)); ("count", from_u64 p.(rp_count));
          ("wei_per_call", wei_to_json p.(rp_wei_per_call));
          ("amount_wei", wei_to_json p.(rp_amount_wei));
          ("payout", Payout_to_json p.(rp_payout))]%string.
Definition ReceiptPayload_from_json (v : Value) : option ReceiptPayload :=
  fs ← struct_fields ["agreement"; "count"; "wei_per_call"; "amount_wei"; "payout"]%string v;
  match fs with
  | [a; c; w; m; p] =>
      a ← required key_from_json a; c ← required (uint u64_max) c;
      w ← required wei_from_json w; m ← required wei_from_json m;
      p ← required Payout_from_json p; Some (mkReceiptPayload a c w m p)
  | _ => None
  end.

(** ** Encoding and decoding *)

(** [encode]: the payload beside the other attributes. *)
Definition encode_payload (a : Attributes) (payload : Value) : Attributes :=
  with_ PAYLOAD_ATTRIBUTE (ABytes (to_vec payload)) a.

(** [payload_json::<T>], [what] naming the [T]. *)
Definition payload_json {A} (what : string) (f : Value -> option A) (e : ArkivEntity) :
    result RecordError A :=
  payload ← ok_or (Payload "no payload attribute") (entity_payload e);
  ok_or (Payload (from_slice_error what payload)) (from_slice payload ≫= f).

Definition LbListing_encode (l : LbListing) : Attributes :=
  encode_payload (attributes_new KIND_LB_LISTING) (LbListing_to_json l).
Definition LbListing_decode_fields (e : ArkivEntity) : result RecordError LbListing :=
  payload_json "LbListing" LbListing_from_json e.

Definition Offer_encode (o : Offer) : Attributes :=
  encode_payload
    (with_ "lb_listing" (AKey o.(offer_lb_listing)) (attributes_new KIND_OFFER))
    (OfferPayload_to_json o.(specs)).
Definition Offer_decode_fields (e : ArkivEntity) : result RecordError Offer :=
  lb_listing ← get_key "lb_listing" (typed_attributes e);
  payload ← payload_json "OfferPayload" OfferPayload_from_json e;
  Ok (mkOffer lb_listing payload).

Definition Agreement_encode (a : Agreement) : Attributes :=
  encode_payload
    (with_ "offer" (AKey a.(ag_offer))
       (with_ "provider" (AAddr a.(ag_provider)) (attributes_new KIND_AGREEMENT)))
    (AgreementPayload_to_json (mkAgreementPayload a.(ag_wei_per_call) a.(ag_remote_port))).
Definition Agreement_decode_fields (e : ArkivEntity) : result RecordError Agreement :=
  let attributes := typed_attributes e in
  payload ← payload_json "AgreementPayload" AgreementPayload_from_json e;
  provider ← get_addr "provider" attributes;
  offer ← get_key "offer" attributes;
  Ok (mkAgreement provider offer payload.(ap_wei_per_call) payload.(ap_remote_port)).

Definition CounterRecord_encode (c : CounterRecord) : Attributes :=
  encode_payload
    (with_ "state" (AStr (counter_state_as_str c.(c_state)))
       (with_ "provider" (AAddr c.(c_provider))
          (with_ "agreement" (AKey c.(c_agreement)) (attributes_new KIND_COUNTER))))
    (CounterPayload_to_json
       (mkCounterPayload c.(c_count) c.(c_wei_per_call) c.(c_opened_block) c.(c_closed_block))).
Definition CounterRecord_decode_fields (e : ArkivEntity) : result RecordError CounterRecord :=
  let attributes := typed_attributes e in
  text ← get_str "state" attributes;
  state ← match text with
          | "open" => Ok Open
          | "closed" => Ok Closed
          | other => Err (AttributeType "state" other "open or closed")
          end%string;
  payload ← payload_json "CounterPayload" CounterPayload_from_json e;
  agreement ← get_key "agreement" attributes;
  provider ← get_addr "provider" attributes;
  Ok (mkCounterRecord agreement provider state payload.(cp_count) payload.(cp_wei_per_call)
        payload.(cp_opened_block) payload.(cp_closed_block)).

Definition Receipt_encode (r : Receipt) : Attributes :=
  encode_payload
    (with_ "provider" (AAddr r.(r_provider))
       (with_ "counter" (AKey r.(r_counter)) (attributes_new KIND_RECEIPT)))
    (ReceiptPayload_to_json
       (mkReceiptPayload r.(r_agreement) r.(r_count) r.(r_wei_per_call) r.(r_amount_wei)
          r.(r_payout))).
Definition Receipt_decode_fields (e : ArkivEntity) : result RecordError Receipt :=
  let attributes := typed_attributes e in
  payload ← payload_json "ReceiptPayload" ReceiptPayload_from_json e;
  counter ← get_key "counter" attributes;
  provider ← get_addr "provider" attributes;
  Ok (mkReceipt counter provider payload.(rp_agreement) payload.(rp_count)
        payload.(rp_wei_per_call) payload.(rp_amount_wei) payload.(rp_payout)).

#[export] Instance LbListing_record : Record_ LbListing :=
  Build_Record_ _ KIND_LB_LISTING LbListing_encode LbListing_decode_fields.
#[export] Instance Offer_record : Record_ Offer :=
  Build_Record_ _ KIND_OFFER Offer_encode Offer_decode_fields.
#[export] Instance Agreement_record : Record_ Agreement :=
  Build_Record_ _ KIND_AGREEMENT Agreement_encode Agreement_decode_fields.
#[export] Instance CounterRecord_record : Record_ CounterRecord :=
  Build_Record_ _ KIND_COUNTER CounterRecord_encode CounterRecord_decode_fields.
#[export] Instance Receipt_record : Record_ Receipt :=
  Build_Record_ _ KIND_RECEIPT Receipt_encode Receipt_decode_fields.
End codecs.

(** * Lemmas: attributes there and back *)

Definition value_wf (v : AttributeValue) : Prop :=
  match v with
  | AI32 n => is_i32 n = true
  | AU64 n => is_u64 n
  | AAddr a => is_address a
  | AKey k => is_key k
  | AStr _ | ABytes _ => True
  end.

Lemma as_i64_json_int n : is_i32 n = true -> as_i64 (json_int n) = Some n.
Proof.
  unfold is_i32, json_int. intros Hn. destruct (Z.leb_spec 0 n); cbn; [|done].
  rewrite (proj2 (Z.leb_le _ _)); [done | machine_unfold; lia].
Qed.

Lemma parse_u64_decimal n : is_u64 n -> parse_u64 (Str (decimal n)) = Some n.
Proof.
  intros Hn. unfold parse_u64. cbn [as_u64 as_str mbind option_bind].
  pose proof (from_str_radix_decimal u64_max n Hn) as Hd.
  destruct (strip_prefix "0x"%string (decimal n)) as [hex|] eqn:E; [|done].
  apply strip_prefix_Some in E. rewrite E in Hd. done.
Qed.

Section attribute_lemmas.
Context `{Alloy}.

Lemma from_read_to_read v name : value_wf v -> from_read (value_to_read v name) = Some v.
Proof.
  destruct v as [s|n|n|a|k|x]; intros Hv; try done.
  - change (from_read _) with (n ← as_i64 (json_int n); if is_i32 n then Some (AI32 n) else None).
    rewrite as_i64_json_int by done. cbn in *. by rewrite Hv.
  - change (from_read _) with (AU64 <$> parse_u64 (Str (decimal n))).
    by rewrite parse_u64_decimal.
  - change (from_read _) with (AAddr <$> addr_parse (addr_hex a)). by rewrite addr_parse_hex.
  - change (from_read _) with (AKey <$> key_parse (key_hex k)). by rewrite key_parse_hex.
  - change (from_read _) with (ABytes <$> bytes_parse (bytes_hex x)). by rewrite bytes_round_trip.
Qed.

Lemma collect_union {A} (m : gmap string A) (l : list (string * A)) :
  NoDup l.*1 -> foldl (fun m kv => <[kv.1 := kv.2]> m) m l = list_to_map l ∪ m.
Proof.
  revert m. induction l as [|[k v] l IH]; intros m Hl; cbn.
  - by rewrite (left_id_L ∅ (∪)).
  - apply NoDup_cons in Hl as [Hk Hl]. rewrite IH by done. cbn.
    rewrite <- insert_union_r by (by apply not_elem_of_list_to_map_1).
    by rewrite insert_union_l.
Qed.

(** A map collected from its entries in key order. *)
Lemma collect_sorted {A} (a : gmap string A) :
  foldl (fun m kv => <[kv.1 := kv.2]> m) ∅ (sort_by key_leb (map_to_list a)) = a.
Proof.
  assert (NoDup (sort_by key_leb (map_to_list a)).*1) as Hnd.
  { rewrite sort_by_perm. apply NoDup_fst_map_to_list. }
  rewrite collect_union, (right_id_L ∅ (∪)) by done.
  rewrite (list_to_map_proper _ (map_to_list a)); [apply list_to_map_to_list | done |].
  apply sort_by_perm.
Qed.

Lemma collect_iter a : collect_attributes (attributes_iter a) = a.
Proof. apply collect_sorted. Qed.

(** A record's attributes, read back as a query returns them. *)
Lemma typed_attributes_to_read a e :
  map_Forall (fun _ v => value_wf v) a ->
  e.(ent_attributes) = attributes_to_read a -> typed_attributes e = a.
Proof.
  intros Ha He. unfold typed_attributes. rewrite He.
  rewrite <- (collect_iter a) at 2. f_equal. unfold attributes_to_read.
  assert (Forall (fun kv => value_wf kv.2) (attributes_iter a)) as Hf.
  { apply Forall_forall. intros [k v] Hin. apply elem_of_sort_by, elem_of_map_to_list in Hin.
    by eapply Ha. }
  induction Hf as [|[k v] l Hv Hl IH]; [done|]. cbn.
  rewrite from_read_to_read by done. cbn. by rewrite IH.
Qed.

(** The entity a chain holds for attributes [a]. *)
Definition as_stored (k c created updated expires : Z) (a : Attributes) : ArkivEntity :=
  mkArkivEntity k c created updated expires (attributes_to_read a).

End attribute_lemmas.

(** ** Payloads there and back *)

Section payload_lemmas.
Context `{Alloy} `{SerdeJson}.

Definition Hardware_wf (h : Hardware) : Prop := is_u32 h.(cpus) /\ is_u32 h.(mem_gb).
Definition Specs_wf (s : Specs) : Prop :=
  is_u64 s.(specs_chain_id) /\ is_u64 s.(head) /\ Hardware_wf s.(hw).
Definition LbListing_wf (l : LbListing) : Prop :=
  is_u256 l.(lb_wei_per_call) /\ is_u32 l.(lb_max_providers).
Definition Offer_wf (o : Offer) : Prop := is_key o.(offer_lb_listing) /\ Specs_wf o.(specs).
Definition Agreement_wf (a : Agreement) : Prop :=
  is_address a.(ag_provider) /\ is_key a.(ag_offer) /\ is_u256 a.(ag_wei_per_call) /\
  0 <= a.(ag_remote_port) <= u16_max.
Definition CounterRecord_wf (c : CounterRecord) : Prop :=
  is_key c.(c_agreement) /\ is_address c.(c_provider) /\ is_u64 c.(c_count) /\
  is_u256 c.(c_wei_per_call) /\ is_u64 c.(c_opened_block) /\
  (forall n, c.(c_closed_block) = Some n -> is_u64 n).
Definition Payout_wf (p : Payout) : Prop := is_u64 p.(payout_chain_id).
Definition Receipt_wf (r : Receipt) : Prop :=
  is_key r.(r_counter) /\ is_address r.(r_provider) /\ is_key r.(r_agreement) /\
  is_u64 r.(r_count) /\ is_u256 r.(r_wei_per_call) /\ is_u256 r.(r_amount_wei) /\
  Payout_wf r.(r_payout).

Lemma uint_from_u64 max n : 0 <= n <= max -> uint max (from_u64 n) = Some n.
Proof. intros Hn. unfold uint. cbn. by rewrite (proj2 (Z.leb_le _ _)) by lia. Qed.

Lemma wei_json w : is_u256 w -> wei_from_json (wei_to_json w) = Some w.
Proof. intros Hw. cbn. by apply u256_round_trip. Qed.

End payload_lemmas.

(** Evaluates the lookup of an object's fields whose names are known. *)
Ltac read_fields :=
  match goal with
  | |- context [struct_fields ?names (Object ?fields)] =>
      let vs := eval cbv [map snd app] in (map Some (map snd fields)) in
      let less := eval cbv [app] in (vs ++ [None]) in
      first [ change (struct_fields names (Object fields)) with (Some vs)
            | change (struct_fields names (Object fields)) with (Some less) ]
  end.

Ltac json :=
  repeat first
    [ progress cbn -[uint wei_from_json u64_max u32_max u16_max struct_fields]
    | rewrite uint_from_u64 by (machine_unfold; lia)
    | rewrite wei_json by done
    | rewrite key_json_round_trip by done ].

Ltac plain_json :=
  cbn;
  rewrite ?key_json_plain; machine_unfold; lia.

Section payloads.
Context `{Alloy} `{SerdeJson}.

Lemma LbListing_json l :
  LbListing_wf l ->
  plain (LbListing_to_json l) = true /\ LbListing_from_json (LbListing_to_json l) = Some l.
Proof.
  intros [H1 H2]. destruct l; cbn in H1, H2. split; [unfold LbListing_to_json; plain_json|].
  unfold LbListing_from_json, LbListing_to_json. read_fields. by json.
Qed.

Lemma Specs_json s :
  Specs_wf s -> plain (Specs_to_json s) = true /\ Specs_from_json (Specs_to_json s) = Some s.
Proof.
  intros (H1 & H2 & [H3 H4]). destruct s as [? ? ? ? []]; cbn in H1, H2, H3, H4. split.
  - unfold Specs_to_json, Hardware_to_json. cbn [hw]. plain_json.
  - unfold Specs_from_json, Specs_to_json. read_fields. json.
    unfold Hardware_from_json, Hardware_to_json. read_fields. by json.
Qed.

Lemma AgreementPayload_json w p :
  is_u256 w -> 0 <= p <= u16_max ->
  plain (AgreementPayload_to_json (mkAgreementPayload w p)) = true /\
  AgreementPayload_from_json (AgreementPayload_to_json (mkAgreementPayload w p)) =
    Some (mkAgreementPayload w p).
Proof.
  intros ? ?. split; [unfold AgreementPayload_to_json; plain_json|].
  unfold AgreementPayload_from_json, AgreementPayload_to_json. read_fields. by json.
Qed.

Lemma CounterPayload_json c w o d :
  is_u64 c -> is_u256 w -> is_u64 o -> (forall n, d = Some n -> is_u64 n) ->
  plain (CounterPayload_to_json (mkCounterPayload c w o d)) = true /\
  CounterPayload_from_json (CounterPayload_to_json (mkCounterPayload c w o d)) =
    Some (mkCounterPayload c w o d).
Proof.
  intros ? ? ? Hd. unfold CounterPayload_to_json, CounterPayload_from_json. cbn [cp_closed_block].
  destruct d as [d|]; [specialize (Hd d eq_refl)|]; (split; [plain_json|]); cbn [app];
    read_fields; json; [|done].
  change (optional (uint u64_max) (Some (from_u64 d))) with (Some <$> uint u64_max (from_u64 d)).
  by json.
Qed.

Lemma ReceiptPayload_json a c w m p :
  is_key a -> is_u64 c -> is_u256 w -> is_u256 m -> Payout_wf p ->
  plain (ReceiptPayload_to_json (mkReceiptPayload a c w m p)) = true /\
  ReceiptPayload_from_json (ReceiptPayload_to_json (mkReceiptPayload a c w m p)) =
    Some (mkReceiptPayload a c w m p).
Proof.
  intros ? ? ? ? Hp. destruct p as [i t]. unfold Payout_wf in Hp. cbn in Hp. split.
  - unfold ReceiptPayload_to_json, Payout_to_json. cbn [rp_payout]. plain_json.
  - unfold ReceiptPayload_from_json, ReceiptPayload_to_json. read_fields. json.
    unfold Payout_from_json, Payout_to_json. cbn [rp_payout]. read_fields. by json.
Qed.

(** Decoding what was encoded, for one record type. *)
Definition decodes_back {T} `{Record_ T} (wf : T -> Prop) : Prop :=
  forall k c created updated expires (r : T), wf r ->
    stored_decode (as_stored k c created updated expires (encode r)) =
      Ok (mkStored k c created expires r).

(** What a record type shows for that: its attributes are in range,
    carry its kind and this version, and its fields read back. *)
Lemma decodes_back_intro {T} `{Record_ T} (wf : T -> Prop) :
  (forall r, wf r ->
    map_Forall (fun _ v => value_wf v) (encode r) /\
    encode r !! "kind"%string = Some (AStr (KIND T)) /\
    encode r !! "v"%string = Some (AI32 SCHEMA_VERSION) /\
    forall e, typed_attributes e = encode r -> decode_fields e = Ok r) ->
  decodes_back wf.
Proof.
  intros Hwf k c created updated expires r Hr. destruct (Hwf r Hr) as (Ha & Hk & Hv & Hd).
  set (e := as_stored _ _ _ _ _ _).
  assert (typed_attributes e = encode r) as He by (by apply typed_attributes_to_read).
  unfold stored_decode, decode, entity_is. rewrite He, Hk, bool_decide_true by done.
  cbn [negb guard_err mbind result_bind]. unfold get_i32, present. rewrite Hv. cbn.
  by rewrite Hd.
Qed.

Lemma payload_json_encoded {A} what (f : Value -> option A) e a v r :
  typed_attributes e = encode_payload a v -> plain v = true /\ f v = Some r ->
  payload_json what f e = Ok r.
Proof.
  intros He [Hp Hf]. unfold payload_json, entity_payload, attributes_payload. rewrite He.
  assert (encode_payload a v !! PAYLOAD_ATTRIBUTE = Some (ABytes (to_vec v))) as ->
    by apply (lookup_insert_eq (M := gmap string)). cbn.
  rewrite from_slice_to_vec by done. cbn. by rewrite Hf.
Qed.

(** Getters of attributes that were just read back. *)
Lemma get_key_Ok name (a : Attributes) k : a !! name = Some (AKey k) -> get_key name a = Ok k.
Proof. intros E. unfold get_key, present. by rewrite E. Qed.
Lemma get_addr_Ok name (a : Attributes) x : a !! name = Some (AAddr x) -> get_addr name a = Ok x.
Proof. intros E. unfold get_addr, present. by rewrite E. Qed.
Lemma get_str_Ok name (a : Attributes) x : a !! name = Some (AStr x) -> get_str name a = Ok x.
Proof. intros E. unfold get_str, present. by rewrite E. Qed.

Ltac attributes_in_range :=
  cbn [encode LbListing_record Offer_record Agreement_record CounterRecord_record Receipt_record];
  unfold LbListing_encode, Offer_encode, Agreement_encode, CounterRecord_encode, Receipt_encode,
    encode_payload, with_, attributes_new;
  repeat first [ apply (map_Forall_insert_2 (M := gmap string)); [cbn; done|]
               | apply (map_Forall_empty (M := gmap string)) ].

Lemma LbListing_back : decodes_back LbListing_wf.
Proof.
  apply decodes_back_intro. intros l Hl. split_and!; [| done | done |].
  - attributes_in_range.
  - intros e He. eapply payload_json_encoded; [exact He | by apply LbListing_json].
Qed.

Lemma Offer_back : decodes_back Offer_wf.
Proof.
  apply decodes_back_intro. intros [k s] [Hk Hs]. cbn in Hk, Hs. split_and!; [| done | done |].
  - attributes_in_range.
  - intros e He. cbn. unfold Offer_decode_fields. rewrite He, (get_key_Ok _ _ k) by done. cbn.
    erewrite payload_json_encoded; [done | exact He |].
    destruct (Specs_json s Hs) as [Hp Hj]. split.
    + unfold OfferPayload_to_json. cbn -[Specs_to_json] in *. by rewrite Hp.
    + unfold OfferPayload_from_json, OfferPayload_to_json. cbn [specs]. read_fields. exact Hj.
Qed.

Lemma Agreement_back : decodes_back Agreement_wf.
Proof.
  apply decodes_back_intro. intros [p o w q] (Hp & Ho & Hw & Hq). cbn in Hp, Ho, Hw, Hq.
  split_and!; [| done | done |].
  - attributes_in_range.
  - intros e He. cbn. unfold Agreement_decode_fields.
    erewrite payload_json_encoded; [| exact He | by apply AgreementPayload_json].
    cbn [mbind result_bind]. rewrite He, (get_addr_Ok _ _ p) by done. cbn [mbind result_bind].
    by rewrite (get_key_Ok _ _ o).
Qed.

Lemma CounterRecord_back : decodes_back CounterRecord_wf.
Proof.
  apply decodes_back_intro. intros [a p st n w o d] (Ha & Hp & Hn & Hw & Ho & Hd).
  cbn in Ha, Hp, Hn, Hw, Ho, Hd. split_and!; [| done | done |].
  - attributes_in_range.
  - intros e He. cbn. unfold CounterRecord_decode_fields.
    rewrite He, (get_str_Ok _ _ (counter_state_as_str st)) by done. cbn [mbind result_bind].
    erewrite payload_json_encoded; [| exact He | by apply CounterPayload_json].
    rewrite (get_key_Ok _ _ a), (get_addr_Ok _ _ p) by done. by destruct st.
Qed.

Lemma Receipt_back : decodes_back Receipt_wf.
Proof.
  apply decodes_back_intro. intros [c p a n w m t] (Hc & Hp & Ha & Hn & Hw & Hm & Ht).
  cbn in Hc, Hp, Ha, Hn, Hw, Hm, Ht. split_and!; [| done | done |].
  - attributes_in_range.
  - intros e He. cbn. unfold Receipt_decode_fields.
    erewrite payload_json_encoded; [| exact He | by apply ReceiptPayload_json].
    cbn [mbind result_bind]. rewrite He, (get_key_Ok _ _ c) by done. cbn [mbind result_bind].
    by rewrite (get_addr_Ok _ _ p).
Qed.

(** * Theorems *)

(** C36: Every one of the five records, written and read back with the
    block, owner and expiry the chain gave it, decodes to itself. *)
Theorem records_round_trip :
  decodes_back LbListing_wf /\ decodes_back Offer_wf /\ decodes_back Agreement_wf /\
  decodes_back CounterRecord_wf /\ decodes_back Receipt_wf.
Proof.
  split_and!; [apply LbListing_back | apply Offer_back | apply Agreement_back
              | apply CounterRecord_back | apply Receipt_back].
Qed.

Lemma stored_decode_Ok {T} `{Record_ T} (e : ArkivEntity) (r : Stored T) :
  stored_decode e = Ok r ->
  entity_is (KIND T) e = true /\
  typed_attributes e !! "v"%string = Some (AI32 SCHEMA_VERSION) /\
  decode_fields e = Ok r.(record) /\
  r.(key) = e.(ent_key) /\ r.(creator) = e.(ent_creator) /\
  r.(created_at) = e.(ent_created_at) /\ r.(expires_at) = e.(ent_expires_at).
Proof.
  unfold stored_decode, decode. destruct (entity_is _ e) eqn:E; [|done]. cbn.
  unfold get_i32, present.
  destruct (typed_attributes e !! _) as [[| n | | | |]|] eqn:Ev; try done. cbn.
  destruct (Z.eqb_spec n SCHEMA_VERSION) as [->|]; [|done]. cbn.
  destruct (decode_fields e) as [x|]; [|done]. cbn. intros [= <-]. by split_and!.
Qed.

(** An entity decodes exactly as what it says it is. Another kind is
    refused as that, whatever else it holds; the right kind at another
    schema version is refused as that version, its fields unread; and
    what decodes had the kind, the version this code reads, and the
    stored row's own key, owner, creation block and expiry. *)
Theorem decode_reads_its_own {T} `{Record_ T} (e : ArkivEntity) :
  (entity_is (KIND T) e = false -> stored_decode (T:=T) e = Err (NotThisRecord (KIND T))) /\
  (forall n, entity_is (KIND T) e = true -> typed_attributes e !! "v"%string = Some (AI32 n) ->
     n <> SCHEMA_VERSION -> stored_decode (T:=T) e = Err (Version n)) /\
  (forall r, stored_decode (T:=T) e = Ok r ->
     entity_is (KIND T) e = true /\
     typed_attributes e !! "v"%string = Some (AI32 SCHEMA_VERSION) /\
     decode_fields e = Ok r.(record) /\
     r.(key) = e.(ent_key) /\ r.(creator) = e.(ent_creator) /\
     r.(created_at) = e.(ent_created_at) /\ r.(expires_at) = e.(ent_expires_at)).
Proof.
  split_and!; [..|apply stored_decode_Ok]; unfold stored_decode, decode.
  - intros E. by rewrite E.
  - intros n E Hv Hn. rewrite E. cbn. unfold get_i32, present. rewrite Hv. cbn.
    by rewrite (proj2 (Z.eqb_neq _ _)).
Qed.

(** An attribute read back is of its type's range. *)
Lemma from_read_wf read v :
  from_read read = Some v -> match v with AAddr a => is_address a | AKey k => is_key k | _ => True end.
Proof.
  unfold from_read. intros E. repeat case_match; simplify_eq; try done.
  all: repeat match goal with
         | H : _ <$> _ = Some _ |- _ => apply fmap_Some in H as (? & H & ?)
         | H : _ ≫= _ = Some _ |- _ => apply bind_Some in H as (? & ? & H)
         | H : (if ?c then _ else _) = Some _ |- _ => destruct c
         end; simplify_eq; eauto using addr_parse_range, key_parse_range.
Qed.

Lemma typed_attribute_wf e name v :
  typed_attributes e !! name = Some v ->
  match v with AAddr a => is_address a | AKey k => is_key k | _ => True end.
Proof.
  unfold typed_attributes, collect_attributes.
  assert (forall l (m : Attributes), (forall n v, m !! n = Some v -> exists x, from_read x = Some v) ->
    forall n v, foldl (fun m kv => <[kv.1 := kv.2]> m) m
      (omap (fun read => (fun v => (read.(attr_name), v)) <$> from_read read) l) !! n = Some v ->
    exists x, from_read x = Some v) as Hfold.
  { induction l as [|x l IH]; intros m Hm n w; cbn; [apply Hm|].
    destruct (from_read x) as [y|] eqn:Ex; cbn; [|by apply IH]. apply IH.
    intros n' v' Hn. apply lookup_insert_Some in Hn as [[<- <-]|[_ Hn]]; eauto. }
  intros Hv. apply Hfold in Hv as [x Hx]; [by apply from_read_wf in Hx|].
  intros n w E. by pose proof (lookup_empty (M := gmap string) (A := AttributeValue) n); simplify_eq.
Qed.

(** A decoded agreement names a well-formed address. *)
Lemma stored_agreement_address (e : ArkivEntity) (r : Stored Agreement) :
  stored_decode e = Ok r -> is_address r.(record).(ag_provider).
Proof.
  intros (_ & _ & Hd & _)%stored_decode_Ok. cbn in Hd. unfold Agreement_decode_fields in Hd.
  apply bind_Ok in Hd as (pay & _ & Hd). apply bind_Ok in Hd as (a & Ha & Hd).
  apply bind_Ok in Hd as (o & _ & [= <-]). cbn. unfold get_addr, present in Ha.
  apply bind_Ok in Ha as (v & Hv%ok_or_Ok & Ha). apply typed_attribute_wf in Hv.
  by destruct v; simplify_eq.
Qed.
End payloads.

(** A field a newer writer added is ignored, wherever it stands. *)
Lemma struct_fields_unknown names pre post name v :
  name ∉ names ->
  struct_fields names (Object (pre ++ (name, v) :: post)) =
    struct_fields names (Object (pre ++ post)).
Proof.
  intros Hn. cbn. induction names as [|n names IH]; [done|]. cbn.
  apply not_elem_of_cons in Hn as [Hne Hn]. rewrite IH by done.
  assert (find_field (pre ++ (name, v) :: post) n = find_field (pre ++ post) n) as ->; [|done].
  unfold find_field. rewrite !List.filter_app. cbn. by rewrite bool_decide_false.
Qed.

(** A newer writer does not break an older reader: a payload field whose
    name no version of this code wrote is ignored wherever it stands, in
    each of the five payloads. *)
Theorem unknown_fields_ignored `{Alloy} pre post name v :
  (name ∉ ["wei_per_call"; "tunnel_server"; "max_providers"]%string ->
   LbListing_from_json (Object (pre ++ (name, v) :: post)) =
     LbListing_from_json (Object (pre ++ post))) /\
  (name ∉ ["specs"]%string ->
   OfferPayload_from_json (Object (pre ++ (name, v) :: post)) =
     OfferPayload_from_json (Object (pre ++ post))) /\
  (name ∉ ["wei_per_call"; "remote_port"]%string ->
   AgreementPayload_from_json (Object (pre ++ (name, v) :: post)) =
     AgreementPayload_from_json (Object (pre ++ post))) /\
  (name ∉ ["count"; "wei_per_call"; "opened_block"; "closed_block"]%string ->
   CounterPayload_from_json (Object (pre ++ (name, v) :: post)) =
     CounterPayload_from_json (Object (pre ++ post))) /\
  (name ∉ ["agreement"; "count"; "wei_per_call"; "amount_wei"; "payout"]%string ->
   ReceiptPayload_from_json (Object (pre ++ (name, v) :: post)) =
     ReceiptPayload_from_json (Object (pre ++ post))).
Proof.
  split_and!; intros Hn;
    unfold LbListing_from_json, OfferPayload_from_json, AgreementPayload_from_json,
      CounterPayload_from_json, ReceiptPayload_from_json;
    by rewrite struct_fields_unknown.
Qed.

(** * Witnesses *)

Definition demo_agreement : Agreement := mkAgreement 10 11 12 20000.

Lemma records_round_trip_witness :
  Agreement_wf demo_agreement /\
  stored_decode (as_stored 1 2 3 4 5 (encode demo_agreement)) =
    Ok (mkStored 1 2 3 5 demo_agreement).
Proof.
  assert (Agreement_wf demo_agreement) as Hwf by (vm_compute; intuition congruence).
  split; [exact Hwf|].
  destruct records_round_trip as (_ & _ & Ha & _). by apply Ha.
Defined.

Lemma decode_reads_its_own_witness :
  stored_decode (T := Offer) (as_stored 1 2 3 4 5 (encode demo_agreement)) =
    Err (NotThisRecord KIND_OFFER).
Proof.
  destruct (decode_reads_its_own (T := Offer) (as_stored 1 2 3 4 5 (encode demo_agreement)))
    as [Hk _].
  apply Hk. by vm_compute.
Defined.

Lemma unknown_fields_ignored_witness :
  AgreementPayload_from_json
    (Object [("wei_per_call", Str "7"); ("note", Null); ("remote_port", from_u64 20000)]%string) =
  AgreementPayload_from_json
    (Object [("wei_per_call", Str "7"); ("remote_port", from_u64 20000)]%string).
Proof.
  pose proof (unknown_fields_ignored [("wei_per_call", Str "7")]%string
           [("remote_port", from_u64 20000)]%string "note"%string Null) as (_ & _ & Hu & _).
  apply Hu.
  intros Hin. repeat (apply elem_of_cons in Hin as [Hin|Hin]; [done|]). by apply elem_of_nil in Hin.
Defined.
