(* ===== verification/Reader.v ===== *)
(** The read client, [crates/lb/src/chain/reader.rs]: the query language,
    the JSON-RPC call, and the trait a reader of the chain implements. *)

From S2P Require Import Prelude External Concrete Pool World Jsonrpc Records.

#[local] Open Scope Z_scope.

Definition PAGE_LIMIT : Z := 100.

(** * Queries *)

Inductive Condition : Type :=
| CKey (k : EntityKey)
| CCreator (a : Address)
| CAttribute (name : string) (value : AttributeValue)
| CExpiresAfter (h : Z)
| CExpiresBy (n : Z).

#[export] Instance condition_eq_dec : EqDecision Condition.
Proof. solve_decision. Defined.

Record Query : Type := mkQuery { conditions : list Condition; at_block : option Z }.

#[export] Instance query_eq_dec : EqDecision Query.
Proof. solve_decision. Defined.

Definition push (c : Condition) (q : Query) : Query :=
  mkQuery (q.(conditions) ++ [c]) q.(at_block).

Definition query_kind (kind : string) : Query :=
  mkQuery [CAttribute "kind" (AStr kind); CAttribute "v" (AI32 SCHEMA_VERSION)] None.
Definition query_by_key (k : EntityKey) : Query := mkQuery [CKey k] None.
Definition query_at_block (n : Z) (q : Query) : Query := mkQuery q.(conditions) (Some n).
Definition query_creator (a : Address) : Query -> Query := push (CCreator a).
Definition query_key (k : EntityKey) : Query -> Query := push (CKey k).
Definition attribute (name : string) (v : AttributeValue) : Query -> Query :=
  push (CAttribute name v).
Definition attr_addr (name : string) (a : Address) : Query -> Query := attribute name (AAddr a).
Definition attr_str (name s : string) : Query -> Query := attribute name (AStr s).
Definition attr_u64 (name : string) (n : Z) : Query -> Query := attribute name (AU64 n).
Definition attr_key (name : string) (k : EntityKey) : Query -> Query := attribute name (AKey k).
Definition expires_after (h : Z) : Query -> Query := push (CExpiresAfter h).
Definition expires_by (n : Z) : Query -> Query := push (CExpiresBy n).

(** [s.replace('\'', "''")]. *)
Fixpoint double_quotes (s : string) : string :=
  match s with
  | EmptyString => EmptyString
  | String c s => if Ascii.eqb c "'" then String "'" (String "'" (double_quotes s))
                  else String c (double_quotes s)
  end.

(** The decimal form of a signed integer. *)
Definition signed_decimal (n : Z) : string :=
  if Z.ltb n 0 then String "-" (decimal (- n)) else decimal n.

Definition join (sep : string) (l : list string) : string :=
  match l with
  | [] => EmptyString
  | x :: l => foldl (fun acc y => acc ++ sep ++ y)%string x l
  end.

Section text.
Context `{Alloy}.

(** No query filters on bytes: the code's [unreachable!] is [None]. *)
Definition literal (v : AttributeValue) : option string :=
  match v with
  | AStr s => Some ("str('" ++ double_quotes s ++ "')")
  | AI32 n => Some ("i32(" ++ signed_decimal n ++ ")")
  | AU64 n => Some ("u64(" ++ decimal n ++ ")")
  | AAddr a => Some ("addr(" ++ addr_hex a ++ ")")
  | AKey k => Some ("key(" ++ key_hex k ++ ")")
  | ABytes _ => None
  end%string.

Definition condition_text (c : Condition) : option string :=
  match c with
  | CKey k => Some ("$key = key(" ++ key_hex k ++ ")")
  | CCreator a => Some ("$creator = addr(" ++ addr_hex a ++ ")")
  | CAttribute name v => (fun l => name ++ " = " ++ l) <$> literal v
  | CExpiresAfter h => Some ("$expiresAt > u64(" ++ decimal h ++ ")")
  | CExpiresBy n => Some ("$expiresAt <= u64(" ++ decimal n ++ ")")
  end%string.

Definition text (q : Query) : option string :=
  join " AND " <$> mapM condition_text q.(conditions).
End text.

(** * Answers *)

Record Page : Type := mkPage { entities : list ArkivEntity; more : bool; block_ : Z }.

Inductive BlockAt : Type := Finalized | Number_ (n : Z).

Definition param (at_ : BlockAt) : Value :=
  match at_ with Finalized => Str "finalized" | Number_ n => Str (hex_u64 n) end.

Record BlockFields : Type := mkBlockFields {
  number : Z;
  hash : EntityKey;
  parent_hash : EntityKey;
  state_root : EntityKey;
  transactions_root : EntityKey;
  receipts_root : EntityKey;
  transactions : list EntityKey;
}.

#[export] Instance block_fields_eq_dec : EqDecision BlockFields.
Proof. solve_decision. Defined.

Inductive ReadError : Type :=
| RTransport (e : HttpError)
| RStatus (code : Z)
| RRpc (code : Z) (message : string)
| RUnexpected (text : string)
| RTooLarge (cap : Z).

Record RpcError : Type := mkRpcError { rpc_code : Z; rpc_message : string }.
Record RpcResponse : Type := mkRpcResponse {
  rpc_result : option Value;
  rpc_error : option RpcError;
}.
Record QueryResult : Type := mkQueryResult {
  data : list ArkivEntity;
  cursor_ : option string;
  block_number_ : Value;
}.

Definition RpcError_from_json (v : Value) : option RpcError :=
  fs ← struct_fields ["code"; "message"]%string v;
  match fs with
  | [c; m] => c ← required as_i64 c; m ← required as_str m; Some (mkRpcError c m)
  | _ => None
  end.
Definition RpcResponse_from_json (v : Value) : option RpcResponse :=
  fs ← struct_fields_all ["result"; "error"]%string v;
  match fs with
  | [r; e] =>
      r ← optional Some r; e ← optional RpcError_from_json e; Some (mkRpcResponse r e)
  | _ => None
  end.

Section answers.
Context `{Alloy}.

Definition QueryResult_from_json (v : Value) : option QueryResult :=
  fs ← struct_fields ["data"; "cursor"; "blockNumber"]%string v;
  match fs with
  | [d; c; n] =>
      d ← match d with None => Some [] | Some v => list_from_json ArkivEntity_from_json v end;
      c ← optional as_str c; n ← n; Some (mkQueryResult d c n)
  | _ => None
  end.

Definition BlockFields_from_json (v : Value) : option BlockFields :=
  fs ← struct_fields ["number"; "hash"; "parentHash"; "stateRoot"; "transactionsRoot";
                      "receiptsRoot"; "transactions"]%string v;
  match fs with
  | [n; h; p; s; t; r; x] =>
      n ← required parse_u64 n; h ← required key_from_json h; p ← required key_from_json p;
      s ← required key_from_json s; t ← required key_from_json t;
      r ← required key_from_json r; x ← required (list_from_json key_from_json) x;
      Some (mkBlockFields n h p s t r x)
  | _ => None
  end.
End answers.

(** What the LB reads from the chain: the trait, over the state its
    implementation runs on. *)
Class ChainReader (R S : Type) : Type := {
  block_number : R -> M S (result ReadError Z);
  block : R -> BlockAt -> M S (result ReadError (option BlockFields));
  balance : R -> Address -> M S (result ReadError Z);
  query : R -> Query -> M S (result ReadError Page);
  count : R -> Query -> M S (result ReadError Z);
}.

(** * [Reader] *)

Record Reader : Type := mkReader {
  reader_url : Url;
  reader_key : option string;
  reader_timeout : Z;
  response_cap : Z;
}.

Definition reader_new (url : Url) (key : option string) (timeout : Z) : Reader :=
  mkReader url key timeout u64_max.
Definition with_response_cap (bytes : Z) (r : Reader) : Reader :=
  mkReader r.(reader_url) r.(reader_key) r.(reader_timeout) bytes.

Fixpoint read_chunks (cap : Z) (cs : list Bytes) (e : BodyEnd) (body : Bytes) :
    result ReadError Bytes :=
  match cs with
  | [] => match e with BodyDone => Ok body | BodyBroken t => Err (RTransport t) end
  | c :: cs =>
      if Z.ltb cap (Z.of_nat (length body) + Z.of_nat (length c)) then Err (RTooLarge cap)
      else read_chunks cap cs e (body ++ c)
  end.

Definition read_body (r : Reader) (response : HttpResponse) : result ReadError Bytes :=
  let cap := r.(response_cap) in
  if (match response.(content_length) with Some n => Z.ltb cap n | None => false end)
  then Err (RTooLarge cap)
  else read_chunks cap response.(chunks) response.(body_end) [].

Section reader.
Context `{Alloy} `{SerdeJson} {W : Type} `{World W} (flip_after : Z).

(** What a call makes of the exchange's result. *)
Definition call_answer (r : Reader) (sent : result HttpError HttpResponse) :
    result ReadError Value :=
  response ← map_err RTransport sent;
  _ ← guard_err (negb (is_success response.(status))) (RStatus response.(status));
  body ← read_body r response;
  answer ← ok_or (RUnexpected (from_slice_error "RpcResponse" body))
             (from_slice body ≫= RpcResponse_from_json);
  match answer.(rpc_error) with
  | Some e => Err (RRpc e.(rpc_code) e.(rpc_message))
  | None => Ok (default Null answer.(rpc_result))
  end.

Definition call (r : Reader) (method : string) (params : Value) :
    M (Sys W) (result ReadError Value) :=
  id ← random;
  let body := Object [("jsonrpc", Str "2.0"); ("id", from_u64 id); ("method", Str method);
                      ("params", params)]%string in
  sent ← post flip_after (mkHttpRequest POST r.(reader_url) "application/json" r.(reader_key)
                            (to_vec body) r.(reader_timeout));
  mret (call_answer r sent).

Definition quantity_or (what : Value -> string) (v : Value) (shown : Value) :
    result ReadError Z :=
  ok_or (RUnexpected (what shown)) (parse_u64 v).

Definition reader_block_number (r : Reader) : M (Sys W) (result ReadError Z) :=
  result <?- call r "eth_blockNumber" (Array []);
  mret (quantity_or (fun v => "not a quantity: " ++ value_text v)%string result result).

Definition reader_block (r : Reader) (at_ : BlockAt) :
    M (Sys W) (result ReadError (option BlockFields)) :=
  result <?- call r "eth_getBlockByNumber" (Array [param at_; Bool false]);
  mret (match result with
        | Null => Ok None
        | result => Some <$> ok_or (RUnexpected ("not a block: " ++
                                      from_value_error "BlockFields" result))
                               (BlockFields_from_json result)
        end).

Definition reader_balance (r : Reader) (account : Address) : M (Sys W) (result ReadError Z) :=
  result <?- call r "eth_getBalance" (Array [Str (addr_hex account); Str "latest"]);
  mret (ok_or (RUnexpected ("not a hex quantity: " ++ value_text result))
          (u256_from_json result)).

Definition query_options (q : Query) : Value :=
  Object ([("select", Object [("key", Bool true); ("creator", Bool true);
                              ("createdAt", Bool true); ("updatedAt", Bool true);
                              ("expiresAt", Bool true); ("attributes", Bool true)]);
           ("limit", Str (hex_u64 PAGE_LIMIT))]%string ++
          match q.(at_block) with
          | Some n => [("atBlock", Str (hex_u64 n))]%string
          | None => []
          end).

(** The text of a query the code can build; the panic of the others is
    not reached. *)
Definition query_text (q : Query) : string := default EmptyString (text q).

Definition reader_query (r : Reader) (q : Query) : M (Sys W) (result ReadError Page) :=
  result <?- call r "arkiv_query" (Array [Str (query_text q); query_options q]);
  mret (result ← ok_or (RUnexpected (from_value_error "QueryResult" result))
                   (QueryResult_from_json result);
        block ← quantity_or (fun v => "blockNumber is not a quantity: " ++ value_text v)%string
                  result.(block_number_) result.(block_number_);
        Ok (mkPage result.(data) (bool_decide (is_Some result.(cursor_))) block)).

(** [result["count"]] is [Null] where there is none. *)
Definition reader_count (r : Reader) (q : Query) : M (Sys W) (result ReadError Z) :=
  result <?- call r "arkiv_query"
    (Array [Str (query_text q);
            Object [("select", Object [("count", Bool true)])]%string]);
  mret (quantity_or (fun v => "no count in the answer: " ++ value_text v)%string
          (default Null (value_get "count" result)) result).

#[export] Instance reader_chain_reader : ChainReader Reader (Sys W) := {|
  block_number := reader_block_number;
  block := reader_block;
  balance := reader_balance;
  query := reader_query;
  count := reader_count;
|}.
End reader.

(** * Lemmas: a query's text is uniquely readable *)

#[local] Arguments String.append !_ _ / : simpl nomatch.

Lemma string_app_assoc x y z : ((x ++ y) ++ z = x ++ (y ++ z))%string.
Proof. induction x as [|c x IH]; cbn; [done|]. by rewrite IH. Qed.

Lemma string_app_nil x : (x ++ "" = x)%string.
Proof. induction x as [|c x IH]; cbn; [done|]. by rewrite IH. Qed.

Fixpoint no_char (c : ascii) (s : string) : Prop :=
  match s with EmptyString => True | String d s => d <> c /\ no_char c s end.

Lemma until_char c s1 s2 t1 t2 :
  no_char c s1 -> no_char c s2 -> (s1 ++ String c t1 = s2 ++ String c t2)%string ->
  s1 = s2 /\ t1 = t2.
Proof.
  revert s2. induction s1 as [|d s1 IH]; intros [|e s2] H1 H2; cbn in *; intros E;
    injection E; intros; subst; try tauto.
  destruct (IH s2) as [-> ->]; tauto.
Qed.

Lemma same_length s1 s2 t1 t2 :
  String.length s1 = String.length s2 -> (s1 ++ t1 = s2 ++ t2)%string -> s1 = s2 /\ t1 = t2.
Proof.
  revert s2. induction s1 as [|d s1 IH]; intros [|e s2] H; cbn in *; intros E; try done.
  injection E as -> E. injection H as H. by destruct (IH s2 H E) as [-> ->].
Qed.

Lemma no_char_pretty c n : (forall d, (d < 10)%N -> pretty_N_char d <> c) -> no_char c (pretty (n : N)).
Proof.
  intros Hc. unfold pretty, pretty_N. case_decide; [split; [by apply (Hc 0%N)|done]|].
  assert (forall s, no_char c s -> no_char c (pretty_N_go n s)) as Hg; [|by apply Hg].
  clear H. induction (N.lt_wf_0 n) as [n _ IH]. intros s Hs.
  destruct (decide (n = 0)%N) as [->|Hne]; [by rewrite pretty_N_go_0|].
  rewrite pretty_N_go_step by lia. apply IH; [apply N.div_lt; lia|].
  split; [|done]. apply Hc, N.mod_lt. lia.
Qed.

Lemma no_char_decimal c n :
  (forall d, (d < 10)%N -> pretty_N_char d <> c) -> no_char c (decimal n).
Proof. intros Hc. by apply no_char_pretty. Qed.

Lemma digit_not_other c d :
  (d < 10)%N -> c = ")"%char \/ c = "-"%char -> pretty_N_char d <> c.
Proof.
  intros Hd [-> | ->].
  - below 10%nat (fun d => pretty_N_char d <> ")"%char).
  - below 10%nat (fun d => pretty_N_char d <> "-"%char).
Qed.

Lemma decimal_inj n m : 0 <= n -> 0 <= m -> decimal n = decimal m -> n = m.
Proof.
  intros Hn Hm E. pose proof (from_str_radix_decimal (n + m) n ltac:(lia)) as H1.
  pose proof (from_str_radix_decimal (n + m) m ltac:(lia)) as H2. congruence.
Qed.

Lemma decimal_until n m t1 t2 :
  0 <= n -> 0 <= m -> (decimal n ++ String ")" t1 = decimal m ++ String ")" t2)%string ->
  n = m /\ t1 = t2.
Proof.
  intros Hn Hm E. apply until_char in E as [E ->].
  - split; [by apply decimal_inj|done].
  - apply no_char_decimal. intros d Hd. apply digit_not_other; tauto.
  - apply no_char_decimal. intros d Hd. apply digit_not_other; tauto.
Qed.

Lemma no_dash_decimal n m t1 t2 : (decimal n ++ t1 <> String "-" (decimal m ++ t2))%string.
Proof.
  intros E. assert (no_char "-" (decimal n)) as Hn.
  { apply no_char_decimal. intros d Hd. apply digit_not_other; tauto. }
  assert (decimal n <> EmptyString) as Hne.
  { unfold decimal, pretty, pretty_N. case_decide; [done|].
    destruct (pretty_N_go_head (Z.to_N n) "" ltac:(lia)) as (? & ? & _ & ->). done. }
  destruct (decimal n) as [|c s]; [done|]. cbn in *. injection E as -> _. tauto.
Qed.

Lemma signed_decimal_until n m t1 t2 :
  (signed_decimal n ++ String ")" t1 = signed_decimal m ++ String ")" t2)%string ->
  n = m /\ t1 = t2.
Proof.
  unfold signed_decimal. destruct (Z.ltb_spec n 0), (Z.ltb_spec m 0); cbn; intros E.
  - injection E as E. apply decimal_until in E as [E ->]; [|lia..]. split; [lia|done].
  - exfalso. symmetry in E. by apply no_dash_decimal in E.
  - exfalso. by apply no_dash_decimal in E.
  - by apply decimal_until in E.
Qed.

Lemma quoted_until s1 s2 t1 t2 :
  (double_quotes s1 ++ String "'" (String ")" t1) =
   double_quotes s2 ++ String "'" (String ")" t2))%string -> s1 = s2 /\ t1 = t2.
Proof.
  revert s2. induction s1 as [|c s1 IH]; intros [|d s2]; cbn.
  - by intros [= ->].
  - destruct (Ascii.eqb_spec d "'"); cbn; intros E; congruence.
  - destruct (Ascii.eqb_spec c "'"); cbn; intros E; congruence.
  - destruct (Ascii.eqb_spec c "'") as [->|Hc], (Ascii.eqb_spec d "'") as [->|Hd]; cbn; intros E.
    + injection E as E. by destruct (IH _ E) as [-> ->].
    + congruence.
    + congruence.
    + injection E as -> E. by destruct (IH _ E) as [-> ->].
Qed.

Section unambiguous.
Context `{Alloy}.

(** Conditions a query may hold: typed values in range, not bytes, and
    attribute names that are identifiers. *)
Definition filterable (v : AttributeValue) : Prop :=
  match v with ABytes _ => False | v => value_wf v end.
Definition name_ok (name : string) : Prop :=
  no_char " " name /\ no_char "$" name.
Definition condition_wf (c : Condition) : Prop :=
  match c with
  | CKey k => is_key k
  | CCreator a => is_address a
  | CAttribute name v => name_ok name /\ filterable v
  | CExpiresAfter n | CExpiresBy n => is_u64 n
  end.

Lemma addr_until a a' t1 t2 :
  is_address a -> is_address a' -> (addr_hex a ++ t1 = addr_hex a' ++ t2)%string ->
  a = a' /\ t1 = t2.
Proof.
  intros Ha Ha' E. apply same_length in E as [E ->]; [|by rewrite !addr_hex_length].
  split; [by apply addr_hex_inj|done].
Qed.

Lemma key_until k k' t1 t2 :
  is_key k -> is_key k' -> (key_hex k ++ t1 = key_hex k' ++ t2)%string -> k = k' /\ t1 = t2.
Proof.
  intros Ha Ha' E. apply same_length in E as [E ->]; [|by rewrite !key_hex_length].
  split; [by apply key_hex_inj|done].
Qed.

Lemma literal_until v1 v2 l1 l2 t1 t2 :
  filterable v1 -> filterable v2 -> literal v1 = Some l1 -> literal v2 = Some l2 ->
  (l1 ++ t1 = l2 ++ t2)%string -> v1 = v2 /\ t1 = t2.
Proof.
  intros H1 H2 E1 E2 E. destruct v1, v2; cbn in *; try done; simplify_eq;
    rewrite ?string_app_assoc in E; cbn in E; try discriminate E.
  - by apply quoted_until in E as [-> ->].
  - by apply signed_decimal_until in E as [-> ->].
  - apply decimal_until in E as [-> ->]; [done | machine_unfold; lia..].
  - apply addr_until in E as [-> E]; [|done..]. by injection E as ->.
  - apply key_until in E as [-> E]; [|done..]. by injection E as ->.
Qed.

Lemma condition_until c1 c2 x1 x2 t1 t2 :
  condition_wf c1 -> condition_wf c2 -> condition_text c1 = Some x1 ->
  condition_text c2 = Some x2 -> (x1 ++ t1 = x2 ++ t2)%string -> c1 = c2 /\ t1 = t2.
Proof.
  assert (forall name v l t y, name_ok name -> literal v = Some l ->
    ((name ++ " = " ++ l) ++ t <> String "$" y)%string) as Hname.
  { intros name v l t y [_ Hn] _ E. destruct name as [|c name]; cbn in *; [done|].
    injection E as -> _. tauto. }
  intros H1 H2 E1 E2 E. destruct c1 as [| |n1 v1| |], c2 as [| |n2 v2| |]; cbn in H1, H2, E1, E2;
    try (destruct (literal v1) as [l1|] eqn:El1; [|done]);
    try (destruct (literal v2) as [l2|] eqn:El2; [|done]); cbn in E1, E2; simplify_eq;
    try (exfalso; eapply Hname; [apply H1 | done | exact E]);
    try (exfalso; eapply Hname; [apply H2 | done | symmetry; exact E]);
    rewrite ?string_app_assoc in E; cbn in E; try discriminate E.
  - apply key_until in E as [-> E]; [|done..]. by injection E as ->.
  - apply addr_until in E as [-> E]; [|done..]. by injection E as ->.
  - destruct H1 as [[] ?], H2 as [[] ?]. apply until_char in E as [-> E]; [|done..].
    injection E as E. eapply literal_until in E as [-> ->]; done.
  - apply decimal_until in E as [-> ->]; [done | machine_unfold; lia..].
  - apply decimal_until in E as [-> ->]; [done | machine_unfold; lia..].
Qed.

Lemma join_cons sep x l :
  join sep (x :: l) = (x ++ foldr (fun y acc => sep ++ y ++ acc) "" l)%string.
Proof.
  cbn. revert x. induction l as [|y l IH]; intros x; cbn; [by rewrite string_app_nil|].
  by rewrite IH, !string_app_assoc.
Qed.

(** C40: A filter cannot be read as another one: whatever the strings in it
    hold, quotes included, two queries with one text have the same
    conditions. *)
Theorem text_unambiguous q1 q2 t :
  Forall condition_wf q1.(conditions) -> Forall condition_wf q2.(conditions) ->
  text q1 = Some t -> text q2 = Some t -> q1.(conditions) = q2.(conditions).
Proof.
  unfold text. generalize q1.(conditions) q2.(conditions). clear q1 q2. intros cs1 cs2 W1 W2.
  destruct (mapM condition_text cs1) as [xs1|] eqn:E1; [|done].
  destruct (mapM condition_text cs2) as [xs2|] eqn:E2; [|done]. cbn. intros [= <-] [= E].
  apply mapM_Some in E1, E2.
  assert (forall cs1 xs1 cs2 xs2, Forall condition_wf cs1 -> Forall condition_wf cs2 ->
    Forall2 (fun c x => condition_text c = Some x) cs1 xs1 ->
    Forall2 (fun c x => condition_text c = Some x) cs2 xs2 ->
    foldr (fun y acc => " AND " ++ y ++ acc)%string EmptyString xs2 =
    foldr (fun y acc => " AND " ++ y ++ acc)%string EmptyString xs1 -> cs1 = cs2) as Hg.
  { clear. intros cs1 xs1 cs2 xs2 W1 W2 F1. revert cs2 xs2 W2.
    induction F1 as [|c1 x1 cs1 xs1 Hc1 F1 IH]; intros cs2 xs2 W2 F2;
      destruct F2 as [|c2 x2 cs2 xs2 Hc2 F2]; cbn; try done.
    apply Forall_cons in W1 as [? ?], W2 as [? ?]. intros [= E].
    apply (condition_until c2 c1) in E as [-> E]; [|done..]. f_equal. by eapply IH. }
  destruct E1 as [|c1 x1 cs1 xs1 Hc1 F1], E2 as [|c2 x2 cs2 xs2 Hc2 F2]; [done| | |].
  - exfalso. rewrite join_cons in E. destruct c2; cbn in Hc2; try (by simplify_eq).
    destruct (literal value); cbn in *; simplify_eq. destruct name; discriminate E.
  - exfalso. rewrite join_cons in E. destruct c1; cbn in Hc1; try (by simplify_eq).
    destruct (literal value); cbn in *; simplify_eq. destruct name; discriminate E.
  - rewrite !join_cons in E. apply Forall_cons in W1 as [? ?], W2 as [? ?].
    apply (condition_until c2 c1) in E as [-> E]; [|done..]. f_equal. by eapply Hg.
Qed.
End unambiguous.

(** * Lemmas: a call *)

Lemma read_chunks_spec cap cs e acc :
  Z.of_nat (length acc) <= cap ->
  match read_chunks cap cs e acc with
  | Ok body => body = acc ++ concat cs /\ e = BodyDone /\ Z.of_nat (length body) <= cap
  | Err x => (x = RTooLarge cap /\ cap < Z.of_nat (length (acc ++ concat cs))) \/
             (exists t, e = BodyBroken t /\ x = RTransport t)
  end.
Proof.
  revert acc. induction cs as [|c cs IH]; intros acc Hacc; cbn [read_chunks concat].
  - destruct e; [by rewrite app_nil_r | right; by eexists].
  - destruct (Z.ltb_spec cap (Z.of_nat (length acc) + Z.of_nat (length c))) as [Hlt|Hge].
    + left. split; [done|]. rewrite !length_app. lia.
    + specialize (IH (acc ++ c)). rewrite <- !(assoc_L (++)) in IH. apply IH.
      rewrite length_app. lia.
Qed.

(** A read answers a value exactly when the node gave one. The answer
    was a 2xx whose whole body - declared and actual - is within the
    reader's cap and is a JSON-RPC response without an error; its result
    is the value, [null] when it has none. Nothing else is mistaken for
    an answer, and an answer over the cap is never buffered whole. *)
Theorem call_answer_spec `{SerdeJson} r sent v :
  0 <= r.(response_cap) ->
  call_answer r sent = Ok v <->
  exists resp answer, sent = Ok resp /\ is_success resp.(status) = true /\
    (forall n, resp.(content_length) = Some n -> n <= r.(response_cap)) /\
    resp.(body_end) = BodyDone /\
    Z.of_nat (length (concat resp.(chunks))) <= r.(response_cap) /\
    from_slice (concat resp.(chunks)) ≫= RpcResponse_from_json = Some answer /\
    answer.(rpc_error) = None /\ v = default Null answer.(rpc_result).
Proof.
  intros Hcap. unfold call_answer, read_body. destruct sent as [resp|e]; cbn.
  2:{ split; [done|]. by intros (? & ? & ? & _). }
  destruct (is_success _) eqn:Es; cbn.
  2:{ split; [done|]. intros (? & ? & [= <-] & Ht & _). congruence. }
  pose proof (read_chunks_spec r.(response_cap) resp.(chunks) resp.(body_end) [] Hcap) as Hr.
  destruct (match content_length resp with Some n => _ | None => _ end) eqn:El; cbn.
  { split; [done|]. intros (? & ? & [= <-] & _ & Hn & _).
    destruct (content_length resp) as [n|]; [|done]. specialize (Hn n eq_refl). lia. }
  assert (forall n, content_length resp = Some n -> n <= response_cap r) as Hlen.
  { intros n En. rewrite En in El. lia. }
  destruct (read_chunks _ _ _ _) as [body|x]; cbn.
  - cbn in Hr. destruct Hr as (-> & Hd & Hb).
    destruct (from_slice _ ≫= _) as [answer|] eqn:Ef; cbn.
    2:{ split; [done|]. intros (? & ? & [= <-] & _ & _ & _ & _ & Ha & _). congruence. }
    destruct (rpc_error answer) as [e|] eqn:Ee.
    + split; [done|]. intros (? & ? & [= <-] & _ & _ & _ & _ & Ha & Hn & _). congruence.
    + split.
      * intros [= <-]. by exists resp, answer.
      * intros (? & ? & [= <-] & _ & _ & _ & _ & Ha & _ & ->). by simplify_eq.
  - split; [done|]. intros (? & ? & [= <-] & _ & _ & Hd & Hb & _). cbn in Hr.
    destruct Hr as [[_ Hr]|(t & Hr & _)]; [lia | congruence].
Qed.

Section calls.
Context `{Alloy} `{SerdeJson} {W : Type} `{World W} (flip_after : Z).

(** What one call did to the system: it sent one request and let the
    others run, and touched nothing itself. *)
Definition one_request (P : HttpRequest -> Prop) (s s' : Sys W) : Prop :=
  exists q os, P q /\ steps flip_after s s' (Sent q :: (Theirs <$> os)).

Lemma call_one_request r method params s :
  one_request (fun q => q.(req_url) = r.(reader_url) /\ q.(req_bearer) = r.(reader_key) /\
                        q.(req_timeout) = r.(reader_timeout))
    s (call flip_after r method params s).2.
Proof.
  unfold call, mbind, M_bind, mret, M_ret.
  pose proof (random_steps flip_after s) as Hr1. destruct (random s) as [n s1].
  match goal with |- context [post flip_after ?q s1] => set (req := q) end.
  destruct (post_steps flip_after req s1) as [os Hr2].
  destruct (post flip_after req s1) as [x s2]. exists req, os. split; [done|].
  exact (steps_trans _ _ _ _ _ _ Hr1 Hr2).
Qed.

Lemma try_call_state {A} r method params (f : Value -> result ReadError A) s :
  (try_m (call flip_after r method params) (fun v => mret (f v)) s).2 =
    (call flip_after r method params s).2.
Proof.
  unfold try_m, mbind, M_bind. by destruct (call _ _ _ _ s) as [[v|e] s'].
Qed.

(** Every read is one request to the reader's own endpoint, under its
    own timeout and bearer key, and changes no pool entry: whatever the
    pool became meanwhile, the others' steps in the history made it. *)
Theorem reads_only_ask r at_ account q s :
  let P q := q.(req_url) = r.(reader_url) /\ q.(req_bearer) = r.(reader_key) /\
             q.(req_timeout) = r.(reader_timeout) in
  one_request P s (reader_block_number flip_after r s).2 /\
  one_request P s (reader_block flip_after r at_ s).2 /\
  one_request P s (reader_balance flip_after r account s).2 /\
  one_request P s (reader_query flip_after r q s).2 /\
  one_request P s (reader_count flip_after r q s).2.
Proof.
  intros P. unfold reader_block_number, reader_block, reader_balance, reader_query, reader_count.
  rewrite !try_call_state. split_and!; apply call_one_request.
Qed.
End calls.

(** What a client of the trait may rely on: a read changes nothing by
    itself. *)
Class QuietReader (R W : Type) `{World W} (flip_after : Z) `{ChainReader R (Sys W)} : Prop := {
  quiet_block_number (r : R) : quiet flip_after (block_number r);
  quiet_block (r : R) at_ : quiet flip_after (block r at_);
  quiet_balance (r : R) a : quiet flip_after (balance r a);
  quiet_query (r : R) q : quiet flip_after (query r q);
  quiet_count (r : R) q : quiet flip_after (count r q);
}.
#[export] Hint Extern 0 (quiet _ (block_number _)) => apply quiet_block_number : lb.
#[export] Hint Extern 0 (quiet _ (block _ _)) => apply quiet_block : lb.
#[export] Hint Extern 0 (quiet _ (balance _ _)) => apply quiet_balance : lb.
#[export] Hint Extern 0 (quiet _ (query _ _)) => apply quiet_query : lb.
#[export] Hint Extern 0 (quiet _ (count _ _)) => apply quiet_count : lb.

Lemma quiet_call `{SerdeJson} {W} `{World W} `{!Rely W} flip_after r method params :
  quiet flip_after (call (W:=W) flip_after r method params).
Proof. unfold call. auto 10 with lb. Qed.
#[export] Hint Resolve quiet_call : lb.

#[export] Instance reader_quiet `{Alloy} `{SerdeJson} {W} `{World W} `{!Rely W} flip_after :
  QuietReader Reader W flip_after (H0 := reader_chain_reader flip_after).
Proof.
  split; intros; cbn [block_number block balance query count reader_chain_reader];
    unfold reader_block_number, reader_block, reader_balance, reader_query, reader_count;
    auto 10 with lb.
Qed.

(** * Witnesses *)

Definition demo_query : Query := attr_str "state" "o'pen" (query_kind KIND_COUNTER).

Lemma text_unambiguous_witness :
  text demo_query = Some "kind = str('rpc.counter') AND v = i32(1) AND state = str('o''pen')"%string /\
  demo_query.(conditions) = (query_at_block 5 demo_query).(conditions).
Proof.
  assert (text demo_query =
    Some "kind = str('rpc.counter') AND v = i32(1) AND state = str('o''pen')"%string) as E
    by (by vm_compute).
  assert (Forall condition_wf demo_query.(conditions)) as W.
  { repeat constructor; vm_compute; congruence. }
  split; [exact E|]. exact (text_unambiguous demo_query (query_at_block 5 demo_query) _ W W E E).
Defined.

Definition demo_reader : Reader := with_response_cap 1000 (reader_new "http://r" None 7).
Definition demo_rpc_body : Bytes :=
  to_vec (Object [("jsonrpc", Str "2.0"); ("result", Str "0x2a")]%string).

Lemma call_answer_spec_witness :
  call_answer demo_reader (Ok (mkHttpResponse 200 None [demo_rpc_body] BodyDone)) =
    Ok (Str "0x2a").
Proof.
  apply (call_answer_spec demo_reader); [vm_compute; congruence|].
  exists (mkHttpResponse 200 None [demo_rpc_body] BodyDone).
  exists (mkRpcResponse (Some (Str "0x2a")) None).
  split_and!; done.
Defined.
