(* ===== verification/Writer.v ===== *)
(** The client of the chain-writer sidecar, [crates/lb/src/chain/writer.rs]:
    the operations of a batch, the outcomes of a write, and [send], which
    splits a batch the node refuses as too large. *)

From S2P Require Import Prelude External Concrete Pool World Jsonrpc Records Reader.

#[local] Open Scope Z_scope.

(** 200 seconds, above the sidecar's own wait. *)
Definition TIMEOUT : Z := from_secs 200.

Inductive Expiry : Type := Seconds (n : Z).

Record Create : Type := mkCreate { create_attributes : Attributes; expiration : Expiry }.
Record Patch : Type := mkPatch { patch_key : EntityKey; set : Attributes }.
Record Extend : Type := mkExtend { extend_key : EntityKey; extend_expiration : Expiry }.
Record Delete : Type := mkDelete { delete_key : EntityKey }.

Inductive Operation : Type :=
| OpCreate (c : Create)
| OpPatch (p : Patch)
| OpDelete (d : Delete)
| OpExtend (e : Extend).

#[export] Instance attributes_eq_dec : EqDecision Attributes.
Proof. unfold Attributes. apply _. Defined.
#[export] Instance expiry_eq_dec : EqDecision Expiry.
Proof. solve_decision. Defined.
#[export] Instance create_eq_dec : EqDecision Create.
Proof. solve_decision. Defined.
#[export] Instance patch_eq_dec : EqDecision Patch.
Proof. solve_decision. Defined.
#[export] Instance extend_eq_dec : EqDecision Extend.
Proof. solve_decision. Defined.
#[export] Instance delete_eq_dec : EqDecision Delete.
Proof. solve_decision. Defined.
#[export] Instance operation_eq_dec : EqDecision Operation.
Proof. solve_decision. Defined.

(** [Batch]: its operations. *)
Record Batch : Type := mkBatch { operations : list Operation }.

Definition batch_new : Batch := mkBatch [].
Definition batch_push (o : Operation) (b : Batch) : Batch := mkBatch (b.(operations) ++ [o]).
Definition batch_single (o : Operation) : Batch := batch_push o batch_new.
Definition batch_is_empty (b : Batch) : bool := Nat.eqb (length b.(operations)) 0.

Definition halves (b : Batch) : option (Batch * Batch) :=
  let n := length b.(operations) in
  if Nat.ltb n 2 then None
  else Some (mkBatch (take (n / 2) b.(operations)), mkBatch (drop (n / 2) b.(operations))).

(** ** Answers of the sidecar *)

Record Created : Type := mkCreated {
  created_key : EntityKey;
  created_tx : string;
  created_expires_at : Z;
}.
Record Written : Type := mkWritten { written_key : EntityKey; written_tx : string }.
Record Extended : Type := mkExtended {
  extended_key : EntityKey;
  extended_tx : string;
  extended_expires_at : Z;
}.
Record BatchResult : Type := mkBatchResult {
  tx_hash : string;
  created_entities : list EntityKey;
  patched_entities : list EntityKey;
  deleted_entities : list EntityKey;
  extended_entities : list EntityKey;
}.
Record Identity : Type := mkIdentity { address : Address; chain_id : Z }.
Record ErrorLink : Type := mkErrorLink {
  link_name : string;
  link_message : string;
  details : option string;
}.

Inductive WriteError : Type :=
| Refused (links : list ErrorLink)
| WTooLarge (links : list ErrorLink)
| Failed (links : list ErrorLink)
| Unresolved (tx : string) (links : list ErrorLink)
| WUnexpected (code : Z) (body : string)
| WTransport (e : HttpError).

Record ErrorBody : Type := mkErrorBody {
  error_links : list ErrorLink;
  pending : option string;
}.

Definition causes (links : list ErrorLink) : string :=
  join " <- "
    ((fun link => match link.(details) with
                  | Some d => link.(link_name) ++ ": " ++ link.(link_message) ++ " (" ++ d ++ ")"
                  | None => link.(link_name) ++ ": " ++ link.(link_message)
                  end)%string <$> links).

(** [deserialize_decimal]. *)
Definition decimal_from_json (v : Value) : option Z := as_str v ≫= from_str_radix u64_max 10.

(** A list field with [#[serde(default)]]. *)
Definition list_or_empty {A} (f : Value -> option A) (v : option Value) : option (list A) :=
  match v with None => Some [] | Some v => list_from_json f v end.

Definition ErrorLink_from_json (v : Value) : option ErrorLink :=
  fs ← struct_fields ["name"; "message"; "details"]%string v;
  match fs with
  | [n; m; d] =>
      n ← required as_str n; m ← required as_str m; d ← optional as_str d;
      Some (mkErrorLink n m d)
  | _ => None
  end.

Definition Pending_from_json (v : Value) : option string :=
  fs ← struct_fields ["txHash"]%string v;
  match fs with [t] => required as_str t | _ => None end.

Definition ErrorBody_from_json (v : Value) : option ErrorBody :=
  fs ← struct_fields_all ["error"; "pending"]%string v;
  match fs with
  | [e; p] =>
      e ← list_or_empty ErrorLink_from_json e; p ← optional Pending_from_json p;
      Some (mkErrorBody e p)
  | _ => None
  end.

Section json.
Context `{Alloy}.

Definition Created_from_json (v : Value) : option Created :=
  fs ← struct_fields ["entityKey"; "txHash"; "expiresAt"]%string v;
  match fs with
  | [k; t; e] =>
      k ← required key_from_json k; t ← required as_str t;
      e ← required decimal_from_json e; Some (mkCreated k t e)
  | _ => None
  end.
Definition Written_from_json (v : Value) : option Written :=
  fs ← struct_fields ["entityKey"; "txHash"]%string v;
  match fs with
  | [k; t] => k ← required key_from_json k; t ← required as_str t; Some (mkWritten k t)
  | _ => None
  end.
Definition Extended_from_json (v : Value) : option Extended :=
  fs ← struct_fields ["entityKey"; "txHash"; "expiresAt"]%string v;
  match fs with
  | [k; t; e] =>
      k ← required key_from_json k; t ← required as_str t;
      e ← required decimal_from_json e; Some (mkExtended k t e)
  | _ => None
  end.
Definition BatchResult_from_json (v : Value) : option BatchResult :=
  fs ← struct_fields ["txHash"; "createdEntities"; "patchedEntities"; "deletedEntities";
                      "extendedEntities"]%string v;
  match fs with
  | [t; c; p; d; e] =>
      t ← required as_str t; c ← list_or_empty key_from_json c;
      p ← list_or_empty key_from_json p; d ← list_or_empty key_from_json d;
      e ← list_or_empty key_from_json e; Some (mkBatchResult t c p d e)
  | _ => None
  end.
Definition Identity_from_json (v : Value) : option Identity :=
  fs ← struct_fields ["address"; "chainId"]%string v;
  match fs with
  | [a; c] =>
      a ← required addr_from_json a; c ← required (uint u64_max) c; Some (mkIdentity a c)
  | _ => None
  end.

(** ** Bodies the sidecar is sent *)

Definition Expiry_to_json (e : Expiry) : Value :=
  match e with Seconds n => Object [("seconds", from_u64 n)]%string end.
Definition Create_to_json (c : Create) : Value :=
  Object [("attributes", attributes_to_wire c.(create_attributes));
          ("expiration", Expiry_to_json c.(expiration))]%string.
Definition Patch_to_json (p : Patch) : Value :=
  Object [("entityKey", key_to_json p.(patch_key)); ("set", attributes_to_wire p.(set))]%string.
Definition Extend_to_json (e : Extend) : Value :=
  Object [("entityKey", key_to_json e.(extend_key));
          ("expiration", Expiry_to_json e.(extend_expiration))]%string.
Definition Delete_to_json (d : Delete) : Value :=
  Object [("entityKey", key_to_json d.(delete_key))]%string.

Definition creates (l : list Operation) : list Create :=
  omap (fun o => match o with OpCreate c => Some c | _ => None end) l.
Definition patches (l : list Operation) : list Patch :=
  omap (fun o => match o with OpPatch p => Some p | _ => None end) l.
Definition deletes (l : list Operation) : list Delete :=
  omap (fun o => match o with OpDelete d => Some d | _ => None end) l.
Definition extensions (l : list Operation) : list Extend :=
  omap (fun o => match o with OpExtend e => Some e | _ => None end) l.

(** The operations by kind; a kind without any is left out. *)
Definition Batch_to_json (b : Batch) : Value :=
  let ops := b.(operations) in
  let part {A} (name : string) (f : A -> Value) (l : list A) : list (string * Value) :=
    if Nat.eqb (length l) 0 then [] else [(name, Array (f <$> l))] in
  Object (part "creates"%string Create_to_json (creates ops) ++
          part "patches"%string Patch_to_json (patches ops) ++
          part "deletes"%string Delete_to_json (deletes ops) ++
          part "extensions"%string Extend_to_json (extensions ops)).
End json.

(** * What the LB writes to the chain: the trait *)

Class ChainWriter (W S : Type) := {
  identity : W -> M S (result WriteError Identity);
  create : W -> Create -> M S (result WriteError Created);
  patch : W -> Patch -> M S (result WriteError Written);
  delete : W -> Delete -> M S (result WriteError Written);
  extend : W -> Extend -> M S (result WriteError Extended);
  execute_batch : W -> Batch -> M S (result WriteError BatchResult);
}.

Record Sent_ : Type := mkSent { sent_batch : Batch; sent_result : result WriteError BatchResult }.

Definition is_too_large {A} (r : result WriteError A) : bool :=
  match r with Err (WTooLarge _) => true | _ => false end.

Section send.
Context {W S : Type} `{ChainWriter W S}.

(** The [while] over the queue; [2 * n] rounds do for [n] operations. *)
Fixpoint send_loop (fuel : nat) (writer : W) (queue : list Batch) (sent : list Sent_) :
    M S (list Sent_) :=
  match fuel, queue with
  | O, _ | _, [] => mret sent
  | Datatypes.S fuel, chunk :: queue =>
      result ← execute_batch writer chunk;
      match (if is_too_large result then halves chunk else None) with
      | Some (first, second) => send_loop fuel writer (first :: second :: queue) sent
      | None => send_loop fuel writer queue (sent ++ [mkSent chunk result])
      end
  end.

Definition send (writer : W) (batch : Batch) : M S (list Sent_) :=
  send_loop (2 * length batch.(operations)) writer
    (if batch_is_empty batch then [] else [batch]) [].
End send.

(** * [Writer] *)

Record Writer : Type := mkWriter { base : Url }.

Section writer.
Context `{Alloy} `{SerdeJson} `{UrlLib} {W : Type} `{World W} (flip_after : Z).

Definition response_text (response : HttpResponse) : result HttpError string :=
  match response.(body_end) with
  | BodyDone => Ok (decode_text (concat response.(chunks)))
  | BodyBroken t => Err t
  end.

Definition from_str (text : string) : option Value := from_slice (b text).

(** What a write makes of the sidecar's answer. *)
Definition write_answer {R} (read : Value -> option R) (sent : result HttpError HttpResponse) :
    result WriteError R :=
  response ← map_err WTransport sent;
  text ← map_err WTransport (response_text response);
  let status := response.(status) in
  if Z.eqb status 200 then ok_or (WUnexpected status text) (from_str text ≫= read)
  else match from_str text ≫= ErrorBody_from_json with
       | None => Err (WUnexpected status text)
       | Some body =>
           if Z.eqb status 400 then Err (Refused body.(error_links))
           else if Z.eqb status 413 then Err (WTooLarge body.(error_links))
           else if Z.eqb status 500 then Err (Failed body.(error_links))
           else if Z.eqb status 504
           then match body.(pending) with
                | Some tx => Err (Unresolved tx body.(error_links))
                | None => Err (WUnexpected status text)
                end
           else Err (WUnexpected status text)
       end.

Definition identity_answer (sent : result HttpError HttpResponse) : result WriteError Identity :=
  response ← map_err WTransport sent;
  text ← map_err WTransport (response_text response);
  let status := response.(status) in
  _ ← guard_err (negb (Z.eqb status 200)) (WUnexpected status text);
  ok_or (WUnexpected status text) (from_str text ≫= Identity_from_json).

Definition writer_identity (w : Writer) : M (Sys W) (result WriteError Identity) :=
  identity_answer <$>
    post flip_after (mkHttpRequest GET (url_join w.(base) "identity") "" None [] (from_secs 5)).

Definition writer_post {R} (read : Value -> option R) (w : Writer) (route : string)
    (body : Value) : M (Sys W) (result WriteError R) :=
  write_answer read <$>
    post flip_after (mkHttpRequest POST (url_join w.(base) route) "application/json" None
                       (to_vec body) TIMEOUT).

Definition writer_create (w : Writer) (c : Create) :=
  writer_post Created_from_json w "create" (Create_to_json c).
Definition writer_patch (w : Writer) (p : Patch) :=
  writer_post Written_from_json w "patch" (Patch_to_json p).
Definition writer_delete (w : Writer) (d : Delete) :=
  writer_post Written_from_json w "delete" (Delete_to_json d).
Definition writer_extend (w : Writer) (e : Extend) :=
  writer_post Extended_from_json w "extend" (Extend_to_json e).
Definition writer_execute_batch (w : Writer) (x : Batch) :=
  writer_post BatchResult_from_json w "execute-batch" (Batch_to_json x).

#[export] Instance writer_chain_writer : ChainWriter Writer (Sys W) := {|
  identity := writer_identity;
  create := writer_create;
  patch := writer_patch;
  delete := writer_delete;
  extend := writer_extend;
  execute_batch := writer_execute_batch;
|}.
End writer.

(** * Lemmas: sending *)

Lemma halves_Some x first second :
  halves x = Some (first, second) ->
  x.(operations) = first.(operations) ++ second.(operations) /\
  first.(operations) <> [] /\ second.(operations) <> [] /\ (2 <= length x.(operations))%nat.
Proof.
  unfold halves. destruct (Nat.ltb_spec (length (operations x)) 2) as [|Hlen]; [done|].
  assert (0 < length (operations x) / 2 < length (operations x))%nat as Hh
    by (split; [apply Nat.div_str_pos; lia | apply Nat.div_lt; lia]).
  generalize dependent (length (operations x) / 2)%nat. intros h Hh [= <- <-].
  cbn [operations].
  split_and!; [by rewrite take_drop | | | done]; intros E; apply (f_equal length) in E;
    rewrite ?length_take, ?length_drop in E; cbn [length] in E; lia.
Qed.

Lemma halves_None x : halves x = None -> (length x.(operations) < 2)%nat.
Proof. unfold halves. destruct (Nat.ltb_spec (length (operations x)) 2); [done|by intros]. Qed.

(** Rounds a queue may take. *)
Definition rounds (queue : list Batch) : nat :=
  foldr (fun x n => 2 * length x.(operations) - 1 + n)%nat O queue.

Definition nonempty (x : Batch) : Prop := x.(operations) <> [].

Lemma nonempty_length x : nonempty x -> (1 <= length x.(operations))%nat.
Proof. unfold nonempty. destruct (operations x); cbn; [done|lia]. Qed.

Section send_lemmas.
Context {W S : Type} `{ChainWriter W S} (writer : W).

(** What a part of a sent batch looks like. *)
Definition part_ok (x : Sent_) : Prop :=
  nonempty x.(sent_batch) /\
  (is_too_large x.(sent_result) = true -> length x.(sent_batch).(operations) = 1%nat).

(** The rule for [send]: an invariant of what was sent so far and the
    state, kept by each attempt, whether it is reported or split. *)
Lemma send_loop_rule (Inv : list Batch -> list Sent_ -> S -> Prop) :
  (forall chunk queue sent s, Inv (chunk :: queue) sent s -> nonempty chunk ->
     let '(r, s') := execute_batch writer chunk s in
     match (if is_too_large r then halves chunk else None) with
     | Some (first, second) => Inv (first :: second :: queue) sent s'
     | None => Inv queue (sent ++ [mkSent chunk r]) s'
     end) ->
  forall fuel queue sent s,
    (rounds queue <= fuel)%nat -> Forall nonempty queue -> Forall part_ok sent ->
    Inv queue sent s ->
    let '(sent', s') := send_loop fuel writer queue sent s in
    Inv [] sent' s' /\ Forall part_ok sent' /\
    concat (operations ∘ sent_batch <$> sent') =
      concat (operations ∘ sent_batch <$> sent) ++ concat (operations <$> queue).
Proof.
  intros Hstep fuel. induction fuel as [|fuel IH]; intros queue sent s Hf Hq Hs Hi.
  - destruct queue as [|x queue]; cbn.
    + by rewrite app_nil_r.
    + apply Forall_cons in Hq as [Hx _]. apply nonempty_length in Hx. cbn in Hf. lia.
  - destruct queue as [|x queue]; cbn [send_loop].
    { cbn. by rewrite app_nil_r. }
    apply Forall_cons in Hq as [Hx Hq]. pose proof (nonempty_length x Hx) as Hlen.
    cbn [rounds foldr] in Hf. fold (rounds queue) in Hf.
    specialize (Hstep x queue sent s Hi Hx). unfold mbind, M_bind.
    destruct (execute_batch writer x s) as [r s'] eqn:Er.
    destruct (if is_too_large r then halves x else None) as [[first second]|] eqn:Eh.
    + destruct (is_too_large r); [|done].
      apply halves_Some in Eh as (Hops & Hn1 & Hn2 & _).
      specialize (IH (first :: second :: queue) sent s').
      destruct (send_loop fuel writer (first :: second :: queue) sent s') as [sent' s''].
      destruct IH as (? & ? & Hc); [| by repeat constructor | done | done |].
      * cbn [rounds foldr]. fold (rounds queue).
        pose proof (nonempty_length _ Hn1). pose proof (nonempty_length _ Hn2).
        rewrite Hops, length_app in Hf. lia.
      * split_and!; [done..|]. rewrite Hc. cbn. rewrite Hops. by rewrite <- (assoc_L (++)).
    + specialize (IH queue (sent ++ [mkSent x r]) s').
      destruct (send_loop fuel writer queue (sent ++ [mkSent x r]) s') as [sent' s''].
      destruct IH as (? & ? & Hc); [lia | done | | done |].
      * apply Forall_app. split; [done|]. constructor; [|done]. split; [done|]. cbn.
        intros Et. rewrite Et in Eh. apply halves_None in Eh. lia.
      * split_and!; [done..|]. rewrite Hc, fmap_app, concat_app. cbn.
        by rewrite app_nil_r, <- (assoc_L (++)).
Qed.

(** The rule for [send] itself. *)
Lemma send_rule (Inv : list Batch -> list Sent_ -> S -> Prop) batch s :
  (forall chunk queue sent s, Inv (chunk :: queue) sent s -> nonempty chunk ->
     let '(r, s') := execute_batch writer chunk s in
     match (if is_too_large r then halves chunk else None) with
     | Some (first, second) => Inv (first :: second :: queue) sent s'
     | None => Inv queue (sent ++ [mkSent chunk r]) s'
     end) ->
  Inv (if batch_is_empty batch then [] else [batch]) [] s ->
  Inv [] (send writer batch s).1 (send writer batch s).2 /\
  Forall part_ok (send writer batch s).1 /\
  concat (operations ∘ sent_batch <$> (send writer batch s).1) = batch.(operations).
Proof.
  intros Hstep Hi. unfold send.
  pose proof (send_loop_rule Inv Hstep (2 * length (operations batch))
    (if batch_is_empty batch then [] else [batch]) [] s) as Hrule.
  destruct (send_loop _ _ _ _ _) as [sent' s']. cbn. unfold batch_is_empty in *.
  destruct (Nat.eqb_spec (length (operations batch)) 0) as [E0|E0].
  - destruct Hrule as (? & ? & Hc); [cbn; lia | done | done | done|].
    split_and!; [done..|]. rewrite Hc. by destruct (operations batch).
  - destruct Hrule as (? & ? & Hc); [cbn [rounds foldr]; lia | | done | done |].
    + repeat constructor. unfold nonempty. by destruct (operations batch).
    + split_and!; [done..|]. rewrite Hc. cbn. by rewrite app_nil_r.
Qed.

(** * Theorems *)

(** C8: Sending loses nothing and repeats nothing, whatever the sidecar
    answers: the parts reported are the batch's operations, each once
    and in order; a part is reported as too large only when it is a
    single operation; and the loop has ended within its rounds. *)
Theorem send_reports_every_operation batch s :
  let sent := (send writer batch s).1 in
  concat (operations ∘ sent_batch <$> sent) = batch.(operations) /\
  Forall part_ok sent /\
  (forall more, (send_loop (2 * length batch.(operations) + more) writer
     (if batch_is_empty batch then [] else [batch]) [] s).1 = sent).
Proof.
  destruct (send_rule (fun _ _ _ => True) batch s) as (_ & Hp & Hc); [|done|].
  { intros chunk queue sent s' _ _. destruct (execute_batch _ _ _) as [r ?].
    by destruct (if is_too_large r then _ else _) as [[]|]. }
  split_and!; [done..|]. intros m. unfold send.
  assert (forall fuel queue sent s, (rounds queue <= fuel)%nat -> Forall nonempty queue ->
    send_loop (fuel + m) writer queue sent s = send_loop fuel writer queue sent s) as Hmore.
  { clear. induction fuel as [|fuel IH]; intros queue sent s Hf Hq.
    - destruct queue as [|x queue]; [by destruct m|].
      apply Forall_cons in Hq as [Hx _]. apply nonempty_length in Hx. cbn in Hf. lia.
    - destruct queue as [|x queue]; [done|]. apply Forall_cons in Hq as [Hx Hq].
      pose proof (nonempty_length x Hx) as Hlen. cbn [rounds foldr] in Hf.
      fold (rounds queue) in Hf. cbn [send_loop Nat.add]. unfold mbind, M_bind.
      destruct (execute_batch writer x s) as [r s'].
      destruct (if is_too_large r then halves x else None) as [[first second]|] eqn:Eh.
      + destruct (is_too_large r); [|done]. apply halves_Some in Eh as (Hops & Hn1 & Hn2 & _).
        apply IH; [|by repeat constructor]. cbn [rounds foldr]. fold (rounds queue).
        pose proof (nonempty_length _ Hn1). pose proof (nonempty_length _ Hn2).
        rewrite Hops, length_app in Hf. lia.
      + apply IH; [lia|done]. }
  rewrite Hmore; [done | |]; unfold batch_is_empty;
    destruct (Nat.eqb_spec (length (operations batch)) 0) as [E0|E0]; [cbn [rounds foldr]; lia .. | done |].
  repeat constructor. unfold nonempty. by destruct (operations batch).
Qed.
End send_lemmas.

(** An outcome says what happened to the transaction. Success is a 200
    whose body reads as the answer; a refusal or an oversize - nothing
    was sent - is a 400 or a 413; a failure is a 500; an unresolved one,
    which may still land, is a 504 that names its transaction. Everything
    else is reported as unexpected, never as one of these. *)
Theorem write_outcomes `{SerdeJson} `{UrlLib} {R} (read : Value -> option R) resp :
  resp.(body_end) = BodyDone ->
  let text := decode_text (concat resp.(chunks)) in
  let errors := from_str text ≫= ErrorBody_from_json in
  match write_answer read (Ok resp) with
  | Ok r => resp.(status) = 200 /\ from_str text ≫= read = Some r
  | Err (Refused links) => resp.(status) = 400 /\ error_links <$> errors = Some links
  | Err (WTooLarge links) => resp.(status) = 413 /\ error_links <$> errors = Some links
  | Err (Failed links) => resp.(status) = 500 /\ error_links <$> errors = Some links
  | Err (Unresolved tx links) =>
      resp.(status) = 504 /\ exists body, errors = Some body /\ body.(pending) = Some tx /\
        body.(error_links) = links
  | Err (WUnexpected code body) =>
      code = resp.(status) /\ body = text /\
      (code = 200 /\ from_str text ≫= read = None \/
       code <> 200 /\ errors = None \/
       code <> 200 /\ code <> 400 /\ code <> 413 /\ code <> 500 /\
       (code = 504 -> errors ≫= pending = None))
  | Err (WTransport _) => False
  end.
Proof.
  intros Hd text errors. unfold write_answer, response_text. cbn. rewrite Hd. cbn.
  fold text. fold errors.
  destruct (Z.eqb_spec resp.(status) 200) as [E2|E2].
  { destruct (from_str text ≫= read) eqn:Er; cbn; [done|]. split_and!; [done..|by left]. }
  destruct errors as [body|] eqn:Ee; cbn.
  2:{ split_and!; [done..|]. right. by left. }
  destruct (Z.eqb_spec resp.(status) 400); [done|].
  destruct (Z.eqb_spec resp.(status) 413); [done|].
  destruct (Z.eqb_spec resp.(status) 500); [done|].
  destruct (Z.eqb_spec resp.(status) 504).
  - destruct (pending body) as [tx|] eqn:Ep.
    + split; [done|]. by exists body.
    + split_and!; [done..|]. right. right. by split_and!.
  - split_and!; [done..|]. right. right. by split_and!.
Qed.

Lemma ops_by_kind l :
  l ≡ₚ (OpCreate <$> creates l) ++ (OpPatch <$> patches l) ++ (OpDelete <$> deletes l) ++
       (OpExtend <$> extensions l).
Proof.
  induction l as [|o l IH]; [done|].
  unfold creates, patches, deletes, extensions in *. destruct o; cbn; rewrite IH at 1.
  - done.
  - by rewrite <- Permutation_middle.
  - rewrite (assoc_L (++)), Permutation_middle. by rewrite <- (assoc_L (++)).
  - rewrite !(assoc_L (++)). by rewrite Permutation_middle.
Qed.

Section body.
Context `{Alloy}.

(** The body of a batch carries each operation once, under its kind and
    in order, and names no kind that has none. *)
Theorem batch_body_complete x :
  let body := Batch_to_json x in
  let part {A} (f : A -> Value) (l : list A) :=
    match l with [] => None | l => Some (Array (f <$> l)) end in
  x.(operations) ≡ₚ (OpCreate <$> creates x.(operations)) ++
    (OpPatch <$> patches x.(operations)) ++ (OpDelete <$> deletes x.(operations)) ++
    (OpExtend <$> extensions x.(operations)) /\
  value_get "creates" body = part Create_to_json (creates x.(operations)) /\
  value_get "patches" body = part Patch_to_json (patches x.(operations)) /\
  value_get "deletes" body = part Delete_to_json (deletes x.(operations)) /\
  value_get "extensions" body = part Extend_to_json (extensions x.(operations)).
Proof.
  split; [apply ops_by_kind|]. unfold Batch_to_json.
  destruct (creates _), (patches _), (deletes _), (extensions _); by split_and!.
Qed.
End body.

(** What a client of the trait may rely on: a write changes no pool
    entry by itself. *)
Class QuietWriter (Wr W : Type) `{World W} (flip_after : Z) `{ChainWriter Wr (Sys W)} : Prop := {
  quiet_identity (w : Wr) : quiet flip_after (identity w);
  quiet_create (w : Wr) c : quiet flip_after (create w c);
  quiet_patch (w : Wr) p : quiet flip_after (patch w p);
  quiet_delete (w : Wr) d : quiet flip_after (delete w d);
  quiet_extend (w : Wr) e : quiet flip_after (extend w e);
  quiet_execute_batch (w : Wr) x : quiet flip_after (execute_batch w x);
}.
#[export] Hint Extern 0 (quiet _ (identity _)) => apply quiet_identity : lb.
#[export] Hint Extern 0 (quiet _ (create _ _)) => apply quiet_create : lb.
#[export] Hint Extern 0 (quiet _ (patch _ _)) => apply quiet_patch : lb.
#[export] Hint Extern 0 (quiet _ (delete _ _)) => apply quiet_delete : lb.
#[export] Hint Extern 0 (quiet _ (extend _ _)) => apply quiet_extend : lb.
#[export] Hint Extern 0 (quiet _ (execute_batch _ _)) => apply quiet_execute_batch : lb.

#[export] Instance writer_quiet `{Alloy} `{SerdeJson} `{UrlLib} {W} `{World W} `{!Rely W}
    flip_after : QuietWriter Writer W flip_after (H0 := writer_chain_writer flip_after).
Proof.
  split; intros;
    cbn [identity create patch delete extend execute_batch writer_chain_writer];
    unfold writer_identity, writer_create, writer_patch, writer_delete, writer_extend,
      writer_execute_batch, writer_post; auto with lb.
Qed.

Lemma quiet_send {Wr W} `{World W} flip_after `{ChainWriter Wr (Sys W)}
    `{!QuietWriter Wr W flip_after} (w : Wr) x : quiet flip_after (send w x).
Proof.
  unfold send. generalize (2 * length (operations x))%nat as fuel.
  generalize (if batch_is_empty x then [] else [x]) as queue. generalize (@nil Sent_) as sent.
  intros sent queue fuel. revert queue sent.
  induction fuel as [|fuel IH]; intros queue sent; [apply quiet_ret|].
  destruct queue as [|chunk queue]; [apply quiet_ret|]. cbn [send_loop].
  apply quiet_bind; [auto with lb|]. intros result.
  destruct (if is_too_large result then _ else _) as [[]|]; apply IH.
Qed.
#[export] Hint Extern 0 (quiet _ (send _ _)) => apply quiet_send : lb.

(** * Witnesses *)

Definition demo_unresolved : HttpResponse :=
  mkHttpResponse 504 None
    [to_vec (Object [("pending", Object [("txHash", Str "0xab")])]%string)] BodyDone.

Lemma write_outcomes_witness :
  demo_unresolved.(body_end) = BodyDone /\
  exists tx links,
    write_answer BatchResult_from_json (Ok demo_unresolved) = Err (Unresolved tx links) /\
    demo_unresolved.(status) = 504.
Proof.
  split; [done|]. pose proof (write_outcomes BatchResult_from_json demo_unresolved eq_refl) as Hw.
  cbv zeta in Hw.
  assert (write_answer BatchResult_from_json (Ok demo_unresolved) =
    Err (Unresolved "0xab" [])) as E by by vm_compute.
  rewrite E in Hw. exists "0xab"%string, []. split; [exact E | apply Hw].
Defined.
