(* ===== verification/Stats.v ===== *)
(** The hourly statistics, [crates/lb/src/stats.rs]: the ring of one
    counter, the rings of every provider and of the LB itself, the file
    they are kept in, the report, and the task that ticks them. *)

From S2P Require Import Prelude External Concrete Jsonrpc Pool Records.

#[local] Open Scope Z_scope.

Definition HOURS : nat := 31 * 24.
Definition HOUR : Z := 3600.

Record Bucket : Type := mkBucket { bucket_start : Z; bucket_count : Z; partial : bool }.

#[export] Instance bucket_eq_dec : EqDecision Bucket.
Proof. solve_decision. Defined.

(** Oldest bucket first; [last] is the reading at the last tick. *)
Record Ring : Type := mkRing { buckets : list Bucket; last : option Z }.

Definition default_ring : Ring := mkRing [] None.

(** [VecDeque::back_mut], filtered: the newest bucket when it is of this
    hour, with what is before it. *)
Fixpoint back_at (start : Z) (l : list Bucket) : option (list Bucket * Bucket) :=
  match l with
  | [] => None
  | [b] => if Z.eqb b.(bucket_start) start then Some ([], b) else None
  | b :: l => (fun x => (b :: x.1, x.2)) <$> back_at start l
  end.

Definition ring_close (start reading : Z) (stopping : bool) (r : Ring) : Ring :=
  let count := sat_sub reading (default 0 r.(last)) in
  let partial := stopping || negb (bool_decide (is_Some r.(last))) in
  match back_at start r.(buckets) with
  | Some (older, newest) =>
      mkRing (older ++ [mkBucket newest.(bucket_start) (add_u64 newest.(bucket_count) count) true])
        (Some reading)
  | None =>
      let kept := if Nat.eqb (length r.(buckets)) HOURS then tail r.(buckets) else r.(buckets) in
      mkRing (kept ++ [mkBucket start count partial]) (Some reading)
  end.

Definition ring_tick (start reading : Z) : Ring -> Ring := ring_close start reading false.
Definition ring_stop (start reading : Z) : Ring -> Ring := ring_close start reading true.

Definition newest (r : Ring) : option Z := bucket_start <$> List.last (Some <$> r.(buckets)) None.

Definition ring_since (from : Z) (r : Ring) : list Bucket :=
  List.filter (fun b => Z.leb from b.(bucket_start)) r.(buckets).

Record ProviderRings : Type := mkProviderRings {
  rings_agreement : option string;
  rings_served : Ring;
  rings_failures : Ring;
}.
Definition default_rings : ProviderRings := mkProviderRings None default_ring default_ring.

Record LbRings : Type := mkLbRings {
  ring_no_healthy : Ring;
  ring_timed_out : Ring;
  ring_unanswered : Ring;
}.

(** By pool id; the report goes through them in id order. *)
Record Stats : Type := mkStats { stats_providers : gmap string ProviderRings; stats_lb : LbRings }.
Definition default_stats : Stats :=
  mkStats ∅ (mkLbRings default_ring default_ring default_ring).

Definition by_id {A} (m : gmap string A) : list (string * A) := sort_by key_leb (map_to_list m).

(** * Ticks and stops *)

Section ticks.
Context `{Alloy}.

Definition close_rings (start : Z) (stopping : bool) (p : Provider) (r : ProviderRings) :
    ProviderRings :=
  mkProviderRings (key_hex <$> agreement_id_of p)
    (ring_close start p.(served_total) stopping r.(rings_served))
    (ring_close start p.(transport_failures) stopping r.(rings_failures)).

(** One member of the snapshot. *)
Definition close_provider (start : Z) (stopping : bool) (pl : Pool) (m : gmap string ProviderRings)
    (r : ptr) : gmap string ProviderRings :=
  match entry pl r with
  | Some p => <[p.(id) := close_rings start stopping p (default default_rings (m !! p.(id)))]> m
  | None => m
  end.

Definition close_lb (start : Z) (stopping : bool) (o : LbOutcomes) (l : LbRings) : LbRings :=
  mkLbRings (ring_close start o.(no_healthy_provider) stopping l.(ring_no_healthy))
    (ring_close start o.(timed_out) stopping l.(ring_timed_out))
    (ring_close start o.(no_provider_answered) stopping l.(ring_unanswered)).

Definition stats_close (start : Z) (pl : Pool) (stopping : bool) (s : Stats) : Stats :=
  mkStats (foldl (close_provider start stopping pl) s.(stats_providers) (snapshot pl))
    (close_lb start stopping pl.(lb_outcomes) s.(stats_lb)).

Definition oldest_kept (start : Z) : Z := sat_sub start (Z.of_nat HOURS * HOUR).

Definition still_shown (start : Z) (r : ProviderRings) : bool :=
  match newest r.(rings_served) with
  | Some n => Z.leb (oldest_kept start) n
  | None => false
  end.

Definition stats_tick (start : Z) (pl : Pool) (s : Stats) : Stats :=
  let s := stats_close start pl false s in
  mkStats (filter (fun x => still_shown start x.2 = true) s.(stats_providers)) s.(stats_lb).

Definition stats_stop (start : Z) (pl : Pool) : Stats -> Stats := stats_close start pl true.
End ticks.

(** * The file *)

Definition Bucket_to_json (b : Bucket) : Value :=
  Object [("start", from_u64 b.(bucket_start)); ("count", from_u64 b.(bucket_count));
          ("partial", Bool b.(partial))]%string.
(** The reading is not saved. *)
Definition Ring_to_json (r : Ring) : Value :=
  Object [("buckets", Array (Bucket_to_json <$> r.(buckets)))]%string.
Definition ProviderRings_to_json (r : ProviderRings) : Value :=
  Object [("agreement_id", match r.(rings_agreement) with Some a => Str a | None => Null end);
          ("served", Ring_to_json r.(rings_served));
          ("transport_failures", Ring_to_json r.(rings_failures))]%string.
Definition LbRings_to_json (l : LbRings) : Value :=
  Object [("no_healthy_provider", Ring_to_json l.(ring_no_healthy));
          ("timed_out", Ring_to_json l.(ring_timed_out));
          ("no_provider_answered", Ring_to_json l.(ring_unanswered))]%string.
Definition Stats_to_json (s : Stats) : Value :=
  Object [("providers", Object ((fun kv => (kv.1, ProviderRings_to_json kv.2)) <$> by_id s.(stats_providers)));
          ("lb", LbRings_to_json s.(stats_lb))]%string.

Definition as_bool (v : Value) : option bool := match v with Bool x => Some x | _ => None end.

Definition Bucket_from_json (v : Value) : option Bucket :=
  fs ← struct_fields ["start"; "count"; "partial"]%string v;
  match fs with
  | [s; c; p] =>
      s ← required (uint u64_max) s; c ← required (uint u64_max) c; p ← required as_bool p;
      Some (mkBucket s c p)
  | _ => None
  end.
Definition Ring_from_json (v : Value) : option Ring :=
  fs ← struct_fields ["buckets"]%string v;
  match fs with
  | [l] => l ← required (list_from_json Bucket_from_json) l; Some (mkRing l None)
  | _ => None
  end.
Definition ProviderRings_from_json (v : Value) : option ProviderRings :=
  fs ← struct_fields ["agreement_id"; "served"; "transport_failures"]%string v;
  match fs with
  | [a; s; f] =>
      a ← optional as_str a; s ← required Ring_from_json s; f ← required Ring_from_json f;
      Some (mkProviderRings a s f)
  | _ => None
  end.
Definition LbRings_from_json (v : Value) : option LbRings :=
  fs ← struct_fields ["no_healthy_provider"; "timed_out"; "no_provider_answered"]%string v;
  match fs with
  | [h; t; u] =>
      h ← required Ring_from_json h; t ← required Ring_from_json t; u ← required Ring_from_json u;
      Some (mkLbRings h t u)
  | _ => None
  end.
(** A [BTreeMap]: of a repeated key the last value stays. *)
Definition map_from_json {A} (f : Value -> option A) (v : Value) : option (gmap string A) :=
  match v with
  | Object fields =>
      l ← mapM (fun kv => (fun x => (kv.1, x)) <$> f kv.2) fields;
      Some (foldl (fun m kv => <[kv.1 := kv.2]> m) ∅ l)
  | _ => None
  end.
Definition Stats_from_json (v : Value) : option Stats :=
  fs ← struct_fields ["providers"; "lb"]%string v;
  match fs with
  | [p; l] =>
      p ← required (map_from_json ProviderRings_from_json) p; l ← required LbRings_from_json l;
      Some (mkStats p l)
  | _ => None
  end.

(** What [std::fs::read] answers. *)
Inductive FileRead : Type := FileBytes (x : Bytes) | FileNotFound | FileError.

(** [Stats::load]: without a file that reads and parses, no history. *)
Definition stats_load `{SerdeJson} (file : FileRead) : Stats :=
  match file with
  | FileBytes x => default default_stats (from_slice x ≫= Stats_from_json)
  | FileNotFound | FileError => default_stats
  end.

(** ** Paths and files

    [Path::with_extension], on the characters from the end: trailing
    slashes and [.] components are no part of a file name; a name's
    extension is what follows its last dot, unless that is its first
    character. *)
Fixpoint trim_path (rev_path : list ascii) : list ascii :=
  match rev_path with
  | "/"%char :: l => trim_path l
  | "."%char :: "/"%char :: l => trim_path l
  | l => l
  end.

Fixpoint until_slash (l : list ascii) : list ascii * list ascii :=
  match l with
  | [] => ([], [])
  | c :: l => if Ascii.eqb c "/" then ([], c :: l)
              else let '(name, dir) := until_slash l in (c :: name, dir)
  end.

(** What is before the last dot, from the end. *)
Fixpoint after_dot (l : list ascii) : option (list ascii) :=
  match l with
  | [] => None
  | c :: l => if Ascii.eqb c "." then Some l else after_dot l
  end.

Definition file_name (rev_path : list ascii) : option (list ascii * list ascii) :=
  let '(name, dir) := until_slash (trim_path rev_path) in
  if bool_decide (name ∈ [[]; ["."]; ["."; "."]]%char) then None else Some (name, dir).

Definition with_extension (path ext : string) : string :=
  match file_name (rev (String.list_ascii_of_string path)) with
  | None => path
  | Some (name, dir) =>
      let stem := match after_dot name with Some (c :: l) => c :: l | _ => name end in
      String.string_of_list_ascii (rev (stem ++ dir) ++ "."%char :: String.list_ascii_of_string ext)
  end.

(** The file system, and a program on it that may fail or be cut off
    anywhere: a write truncates the file and fills it piece by piece, a
    rename is one step. *)
Abbreviation Files := (gmap string Bytes) (only parsing).

Inductive FsOp : Type := FsWrite (path : string) (x : Bytes) | FsRename (from to : string).

Definition fs_apply (o : FsOp) (fs : Files) : Files :=
  match o with
  | FsWrite p x => <[p := x]> fs
  | FsRename from to =>
      match fs !! from with Some x => <[to := x]> (base.delete from fs) | None => fs end
  end.

Inductive fs_run : list FsOp -> Files -> Files -> Prop :=
| RunDone fs : fs_run [] fs fs
| RunStep o os fs fs' : fs_run os (fs_apply o fs) fs' -> fs_run (o :: os) fs fs'
| RunCut o os fs : fs_run (o :: os) fs fs
| RunCutWrite p x n os fs : fs_run (FsWrite p x :: os) fs (<[p := take n x]> fs).

(** [Stats::save]. *)
Definition stats_save `{SerdeJson} (file : string) (s : Stats) : list FsOp :=
  let temporary := with_extension file "json.tmp" in
  [FsWrite temporary (to_vec (Stats_to_json s)); FsRename temporary file].

(** * The report *)

(** [humantime]: a time as [YYYY-MM-DDTHH:MM:SSZ], and back. *)
Class Humantime := {
  format_rfc3339_seconds : Z -> string;
  parse_rfc3339 : string -> option Z;
}.

Definition iso `{Humantime} (secs : Z) : string := format_rfc3339_seconds secs.
(** Seconds since the epoch; a time before it is none. *)
Definition parse_iso `{Humantime} (text : string) : option Z :=
  t ← parse_rfc3339 text; if Z.leb 0 t then Some t else None.

Record ProviderRow : Type := mkProviderRow {
  row_hour : string; row_served : Z; row_failures : Z; row_partial : bool;
}.
Record ProviderReport : Type := mkProviderReport {
  report_id : string; report_agreement : option string; report_buckets : list ProviderRow;
}.
Record LbRow : Type := mkLbRow {
  lb_hour : string; lb_no_healthy : Z; lb_timed_out : Z; lb_unanswered : Z; lb_partial : bool;
}.
Record Report : Type := mkReport {
  report_lb : option string; generated_at : string; report_bucket : string; report_since : string;
  report_providers : list ProviderReport; report_outcomes : list LbRow;
}.

Section report.
Context `{Humantime}.

Definition provider_row (x : Bucket * Bucket) : ProviderRow :=
  mkProviderRow (iso x.1.(bucket_start)) x.1.(bucket_count) x.2.(bucket_count) x.1.(partial).

Definition provider_report (from : Z) (x : string * ProviderRings) : ProviderReport :=
  mkProviderReport x.1 x.2.(rings_agreement)
    (provider_row <$> zip (ring_since from x.2.(rings_served)) (ring_since from x.2.(rings_failures))).

Definition lb_row (x : Bucket * Bucket * Bucket) : LbRow :=
  let '(no_healthy, timed_out, unanswered) := x in
  mkLbRow (iso no_healthy.(bucket_start)) no_healthy.(bucket_count) timed_out.(bucket_count)
    unanswered.(bucket_count) no_healthy.(partial).

Definition stats_report (from now : Z) (lb : option string) (s : Stats) : Report :=
  mkReport lb (iso now) "1h" (iso from) (provider_report from <$> by_id s.(stats_providers))
    (lb_row <$> zip (zip (ring_since from s.(stats_lb).(ring_no_healthy))
                        (ring_since from s.(stats_lb).(ring_timed_out)))
                   (ring_since from s.(stats_lb).(ring_unanswered))).
End report.

(** * The tick task *)

(** The next boundary of the period on the wall clock. *)
Definition next_boundary (period at_ : Z) : Z := (at_ / period + 1) * period.

(** What ends the task's wait: the boundary it waits for, or a stop; the
    pool as it is then. *)
Inductive Wake : Type := Boundary (at_ : Z) (pl : Pool) | Shutdown (now : Z) (pl : Pool).

(** Every bucket closed is followed by a save of the rings as they are. *)
Fixpoint stats_run `{Alloy} (period : Z) (wakes : list Wake) (s : Stats) : Stats * list Stats :=
  match wakes with
  | [] => (s, [])
  | Shutdown now pl :: _ =>
      let s := stats_stop (now / period * period) pl s in (s, [s])
  | Boundary at_ pl :: wakes =>
      let s := stats_tick (next_boundary period at_ - period) pl s in
      let '(s', saved) := stats_run period wakes s in (s', s :: saved)
  end.

(** * Lemmas: the ring against a ledger without an end *)

(** One close, as a tick or a stop makes it. *)
Record Close : Type := mkClose { close_at : Z; reading : Z; stopping : bool }.

Definition ring_step (r : Ring) (c : Close) : Ring := ring_close c.(close_at) c.(reading) c.(stopping) r.
Definition ring_run (cs : list Close) (r : Ring) : Ring := foldl ring_step r cs.

(** The same, keeping every hour. *)
Definition ledger_step (r : Ring) (c : Close) : Ring :=
  let count := sat_sub c.(reading) (default 0 r.(last)) in
  mkRing
    match back_at c.(close_at) r.(buckets) with
    | Some (older, newest) => older ++ [mkBucket newest.(bucket_start) (add_u64 newest.(bucket_count) count) true]
    | None => r.(buckets) ++ [mkBucket c.(close_at) count (c.(stopping) || negb (bool_decide (is_Some r.(last))))]
    end (Some c.(reading)).
Definition ledger_run (cs : list Close) (r : Ring) : Ring := foldl ledger_step r cs.

Definition last_n {A} (n : nat) (l : list A) : list A := drop (length l - n) l.

Lemma last_n_snoc {A} n (l : list A) x : last_n (S n) (l ++ [x]) = last_n n l ++ [x].
Proof.
  unfold last_n. rewrite length_app. cbn [length].
  replace (length l + 1 - S n)%nat with (length l - n)%nat by lia.
  rewrite drop_app_le; [done | lia].
Qed.

Lemma last_n_all {A} n (l : list A) : (length l <= n)%nat -> last_n n l = l.
Proof. intros Hl. unfold last_n. replace (length l - n)%nat with 0%nat by lia. done. Qed.

Lemma last_n_tail {A} n (l : list A) :
  (n < length l)%nat -> tail (last_n (S n) l) = last_n n l.
Proof.
  intros Hl. unfold last_n. replace (length l - n)%nat with (S (length l - S n)) by lia.
  generalize (length l - S n)%nat as k. clear Hl. intros k. revert k.
  induction l as [|x l IH]; intros [|k]; cbn; done.
Qed.

Lemma back_at_snoc start l b :
  back_at start (l ++ [b]) = if Z.eqb b.(bucket_start) start then Some (l, b) else None.
Proof.
  induction l as [|x l IH]; [done|]. cbn [app back_at].
  destruct (l ++ [b]) as [|y l'] eqn:E; [by destruct l|]. rewrite IH.
  by destruct (Z.eqb _ _).
Qed.

Lemma back_at_last_n n start l :
  match back_at start l with
  | Some (older, b) => back_at start (last_n (S n) l) = Some (last_n n older, b)
  | None => back_at start (last_n (S n) l) = None
  end.
Proof.
  destruct l as [|b l _] using rev_ind; [done|]. rewrite last_n_snoc, !back_at_snoc.
  by destruct (Z.eqb _ _).
Qed.

Lemma back_at_Some start l older b :
  back_at start l = Some (older, b) -> l = older ++ [b] /\ b.(bucket_start) = start.
Proof.
  destruct l as [|x l _] using rev_ind; [done|]. rewrite back_at_snoc.
  destruct (Z.eqb_spec x.(bucket_start) start); [|done]. by intros [= -> ->].
Qed.

Lemma last_n_pop {A} n (l : list A) :
  (if Nat.eqb (length (last_n (S n) l)) (S n) then tail (last_n (S n) l) else last_n (S n) l) =
    last_n n l.
Proof.
  destruct (decide (n < length l)%nat) as [Hl|Hl].
  - rewrite (proj2 (Nat.eqb_eq _ _)); [by apply last_n_tail|].
    unfold last_n. rewrite length_drop. lia.
  - rewrite (proj2 (Nat.eqb_neq _ _)); [by rewrite !last_n_all by lia|].
    unfold last_n. rewrite length_drop. lia.
Qed.

Lemma HOURS_S : HOURS = S (31 * 24 - 1).
Proof. reflexivity. Qed.

Lemma ring_step_ledger r full c :
  r.(buckets) = last_n HOURS full.(buckets) -> r.(last) = full.(last) ->
  (ring_step r c).(buckets) = last_n HOURS (ledger_step full c).(buckets) /\
  (ring_step r c).(last) = (ledger_step full c).(last).
Proof.
  rewrite HOURS_S. intros Eb El. unfold ring_step, ring_close, ledger_step. rewrite Eb, El, HOURS_S.
  pose proof (back_at_last_n (31 * 24 - 1) c.(close_at) full.(buckets)) as Hb.
  destruct (back_at c.(close_at) full.(buckets)) as [[older b]|]; rewrite Hb; cbn [buckets last];
    by rewrite last_n_snoc, ?last_n_pop.
Qed.

Lemma ring_run_ledger cs r full :
  r.(buckets) = last_n HOURS full.(buckets) -> r.(last) = full.(last) ->
  (ring_run cs r).(buckets) = last_n HOURS (ledger_run cs full).(buckets).
Proof.
  revert r full. induction cs as [|c cs IH]; intros r full Eb El; [done|].
  destruct (ring_step_ledger r full c Eb El). by apply IH.
Qed.

(** ** What the ledger holds *)

Definition starts (l : list Bucket) : list Z := bucket_start <$> l.
Definition total (l : list Bucket) : Z := sum_Z (bucket_count <$> l).
Definition count_at (h : Z) (l : list Bucket) : Z :=
  total (List.filter (fun b => Z.eqb b.(bucket_start) h) l).

(** What the reading grew by in the closes of one hour. *)
Fixpoint growth_at (h prev : Z) (cs : list Close) : Z :=
  match cs with
  | [] => 0
  | c :: cs => (if Z.eqb c.(close_at) h then c.(reading) - prev else 0) + growth_at h c.(reading) cs
  end.

Fixpoint last_reading (prev : option Z) (cs : list Close) : option Z :=
  match cs with [] => prev | c :: cs => last_reading (Some c.(reading)) cs end.

(** Hours do not go back, and neither does the counter. *)
Fixpoint in_time (from prev : Z) (cs : list Close) : Prop :=
  match cs with
  | [] => True
  | c :: cs => from <= c.(close_at) /\ prev <= c.(reading) /\ in_time c.(close_at) c.(reading) cs
  end.

Definition ascending (l : list Bucket) : Prop :=
  StronglySorted (fun x y => x.(bucket_start) < y.(bucket_start)) l.

(** A bucket one tick closed, from the end of the hour before to its own. *)
Definition whole_hour (prev : option Z) (cs : list Close) (b : Bucket) : Prop :=
  exists cs1 c cs2 before, cs = cs1 ++ c :: cs2 /\ c.(close_at) = b.(bucket_start) /\
    c.(stopping) = false /\ last_reading prev cs1 = Some before /\
    b.(bucket_count) = c.(reading) - before /\
    Forall (fun x => x.(close_at) <> b.(bucket_start)) (cs1 ++ cs2).

Lemma total_app l1 l2 : total (l1 ++ l2) = total l1 + total l2.
Proof. unfold total. by rewrite fmap_app, sum_Z_app. Qed.

Lemma count_at_app h l1 l2 : count_at h (l1 ++ l2) = count_at h l1 + count_at h l2.
Proof. unfold count_at. by rewrite List.filter_app, total_app. Qed.

Lemma total_one b : total [b] = b.(bucket_count).
Proof. unfold total. cbn. lia. Qed.

Lemma count_at_one h b : count_at h [b] = if Z.eqb b.(bucket_start) h then b.(bucket_count) else 0.
Proof. unfold count_at, total. cbn. destruct (Z.eqb _ _); cbn; lia. Qed.

Lemma ascending_snoc l b :
  ascending (l ++ [b]) <-> ascending l /\ Forall (fun x => x.(bucket_start) < b.(bucket_start)) l.
Proof.
  unfold ascending. induction l as [|x l IH]; cbn.
  - split; [by split; constructor | by repeat constructor].
  - rewrite !StronglySorted_cons, IH, Forall_app, Forall_singleton, Forall_cons. tauto.
Qed.

(** A ledger in order, its last hour at most [from]. *)
Record ledger_ok (from : Z) (l : list Bucket) : Prop := {
  lo_ascending : ascending l;
  lo_from : Forall (fun b => b.(bucket_start) <= from) l;
  lo_counts : Forall (fun b => 0 <= b.(bucket_count)) l;
}.

Lemma total_nonneg from l : ledger_ok from l -> 0 <= total l.
Proof. intros [_ _ H]. apply sum_Z_nonneg. by apply Forall_fmap. Qed.

Record closed_by (c : Close) (before : option Z) (l l' : list Bucket) : Prop := {
  cb_ok : ledger_ok c.(close_at) l';
  cb_count : forall h, count_at h l' = count_at h l +
    (if Z.eqb c.(close_at) h then c.(reading) - default 0 before else 0);
  cb_total : total l' = total l + (c.(reading) - default 0 before);
  cb_starts : forall h, h ∈ starts l' <-> h ∈ starts l \/ h = c.(close_at);
  cb_whole : forall b, b ∈ l' -> b.(partial) = false ->
    (b ∈ l /\ b.(bucket_start) <> c.(close_at)) \/
    (c.(close_at) = b.(bucket_start) /\ c.(stopping) = false /\ is_Some before /\
     b.(bucket_count) = c.(reading) - default 0 before /\ b.(bucket_start) ∉ starts l);
}.

Lemma ledger_step_closed_by from r c :
  ledger_ok from r.(buckets) -> from <= c.(close_at) -> default 0 r.(last) <= c.(reading) ->
  total r.(buckets) + (c.(reading) - default 0 r.(last)) <= u64_max ->
  closed_by c r.(last) r.(buckets) (ledger_step r c).(buckets).
Proof.
  intros Hok Hfrom Hread Hmax. pose proof (total_nonneg _ _ Hok) as Htot. destruct Hok as [Ha Hf Hc].
  unfold ledger_step. assert (sat_sub c.(reading) (default 0 r.(last)) = c.(reading) - default 0 r.(last))
    as -> by (unfold sat_sub; lia).
  set (n := c.(reading) - default 0 r.(last)) in *.
  destruct (back_at c.(close_at) r.(buckets)) as [[older b]|] eqn:E; cbn [buckets].
  - apply back_at_Some in E as [E Eb]. rewrite E in *. clear E.
    apply ascending_snoc in Ha as [Ha Hlt]. rewrite Forall_app, Forall_singleton in Hf, Hc.
    destruct Hf as [Hf Hfb], Hc as [Hc Hcb]. rewrite total_app in *.
    rewrite total_one in *.
    assert (0 <= total older) by (apply sum_Z_nonneg; by apply Forall_fmap).
    rewrite add_u64_small by (machine_unfold; lia).
    constructor.
    + constructor; [by apply ascending_snoc|..]; rewrite Forall_app, Forall_singleton; cbn.
      * split; [eapply Forall_impl; [exact Hf|]; cbn; intros; lia | lia].
      * split; [done|lia].
    + intros h. rewrite !count_at_app, !count_at_one. cbn. rewrite Eb. destruct (Z.eqb _ _); lia.
    + rewrite !total_app, !total_one. cbn. lia.
    + intros h. unfold starts. rewrite !fmap_app. cbn. set_solver.
    + intros x [Hx| ->%list_elem_of_singleton]%elem_of_app Hp; [|done]. left.
      rewrite Forall_forall in Hlt. specialize (Hlt _ Hx). split; [set_solver|lia].
  - assert (Forall (fun x => x.(bucket_start) < c.(close_at)) r.(buckets)) as Hlt.
    { destruct r.(buckets) as [|b l _] using rev_ind; [done|]. rewrite back_at_snoc in E.
      destruct (Z.eqb_spec b.(bucket_start) c.(close_at)); [done|].
      apply ascending_snoc in Ha as [_ Hlt]. rewrite Forall_app, Forall_singleton in Hf |- *.
      destruct Hf as [Hf Hfb]. split; [|lia]. eapply Forall_impl; [exact Hlt|]. cbn. intros. lia. }
    constructor.
    + constructor; [by apply ascending_snoc|..]; rewrite Forall_app, Forall_singleton; cbn.
      * split; [eapply Forall_impl; [exact Hlt|]; cbn; intros; lia | lia].
      * split; [done|lia].
    + intros h. by rewrite count_at_app, count_at_one.
    + rewrite total_app, total_one. cbn. lia.
    + intros h. unfold starts. rewrite fmap_app. cbn. set_solver.
    + assert (forall x, x ∈ r.(buckets) -> x.(bucket_start) <> c.(close_at)) as Hne.
      { rewrite Forall_forall in Hlt. intros x Hx. specialize (Hlt _ Hx). lia. }
      intros x [Hx| ->%list_elem_of_singleton]%elem_of_app Hp; [left; auto|]. right. cbn in *.
      apply orb_false_iff in Hp as [Hs Hl]. apply negb_false_iff, bool_decide_eq_true in Hl.
      split_and!; try done. intros (y & Ey & Hy)%list_elem_of_fmap. by apply (Hne y).
Qed.

(** After a whole run. *)
Record ran_by (cs : list Close) (before : option Z) (l l' : list Bucket) : Prop := {
  rb_ascending : ascending l';
  rb_count : forall h, count_at h l' = count_at h l + growth_at h (default 0 before) cs;
  rb_total : total l' = total l + (default 0 (last_reading before cs) - default 0 before);
  rb_starts : forall h, h ∈ starts l' <-> h ∈ starts l \/ h ∈ close_at <$> cs;
  rb_whole : forall b, b ∈ l' -> b.(partial) = false ->
    (b ∈ l /\ b.(bucket_start) ∉ close_at <$> cs) \/
    (whole_hour before cs b /\ b.(bucket_start) ∉ starts l);
}.

Lemma in_time_last from prev cs before :
  in_time from prev cs -> default 0 before = prev -> prev <= default 0 (last_reading before cs).
Proof.
  revert from prev before. induction cs as [|c cs IH]; intros from prev before; cbn; [lia|].
  intros (_ & Hr & Ht) <-. specialize (IH _ _ (Some c.(reading)) Ht eq_refl). lia.
Qed.

Lemma ledger_run_ran cs from r :
  ledger_ok from r.(buckets) -> in_time from (default 0 r.(last)) cs ->
  total r.(buckets) + (default 0 (last_reading r.(last) cs) - default 0 r.(last)) <= u64_max ->
  ran_by cs r.(last) r.(buckets) (ledger_run cs r).(buckets).
Proof.
  revert from r. induction cs as [|c cs IH]; intros from r Hok Ht Hmax.
  - constructor; cbn; [apply Hok | lia.. | set_solver |].
    intros b Hb _. left. split; [done|set_solver].
  - destruct Ht as (Hfrom & Hread & Ht). cbn [last_reading] in Hmax.
    pose proof (in_time_last _ _ _ (Some c.(reading)) Ht eq_refl) as Hlast. cbn in Hlast.
    destruct (ledger_step_closed_by from r c Hok Hfrom Hread ltac:(lia)) as [S1 S2 S3 S4 S5].
    change (ledger_run (c :: cs) r) with (ledger_run cs (ledger_step r c)).
    assert ((ledger_step r c).(last) = Some c.(reading)) as El by done.
    destruct (IH c.(close_at) (ledger_step r c) S1) as [R1 R2 R3 R4 R5];
      [by rewrite El | rewrite El, S3; cbn; lia |]. rewrite El in *. change (default 0 (Some c.(reading))) with c.(reading) in *.
    constructor; cbn [growth_at last_reading fmap list_fmap] in *.
    + done.
    + intros h. rewrite R2, S2. lia.
    + rewrite R3, S3. lia.
    + intros h. rewrite R4, S4, elem_of_cons. tauto.
    + intros b Hb Hp. destruct (R5 b Hb Hp) as [[Hb1 Hn]|[(cs1 & d & cs2 & before & -> & E1 & E2 & E3 & E4 & E5) Hn]].
      * destruct (S5 b Hb1 Hp) as [[Hl Hne]|(E1 & E2 & [v E3] & E4 & E5)]; [left; set_solver|].
        right. split; [|done]. exists [], c, cs, v. rewrite E3 in E4. split_and!; try done.
        apply Forall_forall. intros x Hx E. apply Hn. rewrite <- E. by apply list_elem_of_fmap_2.
      * rewrite S4 in Hn. right. split; [|tauto]. exists (c :: cs1), d, cs2, before.
        split_and!; try done. constructor; [|done]. intros E. apply Hn. by right.
Qed.

(** C11: A ring says what was served in each hour of the last 31 days. From a
    fresh process on what the last one left, whatever ticks and stops
    follow: the ring is the end of a ledger that has one bucket for every
    hour that was ever closed, in order, and each one's count is what the
    hour had plus all the counter grew by in its closes - nothing twice,
    nothing lost. A bucket not marked partial is the work of exactly one
    tick, from one reading to the next. *)
Theorem ring_keeps_the_ledger cs from r :
  (length r.(buckets) <= HOURS)%nat -> r.(last) = None ->
  ledger_ok from r.(buckets) -> in_time from 0 cs ->
  total r.(buckets) + default 0 (last_reading None cs) <= u64_max ->
  exists ledger, (ring_run cs r).(buckets) = last_n HOURS ledger /\
    ran_by cs None r.(buckets) ledger.
Proof.
  intros Hlen Hl Hok Ht Hmax. exists (ledger_run cs r).(buckets). split.
  - apply ring_run_ledger; [|done]. by rewrite last_n_all.
  - rewrite <- Hl. apply (ledger_run_ran cs from); [done|..]; rewrite Hl; cbn; [done|lia].
Qed.

(** * Lemmas: what the file holds *)

Definition Bucket_wf (b : Bucket) : Prop := is_u64 b.(bucket_start) /\ is_u64 b.(bucket_count).
Definition Ring_wf (r : Ring) : Prop := Forall Bucket_wf r.(buckets).
Definition ProviderRings_wf (r : ProviderRings) : Prop :=
  Ring_wf r.(rings_served) /\ Ring_wf r.(rings_failures).
Definition Stats_wf (s : Stats) : Prop :=
  map_Forall (fun _ r => ProviderRings_wf r) s.(stats_providers) /\
  Ring_wf s.(stats_lb).(ring_no_healthy) /\ Ring_wf s.(stats_lb).(ring_timed_out) /\
  Ring_wf s.(stats_lb).(ring_unanswered).

(** A fresh process's counters start at zero. *)
Definition forget_ring (r : Ring) : Ring := mkRing r.(buckets) None.
Definition forget_rings (r : ProviderRings) : ProviderRings :=
  mkProviderRings r.(rings_agreement) (forget_ring r.(rings_served)) (forget_ring r.(rings_failures)).
Definition forget (s : Stats) : Stats :=
  mkStats (forget_rings <$> s.(stats_providers))
    (mkLbRings (forget_ring s.(stats_lb).(ring_no_healthy)) (forget_ring s.(stats_lb).(ring_timed_out))
       (forget_ring s.(stats_lb).(ring_unanswered))).

Lemma Bucket_json b :
  Bucket_wf b -> plain (Bucket_to_json b) = true /\ Bucket_from_json (Bucket_to_json b) = Some b.
Proof.
  intros [H1 H2]. destruct b; cbn in H1, H2. split; [unfold Bucket_to_json; cbn; machine_unfold; lia|].
  unfold Bucket_from_json, Bucket_to_json. read_fields. by json.
Qed.

(** A list of fields that each read back. *)
Lemma mapM_back {A B C} (f : B -> option C) (g : A -> B) (h : A -> C) l :
  Forall (fun x => f (g x) = Some (h x)) l -> mapM f (g <$> l) = Some (h <$> l).
Proof. induction 1 as [|x l Hx Hl IH]; [done|]. cbn. by rewrite Hx, IH. Qed.

Lemma Ring_json r :
  Ring_wf r -> plain (Ring_to_json r) = true /\ Ring_from_json (Ring_to_json r) = Some (forget_ring r).
Proof.
  unfold Ring_wf. intros Hr. split.
  - unfold Ring_to_json. cbn. rewrite andb_true_r. induction Hr as [|b l Hb Hl IH]; [done|].
    cbn [fmap list_fmap forallb]. destruct (Bucket_json b Hb) as [-> _]. done.
  - unfold Ring_from_json, Ring_to_json. read_fields. cbn [mbind option_bind required list_from_json].
    rewrite (mapM_back _ _ (fun b => b)); [by rewrite list_fmap_id|].
    eapply Forall_impl; [exact Hr|]. intros b Hb. by apply Bucket_json.
Qed.

Lemma ProviderRings_json r :
  ProviderRings_wf r -> plain (ProviderRings_to_json r) = true /\
  ProviderRings_from_json (ProviderRings_to_json r) = Some (forget_rings r).
Proof.
  intros [H1 H2]. destruct (Ring_json _ H1) as [P1 R1], (Ring_json _ H2) as [P2 R2]. split.
  - unfold ProviderRings_to_json. cbn [plain forallb snd]. rewrite P1, P2. by destruct (rings_agreement r).
  - unfold ProviderRings_from_json, ProviderRings_to_json. read_fields.
    cbn [mbind option_bind required]. rewrite R1, R2. unfold forget_rings. by destruct (rings_agreement r).
Qed.

Lemma LbRings_json l :
  Ring_wf l.(ring_no_healthy) -> Ring_wf l.(ring_timed_out) -> Ring_wf l.(ring_unanswered) ->
  plain (LbRings_to_json l) = true /\
  LbRings_from_json (LbRings_to_json l) =
    Some (mkLbRings (forget_ring l.(ring_no_healthy)) (forget_ring l.(ring_timed_out))
            (forget_ring l.(ring_unanswered))).
Proof.
  intros H1 H2 H3.
  destruct (Ring_json _ H1) as [P1 R1], (Ring_json _ H2) as [P2 R2], (Ring_json _ H3) as [P3 R3]. split.
  - unfold LbRings_to_json. cbn [plain forallb snd]. by rewrite P1, P2, P3.
  - unfold LbRings_from_json, LbRings_to_json. read_fields.
    cbn [mbind option_bind required]. by rewrite R1, R2, R3.
Qed.

Lemma map_json {A} (to : A -> Value) (from : Value -> option A) (g : A -> A) (m : gmap string A) :
  map_Forall (fun _ x => plain (to x) = true /\ from (to x) = Some (g x)) m ->
  plain (Object ((fun kv => (kv.1, to kv.2)) <$> by_id m)) = true /\
  map_from_json from (Object ((fun kv => (kv.1, to kv.2)) <$> by_id m)) = Some (g <$> m).
Proof.
  intros Hm.
  assert (Forall (fun kv => plain (to kv.2) = true /\ from (to kv.2) = Some (g kv.2)) (by_id m)) as Hl.
  { apply Forall_forall. intros [k x] Hin. apply elem_of_sort_by, elem_of_map_to_list in Hin.
    exact (Hm k x Hin). }
  split.
  - cbn. induction Hl as [|kv l [Hp _] _ IH]; [done|]. cbn. by rewrite Hp.
  - unfold map_from_json. rewrite (mapM_back _ _ (fun kv => (kv.1, g kv.2))).
    + cbn. f_equal. rewrite <- (collect_sorted m) at 2. fold (by_id m).
      generalize (by_id m) as l. intros l.
      assert (forall acc : gmap string A,
        foldl (fun m kv => <[kv.1 := kv.2]> m) (g <$> acc) ((fun kv => (kv.1, g kv.2)) <$> l) =
        g <$> foldl (fun m kv => <[kv.1 := kv.2]> m) acc l) as Hf.
      { induction l as [|[k x] l IH]; intros acc; cbn; [done|]. by rewrite <- fmap_insert, IH. }
      rewrite <- Hf. by rewrite fmap_empty.
    + eapply Forall_impl; [exact Hl|]. intros [k x] [_ E]. cbn in *. by rewrite E.
Qed.

Lemma Stats_json s :
  Stats_wf s -> plain (Stats_to_json s) = true /\ Stats_from_json (Stats_to_json s) = Some (forget s).
Proof.
  intros (Hp & H1 & H2 & H3). destruct (LbRings_json _ H1 H2 H3) as [Pl Rl].
  destruct (map_json ProviderRings_to_json ProviderRings_from_json forget_rings s.(stats_providers))
    as [Pp Rp].
  { intros k r Hr. apply ProviderRings_json, (Hp k r Hr). }
  split.
  - unfold Stats_to_json. cbn [plain forallb snd] in *. by rewrite Pp, Pl.
  - unfold Stats_from_json, Stats_to_json.
    set (providers := Object ((fun kv => _) <$> _)) in *. read_fields.
    cbn [mbind option_bind required]. by rewrite Rp, Rl.
Qed.

(** ** Paths *)

Lemma until_slash_app pre l :
  "/"%char ∉ pre -> until_slash (pre ++ l) = (pre ++ (until_slash l).1, (until_slash l).2).
Proof.
  induction pre as [|c pre IH]; cbn; [by destruct (until_slash l)|].
  rewrite not_elem_of_cons. intros [Hc Hpre]. rewrite IH by done.
  rewrite (proj2 (Ascii.eqb_neq c "/")) by done. done.
Qed.

Lemma until_slash_split l : (until_slash l).1 ++ (until_slash l).2 = l.
Proof.
  induction l as [|c l IH]; cbn; [done|]. destruct (Ascii.eqb c "/"); [done|].
  destruct (until_slash l) as [name dir]. cbn in *. by rewrite IH.
Qed.

Definition has_file_name (path : string) : Prop :=
  is_Some (file_name (rev (String.list_ascii_of_string path))).

(** The temporary file is another file: its name ends in an extension
    [with_extension] would take off again. *)
Lemma with_extension_other path :
  has_file_name path -> with_extension path "json.tmp" <> path.
Proof.
  intros [[name dir] Hname] E.
  assert (exists x, String.list_ascii_of_string path = x ++ String.list_ascii_of_string ".json.tmp")
    as [x Ex].
  { unfold with_extension in E. rewrite Hname in E. apply (f_equal String.list_ascii_of_string) in E.
    rewrite String.list_ascii_of_string_of_list_ascii in E. by eexists. }
  assert (rev (String.list_ascii_of_string path) =
    ["p"; "m"; "t"; "."; "n"; "o"; "s"; "j"; "."]%char ++ rev x) as Er.
  { rewrite Ex, rev_app_distr. reflexivity. }
  clear name dir Hname. apply (f_equal String.list_ascii_of_string) in E. rewrite Ex in E.
  unfold with_extension in E. rewrite Er in E.
  assert (file_name (["p"; "m"; "t"; "."; "n"; "o"; "s"; "j"; "."]%char ++ rev x) =
    Some (["p"; "m"; "t"; "."; "n"; "o"; "s"; "j"; "."]%char ++ (until_slash (rev x)).1,
          (until_slash (rev x)).2)) as Hf.
  { unfold file_name.
    change (trim_path (["p"; "m"; "t"; "."; "n"; "o"; "s"; "j"; "."]%char ++ rev x)) with
      (["p"; "m"; "t"; "."; "n"; "o"; "s"; "j"; "."]%char ++ rev x).
    rewrite until_slash_app by set_solver. by rewrite bool_decide_false by set_solver. }
  rewrite Hf in E. cbn [app after_dot Ascii.eqb Bool.eqb] in E.
  rewrite String.list_ascii_of_string_of_list_ascii in E.
  apply (f_equal length) in E. pose proof (f_equal length (until_slash_split (rev x))) as Hl.
  rewrite !length_app in *. cbn [length] in E. rewrite length_rev in *.
  cbn [length String.list_ascii_of_string] in E. rewrite !length_app in E. cbn [length app] in E.
  rewrite ?length_app in E. lia.
Qed.

(** ** Rings that tick together *)

Definition shape (r : Ring) : list (Z * bool) * bool :=
  ((fun b => (b.(bucket_start), b.(partial))) <$> r.(buckets), bool_decide (is_Some r.(last))).

Lemma back_at_shape start l1 l2 :
  ((fun b => (b.(bucket_start), b.(partial))) <$> l1) = ((fun b => (b.(bucket_start), b.(partial))) <$> l2) ->
  match back_at start l1, back_at start l2 with
  | Some (o1, b1), Some (o2, b2) =>
      ((fun b => (b.(bucket_start), b.(partial))) <$> o1) = ((fun b => (b.(bucket_start), b.(partial))) <$> o2) /\
      b1.(bucket_start) = b2.(bucket_start)
  | None, None => True
  | _, _ => False
  end.
Proof.
  intros E. destruct l1 as [|b1 l1 _] using rev_ind; destruct l2 as [|b2 l2 _] using rev_ind; [done|..];
    rewrite ?fmap_app in E; cbn in E; [by destruct (_ <$> l2) | by destruct (_ <$> l1) |].
  apply app_inj_tail in E as [E [= Es Ep]]. rewrite !back_at_snoc, Es. by destruct (Z.eqb _ _).
Qed.

Lemma shape_close start n1 n2 stop r1 r2 :
  shape r1 = shape r2 -> shape (ring_close start n1 stop r1) = shape (ring_close start n2 stop r2).
Proof.
  intros [= Eb El]. unfold ring_close.
  assert (bool_decide (is_Some r1.(last)) = bool_decide (is_Some r2.(last))) as ->.
  { by destruct (last r1), (last r2). }
  pose proof (back_at_shape start _ _ Eb) as Hb. pose proof (f_equal length Eb) as Hlen.
  rewrite !length_fmap in Hlen. unfold shape.
  destruct (back_at start (buckets r1)) as [[o1 b1]|], (back_at start (buckets r2)) as [[o2 b2]|];
    try done; cbn [buckets last].
  - destruct Hb as [Ho Es]. rewrite !fmap_app, Ho. cbn. by rewrite Es.
  - rewrite !fmap_app, Hlen. f_equal. f_equal. destruct (Nat.eqb _ _); [|done].
    by destruct (buckets r1), (buckets r2); simplify_eq/=.
Qed.

(** What the report relies on. *)
Record in_step (s : Stats) : Prop := {
  is_providers : map_Forall (fun _ r => shape r.(rings_served) = shape r.(rings_failures)) s.(stats_providers);
  is_timed_out : shape s.(stats_lb).(ring_no_healthy) = shape s.(stats_lb).(ring_timed_out);
  is_unanswered : shape s.(stats_lb).(ring_no_healthy) = shape s.(stats_lb).(ring_unanswered);
}.

Section in_step.
Context `{Alloy}.

Lemma close_in_step start pl stop s : in_step s -> in_step (stats_close start pl stop s).
Proof.
  intros [Hp H1 H2]. constructor; cbn; [|by apply shape_close..].
  revert Hp. generalize (stats_providers s) as m. induction (snapshot pl) as [|r rs IH]; intros m Hm; [done|].
  cbn. apply IH. unfold close_provider. destruct (entry pl r) as [p|]; [|done].
  apply map_Forall_insert_2; [|done]. cbn. apply shape_close.
  destruct (m !! p.(id)) as [x|] eqn:E; [exact (Hm _ _ E) | done].
Qed.

Lemma tick_in_step start pl s : in_step s -> in_step (stats_tick start pl s).
Proof.
  intros Hs. destruct (close_in_step start pl false s Hs) as [Hp H1 H2]. constructor; [|done..].
  cbn. intros i r [Hr _]%map_lookup_filter_Some. exact (Hp i r Hr).
Qed.

Lemma forget_in_step s : in_step s -> in_step (forget s).
Proof.
  assert (forall r1 r2, shape r1 = shape r2 -> shape (forget_ring r1) = shape (forget_ring r2)) as Hf.
  { intros r1 r2 [= E _]. unfold shape. cbn. by rewrite E. }
  intros [Hp H1 H2]. constructor; [|by apply Hf..].
  intros i r (x & <- & Hx)%lookup_fmap_Some. apply Hf. exact (Hp i x Hx).
Qed.

(** A process's life with its statistics, over its restarts. *)
Inductive stats_reach : Stats -> Prop :=
| ReachNone : stats_reach default_stats
| ReachTick start pl s : stats_reach s -> stats_reach (stats_tick start pl s)
| ReachStop start pl s : stats_reach s -> stats_reach (stats_stop start pl s)
| ReachRestart s : stats_reach s -> stats_reach (forget s).

Lemma reach_in_step s : stats_reach s -> in_step s.
Proof.
  induction 1.
  - constructor; [apply map_Forall_empty | done..].
  - by apply tick_in_step.
  - by apply close_in_step.
  - by apply forget_in_step.
Qed.
End in_step.

Lemma since_zip from r1 r2 :
  shape r1 = shape r2 ->
  Forall2 (fun x y => x.(bucket_start) = y.(bucket_start) /\ x.(partial) = y.(partial))
    (ring_since from r1) (ring_since from r2).
Proof.
  intros [= E _]. unfold ring_since. revert E. generalize (buckets r2) as l2.
  induction (buckets r1) as [|x l1 IH]; intros [|y l2]; try done; cbn.
  intros [= Es Ep E]. rewrite Es. destruct (Z.leb _ _); [constructor; [done|]|]; by apply IH.
Qed.

(** Rows that pair every bucket of both rings. *)
Definition whole_rows `{Humantime} (from : Z) (served failures : Ring) (rows : list ProviderRow) : Prop :=
  exists pairs, ring_since from served = pairs.*1 /\ ring_since from failures = pairs.*2 /\
    Forall (fun x => x.1.(bucket_start) = x.2.(bucket_start) /\ x.1.(partial) = x.2.(partial)) pairs /\
    rows = provider_row <$> pairs.

Lemma Forall2_pairs {A B} (P : A -> B -> Prop) l1 l2 :
  Forall2 P l1 l2 ->
  l1 = (zip l1 l2).*1 /\ l2 = (zip l1 l2).*2 /\ Forall (fun x => P x.1 x.2) (zip l1 l2).
Proof.
  induction 1 as [|x y l1 l2 Hp _ (E1 & E2 & Hf)]; [done|]. cbn.
  split_and!; [by f_equal.. | by constructor].
Qed.

(** A file replaced through another one: wherever it is cut off, it is the
    old file or the new one. *)
Lemma replace_run tmp file x fs fs' :
  fs_run [FsWrite tmp x; FsRename tmp file] fs fs' -> tmp <> file ->
  (fs' !! file = fs !! file /\ forall p, p <> file -> p <> tmp -> fs' !! p = fs !! p) \/
  (fs' !! file = Some x /\ forall p, p <> file -> p <> tmp -> fs' !! p = fs !! p).
Proof.
  intros Hrun Hne.
  inversion Hrun as [|o os fs1 fs2 Hrun2|o os fs1|p y n os fs1]; subst; [|by left|].
  2:{ left. split; [by rewrite lookup_insert_ne|]. intros p _ Hp. by rewrite lookup_insert_ne. }
  inversion Hrun2 as [|o os fs1 fs2 Hrun3|o os fs1|p y n os fs1]; subst.
  - inversion Hrun3; subst. right. cbn. rewrite lookup_insert_eq. split; [by rewrite lookup_insert_eq|].
    intros p H1 H2. by rewrite lookup_insert_ne, lookup_delete_ne, lookup_insert_ne.
  - left. cbn. split; [by rewrite lookup_insert_ne|]. intros p _ Hp. by rewrite lookup_insert_ne.
Qed.

(** * Theorems *)

(** The report pairs whole hours. However ticks, stops and restarts have
    gone, every bucket a ring keeps from the asked hour on is in the
    report, once and in order, and the two counts of a provider's row are
    of one hour, as whole or as partial as the row says; so are the three
    of the LB's. No provider with rings is left out. *)
Theorem report_rows_are_whole `{Alloy} `{Humantime} from now lb s :
  stats_reach s ->
  let report := stats_report from now lb s in
  report.(report_providers) ≡ₚ (provider_report from <$> map_to_list s.(stats_providers)) /\
  (forall i r, s.(stats_providers) !! i = Some r ->
     whole_rows from r.(rings_served) r.(rings_failures) (provider_report from (i, r)).(report_buckets)) /\
  length report.(report_outcomes) = length (ring_since from s.(stats_lb).(ring_no_healthy)) /\
  Forall2 (fun x y => x.(bucket_start) = y.(bucket_start) /\ x.(partial) = y.(partial))
    (ring_since from s.(stats_lb).(ring_no_healthy)) (ring_since from s.(stats_lb).(ring_timed_out)) /\
  Forall2 (fun x y => x.(bucket_start) = y.(bucket_start) /\ x.(partial) = y.(partial))
    (ring_since from s.(stats_lb).(ring_no_healthy)) (ring_since from s.(stats_lb).(ring_unanswered)).
Proof.
  intros [Hp H1 H2]%reach_in_step report.
  pose proof (since_zip from _ _ H1) as Z1. pose proof (since_zip from _ _ H2) as Z2.
  split_and!; [ | | | done..].
  - unfold report, stats_report, by_id. cbn. by rewrite sort_by_perm.
  - intros i r Hr. pose proof (since_zip from _ _ (Hp i r Hr)) as Hz.
    apply Forall2_pairs in Hz as (E1 & E2 & Hf). by eexists.
  - unfold report, stats_report. cbn. rewrite length_fmap, !length_zip_with.
    apply Forall2_length in Z1, Z2. lia.
Qed.

(** C35: The file survives a crash. Wherever a save is cut off or fails, what
    the next process loads is the history of the last good save or the
    whole of this one - its buckets exactly, its readings forgotten, since
    a fresh process counts from zero; a save that ran through leaves the
    latter; and no file but the temporary one is touched. *)
Theorem save_keeps_a_good_file `{SerdeJson} s file fs fs' :
  Stats_wf s -> has_file_name file -> fs_run (stats_save file s) fs fs' ->
  let on_disk (fs : Files) := match fs !! file with Some x => FileBytes x | None => FileNotFound end in
  (stats_load (on_disk fs') = stats_load (on_disk fs) \/ stats_load (on_disk fs') = forget s) /\
  stats_load (on_disk (foldl (fun fs o => fs_apply o fs) fs (stats_save file s))) = forget s /\
  (forall path, path <> file -> path <> with_extension file "json.tmp" -> fs' !! path = fs !! path).
Proof.
  intros Hwf Hname Hrun on_disk. unfold stats_save in *.
  pose proof (with_extension_other file Hname) as Hne. set (tmp := with_extension file "json.tmp") in *.
  destruct (Stats_json s Hwf) as [Hplain Hback]. set (x := to_vec (Stats_to_json s)) in *.
  assert (stats_load (FileBytes x) = forget s) as Hload.
  { unfold stats_load, x. rewrite from_slice_to_vec by done. cbn [mbind option_bind]. by rewrite Hback. }
  pose proof (replace_run _ _ _ _ _ Hrun Hne) as Hcases. unfold on_disk. split_and!.
  - destruct Hcases as [[Ef _]|[Ef _]]; rewrite Ef; [by left | by right].
  - cbn. rewrite lookup_insert_eq. by rewrite lookup_insert_eq.
  - intros path H1 H2. destruct Hcases as [[_ Ho]|[_ Ho]]; by apply Ho.
Qed.

(** The task closes the hour that has just ended: the boundary it waits
    for is the next one, within a period, and the bucket starts a period
    before it, at or before the time the wait began. *)
Lemma boundary_spec period at_ :
  0 < period -> 0 <= at_ ->
  let next := next_boundary period at_ in
  0 < next - at_ <= period /\ next mod period = 0 /\ next - period <= at_ /\
  next - period = at_ / period * period.
Proof.
  intros Hp Ha next. unfold next, next_boundary. split_and!.
  1,2,4: Z.to_euclidean_division_equations; nia.
  - by rewrite Z.mod_mul by lia.
  - Z.to_euclidean_division_equations; nia.
Qed.

(** * Witnesses *)

Definition demo_ring : Ring := mkRing [mkBucket 3600 10 true; mkBucket 7200 5 true] None.
Definition demo_closes : list Close :=
  [mkClose 7200 7 false; mkClose 10800 9 false; mkClose 14400 12 true].

Lemma ring_keeps_the_ledger_witness :
  exists ledger, (ring_run demo_closes demo_ring).(buckets) = last_n HOURS ledger /\
    count_at 7200 ledger = 12 /\
    (ring_run demo_closes demo_ring).(buckets) =
      [mkBucket 3600 10 true; mkBucket 7200 12 true; mkBucket 10800 2 false; mkBucket 14400 3 true].
Proof.
  destruct (ring_keeps_the_ledger demo_closes 7200 demo_ring) as (ledger & E & H).
  - vm_compute. lia.
  - done.
  - constructor; cbn; repeat constructor; cbn; lia.
  - cbn. lia.
  - vm_compute. intuition congruence.
  - exists ledger. split; [exact E|]. split; [by rewrite (rb_count _ _ _ _ H) | by vm_compute].
Defined.

Definition demo_stats : Stats :=
  mkStats {["p0"%string := mkProviderRings None (mkRing [mkBucket 3600 10 true] (Some 10)) (mkRing [mkBucket 3600 0 true] (Some 0))]}
    (mkLbRings default_ring default_ring default_ring).

Lemma save_keeps_a_good_file_witness :
  exists fs' : Files, fs_run (stats_save "/var/stats.json" demo_stats) ∅ fs' /\
    stats_load (match fs' !! "/var/stats.json"%string with Some x => FileBytes x | None => FileNotFound end) =
      default_stats.
Proof.
  exists (<[("/var/stats.json.tmp"%string) := take 3 (to_vec (Stats_to_json demo_stats))]> ∅).
  assert (fs_run (stats_save "/var/stats.json" demo_stats) ∅
    (<[("/var/stats.json.tmp"%string) := take 3 (to_vec (Stats_to_json demo_stats))]> ∅)) as Hrun by apply RunCutWrite.
  split; [exact Hrun|].
  destruct (save_keeps_a_good_file demo_stats "/var/stats.json" ∅
    (<[("/var/stats.json.tmp"%string) := take 3 (to_vec (Stats_to_json demo_stats))]> ∅)) as [[E|E] _]; [ | | exact Hrun | exact E |].
  - split; [|split_and!; constructor]. intros i r. unfold demo_stats. cbn. rewrite lookup_singleton_Some. intros [_ <-].
    split; repeat constructor; cbn; machine_unfold; lia.
  - vm_compute. by eexists.
  - exfalso. by vm_compute in E.
Defined.

#[local] Instance demo_humantime : Humantime :=
  {| format_rfc3339_seconds := decimal; parse_rfc3339 := from_str_radix i64_max 10 |}.

Definition demo_pool_of_one : Pool :=
  snd (pool_add (provider_new 0 "a" "http://a" Static) empty_pool).

Lemma report_rows_are_whole_witness :
  let s := stats_stop 7200 demo_pool_of_one (stats_tick 3600 demo_pool_of_one default_stats) in
  stats_reach s /\ length (stats_report 0 9000 None s).(report_outcomes) = 2%nat /\
  length (stats_report 0 9000 None s).(report_providers) = 1%nat.
Proof.
  intros s. assert (stats_reach s) as Hs by apply ReachStop, ReachTick, ReachNone.
  destruct (report_rows_are_whole 0 9000 None s Hs) as (Hp & _ & Hl & _).
  split; [exact Hs|]. split; [by rewrite Hl|]. rewrite Hp. reflexivity.
Defined.
