(* ===== verification/Chain.v ===== *)
(** What the agent relies on of the chain behind the two traits of
    [crates/lb/src/chain/]: reading or writing changes no pool entry, a
    row a query returns is of an entity the chain has created, each once,
    and a create's key is one it never gave out before. *)

From S2P Require Import Prelude External Concrete Pool World Records Reader Writer.

#[local] Open Scope Z_scope.

(** The keys the chain has given out so far, and that it is in order:
    what it holds is typed as the chain types it. *)
Class Issuer (W : Type) := {
  issued : W -> EntityKey -> Prop;
  in_order : W -> Prop;
}.

(** Keys stay given out, and a chain in order stays so. *)
Definition grows {W} `{Issuer W} (w w' : W) : Prop :=
  (forall k, issued w k -> issued w' k) /\ (in_order w -> in_order w').

#[export] Instance grows_preorder {W} `{Issuer W} : PreOrder grows.
Proof. unfold grows. split; [by intros w | intros w1 w2 w3 [] []; auto]. Qed.

Definition keeps {W A} `{Issuer W} (m : M (Sys W) A) : Prop :=
  forall s, grows s.(world) (m s).2.(world).

(** A computation without a change of its own to the pool. *)
Record calm {W A} `{Issuer W} (flip_after : Z) (m : M (Sys W) A) : Prop := {
  calm_quiet : quiet flip_after m;
  calm_keeps : keeps m;
}.

Class Chain (R Wr W : Type) `{World W} `{Issuer W} (flip_after : Z)
    `{ChainReader R (Sys W)} `{ChainWriter Wr (Sys W)} : Prop := {
  calm_clock : calm flip_after (read_clock (W := W));
  calm_block_number (r : R) : calm flip_after (block_number r);
  calm_balance (r : R) a : calm flip_after (balance r a);
  calm_query (r : R) q : calm flip_after (query r q);
  calm_count (r : R) q : calm flip_after (count r q);
  calm_identity (w : Wr) : calm flip_after (identity w);
  calm_create (w : Wr) c : calm flip_after (create w c);
  calm_patch (w : Wr) p : calm flip_after (patch w p);
  calm_extend (w : Wr) e : calm flip_after (extend w e);
  calm_execute_batch (w : Wr) x : calm flip_after (execute_batch w x);
  rows_issued (r : R) q s page :
    in_order s.(world) -> (query r q s).1 = Ok page ->
    NoDup (ent_key <$> page.(entities)) /\
    Forall (fun e => issued (query r q s).2.(world) e.(ent_key) /\ is_address e.(ent_creator))
      page.(entities);
  create_fresh (w : Wr) c s x :
    in_order s.(world) -> (create w c s).1 = Ok x ->
    ~ issued s.(world) x.(created_key) /\ issued (create w c s).2.(world) x.(created_key);
}.

#[export] Hint Extern 0 (calm _ read_clock) => apply calm_clock : lb.
#[export] Hint Extern 0 (calm _ (block_number _)) => apply calm_block_number : lb.
#[export] Hint Extern 0 (calm _ (balance _ _)) => apply calm_balance : lb.
#[export] Hint Extern 0 (calm _ (query _ _)) => apply calm_query : lb.
#[export] Hint Extern 0 (calm _ (count _ _)) => apply calm_count : lb.
#[export] Hint Extern 0 (calm _ (identity _)) => apply calm_identity : lb.
#[export] Hint Extern 0 (calm _ (create _ _)) => apply calm_create : lb.
#[export] Hint Extern 0 (calm _ (patch _ _)) => apply calm_patch : lb.
#[export] Hint Extern 0 (calm _ (extend _ _)) => apply calm_extend : lb.
#[export] Hint Extern 0 (calm _ (execute_batch _ _)) => apply calm_execute_batch : lb.

Section calm.
Context {W : Type} `{World W} `{Issuer W} (flip_after : Z).

Lemma calm_ret {A} (a : A) : calm flip_after (mret a : M (Sys W) A).
Proof. split; [apply quiet_ret | by intros s]. Qed.

Lemma calm_bind {A B} (m : M (Sys W) A) (f : A -> M (Sys W) B) :
  calm flip_after m -> (forall a, calm flip_after (f a)) -> calm flip_after (m ≫= f).
Proof.
  intros [Hq Hk] Hf. split.
  - apply quiet_bind; [done|]. intros a. apply Hf.
  - intros s. specialize (Hk s). unfold mbind, M_bind. destruct (m s) as [a s'].
    etrans; [exact Hk | apply Hf].
Qed.

Lemma calm_read_entry {A} r (f : Provider -> A) d : calm flip_after (read_entry (W := W) r f d).
Proof. split; [apply quiet_entry | by intros s]. Qed.
End calm.
#[export] Hint Resolve calm_ret calm_bind calm_read_entry : lb.

Lemma calm_send {R Wr W} `{Chain R Wr W flip_after} (w : Wr) x : calm flip_after (send w x).
Proof.
  unfold send. generalize (2 * length (operations x))%nat as fuel.
  generalize (if batch_is_empty x then [] else [x]) as queue. generalize (@nil Sent_) as sent.
  intros sent queue fuel. revert queue sent.
  induction fuel as [|fuel IH]; intros queue sent; [apply calm_ret|].
  destruct queue as [|chunk queue]; [apply calm_ret|]. cbn [send_loop].
  apply calm_bind; [apply calm_execute_batch|]. intros result.
  destruct (if is_too_large result then _ else _) as [[]|]; apply IH.
Qed.
#[export] Hint Extern 0 (calm _ (send _ _)) => apply calm_send : lb.
