(* ===== verification/Config.v ===== *)
(** The configuration, [crates/lb/src/config.rs]: its sections and their
    defaults, what [validate] refuses, GLM amounts and the tunnel ports. How a file
    is read into them is in [Settings]. *)

From S2P Require Import Prelude External Concrete Records Reader.

#[local] Open Scope Z_scope.

(** 15,768,000 seconds. *)
Definition MAX_LIFETIME : Z := from_secs 15768000.

(** * The sections

    Durations are in nanoseconds, sizes in bytes. *)

Record IntegrityConfig : Type := mkIntegrityConfig { interval : Z; confirm_after : Z }.
Definition default_integrity : IntegrityConfig :=
  mkIntegrityConfig (from_secs (30 * 60)) (from_secs 30).

(** A [SocketAddr]: the IPv4 address and the port. *)
Record Listen : Type := mkListen { public : Z * Z; admin : Z * Z }.
Definition default_listen : Listen := mkListen (0, 8545) (2130706433, 9545).

Record StatsConfig : Type := mkStatsConfig { file : string; period : option Z }.
Definition default_stats : StatsConfig := mkStatsConfig "/var/lib/arkiv-lb/stats.json" None.

Record Health : Type := mkHealth {
  probe_interval : Z;
  probe_timeout : Z;
  flip_after : Z;
  max_probe_backoff : Z;
  ref_height_interval : Z;
  chainid_check_interval : Z;
  health_chain_id : option Z;
  lag_tolerance_blocks : Z;
  disable_probing : bool;
}.
Definition default_health : Health :=
  mkHealth (from_secs 5) (from_secs 2) 3 (from_secs (5 * 60)) (from_secs 60)
    (from_secs (5 * 60)) None 30 false.

Record Proxy : Type := mkProxy {
  attempt_timeout : Z;
  request_timeout : Z;
  max_retries : Z;
  max_request_size : Z;
  max_response_size : Z;
}.
Definition MIB : Z := 1048576.
Definition default_proxy : Proxy :=
  mkProxy (from_secs 15) (from_secs 30) 2 (2 * MIB) (64 * MIB).

Record ProviderConfig : Type := mkProviderConfig { provider_id : string; provider_url : string }.

Record MarketplaceConfig : Type := mkMarketplaceConfig {
  writer_url : string;
  mp_wei_per_call : Wei;
  mp_tunnel_server : string;
  max_providers : Z;
  remote_port_start : Z;
  discovery_interval : Z;
  refresh_interval : Z;
  agreement_life : Z;
  listing_life : Z;
  counter_record_life : Z;
  offer_max_lifetime : Z;
  settlement_period : Z;
  flush_interval : Z;
  gas_warn_below : Wei;
}.

Definition default_writer_url : string := "http://127.0.0.1:8560/".
Definition default_max_providers : Z := 90.
Definition default_remote_port_start : Z := 20000.
Definition default_discovery_interval : Z := from_secs (5 * 60).
Definition default_refresh_interval : Z := from_secs (60 * 60).
Definition default_agreement_life : Z := from_secs (3 * 24 * 60 * 60).
Definition default_listing_life : Z := from_secs (30 * 24 * 60 * 60).
Definition default_counter_record_life : Z := from_secs (180 * 24 * 60 * 60).
Definition default_offer_max_lifetime : Z := from_secs (24 * 60 * 60).
Definition default_settlement_period : Z := from_secs (7 * 24 * 60 * 60).
Definition default_flush_interval : Z := from_secs (24 * 60 * 60).

Record Config : Type := mkConfig {
  listen : Listen;
  health : Health;
  proxy : Proxy;
  marketplace : option MarketplaceConfig;
  integrity : option IntegrityConfig;
  stats : StatsConfig;
  providers : list ProviderConfig;
  reference : option string;
  reference_key : option string;
}.
Definition default_config : Config :=
  mkConfig default_listen default_health default_proxy None None default_stats [] None None.

(** [(start..=u16::MAX).take(n)]. *)
Fixpoint ports_from (n : nat) (port : Z) : list Z :=
  match n with
  | O => []
  | S n => if Z.leb port u16_max then port :: ports_from n (port + 1) else []
  end.
(** [remote_ports]: one port per slot, from the start port up. *)
Definition remote_ports (m : MarketplaceConfig) : list Z :=
  ports_from (Z.to_nat m.(max_providers)) m.(remote_port_start).

(** * GLM amounts *)

Definition DECIMALS : nat := 18.

(** [str::split_once('.')]. *)
Fixpoint split_once (c : ascii) (s : string) : option (string * string) :=
  match s with
  | EmptyString => None
  | String d s =>
      if Ascii.eqb d c then Some (EmptyString, s)
      else prod_map (String d) id <$> split_once c s
  end.

Fixpoint zeros (n : nat) : string :=
  match n with O => EmptyString | S n => String "0" (zeros n) end.

Definition is_digit (c : ascii) : bool := bool_decide (is_Some (digit_value 10 c)).
Definition all_digits (s : string) : bool := forallb is_digit (String.list_ascii_of_string s).

Inductive GlmError : Type := NotAnAmount (text : string) | AmountTooLarge (text : string).

Definition glm `{Alloy} (text : string) : result GlmError Wei :=
  let '(whole, fraction) := default (text, EmptyString) (split_once "." text) in
  if bool_decide (whole = EmptyString) || Nat.ltb DECIMALS (String.length fraction) ||
     negb (all_digits (whole ++ fraction))
  then Err (NotAnAmount text)
  else
    let digits := (whole ++ fraction ++ zeros (DECIMALS - String.length fraction))%string in
    ok_or (AmountTooLarge text) (u256_from_str10 digits).

(** [glm("0.1")]; that it parses is the [expect] of the code. *)
Definition default_gas_warn_below `{Alloy} : Wei :=
  match glm "0.1" with Ok w => w | Err _ => 0 end.

(** * Validation *)

(** What [Invalid] says: the format string is the constructor, what is
    put into it the arguments. *)
Inductive Complaint : Type :=
| MustBePositive (name : string)
| ConfirmTooLate (confirm_after interval : Z)
| ShorterThanProbes (name : string)
| FlipAfterTooSmall (n : Z)
| BadHandle (id : string)
| SeenTwice (id : string)
| DoesNotParse (what url : string)
| NotHttp (what url : string)
| OddLifetime (name : string)
| LifetimeTooLong (name : string) (life : Z)
| OfferOutlivesAgreement (offer_life agreement_life : Z)
| PollAfterRefresh (discovery refresh : Z)
| ExpiresBeforeRefresh (name : string) (life refresh : Z)
| RefreshInOneBlock (refresh : Z)
| FlushTooRare (flush agreement_life : Z)
| MoreThanAPage (n : Z)
| PastLastPort (start n : Z).

Inductive ConfigError : Type :=
| CRead (path : string)
| CParse (path : string)
| Invalid (what : Complaint).

Definition positive_durations (l : list (string * Z)) : result ConfigError unit :=
  for_each_ok (fun x => guard_err (Z.eqb x.2 0) (Invalid (MustBePositive x.1))) l.

Definition integrity_validate (i : IntegrityConfig) : result ConfigError unit :=
  _ ← positive_durations [("integrity.interval", i.(interval));
                          ("integrity.confirm_after", i.(confirm_after))]%string;
  guard_err (Z.leb i.(interval) i.(confirm_after))
    (Invalid (ConfirmTooLate i.(confirm_after) i.(interval))).

Definition validate_http_url `{UrlLib} (what url : string) : result ConfigError unit :=
  match url_parse url with
  | None => Err (Invalid (DoesNotParse what url))
  | Some parsed =>
      guard_err (negb (bool_decide (url_scheme parsed = "http"%string)) &&
                 negb (bool_decide (url_scheme parsed = "https"%string)))
        (Invalid (NotHttp what url))
  end.

Definition is_handle_char (c : ascii) : bool :=
  let n := N_of_ascii c in
  (N.leb 97 n && N.leb n 122) || (N.leb 48 n && N.leb n 57) || Ascii.eqb c "-".

Definition is_handle (id : string) : bool :=
  negb (bool_decide (id = EmptyString)) &&
  forallb is_handle_char (String.list_ascii_of_string id).

Definition marketplace_validate `{UrlLib} (m : MarketplaceConfig) : result ConfigError unit :=
  _ ← validate_http_url "marketplace.writer_url" m.(writer_url);
  _ ← positive_durations
        [("marketplace.discovery_interval", m.(discovery_interval));
         ("marketplace.refresh_interval", m.(refresh_interval));
         ("marketplace.agreement_life", m.(agreement_life));
         ("marketplace.listing_life", m.(listing_life));
         ("marketplace.counter_record_life", m.(counter_record_life));
         ("marketplace.offer_max_lifetime", m.(offer_max_lifetime));
         ("marketplace.settlement_period", m.(settlement_period));
         ("marketplace.flush_interval", m.(flush_interval))]%string;
  _ ← for_each_ok (fun x =>
        _ ← guard_err (negb (Z.eqb (subsec_nanos x.2) 0) ||
                       negb (Z.eqb (as_secs x.2 mod 2) 0)) (Invalid (OddLifetime x.1));
        guard_err (Z.ltb MAX_LIFETIME x.2) (Invalid (LifetimeTooLong x.1 x.2)))
        [("agreement_life", m.(agreement_life)); ("listing_life", m.(listing_life));
         ("counter_record_life", m.(counter_record_life));
         ("offer_max_lifetime", m.(offer_max_lifetime))]%string;
  _ ← guard_err (Z.leb m.(agreement_life) m.(offer_max_lifetime))
        (Invalid (OfferOutlivesAgreement m.(offer_max_lifetime) m.(agreement_life)));
  _ ← guard_err (Z.leb m.(refresh_interval) m.(discovery_interval))
        (Invalid (PollAfterRefresh m.(discovery_interval) m.(refresh_interval)));
  _ ← for_each_ok (fun x =>
        guard_err (Z.leb x.2 m.(refresh_interval))
          (Invalid (ExpiresBeforeRefresh x.1 x.2 m.(refresh_interval))))
        [("agreement_life", m.(agreement_life)); ("listing_life", m.(listing_life))]%string;
  _ ← guard_err (Z.ltb m.(refresh_interval) (from_secs 2))
        (Invalid (RefreshInOneBlock m.(refresh_interval)));
  _ ← guard_err (Z.ltb m.(agreement_life) m.(flush_interval))
        (Invalid (FlushTooRare m.(flush_interval) m.(agreement_life)));
  _ ← guard_err (Z.ltb PAGE_LIMIT m.(max_providers)) (Invalid (MoreThanAPage m.(max_providers)));
  let last := (m.(remote_port_start) + m.(max_providers)) mod (u32_max + 1) in
  guard_err (Z.ltb (u16_max + 1) last)
    (Invalid (PastLastPort m.(remote_port_start) m.(max_providers))).

(** The loop over the static providers, [seen] so far. *)
Fixpoint validate_providers `{UrlLib} (l : list ProviderConfig) (seen : gset string) :
    result ConfigError unit :=
  match l with
  | [] => Ok tt
  | p :: l =>
      let id := p.(provider_id) in
      _ ← guard_err (negb (is_handle id)) (Invalid (BadHandle id));
      _ ← guard_err (bool_decide (id ∈ seen)) (Invalid (SeenTwice id));
      _ ← validate_http_url ("provider " ++ id ++ ": url") p.(provider_url);
      validate_providers l ({[id]} ∪ seen)
  end.

Definition validate `{UrlLib} (c : Config) : result ConfigError unit :=
  _ ← positive_durations
        [("health.probe_interval", c.(health).(probe_interval));
         ("health.probe_timeout", c.(health).(probe_timeout));
         ("proxy.attempt_timeout", c.(proxy).(attempt_timeout));
         ("proxy.request_timeout", c.(proxy).(request_timeout))]%string;
  _ ← positive_durations
        [("proxy.max_request_size", c.(proxy).(max_request_size));
         ("proxy.max_response_size", c.(proxy).(max_response_size))]%string;
  _ ← for_each_ok (fun x =>
        guard_err (negb (Z.eqb x.2 0) && Z.ltb x.2 c.(health).(probe_interval))
          (Invalid (ShorterThanProbes x.1)))
        [("ref_height_interval", c.(health).(ref_height_interval));
         ("chainid_check_interval", c.(health).(chainid_check_interval))]%string;
  _ ← guard_err (Z.ltb c.(health).(flip_after) 2)
        (Invalid (FlipAfterTooSmall c.(health).(flip_after)));
  _ ← validate_providers c.(providers) ∅;
  _ ← match c.(marketplace) with Some m => marketplace_validate m | None => Ok tt end;
  match c.(integrity) with Some i => integrity_validate i | None => Ok tt end.

(** [load] and [parse]: reading the file and the toml is not this code's. *)
Definition parse `{UrlLib} (toml : string -> option Config) (text path : string) :
    result ConfigError Config :=
  config ← ok_or (CParse path) (toml text);
  _ ← validate config;
  Ok config.

Definition load `{UrlLib} (read_to_string : string -> option string)
    (toml : string -> option Config) (path : string) : result ConfigError Config :=
  text ← ok_or (CRead path) (read_to_string path);
  parse toml text path.

(** * Lemmas: digits *)

#[local] Arguments String.append !_ _ / : simpl nomatch.

Fixpoint value_from (a : Z) (s : string) : Z :=
  match s with
  | EmptyString => a
  | String c s => value_from (a * 10 + default 0 (digit_value 10 c)) s
  end.
(** The number a string of digits spells. *)
Definition value : string -> Z := value_from 0.

Lemma digit_bounds c d : digit_value 10 c = Some d -> 0 <= d < 10.
Proof.
  intros Hd. split; [eapply digit_value_nonneg; [|exact Hd]; lia|].
  unfold digit_value in Hd. cbv zeta in Hd.
  match type of Hd with (if Z.ltb ?e 10 then _ else _) = _ => destruct (Z.ltb_spec e 10) end;
    [|done]. by injection Hd as <-.
Qed.

Lemma is_digit_default c : 0 <= default 0 (digit_value 10 c) < 10.
Proof. destruct (digit_value 10 c) eqn:E; cbn; [by eapply digit_bounds | lia]. Qed.

Lemma value_from_shift a s : value_from a s = a * 10 ^ Z.of_nat (String.length s) + value s.
Proof.
  unfold value. revert a. induction s as [|c s IH]; intros a; cbn [value_from String.length].
  - cbn. lia.
  - rewrite IH, (IH (0 * 10 + _)), Nat2Z.inj_succ, Z.pow_succ_r by lia. ring.
Qed.

Lemma value_nonneg s : 0 <= value s.
Proof.
  unfold value. assert (forall a, 0 <= a -> 0 <= value_from a s) as H; [|by apply H].
  induction s as [|c s IH]; intros a Ha; cbn; [done|]. apply IH.
  pose proof (is_digit_default c). lia.
Qed.

Lemma parse_digits_value max a s :
  all_digits s = true -> 0 <= a <= max ->
  parse_digits max 10 a s =
    if Z.leb (value_from a s) max then Some (value_from a s) else None.
Proof.
  unfold all_digits. revert a. induction s as [|c s IH]; intros a Hs Ha; cbn [parse_digits value_from].
  - by rewrite (proj2 (Z.leb_le _ _)) by lia.
  - cbn in Hs. apply andb_true_iff in Hs as [Hc Hs]. apply bool_decide_eq_true in Hc as [d Hd].
    rewrite Hd. cbn [default from_option id]. pose proof (digit_bounds _ _ Hd).
    destruct (Z.ltb_spec max (a * 10 + d)).
    + rewrite value_from_shift. pose proof (value_nonneg s).
      rewrite (proj2 (Z.leb_gt _ _)); [done|].
      assert (1 <= 10 ^ Z.of_nat (String.length s)) by (pose proof (Z.pow_pos_nonneg 10 (Z.of_nat (String.length s))); lia).
      nia.
    + apply IH; [done|lia].
Qed.

Lemma split_once_Some c s x y :
  split_once c s = Some (x, y) <-> s = (x ++ String c y)%string /\ no_char c x.
Proof.
  revert x y. induction s as [|d s IH]; intros x y; cbn.
  - split; [done|]. intros [E _]. by destruct x.
  - destruct (Ascii.eqb_spec d c) as [->|Hne].
    + split; [by intros [= <- <-]|]. intros [E Hx].
      destruct x as [|e x]; cbn in *; [by injection E as ->|]. injection E as -> _. tauto.
    + destruct (split_once c s) as [[x' y']|] eqn:Es; cbn.
      * destruct (proj1 (IH x' y') eq_refl) as [-> Hx']. split.
        { intros [= <- <-]. done. }
        intros [E Hx]. destruct x as [|e x]; cbn in *; [congruence|].
        injection E as -> E. apply until_char in E as [-> ->]; [done | tauto..].
      * split; [done|]. intros [E Hx]. destruct x as [|e x]; cbn in *; [congruence|].
        injection E as -> E. destruct Hx as [_ Hx].
        pose proof (proj2 (IH x y) (conj E Hx)) as Hc. discriminate Hc.
Qed.

Lemma all_digits_app x y : all_digits (x ++ y) = all_digits x && all_digits y.
Proof.
  unfold all_digits. induction x as [|c x IH]; cbn; [done|]. rewrite IH. apply andb_assoc.
Qed.

Lemma all_digits_zeros n : all_digits (zeros n) = true.
Proof. by induction n. Qed.

Lemma string_length_app x y : String.length (x ++ y) = (String.length x + String.length y)%nat.
Proof. induction x; cbn; congruence. Qed.

Lemma value_app x y :
  value (x ++ y) = value x * 10 ^ Z.of_nat (String.length y) + value y.
Proof.
  unfold value at 1 2. rewrite <- value_from_shift. generalize 0.
  induction x as [|c x IH]; intros a; cbn; [done|]. apply IH.
Qed.

Lemma value_zeros n : value (zeros n) = 0.
Proof. unfold value. by induction n. Qed.
Lemma length_zeros n : String.length (zeros n) = n.
Proof. induction n; cbn; congruence. Qed.

Lemma no_dot_digits s : all_digits s = true -> no_char "." s.
Proof.
  unfold all_digits. induction s as [|c s IH]; cbn; [done|]. intros H.
  apply andb_true_iff in H as [Hc Hs]. split; [|by apply IH]. intros ->. done.
Qed.

(** ** Loops of checks *)

Lemma guard_then_Ok {E} c (e : E) (r : result E unit) :
  (_ ← guard_err c e; r) = Ok tt <-> c = false /\ r = Ok tt.
Proof. destruct c; cbn; naive_solver. Qed.

Lemma then_Ok {E} (m r : result E unit) : (_ ← m; r) = Ok tt <-> m = Ok tt /\ r = Ok tt.
Proof. destruct m as [[]|]; cbn; naive_solver. Qed.

Lemma guard_Ok {E} c (e : E) : guard_err c e = Ok tt <-> c = false.
Proof. destruct c; cbn; naive_solver. Qed.

Lemma positive_durations_Ok l :
  positive_durations l = Ok tt <-> Forall (fun x => x.2 <> 0) l.
Proof.
  unfold positive_durations. rewrite for_each_ok_Ok.
  split; intros H; (eapply Forall_impl; [exact H|]); intros x; cbn;
    rewrite guard_Ok; by rewrite Z.eqb_neq.
Qed.

Lemma even_seconds d :
  negb (Z.eqb (subsec_nanos d) 0) || negb (Z.eqb (as_secs d mod 2) 0) = false <->
  d mod from_secs 2 = 0.
Proof.
  unfold subsec_nanos, as_secs, from_secs, NANOS.
  rewrite orb_false_iff, !negb_false_iff, !Z.eqb_eq.
  split; [intros [H1 H2] | intros H; split]; Z.to_euclidean_division_equations; lia.
Qed.

(** * Theorems *)

(** A GLM amount is read exactly: digits, optionally a point and at most
    eighteen more, worth the number they spell in units of 10^-18 GLM;
    nothing else is an amount, and one too large for 256 bits is refused
    rather than wrapped. *)
Theorem glm_spec `{Alloy} text w :
  glm text = Ok w <->
  exists whole fraction,
    (text = (whole ++ String "." fraction)%string \/ text = whole /\ fraction = EmptyString) /\
    whole <> EmptyString /\ all_digits whole = true /\ all_digits fraction = true /\
    (String.length fraction <= DECIMALS)%nat /\
    w = value whole * 10 ^ 18 + value fraction * 10 ^ Z.of_nat (DECIMALS - String.length fraction) /\
    w < 2 ^ 256.
Proof.
  assert (forall whole fraction, whole <> EmptyString -> all_digits whole = true ->
    all_digits fraction = true -> (String.length fraction <= DECIMALS)%nat ->
    let v := value whole * 10 ^ 18 +
      value fraction * 10 ^ Z.of_nat (DECIMALS - String.length fraction) in
    u256_from_str10 (whole ++ fraction ++ zeros (DECIMALS - String.length fraction)) =
      if Z.leb v (2 ^ 256 - 1) then Some v else None) as Hval.
  { intros whole fraction Hne Hw Hf Hl v.
    assert (all_digits (whole ++ fraction ++ zeros (DECIMALS - String.length fraction)) = true)
      as Hd by by rewrite !all_digits_app, Hw, Hf, all_digits_zeros.
    rewrite u256_digits; [| by destruct whole | exact Hd].
    rewrite parse_digits_value by (done || lia). fold (value (whole ++ fraction ++
      zeros (DECIMALS - String.length fraction))). rewrite !value_app, value_zeros.
    rewrite string_length_app, length_zeros, Z.add_0_r.
    replace (String.length fraction + (DECIMALS - String.length fraction))%nat with 18%nat
      by (unfold DECIMALS in *; lia). done. }
  assert (forall whole fraction, split_once "." text = Some (whole, fraction) \/
    split_once "." text = None /\ whole = text /\ fraction = EmptyString ->
    glm text = Ok w <-> whole <> EmptyString /\ all_digits whole = true /\
      all_digits fraction = true /\ (String.length fraction <= DECIMALS)%nat /\
      w = value whole * 10 ^ 18 +
        value fraction * 10 ^ Z.of_nat (DECIMALS - String.length fraction) /\ w < 2 ^ 256)
    as Hglm.
  { intros whole fraction Hs. unfold glm.
    assert (default (text, EmptyString) (split_once "." text) = (whole, fraction)) as ->
      by (destruct Hs as [->|(-> & -> & ->)]; done).
    rewrite all_digits_app. destruct (decide (whole = EmptyString)) as [->|Hne].
    { rewrite bool_decide_true by done. cbn. split; [done|]. tauto. }
    rewrite bool_decide_false by done. cbn [orb].
    destruct (Nat.ltb_spec DECIMALS (String.length fraction)) as [Hl|Hl]; cbn [orb].
    { split; [done|]. intros (_ & _ & _ & ? & _). lia. }
    destruct (all_digits whole) eqn:Hw, (all_digits fraction) eqn:Hf; cbn [negb andb];
      try (split; [done|]; intros (_ & ? & ? & _); congruence).
    rewrite ok_or_Ok, Hval by (done || lia). case_match eqn:Hv.
    - apply Z.leb_le in Hv. split; [intros [= <-]; split_and!; (done || lia)|].
      intros (_ & _ & _ & _ & -> & _). done.
    - apply Z.leb_gt in Hv. split; [done|]. intros (_ & _ & _ & _ & -> & ?). lia. }
  split.
  - intros E. destruct (split_once "." text) as [[whole fraction]|] eqn:Es.
    + exists whole, fraction. split; [left; by apply split_once_Some in Es as [-> _]|].
      apply Hglm; [by left | done].
    + exists text, EmptyString. split; [by right|]. apply Hglm; [by right | done].
  - intros (whole & fraction & Ht & Hall). apply (Hglm whole fraction); [|exact Hall].
    assert (no_char "." whole) as Hdot by (apply no_dot_digits; tauto).
    destruct Ht as [->|[-> ->]].
    + left. by apply split_once_Some.
    + right. split_and!; [|done..]. destruct (split_once "." whole) as [[x y]|] eqn:Es; [|done].
      apply split_once_Some in Es as [E _]. exfalso. subst whole. clear -Hdot.
      induction x as [|c x IH]; cbn in Hdot; tauto.
Qed.

(** What a running marketplace is configured with. *)
Definition marketplace_ok `{UrlLib} (m : MarketplaceConfig) : Prop :=
  (exists u, url_parse m.(writer_url) = Some u /\
     (url_scheme u = "http" \/ url_scheme u = "https")%string) /\
  0 < m.(discovery_interval) < m.(refresh_interval) /\
  from_secs 2 <= m.(refresh_interval) /\
  0 < m.(settlement_period) /\ 0 < m.(flush_interval) <= m.(agreement_life) /\
  Forall (fun life => 0 < life <= MAX_LIFETIME /\ life mod from_secs 2 = 0)
    [m.(agreement_life); m.(listing_life); m.(counter_record_life); m.(offer_max_lifetime)] /\
  m.(offer_max_lifetime) < m.(agreement_life) /\
  m.(refresh_interval) < m.(agreement_life) /\ m.(refresh_interval) < m.(listing_life) /\
  m.(max_providers) <= PAGE_LIMIT /\
  m.(remote_port_start) + m.(max_providers) <= u16_max + 1.

(** The ranges of the types. *)
Definition marketplace_typed (m : MarketplaceConfig) : Prop :=
  Forall (fun d => 0 <= d)
    [m.(discovery_interval); m.(refresh_interval); m.(agreement_life); m.(listing_life);
     m.(counter_record_life); m.(offer_max_lifetime); m.(settlement_period);
     m.(flush_interval)] /\
  is_u32 m.(max_providers) /\ 0 <= m.(remote_port_start) <= u16_max.

Lemma validate_http_url_Ok `{UrlLib} what url :
  validate_http_url what url = Ok tt <->
  exists u, url_parse url = Some u /\ (url_scheme u = "http" \/ url_scheme u = "https")%string.
Proof.
  unfold validate_http_url. destruct (url_parse url) as [u|].
  - rewrite guard_Ok, andb_false_iff, !negb_false_iff, !bool_decide_eq_true. naive_solver.
  - naive_solver.
Qed.

Lemma marketplace_validate_Ok `{UrlLib} m :
  marketplace_typed m -> marketplace_validate m = Ok tt <-> marketplace_ok m.
Proof.
  intros (Hd & Hmax & Hport). rewrite !Forall_cons in Hd.
  unfold marketplace_validate, marketplace_ok.
  rewrite !then_Ok, validate_http_url_Ok, positive_durations_Ok, !for_each_ok_Ok,
    !Forall_cons, !guard_then_Ok, !even_seconds, !guard_Ok, !Z.leb_gt, !Z.ltb_ge.
  cbn [fst snd].
  assert (m.(max_providers) <= PAGE_LIMIT ->
    (m.(remote_port_start) + m.(max_providers)) mod (u32_max + 1) =
    m.(remote_port_start) + m.(max_providers)) as Hmod.
  { intros ?. unfold PAGE_LIMIT in *. apply Z.mod_small. machine_unfold. lia. }
  rewrite !Forall_nil. intuition (try rewrite Hmod in *; auto; lia).
Qed.

(** [marketplace.validate] passes exactly the sections that are fit to
    run: positive durations, lifetimes of whole blocks within the chain's
    maximum, offers that die before the agreements they turn into, polls
    between refreshes, refreshes before expiry, flushes within an
    agreement, and a page and the ports for every slot. *)
Theorem marketplace_validate_iff `{UrlLib} m :
  marketplace_typed m -> marketplace_validate m = Ok tt <-> marketplace_ok m.
Proof. apply marketplace_validate_Ok. Qed.

Lemma ports_from_seq n port :
  port + Z.of_nat n <= u16_max + 1 -> ports_from n port = seqZ port (Z.of_nat n).
Proof.
  revert port. induction n as [|n IH]; intros port Hp; cbn [ports_from]; [done|].
  rewrite (proj2 (Z.leb_le _ _)) by lia. rewrite IH by lia. rewrite (seqZ_cons port) by lia. f_equal. f_equal; lia.
Qed.

Lemma remote_ports_eq m :
  marketplace_typed m -> m.(remote_port_start) + m.(max_providers) <= u16_max + 1 ->
  remote_ports m = seqZ m.(remote_port_start) m.(max_providers).
Proof.
  intros (_ & Hmax & Hport) Hlast. unfold remote_ports. machine_unfold.
  rewrite ports_from_seq by (machine_unfold; lia). f_equal. lia.
Qed.

(** A validated marketplace has a port for every slot: as many as it may
    have providers, no two alike, each a port there is. *)
Theorem remote_ports_one_per_slot `{UrlLib} m :
  marketplace_typed m -> marketplace_validate m = Ok tt ->
  Z.of_nat (length (remote_ports m)) = m.(max_providers) /\ NoDup (remote_ports m) /\
  forall p, p ∈ remote_ports m <->
    m.(remote_port_start) <= p < m.(remote_port_start) + m.(max_providers) /\ p <= u16_max.
Proof.
  intros Ht Hv. apply marketplace_validate_Ok in Hv as Hok; [|done].
  destruct Hok as (_ & _ & _ & _ & _ & _ & _ & _ & _ & _ & Hlast).
  rewrite remote_ports_eq by done. destruct Ht as (_ & Hmax & Hport).
  split_and!; [rewrite length_seqZ; machine_unfold; lia | apply NoDup_seqZ |].
  intros p. rewrite elem_of_seqZ. machine_unfold. lia.
Qed.

(** The static providers [validate] lets through: each a valid handle of
    its own, with an http(s) URL. *)
Definition providers_ok `{UrlLib} (l : list ProviderConfig) : Prop :=
  NoDup (provider_id <$> l) /\
  Forall (fun p => is_handle p.(provider_id) = true /\
    exists u, url_parse p.(provider_url) = Some u /\
      (url_scheme u = "http" \/ url_scheme u = "https")%string) l.

Lemma validate_providers_Ok `{UrlLib} l seen :
  validate_providers l seen = Ok tt <->
  providers_ok l /\ Forall (fun p => p.(provider_id) ∉ seen) l.
Proof.
  revert seen. induction l as [|p l IH]; intros seen.
  - cbn. split; [|done]. intros _. split; [split; constructor | constructor].
  - cbn [validate_providers]. rewrite !guard_then_Ok, then_Ok, validate_http_url_Ok, IH,
      bool_decide_eq_false, negb_false_iff.
    unfold providers_ok. cbn [fmap list_fmap]. rewrite NoDup_cons, !Forall_cons, !Forall_forall.
    rewrite list_elem_of_fmap. setoid_rewrite not_elem_of_union.
    setoid_rewrite not_elem_of_singleton. naive_solver.
Qed.

Definition integrity_ok (i : IntegrityConfig) : Prop :=
  i.(interval) <> 0 /\ i.(confirm_after) <> 0 /\ i.(confirm_after) < i.(interval).

(** [validate] passes exactly the configurations fit to run: positive
    timeouts and sizes, check intervals that are zero or reach a probe
    round, health that takes two results to flip, static providers with
    handles of their own and http(s) URLs, and sections that are valid
    themselves. *)
Theorem validate_iff `{UrlLib} c :
  (forall m, c.(marketplace) = Some m -> marketplace_typed m) ->
  validate c = Ok tt <->
  c.(health).(probe_interval) <> 0 /\ c.(health).(probe_timeout) <> 0 /\
  c.(proxy).(attempt_timeout) <> 0 /\ c.(proxy).(request_timeout) <> 0 /\
  c.(proxy).(max_request_size) <> 0 /\ c.(proxy).(max_response_size) <> 0 /\
  (c.(health).(ref_height_interval) = 0 \/
   c.(health).(probe_interval) <= c.(health).(ref_height_interval)) /\
  (c.(health).(chainid_check_interval) = 0 \/
   c.(health).(probe_interval) <= c.(health).(chainid_check_interval)) /\
  2 <= c.(health).(flip_after) /\ providers_ok c.(providers) /\
  (forall m, c.(marketplace) = Some m -> marketplace_ok m) /\
  (forall i, c.(integrity) = Some i -> integrity_ok i).
Proof.
  intros Hm. unfold validate.
  rewrite !then_Ok, !positive_durations_Ok, for_each_ok_Ok, guard_Ok, validate_providers_Ok,
    !Forall_cons, !guard_Ok, !andb_false_iff, !negb_false_iff, !Z.eqb_eq, !Z.ltb_ge, !Forall_nil.
  cbn [fst snd].
  assert ((match c.(marketplace) with Some m => marketplace_validate m | None => Ok tt end) =
    Ok tt <-> forall m, c.(marketplace) = Some m -> marketplace_ok m) as ->.
  { destruct (marketplace c) as [m|]; [|naive_solver].
    rewrite marketplace_validate_Ok by by apply Hm. naive_solver. }
  assert ((match c.(integrity) with Some i => integrity_validate i | None => Ok tt end) =
    Ok tt <-> forall i, c.(integrity) = Some i -> integrity_ok i) as ->.
  { destruct (integrity c) as [i|]; [|naive_solver]. unfold integrity_validate, integrity_ok.
    rewrite then_Ok, positive_durations_Ok, guard_Ok, !Forall_cons, Forall_nil, Z.leb_gt.
    cbn [snd]. split; [intros Hi j [= <-]; tauto | intros Hi; specialize (Hi i eq_refl); tauto]. }
  assert (Forall (fun p : ProviderConfig => p.(provider_id) ∉ (∅ : gset string)) c.(providers))
    as Hs by (apply Forall_forall; set_solver).
  tauto.
Qed.

(** * Witnesses *)

Definition demo_marketplace : MarketplaceConfig :=
  mkMarketplaceConfig default_writer_url 7 "lb.example:7000" default_max_providers
    default_remote_port_start default_discovery_interval default_refresh_interval
    default_agreement_life default_listing_life default_counter_record_life
    default_offer_max_lifetime default_settlement_period default_flush_interval 0.

Lemma demo_marketplace_typed : marketplace_typed demo_marketplace.
Proof. unfold marketplace_typed. apply (bool_decide_unpack _). by vm_compute. Qed.

Lemma marketplace_validate_iff_witness :
  marketplace_typed demo_marketplace /\ marketplace_ok demo_marketplace.
Proof.
  split; [apply demo_marketplace_typed|].
  apply (marketplace_validate_iff demo_marketplace); [apply demo_marketplace_typed|].
  by vm_compute.
Defined.

Lemma remote_ports_one_per_slot_witness :
  Z.of_nat (length (remote_ports demo_marketplace)) = 90 /\ NoDup (remote_ports demo_marketplace).
Proof.
  destruct (remote_ports_one_per_slot demo_marketplace) as (Hl & Hn & _).
  - apply demo_marketplace_typed.
  - by vm_compute.
  - split; [exact Hl | exact Hn].
Defined.

Definition demo_config : Config :=
  mkConfig default_listen default_health default_proxy (Some demo_marketplace)
    (Some default_integrity) default_stats
    [mkProviderConfig "own-1" "http://10.0.0.1"; mkProviderConfig "own-2" "https://b"]
    (Some "http://ref"%string) None.

Lemma validate_iff_witness :
  validate demo_config = Ok tt /\ providers_ok demo_config.(providers).
Proof.
  assert (validate demo_config = Ok tt) as E by by vm_compute.
  split; [exact E|]. apply (validate_iff demo_config); [|exact E].
  intros m [= <-]. apply demo_marketplace_typed.
Defined.

Lemma glm_spec_witness : glm "0.1" = Ok 100000000000000000.
Proof.
  apply (glm_spec "0.1"). exists "0"%string, "1"%string. split_and!; try by vm_compute.
  - by left.
  - unfold DECIMALS. cbn. lia.
Defined.
