(* ===== verification/Admission.v ===== *)
(** The tunnel's admission check,
    [crates/lb/src/marketplace/admission.rs]: the token a provider's
    client carries and the pure decision to let it in. *)

From S2P Require Import Prelude External Concrete Records.

#[local] Open Scope Z_scope.

Inductive Op : Type :=
| Login
| NewProxy (remote_port : Z) (name : string).

Definition proxy_name (remote_port : Z) : string := ("node-rpc-" ++ decimal remote_port)%string.

Inductive Rejection : Type :=
| AgreementNotAKey
| TokenNotASignature
| NoAgreement (k : EntityKey)
| WrongSigner
| WrongPort (requested assigned : Z)
| WrongName (requested expected : string).

#[export] Instance rejection_eq_dec : EqDecision Rejection.
Proof. solve_decision. Defined.

(** [{:?}] of a string. *)
Class DebugText := { debug_text : string -> string }.

Section display.
Context `{Alloy} `{DebugText}.

Definition rejection_text (r : Rejection) : string :=
  match r with
  | AgreementNotAKey => "agreement id is not an entity key"
  | TokenNotASignature => "token is not a signature"
  | NoAgreement k => "no agreement " ++ key_hex k
  | WrongSigner => "signature was not made by the agreement's provider over this agreement id"
  | WrongPort requested assigned =>
      "port " ++ decimal requested ++ " requested, agreement assigns " ++ decimal assigned
  | WrongName requested expected =>
      "proxy name " ++ debug_text requested ++ " is not this agreement's; set name = " ++
      debug_text expected ++ " in frpc.toml"
  end%string.
End display.

(** [alloy_primitives::Signature]: parsing, and the EIP-191 recovery of
    a message's signer. *)
Class Signatures := {
  Signature : Type;
  signature_parse : string -> option Signature;
  recover_address_from_msg : Signature -> string -> option Address;
}.

Section admission.
Context `{Alloy} `{Signatures}.

Definition token_message (agreement : EntityKey) : string :=
  ("arkiv-rpc:" ++ key_hex agreement)%string.

Record Token : Type := mkToken { token_agreement : EntityKey; signature : Signature }.

Definition token_parse (agreement token : option string) : result Rejection Token :=
  agreement ← ok_or AgreementNotAKey (agreement ≫= key_parse);
  signature ← ok_or TokenNotASignature (token ≫= signature_parse);
  Ok (mkToken agreement signature).

Definition decide_admission (op : Op) (token : Token) (agreement : option (Stored Agreement)) :
    result Rejection unit :=
  stored ← ok_or (NoAgreement token.(token_agreement)) agreement;
  signer ← ok_or TokenNotASignature
    (recover_address_from_msg token.(signature) (token_message token.(token_agreement)));
  _ ← guard_err (negb (Z.eqb signer stored.(record).(ag_provider))) WrongSigner;
  match op with
  | Login => Ok tt
  | NewProxy remote_port name =>
      let assigned := stored.(record).(ag_remote_port) in
      _ ← guard_err (negb (Z.eqb remote_port assigned)) (WrongPort remote_port assigned);
      let expected := proxy_name assigned in
      guard_err (negb (bool_decide (name = expected))) (WrongName name expected)
  end.

(** What the callback is answered, given where the live agreements are.
    The last step is the [expect] of the code. *)
Definition admission_decision (agreements : EntityKey -> option (Stored Agreement)) (op : Op)
    (agreement token : option string) : result Rejection (Stored Agreement) :=
  token ← token_parse agreement token;
  let stored := agreements token.(token_agreement) in
  _ ← decide_admission op token stored;
  ok_or WrongSigner stored.

(** * Theorems *)

Lemma decide_admission_Ok op token stored :
  decide_admission op token (Some stored) = Ok tt <->
  recover_address_from_msg token.(signature) (token_message token.(token_agreement)) =
    Some stored.(record).(ag_provider) /\
  (forall port name, op = NewProxy port name ->
     port = stored.(record).(ag_remote_port) /\ name = proxy_name port).
Proof.
  unfold decide_admission. cbn.
  destruct (recover_address_from_msg _ _) as [signer|]; cbn; [|naive_solver].
  destruct (Z.eqb_spec signer stored.(record).(ag_provider)) as [->|Hne]; cbn; [|naive_solver].
  destruct op as [|port name]; [naive_solver|].
  destruct (Z.eqb_spec port stored.(record).(ag_remote_port)) as [->|Hne]; cbn; [|naive_solver].
  case_bool_decide; cbn; naive_solver.
Qed.

Lemma admission_decision_Ok agreements op agreement token stored :
  admission_decision agreements op agreement token = Ok stored <->
  exists k s,
    agreement ≫= key_parse = Some k /\ token ≫= signature_parse = Some s /\
    agreements k = Some stored /\
    recover_address_from_msg s (token_message k) = Some stored.(record).(ag_provider) /\
    forall port name, op = NewProxy port name ->
      port = stored.(record).(ag_remote_port) /\ name = proxy_name port.
Proof.
  unfold admission_decision, token_parse.
  destruct (agreement ≫= key_parse) as [k|]; cbn; [|naive_solver].
  destruct (token ≫= signature_parse) as [s|]; cbn; [|naive_solver].
  destruct (agreements k) as [st|] eqn:Ek; [|naive_solver].
  pose proof (decide_admission_Ok op (mkToken k s) st) as Hd.
  destruct (decide_admission _ _ _) as [[]|e]; cbn in *.
  - destruct (proj1 Hd eq_refl). split; [intros [= <-]; by exists k, s|].
    intros (? & ? & [= <-] & [= <-] & E & _). congruence.
  - split; [done|]. intros (? & ? & [= <-] & [= <-] & E & Hr & Hp).
    rewrite Ek in E. injection E as ->. by assert (Err e = Ok tt) by (apply Hd; done).
Qed.

(** C23: A client is let in exactly when it claims one of this LB's live
    agreements and carries a signature over that very agreement id from
    which the agreement's provider is recovered; and its proxy is let in
    exactly when it also asks for the port the agreement assigns, under
    the one name that port has. *)
Theorem admission_iff agreements op agreement token stored :
  admission_decision agreements op agreement token = Ok stored <->
  exists k s,
    agreement ≫= key_parse = Some k /\ token ≫= signature_parse = Some s /\
    agreements k = Some stored /\
    recover_address_from_msg s (token_message k) = Some stored.(record).(ag_provider) /\
    forall port name, op = NewProxy port name ->
      port = stored.(record).(ag_remote_port) /\ name = proxy_name port.
Proof. apply admission_decision_Ok. Qed.

Lemma string_app_inv_head (x y z : string) : (x ++ y = x ++ z)%string -> y = z.
Proof. induction x as [|c x IH]; [done|]. intros [= E]. by apply IH. Qed.

(** A token is worth nothing for another agreement, and a proxy name for
    another port: the signed messages of two agreements differ, and so
    do the names of two ports. *)
Theorem tokens_and_names_distinct k k' port port' :
  is_key k -> is_key k' -> 0 <= port -> 0 <= port' ->
  (token_message k = token_message k' -> k = k') /\
  (proxy_name port = proxy_name port' -> port = port').
Proof.
  intros Hk Hk' Hp Hp'. split; intros E; apply string_app_inv_head in E.
  - by apply key_hex_inj.
  - pose proof (from_str_radix_decimal (port + port') port ltac:(lia)) as E1.
    pose proof (from_str_radix_decimal (port + port') port' ltac:(lia)) as E2. congruence.
Qed.
End admission.

(** * Witnesses *)

(** A signature that names its signer and its message. *)
#[local] Instance demo_signatures : Signatures := {|
  Signature := Address * string;
  signature_parse s := Some (10, s);
  recover_address_from_msg s m := if bool_decide (s.2 = m) then Some s.1 else None;
|}.

Definition demo_live (k : EntityKey) : option (Stored Agreement) :=
  if Z.eqb k 7 then Some (mkStored 7 1 2 3 demo_agreement) else None.

Lemma admission_iff_witness :
  admission_decision demo_live (NewProxy 20000 "node-rpc-20000") (Some (key_hex 7)) (Some (token_message 7)) =
    Ok (mkStored 7 1 2 3 demo_agreement).
Proof.
  apply admission_iff. exists 7, (10, token_message 7). split_and!; try by vm_compute.
  intros port name [= <- <-]. by vm_compute.
Defined.

Lemma tokens_and_names_distinct_witness :
  bool_decide (token_message 7 = token_message 8) = false /\
  bool_decide (proxy_name 20000 = proxy_name 20001) = false.
Proof.
  destruct (tokens_and_names_distinct 7 8 20000 20001) as [Ht Hn];
    [vm_compute; intuition congruence..|].
  split; apply bool_decide_eq_false; intros E.
  - by apply Ht in E.
  - by apply Hn in E.
Defined.
