(* ===== verification/Agent.v ===== *)
(** The marketplace agent's memory and its reconciliation with the chain,
    [crates/lb/src/marketplace/agent.rs]. The chain is the authority;
    the memory is a cache of it: one [Live] per agreement, each with its
    provider's pool entry and the counter record it counts into. *)

From S2P Require Import Prelude External Concrete Pool World Records Reader Writer Config.

#[local] Open Scope Z_scope.

(** * Data *)

Record OpenCounter : Type := mkOpenCounter { oc_key : EntityKey; opened_block : Z }.

(** [admission_task]: whether a task waits for the provider's probes. *)
Record Live : Type := mkLive {
  agreement : Stored Agreement;
  provider : ptr;
  counter : option OpenCounter;
  admission_task : bool;
}.

Abbreviation KnownAgreements := (gmap EntityKey Live) (only parsing).
Abbreviation CountersByAgreement := (gmap EntityKey (Stored CounterRecord)) (only parsing).

Inductive Flush : Type := Scheduled | Stop.

#[export] Instance flush_eq_dec : EqDecision Flush.
Proof. solve_decision. Defined.

Record Ended : Type := mkEnded {
  ended_agreement : Stored Agreement;
  ended_counter : OpenCounter;
  ended_served : Z;
}.

Record Counters : Type := mkCounters {
  open : CountersByAgreement;
  duplicates : list EntityKey;
  strays : list (Stored CounterRecord);
}.

Inductive ReconcileError : Type :=
| RcChain (e : ReadError)
| RcTooMany (kind : string) (n : Z).

(** The handles a running agent works with; the memory is in the state. *)
Record Agent (R Wr : Type) : Type := mkAgent {
  reader : R;
  writer : Wr;
  agent_config : MarketplaceConfig;
  agent_identity : Identity;
  listing_key : EntityKey;
  listing_expires_at : Z;
}.
Arguments mkAgent {R Wr}.
Arguments reader {R Wr}.
Arguments writer {R Wr}.
Arguments agent_config {R Wr}.
Arguments agent_identity {R Wr}.
Arguments listing_key {R Wr}.
Arguments listing_expires_at {R Wr}.

(** A [HashMap]'s iteration order: some order, the same map the same. *)
Class HashOrder := {
  iter : forall {A}, gmap Z A -> list (Z * A);
  iter_perm : forall {A} (m : gmap Z A), iter m ≡ₚ map_to_list m;
}.

(** What the other tasks do to the memory while the agent awaits: an
    admission learns an expiry from its extend's answer, or starts or
    ends. *)
Inductive MemoryStep : Type :=
| MExtended (k : EntityKey) (expires_at : Z)
| MTask (k : EntityKey) (running : bool).

Class Memory (W : Type) := { others_memory : W -> list MemoryStep * W }.

Record AS (W : Type) : Type := mkAS { sys : Sys W; known : KnownAgreements }.
Arguments mkAS {W}.
Arguments sys {W}.
Arguments known {W}.

Definition set_counter (c : option OpenCounter) (l : Live) : Live :=
  mkLive l.(agreement) l.(provider) c l.(admission_task).
Definition set_task (b : bool) (l : Live) : Live :=
  mkLive l.(agreement) l.(provider) l.(counter) b.
Definition set_expiry (expires : Z) (l : Live) : Live :=
  let a := l.(agreement) in
  mkLive (mkStored a.(key) a.(creator) a.(created_at) expires a.(record)) l.(provider)
    l.(counter) l.(admission_task).
(** The reconcile's update of a held agreement. *)
Definition set_blocks (created expires : Z) (l : Live) : Live :=
  let a := l.(agreement) in
  mkLive (mkStored a.(key) a.(creator) created expires a.(record)) l.(provider)
    l.(counter) l.(admission_task).

Definition memory_step (m : KnownAgreements) (x : MemoryStep) : KnownAgreements :=
  match x with
  | MExtended k e => alter (set_expiry e) k m
  | MTask k b => alter (set_task b) k m
  end.

(** A lifetime in blocks. *)
Definition blocks (lifetime : Z) : Z := as_secs lifetime / 2.

Definition was_extended (l : Live) (agreement_life : Z) : bool :=
  Z.leb (blocks agreement_life)
    (sat_sub l.(agreement).(expires_at) l.(agreement).(created_at)).

Definition creation (s : Stored CounterRecord) : Z * Z := (s.(created_at), s.(key)).
Definition open_counter (s : Stored CounterRecord) : OpenCounter :=
  mkOpenCounter s.(key) s.(record).(c_opened_block).

(** Oldest first: the creation block, and the key within one. *)
Definition older {T} (x y : Stored T) : bool :=
  pair_leb (x.(created_at), x.(key)) (y.(created_at), y.(key)).

Definition counted_record (s : Stored CounterRecord) (n : Z) : CounterRecord :=
  let c := s.(record) in
  mkCounterRecord c.(c_agreement) c.(c_provider) c.(c_state) n c.(c_wei_per_call)
    c.(c_opened_block) c.(c_closed_block).
Definition closed (c : CounterRecord) (n head : Z) : CounterRecord :=
  mkCounterRecord c.(c_agreement) c.(c_provider) Closed n c.(c_wei_per_call)
    c.(c_opened_block) (Some head).

(** The first counter record of an agreement, or a successor: open, at
    zero. *)
Definition fresh_counter (k : EntityKey) (a : Agreement) (wei head : Z) : CounterRecord :=
  mkCounterRecord k a.(ag_provider) Open 0 wei head None.

Definition patch_record `{Alloy} `{SerdeJson} (k : EntityKey) (c : CounterRecord) : Patch :=
  let set := match c.(c_state) with
             | Open => [PAYLOAD_ATTRIBUTE]
             | Closed => [PAYLOAD_ATTRIBUTE; "state"%string]
             end in
  mkPatch k (keep set (encode c)).

(** [oldest_per_agreement]: the record each agreement counts into, and
    the keys of the rest. *)
Definition oldest_per_agreement (records : list (Stored CounterRecord)) :
    CountersByAgreement * list EntityKey :=
  foldl (fun '(oldest, duplicates) stored =>
           match oldest !! stored.(record).(c_agreement) with
           | None => (<[stored.(record).(c_agreement) := stored]> oldest, duplicates)
           | Some _ => (oldest, duplicates ++ [stored.(key)])
           end) (∅, []) (sort_by older records).

(** What the agent tells the rest of the LB about its memory. *)
Definition provider_entry (m : KnownAgreements) (k : EntityKey) : option ptr := provider <$> m !! k.
Definition stored_agreement (m : KnownAgreements) (k : EntityKey) : option (Stored Agreement) :=
  agreement <$> m !! k.
Definition open_counters (m : KnownAgreements) : gmap EntityKey (option OpenCounter) := counter <$> m.
Definition agreements `{HashOrder} (m : KnownAgreements) : list (Stored Agreement) :=
  (fun x => x.2.(agreement)) <$> iter m.

(** [served.load]. *)
Definition entry_served (pl : Pool) (r : ptr) : Z :=
  match entry pl r with Some p => p.(served) | None => 0 end.

(** * Operations *)

Section agent.
Context `{Alloy} `{SerdeJson} `{UrlLib} `{HashOrder}.
Context {W : Type} `{World W} `{Memory W} (flip_after : Z).
Context {R Wr : Type} `{ChainReader R (Sys W)} `{ChainWriter Wr (Sys W)}.

(** A chain operation, or another await: the others run, on the pool and
    on the memory. *)
Definition awaits {A} (m : M (Sys W) A) : M (AS W) A := fun s =>
  let '(a, y) := m s.(sys) in
  let '(ms, w) := others_memory y.(world) in
  (a, mkAS (mkSys y.(pool) w y.(history)) (foldl memory_step s.(known) ms)).

(** Work on the pool without an await. *)
Definition on_sys {A} (m : M (Sys W) A) : M (AS W) A := fun s =>
  let '(a, y) := m s.(sys) in (a, mkAS y s.(known)).

Definition get_known : M (AS W) KnownAgreements := fun s => (s.(known), s).
Definition put_known (m : KnownAgreements) : M (AS W) unit := fun s => (tt, mkAS s.(sys) m).

Definition read_served (r : ptr) : M (AS W) Z := on_sys (read_entry r served 0).

Fixpoint for_each {A} (f : A -> M (AS W) unit) (l : list A) : M (AS W) unit :=
  match l with [] => mret tt | x :: l => _ ← f x; for_each f l end.

(** A loop that collects. *)
Fixpoint gather {A B} (f : A -> M (AS W) (option B)) (l : list A) : M (AS W) (list B) :=
  match l with
  | [] => mret []
  | x :: l => y ← f x; ys ← gather f l;
              mret (match y with Some y => y :: ys | None => ys end)
  end.

Context (ag : Agent R Wr).
Abbreviation config := (ag.(agent_config)) (only parsing).

(** The decoded rows of a page; a row that does not decode is skipped. *)
Definition decode_all {T} `{Record_ T} (page : Page) : list (Stored T) :=
  omap (fun e => result_ok (stored_decode e)) page.(entities).

Definition read_agreements (head : Z) :
    M (AS W) (result ReconcileError (list (Stored Agreement))) :=
  let q := expires_after head (query_creator ag.(agent_identity).(address)
             (query_kind KIND_AGREEMENT)) in
  n ← awaits (count ag.(reader) q);
  match n with
  | Err e => mret (Err (RcChain e))
  | Ok n =>
      if Z.ltb PAGE_LIMIT n then mret (Err (RcTooMany "agreement" n))
      else
        page ← awaits (query ag.(reader) q);
        match page with
        | Err e => mret (Err (RcChain e))
        | Ok page => mret (Ok (sort_by older (decode_all (T := Agreement) page)))
        end
  end.

(** One agreement the chain no longer has: out of memory and the pool. *)
Definition end_agreement (k : EntityKey) : M (AS W) (option Ended) :=
  m ← get_known;
  match m !! k with
  | None => mret None
  | Some over =>
      _ ← put_known (base.delete k m);
      i ← on_sys (read_entry over.(provider) id EmptyString);
      _ ← on_sys (remove_entry i);
      match over.(counter) with
      | None => mret None
      | Some c =>
          served ← read_served over.(provider);
          mret (Some (mkEnded over.(agreement) c served))
      end
  end.

Definition end_agreements (live : gset EntityKey) : M (AS W) (list Ended) :=
  m ← get_known;
  gather end_agreement (filter (fun k => k ∉ live) (iter m).*1).

(** The last write an ended agreement is owed. *)
Definition last_write (head : Z) (e : Ended) : Operation :=
  if Z.eqb e.(ended_served) 0 then OpDelete (mkDelete e.(ended_counter).(oc_key))
  else
    let a := e.(ended_agreement) in
    OpPatch (patch_record e.(ended_counter).(oc_key)
      (mkCounterRecord a.(key) a.(record).(ag_provider) Closed e.(ended_served)
         a.(record).(ag_wei_per_call) e.(ended_counter).(opened_block) (Some head))).

Definition close_ended (ended : list Ended) (head : Z) : M (AS W) unit :=
  _ ← awaits (send ag.(writer) (mkBatch (last_write head <$> ended)));
  mret tt.

Definition adopt_agreement (stored : Stored Agreement) : M (AS W) unit :=
  m ← get_known;
  let k := stored.(key) in
  match m !! k with
  | Some held => put_known (<[k := set_blocks stored.(created_at) stored.(expires_at) held]> m)
  | None =>
      if existsb (fun x => Z.eqb x.2.(agreement).(record).(ag_provider)
                             stored.(record).(ag_provider)) (iter m)
      then mret tt
      else
        now ← on_sys read_clock;
        r ← on_sys (add_entry (from_marketplace now stored.(record).(ag_provider) k
                                 stored.(record).(ag_remote_port)));
        put_known (<[k := mkLive stored r None false]> m)
  end.

Definition adopt_agreements (live : list (Stored Agreement)) : M (AS W) unit :=
  for_each adopt_agreement live.

Definition reconcile_agreements : M (AS W) (result ReconcileError Z) :=
  head ← awaits (block_number ag.(reader));
  match head with
  | Err e => mret (Err (RcChain e))
  | Ok head =>
      live ← read_agreements head;
      match live with
      | Err e => mret (Err e)
      | Ok live =>
          ended ← end_agreements (list_to_set (key <$> live));
          _ ← adopt_agreements live;
          _ ← close_ended ended head;
          mret (Ok head)
      end
  end.

(** ** Counters *)

Definition read_open_counters (head : Z) :
    M (AS W) (result ReconcileError (list (Stored CounterRecord))) :=
  let q := expires_after head (attr_str "state" "open"
             (query_creator ag.(agent_identity).(address) (query_kind KIND_COUNTER))) in
  n ← awaits (count ag.(reader) q);
  match n with
  | Err e => mret (Err (RcChain e))
  | Ok n =>
      if Z.ltb PAGE_LIMIT n then mret (Err (RcTooMany "open counter" n))
      else
        page ← awaits (query ag.(reader) q);
        match page with
        | Err e => mret (Err (RcChain e))
        | Ok page => mret (Ok (decode_all (T := CounterRecord) page))
        end
  end.

(** The count a record was closed with; [None] when it is not closed or
    no longer there. *)
Definition closed_count (c : EntityKey) : M (AS W) (result ReconcileError (option Z)) :=
  let q := query_key c (query_creator ag.(agent_identity).(address) (query_kind KIND_COUNTER)) in
  page ← awaits (query ag.(reader) q);
  match page with
  | Err e => mret (Err (RcChain e))
  | Ok page =>
      mret (match page.(entities) with
            | [] => Ok None
            | e :: _ =>
                match stored_decode (T := CounterRecord) e with
                | Ok stored =>
                    match stored.(record).(c_state) with
                    | Closed => Ok (Some stored.(record).(c_count))
                    | Open => Ok None
                    end
                | Err _ => Ok None
                end
            end)
  end.

(** Every read before memory changes. *)
Fixpoint closed_counts (missing : list (EntityKey * EntityKey)) :
    M (AS W) (result ReconcileError (list (EntityKey * Z))) :=
  match missing with
  | [] => mret (Ok [])
  | (a, c) :: missing =>
      n ← closed_count c;
      match n with
      | Err e => mret (Err e)
      | Ok n =>
          rest ← closed_counts missing;
          match rest with
          | Err e => mret (Err e)
          | Ok rest => mret (Ok (match n with Some n => (a, n) :: rest | None => rest end))
          end
      end
  end.

Definition forget_counter (x : EntityKey * Z) : M (AS W) unit :=
  let '(k, n) := x in
  m ← get_known;
  match m !! k with
  | None => mret tt
  | Some live =>
      _ ← on_sys (act flip_after live.(provider) (OnSubtract n));
      put_known (<[k := set_counter None live]> m)
  end.

Definition forget_closed_counters (open : CountersByAgreement) :
    M (AS W) (result ReconcileError unit) :=
  m ← get_known;
  let missing := omap (fun x => if decide (is_Some (open !! x.1)) then None
                                else (fun c => (x.1, c.(oc_key))) <$> x.2.(counter)) (iter m) in
  closed ← closed_counts missing;
  match closed with
  | Err e => mret (Err e)
  | Ok closed => _ ← for_each forget_counter closed; mret (Ok tt)
  end.

(** One agreement takes the open record it counts into. *)
Definition match_agreement (records : CountersByAgreement) (x : EntityKey * Live) :
    M (AS W) unit :=
  let '(k, live) := x in
  let found := records !! k in
  _ ← match live.(counter), found with
      | None, Some stored =>
          on_sys (act flip_after live.(provider) (OnSeed stored.(record).(c_count)))
      | _, _ => mret tt
      end;
  m ← get_known;
  put_known (<[k := set_counter (open_counter <$> found) live]> m).

Definition match_to_agreements (records : CountersByAgreement) :
    M (AS W) (CountersByAgreement * list (Stored CounterRecord)) :=
  m ← get_known;
  _ ← for_each (match_agreement records) (iter m);
  mret (filter (fun x => is_Some (m !! x.1)) records,
        (iter (filter (fun x => m !! x.1 = None) records)).*2).

Definition reconcile_counters (head : Z) : M (AS W) (result ReconcileError Counters) :=
  records ← read_open_counters head;
  match records with
  | Err e => mret (Err e)
  | Ok records =>
      let '(oldest, duplicates) := oldest_per_agreement records in
      forgotten ← forget_closed_counters oldest;
      match forgotten with
      | Err e => mret (Err e)
      | Ok _ =>
          x ← match_to_agreements oldest;
          mret (Ok (mkCounters x.1 duplicates x.2))
      end
  end.
End agent.
