(* ===== verification/Patches.v ===== *)
(** What the agent's writes do to the records on the chain: a write is
    told by the record it leaves, not by the attributes it sends. *)

From S2P Require Import Prelude External Concrete Pool World Records Reader Writer Config Agent.

#[local] Open Scope Z_scope.

Lemma lookup_keep names (a : gmap string AttributeValue) n :
  (keep names a : gmap string AttributeValue) !! n = if decide (n ∈ names) then a !! n else None.
Proof.
  unfold keep, collect_attributes, Attributes.
  set (l := filter (fun kv => kv.1 ∈ names) (attributes_iter a)).
  assert (forall v, (n, v) ∈ l <-> n ∈ names /\ a !! n = Some v) as Hin.
  { intros v. unfold l, attributes_iter. rewrite list_elem_of_filter, elem_of_sort_by.
    pose proof (elem_of_map_to_list a n v) as E. cbn. tauto. }
  assert (NoDup l.*1) as Hnd.
  { eapply sublist_NoDup; [|apply fmap_sublist, sublist_filter]. unfold attributes_iter.
    rewrite sort_by_perm. apply NoDup_fst_map_to_list. }
  rewrite (collect_union (A := AttributeValue)), (right_id_L ∅ (∪)) by done. case_decide as Hn.
  - destruct (a !! n) as [v|] eqn:Ev.
    + apply elem_of_list_to_map; [done|]. by apply Hin.
    + apply not_elem_of_list_to_map_1. intros ([n' v] & E & Hv)%list_elem_of_fmap.
      cbn in E. subst n'. apply Hin in Hv as [_ Hv]. cbn in *. congruence.
  - apply not_elem_of_list_to_map_1. intros ([n' v] & E & Hv)%list_elem_of_fmap.
    cbn in E. subst n'. by apply Hin in Hv as [Hv _].
Qed.

Lemma with_other name v (a : gmap string AttributeValue) n :
  n <> name -> (with_ name v a : gmap string AttributeValue) !! n = a !! n.
Proof. intros Hn. by apply (lookup_insert_ne (M := gmap string)). Qed.

Lemma with_same name v (a : gmap string AttributeValue) :
  (with_ name v a : gmap string AttributeValue) !! name = Some v.
Proof. apply (lookup_insert_eq (M := gmap string)). Qed.

(** What a patch leaves of an entity: the attributes it sets over the
    ones the entity has. *)
Definition patched_attributes (p : Patch) (a : Attributes) : Attributes := p.(set) ∪ a.

Section patches.
Context `{Alloy} `{SerdeJson}.

(** A patch of a counter record is enough, and no more than a patch:
    whatever count, price or block it changes, and whether it leaves the
    record open or closes it, the record read back afterwards is exactly
    the one the patch was made of - its agreement and its provider were
    left standing. *)
Theorem patched_counter_reads_back k c0 c cr ca up ex :
  CounterRecord_wf c ->
  c.(c_agreement) = c0.(c_agreement) -> c.(c_provider) = c0.(c_provider) ->
  (c.(c_state) = Open -> c0.(c_state) = Open) ->
  stored_decode (as_stored k cr ca up ex
    (patched_attributes (patch_record k c) (encode c0))) = Ok (mkStored k cr ca ex c).
Proof.
  intros Hwf Ea Ep Est.
  assert (patched_attributes (patch_record k c) (encode c0) = encode c) as ->.
  { apply map_eq. intros n. unfold patched_attributes. cbn [set patch_record].
    destruct c as [a p st n0 w o cl], c0 as [a0 p0 st0 n00 w0 o0 cl0]. cbn in Ea, Ep, Est. subst a0 p0.
    assert (forall names (x y : gmap string AttributeValue), (forall n, n ∉ names -> x !! n = y !! n) ->
      (forall n, n ∈ names -> is_Some (x !! n)) -> ((keep names x : gmap string AttributeValue) ∪ y) !! n = x !! n) as Hk.
    { intros names x y Hout Hin. destruct (decide (n ∈ names)) as [Hn|Hn].
      - destruct (Hin n Hn) as [v Hv]. rewrite Hv. apply lookup_union_Some_l.
        by rewrite lookup_keep, decide_True.
      - rewrite lookup_union_r by (by rewrite lookup_keep, decide_False). symmetry. by apply Hout. }
    apply Hk.
    - intros m Hm. cbn [encode CounterRecord_record]. unfold CounterRecord_encode, encode_payload.
      destruct st, st0; cbn [c_state] in *; try (by specialize (Est eq_refl));
        rewrite !(with_other PAYLOAD_ATTRIBUTE) by set_solver;
        first [done | by rewrite !(with_other "state"%string) by set_solver].
    - intros m Hm. cbn [encode CounterRecord_record]. unfold CounterRecord_encode, encode_payload.
      destruct (decide (m = PAYLOAD_ATTRIBUTE)) as [->|]; [by rewrite with_same|].
      rewrite with_other by done. destruct (decide (m = "state"%string)) as [->|]; [by rewrite with_same|].
      cbn [c_state] in Hm. destruct st; set_solver. }
  apply CounterRecord_back. done.
Qed.
End patches.

(** * Writes by their effect *)

Section effects.
Context `{Alloy} `{SerdeJson}.

(** The write makes the open counter record at [k] read as [c]: every
    open record of the same agreement and provider reads as [c] once the
    write has landed on it. *)
Definition writes_counter (k : EntityKey) (c : CounterRecord) (op : Operation) : Prop :=
  exists p, op = OpPatch p /\ p.(patch_key) = k /\
    (CounterRecord_wf c -> forall c0 cr ca up ex,
       c0.(c_agreement) = c.(c_agreement) -> c0.(c_provider) = c.(c_provider) -> c0.(c_state) = Open ->
       stored_decode (as_stored k cr ca up ex (patched_attributes p (encode c0))) =
         Ok (mkStored k cr ca ex c)).

(** The write makes a new record that reads as [c] and lives [life]. *)
Definition opens_counter (life : Z) (c : CounterRecord) (op : Operation) : Prop :=
  exists x, op = OpCreate x /\ x.(expiration) = Seconds (as_secs life) /\
    (CounterRecord_wf c -> forall k cr ca up ex,
       stored_decode (as_stored k cr ca up ex x.(create_attributes)) = Ok (mkStored k cr ca ex c)).

(** The write deletes the entity at [k]. *)
Definition deletes (k : EntityKey) (op : Operation) : Prop := op = OpDelete (mkDelete k).

Lemma patch_writes_counter k c : writes_counter k c (OpPatch (patch_record k c)).
Proof.
  exists (patch_record k c). split_and!; [done..|]. intros Hwf c0 cr ca up ex Ea Ep Est.
  by apply patched_counter_reads_back.
Qed.

Lemma create_opens_counter life c :
  opens_counter life c (OpCreate (mkCreate (encode c) (Seconds (as_secs life)))).
Proof.
  eexists. split_and!; [done..|]. intros Hwf k cr ca up ex. by apply CounterRecord_back.
Qed.
End effects.
