(* ===== verification/Mirror.v ===== *)
(** The pool mirrors the agent's memory: the marketplace members of the
    pool are exactly the providers of the agreements in memory, one
    each, at the agreement's own address, key and port. Every operation
    of the agent keeps this; the operations that touch neither - reads,
    writes, what the other tasks do - are in this file, with those of
    the reconciliation with the chain. *)

From S2P Require Import Prelude External Concrete Pool World Records Reader Writer Chain Config Agent.

#[local] Open Scope Z_scope.

(** What never changes of an entry. *)
Definition ident (pl : Pool) (r : ptr) : option (string * Source) :=
  (fun p => (p.(id), p.(source))) <$> entry pl r.

Definition same_idents (p1 p2 : Pool) : Prop :=
  p1.(members) = p2.(members) /\ p1.(next_ptr) = p2.(next_ptr) /\
  forall r, ident p1 r = ident p2 r.

#[export] Instance same_idents_equiv : Equivalence same_idents.
Proof.
  split; unfold same_idents.
  - by intros p.
  - intros p1 p2 (? & ? & ?). by split_and!.
  - intros p1 p2 p3 (? & ? & E1) (? & ? & E2). split_and!; [congruence..|].
    intros r. by rewrite E1.
Qed.

Lemma apply_event_ident flip_after e p :
  (apply_event flip_after e p).(id) = p.(id) /\ (apply_event flip_after e p).(source) = p.(source).
Proof.
  destruct e as [? ?|?|v ?| | | | | | | | | | | |]; try done; cbn;
    unfold record_health, quarantine, record_integrity; repeat case_match; done.
Qed.

Lemma update_ident flip_after r e pl :
  same_idents (update r (apply_event flip_after e) pl) pl.
Proof.
  split_and!; [done..|]. intros r'. unfold ident. rewrite entry_update.
  destruct (decide (r = r')) as [<-|]; [|done]. destruct (entry pl r) as [p|]; [|done]. cbn.
  by destruct (apply_event_ident flip_after e p) as [-> ->].
Qed.

Lemma quiet_step_ident flip_after pl x :
  quiet_step x -> same_idents (history_step flip_after pl x) pl.
Proof.
  destruct x as [| | | |[| | | |]|]; cbn; try done.
  intros _. apply update_ident.
Qed.

Lemma same_pool_idents p1 p2 : same_pool p1 p2 -> same_idents p1 p2.
Proof.
  intros E. unfold same_pool, with_cursor in E. injection E as Eh En Em Eo.
  split_and!; [done..|]. intros r. unfold ident, entry. by rewrite Eh.
Qed.

Lemma same_pool_wf p1 p2 : same_pool p1 p2 -> pool_wf p1 -> pool_wf p2.
Proof.
  intros E. unfold same_pool, with_cursor in E. injection E as Eh En Em Eo.
  intros [H1 H2 H3]. rewrite Eh, En, ?Em in *. by constructor.
Qed.

Lemma quiet_step_wf flip_after pl x : quiet_step x -> pool_wf pl -> pool_wf (history_step flip_after pl x).
Proof.
  destruct x as [| | | |[| | | |]|]; cbn; try done; auto with lb; intros _ [? ? ?]; by constructor.
Qed.

Lemma quiet_steps_ident {W} flip_after (s s' : Sys W) hs :
  steps flip_after s s' hs -> Forall quiet_step hs ->
  same_idents s'.(pool) s.(pool) /\ (pool_wf s.(pool) -> pool_wf s'.(pool)).
Proof.
  intros [_ Hp] Hq.
  assert (forall pl, same_idents (foldl (history_step flip_after) pl hs) pl /\
    (pool_wf pl -> pool_wf (foldl (history_step flip_after) pl hs))) as Hf.
  { clear Hp. induction Hq as [|x hs Hx Hq IH]; intros pl; [done|]. cbn.
    destruct (IH (history_step flip_after pl x)) as [E Hw]. split.
    - rewrite E. by apply quiet_step_ident.
    - intros Hpl. by apply Hw, quiet_step_wf. }
  destruct (Hf s.(pool)) as [E Hw]. split.
  - rewrite <- E. by apply same_pool_idents.
  - intros Hs. eapply same_pool_wf; [symmetry; exact Hp|]. by apply Hw.
Qed.

(** The invariant, over what it reads of the state. *)
Section mirror.
Context `{Alloy} {W : Type} `{Issuer W}.

Definition ident_of (k : EntityKey) (a : Agreement) : string * Source :=
  (marketplace_id a.(ag_provider), Marketplace a.(ag_provider) k a.(ag_remote_port)).

Record mirrors (w : W) (pl : Pool) (m : KnownAgreements) : Prop := {
  mi_wf : pool_wf pl;
  mi_order : in_order w;
  mi_key : forall k l, m !! k = Some l -> l.(agreement).(key) = k /\ issued w k;
  mi_address : forall k l, m !! k = Some l -> is_address l.(agreement).(record).(ag_provider);
  (** Every agreement's provider is a member, under its identity. *)
  mi_member : forall k l, m !! k = Some l ->
    l.(provider) ∈ pl.(members) /\
    ident pl l.(provider) = Some (ident_of k l.(agreement).(record));
  (** Nobody is under two agreements. *)
  mi_one : forall k1 k2 l1 l2, m !! k1 = Some l1 -> m !! k2 = Some l2 ->
    l1.(agreement).(record).(ag_provider) = l2.(agreement).(record).(ag_provider) -> k1 = k2;
  (** Every marketplace member is some agreement's. *)
  mi_held : forall r i a k p, r ∈ pl.(members) -> ident pl r = Some (i, Marketplace a k p) ->
    exists l, m !! k = Some l /\ l.(provider) = r;
  (** No static member is named like a marketplace provider. *)
  mi_static : forall r i a, r ∈ pl.(members) -> ident pl r = Some (i, Static) ->
    i <> marketplace_id a;
}.

(** What [mirrors] reads of the memory. *)
Definition same_view (m1 m2 : KnownAgreements) : Prop :=
  forall k, (fun l => (l.(agreement).(key), l.(agreement).(record), l.(provider))) <$> m1 !! k =
            (fun l => (l.(agreement).(key), l.(agreement).(record), l.(provider))) <$> m2 !! k.

#[export] Instance same_view_equiv : Equivalence same_view.
Proof. unfold same_view. split; red; intros; congruence. Qed.

Lemma same_view_Some m1 m2 k l :
  same_view m1 m2 -> m1 !! k = Some l ->
  exists l', m2 !! k = Some l' /\ l'.(agreement).(key) = l.(agreement).(key) /\
    l'.(agreement).(record) = l.(agreement).(record) /\ l'.(provider) = l.(provider).
Proof.
  intros E Hl. specialize (E k). rewrite Hl in E. cbn in E. symmetry in E.
  apply fmap_Some in E as (l' & Hl' & E). exists l'. naive_solver congruence.
Qed.

Lemma same_view_alter (f : Live -> Live) k m :
  (forall l, (f l).(agreement).(key) = l.(agreement).(key) /\
             (f l).(agreement).(record) = l.(agreement).(record) /\
             (f l).(provider) = l.(provider)) ->
  same_view (alter f k m) m.
Proof.
  intros Hf k'. rewrite lookup_alter. destruct (decide (k = k')) as [<-|]; [|done].
  destruct (m !! k) as [l|]; [|done]. cbn. destruct (Hf l) as (-> & -> & ->). done.
Qed.

Lemma same_view_insert k l l' m :
  m !! k = Some l -> l'.(agreement).(key) = l.(agreement).(key) ->
  l'.(agreement).(record) = l.(agreement).(record) -> l'.(provider) = l.(provider) ->
  same_view (<[k := l']> m) m.
Proof.
  intros Hl E1 E2 E3 k'. rewrite lookup_insert. destruct (decide (k = k')) as [<-|]; [|done].
  rewrite Hl. cbn. by rewrite E1, E2, E3.
Qed.

Lemma memory_steps_view ms m : same_view (foldl memory_step m ms) m.
Proof.
  revert m. induction ms as [|x ms IH]; intros m; [done|]. cbn. rewrite IH.
  destruct x; apply same_view_alter; by destruct l.
Qed.

(** The invariant reads nothing else. *)
Lemma mirrors_same w w' pl pl' m m' :
  mirrors w pl m -> grows w w' ->
  same_idents pl' pl -> pool_wf pl' -> same_view m' m -> mirrors w' pl' m'.
Proof.
  intros [? Ho Hk Ha Hm H1 Hh Hs] [Hw Hw2] (Em & En & Ei) Hwf Ev.
  assert (forall k l, m' !! k = Some l -> exists l0, m !! k = Some l0 /\
    l0.(agreement).(key) = l.(agreement).(key) /\
    l0.(agreement).(record) = l.(agreement).(record) /\ l0.(provider) = l.(provider)) as Hback
    by (intros k l; by apply same_view_Some).
  constructor; [done|auto|..].
  - intros k l (l0 & Hl & E1 & E2 & E3)%Hback. apply Hk in Hl as [? ?]. rewrite <- E1. auto.
  - intros k l (l0 & Hl & E1 & E2 & E3)%Hback. rewrite <- E2. eauto.
  - intros k l (l0 & Hl & E1 & E2 & E3)%Hback. rewrite Em, Ei, <- E2, <- E3. eauto.
  - intros k1 k2 l1 l2 (? & ? & ? & E1 & _)%Hback (? & ? & ? & E2 & _)%Hback.
    rewrite <- E1, <- E2. eauto.
  - intros r i a k p. rewrite Em, Ei. intros Hr (l & Hl & Ep)%(Hh _ _ _ _ _); [|done].
    symmetry in Ev. destruct (same_view_Some _ _ _ _ Ev Hl) as (l' & Hl' & _ & _ & Ep').
    exists l'. by rewrite Ep'.
  - intros r i a. rewrite Em, Ei. apply Hs.
Qed.
End mirror.

(** ** An agreement begins and ends *)

Section changes.
Context `{Alloy} `{UrlLib} {W : Type} `{Issuer W}.

Lemma ident_add p pl r :
  ident (snd (pool_add p pl)) r =
    if decide (pl.(next_ptr) = r) then Some (p.(id), p.(source)) else ident pl r.
Proof. unfold ident. rewrite pool_add_entry. by destruct (decide _). Qed.

Lemma member_not_next pl r : pool_wf pl -> r ∈ pl.(members) -> pl.(next_ptr) <> r.
Proof.
  intros [Hf Hm _] Hr. rewrite Forall_forall in Hm. specialize (Hf _ (Hm _ Hr)). lia.
Qed.

Lemma mirrors_add w pl m now k (stored : Stored Agreement) :
  let a := stored.(record) in
  mirrors w pl m -> m !! k = None -> stored.(key) = k -> issued w k ->
  is_address a.(ag_provider) ->
  (forall k' l, m !! k' = Some l -> l.(agreement).(record).(ag_provider) <> a.(ag_provider)) ->
  let '(r, pl') := pool_add (from_marketplace now a.(ag_provider) k a.(ag_remote_port)) pl in
  mirrors w pl' (<[k := mkLive stored r None false]> m).
Proof.
  intros a [Hwf Ho Hk Ha Hm Hone Hh Hs] Hnew Hkey Hi Had Hother.
  destruct (pool_add _ pl) as [r pl'] eqn:E.
  assert (r = pl.(next_ptr)) as -> by by injection E.
  assert (pl'.(members) = pl.(members) ++ [pl.(next_ptr)]) as Emem by by injection E as <-.
  assert (forall r', ident pl' r' = if decide (pl.(next_ptr) = r')
    then Some (ident_of k a) else ident pl r') as Eid.
  { intros r'. apply (f_equal snd) in E. cbn [snd] in E. subst pl'. by rewrite ident_add. }
  assert (forall r', r' ∈ pl.(members) -> ident pl' r' = ident pl r') as Eold.
  { intros r' Hr'. rewrite Eid. rewrite decide_False; [done|]. by apply member_not_next. }
  constructor.
  - apply (f_equal snd) in E. cbn in E. subst pl'. by apply pool_add_wf.
  - done.
  - intros k' l. rewrite lookup_insert_Some. intros [[<- <-]|[_ Hl]]; [done|eauto].
  - intros k' l. rewrite lookup_insert_Some. intros [[<- <-]|[_ Hl]]; [done|eauto].
  - intros k' l. rewrite Emem, elem_of_app, list_elem_of_singleton, lookup_insert_Some.
    intros [[<- <-]|[_ Hl]].
    + cbn [provider agreement]. rewrite Eid, decide_True by done. auto.
    + destruct (Hm _ _ Hl) as [Hin Hid]. rewrite Eold by done. auto.
  - intros k1 k2 l1 l2. rewrite !lookup_insert_Some.
    intros [[<- <-]|[_ Hl1]] [[<- <-]|[_ Hl2]]; cbn; [done|..|eauto]; intros E'; exfalso.
    + by apply (Hother _ _ Hl2).
    + by apply (Hother _ _ Hl1).
  - intros r' i a' k' p. rewrite Emem, elem_of_app, list_elem_of_singleton. intros [Hr'| ->].
    + rewrite Eold by done. intros Hid. destruct (Hh _ _ _ _ _ Hr' Hid) as (l & Hl & Ep).
      exists l. split; [|done]. rewrite lookup_insert_ne; [done|]. intros <-. congruence.
    + rewrite Eid, decide_True by done. intros [= _ _ <- _]. eexists.
      by rewrite lookup_insert_eq.
  - intros r' i a'. rewrite Emem, elem_of_app, list_elem_of_singleton. intros [Hr'| ->].
    + rewrite Eold by done. eauto.
    + by rewrite Eid, decide_True.
Qed.

Lemma has_id_ident pl i r : has_id pl i r = true <-> fst <$> ident pl r = Some i.
Proof.
  unfold has_id, test_entry, ident. destruct (entry pl r) as [p|]; cbn; [|naive_solver].
  rewrite bool_decide_eq_true. naive_solver.
Qed.

(** Removing by the id takes out that agreement's entry and no other. *)
Lemma mirrors_end w pl m k l :
  mirrors w pl m -> m !! k = Some l ->
  let '(r, pl') := pool_remove (marketplace_id l.(agreement).(record).(ag_provider)) pl in
  mirrors w pl' (base.delete k m) /\ r = Some l.(provider) /\
  (forall r', r' ∈ pl'.(members) <-> r' ∈ pl.(members) /\ r' <> l.(provider)) /\
  (forall r', entry pl' r' = entry pl r').
Proof.
  intros Hmi Hl. pose proof Hmi as [Hwf Ho Hk Ha Hm Hone Hh Hs].
  destruct (Hm _ _ Hl) as [Hin Hid]. set (a := l.(agreement).(record).(ag_provider)) in *.
  assert (forall r, r ∈ pl.(members) -> has_id pl (marketplace_id a) r = true -> r = l.(provider)) as Huniq.
  { intros r Hr Hhas. apply has_id_ident in Hhas.
    destruct (ident pl r) as [[i [|a' k' p']]|] eqn:Ei; [..|done]; injection Hhas as ->.
    - by apply (Hs r _ a) in Ei.
    - destruct (Hh _ _ _ _ _ Hr Ei) as (l' & Hl' & <-).
      destruct (Hm _ _ Hl') as [_ Hid']. rewrite Ei in Hid'. injection Hid' as Ea _ _.
      assert (k' = k) as ->; [|congruence].
      eapply Hone; [done..|]. symmetry. apply addr_hex_inj; eauto. }
  pose proof (pool_remove_wf (marketplace_id a) pl Hwf) as Hwf'.
  unfold pool_remove in *. pose proof (remove_first_spec (has_id pl (marketplace_id a)) pl.(members)) as Hsp.
  destruct (remove_first _ _) as [[r|] ms].
  2:{ destruct Hsp as [_ Hno]. rewrite Forall_forall in Hno. specialize (Hno _ Hin).
      assert (has_id pl (marketplace_id a) l.(provider) = true) as E
        by (apply has_id_ident; by rewrite Hid). congruence. }
  destruct Hsp as (l1 & l2 & Emem & -> & Hr & _).
  assert (r = l.(provider)) as ->.
  { apply Huniq; [|done]. rewrite Emem. set_solver. }
  assert (forall r', r' ∈ l1 ++ l2 <-> r' ∈ pl.(members) /\ r' <> l.(provider)) as Hms.
  { intros r'. destruct Hwf as [_ _ Hnd]. rewrite Emem in Hnd |- *.
    rewrite !elem_of_app, elem_of_cons. apply NoDup_app in Hnd as (_ & Hd & Hnd).
    apply NoDup_cons in Hnd as [Hr2 _]. split; [|naive_solver].
    intros Hx. split; [tauto|]. intros ->. destruct Hx as [Hx|Hx]; [|done].
    apply (Hd _ Hx). left. }
  split_and!; [|done..]. constructor; cbn [snd with_members members] in *.
  - done.
  - done.
  - intros k' l' [_ Hl']%lookup_delete_Some. eauto.
  - intros k' l' [_ Hl']%lookup_delete_Some. eauto.
  - intros k' l' [Hne Hl']%lookup_delete_Some. rewrite Hms.
    destruct (Hm _ _ Hl') as [Hin' Hid']. split_and!; [done| |done].
    intros E. rewrite E, Hid in Hid'. injection Hid' as _ _ ? _. congruence.
  - intros k1 k2 l1' l2' [_ Hl1]%lookup_delete_Some [_ Hl2]%lookup_delete_Some. eauto.
  - intros r' i a' k' p [Hr' Hne]%Hms Hid'.
    destruct (Hh _ _ _ _ _ Hr' Hid') as (l' & Hl' & <-). exists l'. split; [|done].
    apply lookup_delete_Some. split; [|done]. intros <-. congruence.
  - intros r' i a' [Hr' _]%Hms. eauto.
Qed.
End changes.

(** ** Drift: what happens to the agent's state while it only reads and
    writes the chain

    The others act on the pool, the admissions learn expiries and end;
    the agent itself changes nothing. *)

Class QuietMemory (W : Type) `{Issuer W} `{Memory W} : Prop := {
  others_memory_grows : forall w, grows w (others_memory w).2;
}.

Section drift.
Context `{Alloy} {W : Type} `{World W} `{Issuer W} `{Memory W} `{Quiet_memory : !QuietMemory W} (flip_after : Z).

Record drift (s s' : AS W) : Prop := {
  drift_pool : exists hs, steps flip_after s.(sys) s'.(sys) hs /\ Forall quiet_step hs;
  drift_memory : exists ms, s'.(known) = foldl memory_step s.(known) ms;
  drift_grows : grows s.(sys).(world) s'.(sys).(world);
}.

#[export] Instance drift_preorder : PreOrder drift.
Proof.
  split.
  - intros s. split; [|by exists []|done]. exists []. split; [by apply steps_refl | done].
  - intros s1 s2 s3 [(h1 & S1 & Q1) (m1 & M1) I1] [(h2 & S2 & Q2) (m2 & M2) I2]. split.
    + exists (h1 ++ h2). split; [by eapply steps_trans | by apply Forall_app].
    + exists (m1 ++ m2). by rewrite foldl_app, <- M1.
    + by etrans.
Qed.

Definition drifts {A} (m : M (AS W) A) : Prop := forall s, drift s (m s).2.

Lemma drifts_ret {A} (a : A) : drifts (mret a).
Proof. intros s. reflexivity. Qed.

Lemma drifts_bind {A B} (m : M (AS W) A) (f : A -> M (AS W) B) :
  drifts m -> (forall a, drifts (f a)) -> drifts (m ≫= f).
Proof.
  intros Hm Hf s. specialize (Hm s). unfold mbind, M_bind. destruct (m s) as [a s1].
  etrans; [exact Hm | apply Hf].
Qed.

Lemma drifts_fmap {A B} (f : A -> B) (m : M (AS W) A) : drifts m -> drifts (f <$> m).
Proof. intros Hm s. specialize (Hm s). unfold fmap, M_fmap. by destruct (m s). Qed.

Lemma drifts_awaits {A} (m : M (Sys W) A) : calm flip_after m -> drifts (awaits m).
Proof using Type*.
  intros [Hq Hk] s. unfold awaits. destruct (Hq s.(sys)) as (hs & [Sh Sp] & Hhs).
  specialize (Hk s.(sys)). destruct (m s.(sys)) as [a y]. cbn in *.
  pose proof (others_memory_grows y.(world)) as Ho.
  destruct (others_memory y.(world)) as [ms w]. split; cbn;
    [by exists hs | by eexists | by etrans].
Qed.

Lemma drifts_on_sys {A} (m : M (Sys W) A) : calm flip_after m -> drifts (on_sys m).
Proof.
  intros [Hq Hk] s. unfold on_sys. destruct (Hq s.(sys)) as (hs & [Sh Sp] & Hhs).
  specialize (Hk s.(sys)). destruct (m s.(sys)) as [a y]. cbn in *. split; cbn; [by exists hs | by exists [] | done].
Qed.

Lemma drifts_pool : drifts (on_sys (fun y : Sys W => (y.(pool), y))).
Proof. intros s. by destruct s. Qed.

Lemma drifts_known : drifts get_known.
Proof. intros s. reflexivity. Qed.

Definition agent_inv (s : AS W) : Prop := mirrors s.(sys).(world) s.(sys).(pool) s.(known).

Lemma drift_inv s s' : drift s s' -> agent_inv s -> agent_inv s'.
Proof.
  intros [(hs & Hs & Hq) (ms & Hm) Hi] Hinv. apply (quiet_steps_ident _ _ _ _ Hs) in Hq as [Hid Hwf].
  eapply mirrors_same; [exact Hinv | done | done | apply Hwf, Hinv |]. rewrite Hm.
  apply memory_steps_view.
Qed.

Lemma drift_view s s' : drift s s' -> same_view s'.(known) s.(known).
Proof. intros [_ (ms & ->) _]. apply memory_steps_view. Qed.

(** The view of an agreement the others do not touch. *)
Definition core (l : Live) : EntityKey * Agreement * ptr * option OpenCounter :=
  (l.(agreement).(key), l.(agreement).(record), l.(provider), l.(counter)).

Lemma drift_core s s' k : drift s s' -> core <$> s'.(known) !! k = core <$> s.(known) !! k.
Proof.
  intros [_ (ms & ->) _]. generalize (known s) as m.
  induction ms as [|x ms IH]; intros m; [done|]. cbn. rewrite IH.
  destruct x as [k' e|k' b]; cbn; rewrite lookup_alter; case_decide; try done; subst;
    by destruct (m !! k) as [[]|].
Qed.

(** A computation keeps the invariant. *)
Definition keeps_inv {A} (m : M (AS W) A) : Prop := triple agent_inv m (fun _ => agent_inv).

Lemma keeps_inv_drifts {A} (m : M (AS W) A) : drifts m -> keeps_inv m.
Proof. intros Hm s Hs. eapply drift_inv; [apply Hm | exact Hs]. Qed.

Lemma keeps_inv_ret {A} (a : A) : keeps_inv (mret a).
Proof. by intros s Hs. Qed.

Lemma keeps_inv_bind {A B} (m : M (AS W) A) (f : A -> M (AS W) B) :
  keeps_inv m -> (forall a, keeps_inv (f a)) -> keeps_inv (m ≫= f).
Proof. intros Hm Hf. by eapply triple_bind. Qed.

Lemma keeps_inv_for_each {A} (f : A -> M (AS W) unit) l :
  (forall x, keeps_inv (f x)) -> keeps_inv (for_each f l).
Proof.
  intros Hf. induction l as [|x l IH]; [apply keeps_inv_ret|]. by apply keeps_inv_bind.
Qed.

Lemma keeps_inv_gather {A B} (f : A -> M (AS W) (option B)) l :
  (forall x, keeps_inv (f x)) -> keeps_inv (gather f l).
Proof.
  intros Hf. induction l as [|x l IH]; [apply keeps_inv_ret|].
  apply keeps_inv_bind; [done|]. intros y. apply keeps_inv_bind; [done|]. intros ys.
  apply keeps_inv_ret.
Qed.

(** This agent's change to an entry's counts. *)
Lemma keeps_inv_act r e : keeps_inv (on_sys (act flip_after r e)).
Proof.
  intros s Hs. eapply mirrors_same; [exact Hs | done | apply update_ident | | done].
  apply update_wf, Hs.
Qed.
End drift.

#[export] Hint Resolve drifts_ret drifts_bind drifts_fmap drifts_awaits drifts_on_sys drifts_pool
  drifts_known keeps_inv_ret keeps_inv_bind keeps_inv_for_each keeps_inv_gather keeps_inv_act : lb.
