(* ===== verification/Reconcile.v ===== *)
(** The agent's memory against the chain, [reconcile_agreements] of
    [crates/lb/src/marketplace/agent.rs]: what a poll drops, what it
    adopts and what it leaves alone. *)

From S2P Require Import Prelude External Concrete Pool World Records Reader Writer Chain Config Agent Patches Mirror.

#[local] Open Scope Z_scope.

(** Splits a computation at its binds and matches. *)
Ltac drift_steps :=
  repeat first
    [ apply drifts_ret
    | apply drifts_bind; [|intros ?]
    | apply drifts_fmap
    | apply drifts_pool
    | apply drifts_known
    | solve [apply drifts_awaits; auto with lb]
    | solve [apply drifts_on_sys; auto with lb]
    | case_match ].

Section rows.
Context `{Alloy} `{SerdeJson} `{UrlLib} `{HashOrder}.
Context {W : Type} `{World W} `{Issuer W} `{Memory W} `{Quiet_memory : !QuietMemory W}.
Context (flip_after : Z).
Context {R Wr : Type} `{ChainReader R (Sys W)} `{ChainWriter Wr (Sys W)}.
Context `{Chain_laws : !Chain R Wr W flip_after}.
Context (ag : Agent R Wr).

Lemma drifts_read_agreements head : drifts flip_after (read_agreements ag head).
Proof using Type*. unfold read_agreements. drift_steps. Qed.

Lemma drifts_close_ended ended head : drifts flip_after (close_ended ag ended head).
Proof using Type*. unfold close_ended. drift_steps. Qed.

(** ** What was read *)

Lemma decode_all_keys {T} `{Record_ T} page :
  key <$> decode_all (T := T) page `sublist_of` ent_key <$> page.(entities).
Proof.
  unfold decode_all. induction (entities page) as [|e l IH]; cbn; [constructor|].
  destruct (stored_decode e) as [st|] eqn:E; cbn; [|by constructor].
  apply stored_decode_Ok in E as (_ & _ & _ & <- & _). by constructor.
Qed.

Lemma decode_all_elem {T} `{Record_ T} page (st : Stored T) :
  st ∈ decode_all page <-> exists e, e ∈ page.(entities) /\ stored_decode e = Ok st.
Proof.
  unfold decode_all. rewrite list_elem_of_omap. split; intros (e & He & E); exists e;
    (split; [done|]); destruct (stored_decode e); by simplify_eq/=.
Qed.

(** The rows a reconcile works on: distinct keys, all given out. *)
Definition rows_ok (w : W) (live : list (Stored Agreement)) : Prop :=
  NoDup (key <$> live) /\
  Forall (fun st => issued w st.(key) /\ is_address st.(record).(ag_provider)) live.

Lemma read_agreements_rows head s live :
  in_order s.(sys).(world) -> (read_agreements ag head s).1 = Ok live ->
  rows_ok (read_agreements ag head s).2.(sys).(world) live /\
  exists page, live = sort_by older (decode_all (T := Agreement) page).
Proof using Type*.
  intros Hord. unfold read_agreements. cbv zeta. unfold mbind, M_bind.
  pose proof (drifts_awaits flip_after (count ag.(reader) (expires_after head (query_creator
    ag.(agent_identity).(address) (query_kind KIND_AGREEMENT)))) (calm_count _ _) s) as D.
  destruct (awaits (count _ _) s) as [[n|e] s1]; [|done].
  apply drift_grows in D. cbn [snd] in D. apply D in Hord.
  destruct (Z.ltb PAGE_LIMIT n); [done|].
  set (q := expires_after _ _). unfold awaits.
  pose proof (rows_issued ag.(reader) q s1.(sys)) as Hrows.
  destruct (query ag.(reader) q s1.(sys)) as [[page|e] y] eqn:Eq;
    pose proof (others_memory_grows y.(world)) as Ho;
    destruct (others_memory _) as [ms w]; [|done]. cbn. intros [= <-].
  destruct (Hrows page Hord eq_refl) as [Hnd Hall]. cbn in *. split; [|by eexists]. split.
  - rewrite sort_by_perm. eapply sublist_NoDup; [exact Hnd|]. apply decode_all_keys.
  - apply Forall_forall. intros st (e & He & E)%elem_of_sort_by%decode_all_elem.
    rewrite Forall_forall in Hall. destruct (Hall e He) as [Hi _].
    pose proof (stored_agreement_address _ _ E). apply stored_decode_Ok in E as (_ & _ & _ & -> & _).
    split; [by apply Ho | done].
Qed.
End rows.

(** ** What is over *)

Section ends.
Context `{Alloy} `{HashOrder} {W : Type} `{World W} `{Issuer W} `{Memory W}.

(** What [end_agreement] answers for an agreement in memory. *)
Definition ended_of (s : AS W) (k : EntityKey) : option Ended :=
  l ← s.(known) !! k; c ← l.(counter);
  Some (mkEnded l.(agreement) c (entry_served s.(sys).(pool) l.(provider))).

(** Out of the pool: the entries of the agreements at [ks]. *)
Definition left_pool (s s' : AS W) (ks : list EntityKey) : Prop :=
  forall r, r ∈ s'.(sys).(pool).(members) <->
    r ∈ s.(sys).(pool).(members) /\
    (forall k l, k ∈ ks -> s.(known) !! k = Some l -> r <> l.(provider)).

Record ends (s s' : AS W) (ks : list EntityKey) : Prop := {
  ends_known : forall k, s'.(known) !! k = if decide (k ∈ ks) then None else s.(known) !! k;
  ends_members : left_pool s s' ks;
  ends_entries : forall r, entry s'.(sys).(pool) r = entry s.(sys).(pool) r;
  ends_world : s'.(sys).(world) = s.(sys).(world);
  ends_inv : agent_inv s';
}.

Lemma end_agreement_ends k s :
  agent_inv s -> is_Some (s.(known) !! k) ->
  (end_agreement k s).1 = ended_of s k /\ ends s (end_agreement k s).2 [k].
Proof.
  intros Hinv [l Hl]. unfold end_agreement, get_known, mbind, M_bind. cbn [fst snd]. rewrite Hl.
  destruct (mi_member _ _ _ Hinv _ _ Hl) as [Hin Hid].
  unfold ident in Hid. apply fmap_Some in Hid as (p & Hp & Eid). injection Eid as Eid Esrc.
  unfold put_known, on_sys, read_entry, remove_entry. cbn [sys known pool fst snd].
  rewrite Hp, <- Eid. cbn [pool].
  pose proof (mirrors_end _ _ _ _ _ Hinv Hl) as Hend.
  destruct (pool_remove _ _) as [removed pl] eqn:Erm.
  destruct Hend as (Hmi & -> & Hms & Hent).
  assert (forall (st : AS W), st.(known) = base.delete k s.(known) -> st.(sys).(pool) = pl ->
    st.(sys).(world) = s.(sys).(world) -> ends s st [k]) as Hends.
  { intros [[pl' w' h'] m'] E1 E2 E3. cbn in E1, E2, E3. subst. constructor; cbn; [|..|done].
    - intros k'. rewrite lookup_delete.
      destruct (decide (k = k')) as [<-|]; case_decide; set_solver.
    - intros r. cbn. rewrite Hms. split; intros [Hr Hr2]; (split; [done|]).
      + intros k' l' ->%list_elem_of_singleton Hl'. congruence.
      + apply (Hr2 k l); [set_solver|done].
    - done.
    - done. }
  unfold ended_of. rewrite Hl. cbn [mbind option_bind].
  destruct (counter l) as [c|] eqn:Ec; cbn.
  - unfold mbind, M_bind, read_served, on_sys, read_entry. cbn. split; [|by apply Hends].
    unfold entry_served. by rewrite Hent.
  - split; [done|]. by apply Hends.
Qed.

Lemma ends_trans s1 s2 s3 ks1 ks2 :
  ends s1 s2 ks1 -> ends s2 s3 ks2 -> ends s1 s3 (ks1 ++ ks2).
Proof.
  intros [K1 M1 E1 W1 I1] [K2 M2 E2 W2 I2]. constructor; [|..|congruence|done].
  - intros k. rewrite K2, K1. repeat case_decide; set_solver.
  - intros r. unfold left_pool in *. rewrite M2, M1. split.
    + intros [[Hr H1r] H2r]. split; [done|]. intros k l [Hk|Hk]%elem_of_app Hl; [by eapply H1r|].
      destruct (decide (k ∈ ks1)) as [Hk1|Hk1]; [by eapply H1r|].
      eapply H2r; [exact Hk|]. rewrite K1. by rewrite decide_False.
    + intros [Hr Hall]. split; [split; [done|]|].
      * intros k l Hk. apply Hall. set_solver.
      * intros k l Hk. rewrite K1. case_decide; [done|]. apply Hall. set_solver.
  - intros r. by rewrite E2.
Qed.

Lemma gather_ends ks s :
  NoDup ks -> agent_inv s -> Forall (fun k => is_Some (s.(known) !! k)) ks ->
  (gather end_agreement ks s).1 = omap (ended_of s) ks /\
  ends s (gather end_agreement ks s).2 ks.
Proof.
  revert s. induction ks as [|k ks IH]; intros s Hnd Hinv Hks.
  - split; [done|]. cbn. constructor; try done. split; [|by intros []]. intros Hr.
    split; [done|]. intros k l Hk. by apply elem_of_nil in Hk.
  - apply NoDup_cons in Hnd as [Hk Hnd]. apply Forall_cons in Hks as [Hsome Hks].
    cbn [gather]. unfold mbind, M_bind.
    destruct (end_agreement_ends k s Hinv Hsome) as [E1 He].
    destruct (end_agreement k s) as [y s1]. cbn [fst snd] in *. subst y.
    destruct (IH s1 Hnd) as [E2 He2].
    { apply He. }
    { apply Forall_forall. intros k' Hk'. rewrite Forall_forall in Hks.
      rewrite (ends_known _ _ _ He), decide_False by set_solver. by apply Hks. }
    destruct (gather _ ks s1) as [ys s2]. cbn in *. subst ys.
    split; [|by eapply (ends_trans s s1 s2 [k] ks)].
    assert (omap (ended_of s1) ks = omap (ended_of s) ks) as ->.
    { clear -He Hk. induction ks as [|k' ks IH]; [done|]. cbn.
      rewrite IH by set_solver. assert (ended_of s1 k' = ended_of s k') as ->; [|done].
      unfold ended_of. rewrite (ends_known _ _ _ He), decide_False by set_solver.
      unfold entry_served. destruct (known s !! k') as [l|]; [|done]. cbn.
      by rewrite (ends_entries _ _ _ He). }
    by destruct (ended_of s k).
Qed.
End ends.

(** ** What is new *)

Section adopts.
Context `{Alloy} `{UrlLib} `{HashOrder} {W : Type} `{World W} `{Issuer W} `{Memory W}.

Definition provider_of (l : Live) : Address := l.(agreement).(record).(ag_provider).

Definition under_agreement (m : KnownAgreements) (a : Address) : Prop :=
  exists k l, m !! k = Some l /\ provider_of l = a.

(** The row at [k], if the chain showed one. *)
Definition row_at (live : list (Stored Agreement)) (k : EntityKey) : option (Stored Agreement) :=
  List.find (fun st => Z.eqb st.(key) k) live.

Definition updated (live : list (Stored Agreement)) (k : EntityKey) (l : Live) : Live :=
  match row_at live k with
  | Some st => set_blocks st.(created_at) st.(expires_at) l
  | None => l
  end.

Record adopts (s s' : AS W) (live : list (Stored Agreement)) : Prop := {
  (** A held agreement takes its blocks from the chain. *)
  adopts_held : forall k l, s.(known) !! k = Some l -> s'.(known) !! k = Some (updated live k l);
  (** What is new is the first row of a provider without agreement. *)
  adopts_new : forall k l, s.(known) !! k = None -> s'.(known) !! k = Some l ->
    exists live1 live2, live = live1 ++ l.(agreement) :: live2 /\
      l.(agreement).(key) = k /\ l.(counter) = None /\ l.(admission_task) = false /\
      ~ under_agreement s.(known) (provider_of l) /\
      Forall (fun st => st.(record).(ag_provider) = provider_of l ->
                        is_Some (s.(known) !! st.(key))) live1;
  (** No provider of the chain is left out. *)
  adopts_all : forall st, st ∈ live ->
    is_Some (s'.(known) !! st.(key)) \/ under_agreement s'.(known) st.(record).(ag_provider);
  adopts_members : forall r, r ∈ s.(sys).(pool).(members) -> r ∈ s'.(sys).(pool).(members);
  adopts_entries : forall r, is_Some (entry s.(sys).(pool) r) ->
    entry s'.(sys).(pool) r = entry s.(sys).(pool) r;
  adopts_grows : grows s.(sys).(world) s'.(sys).(world);
  adopts_inv : agent_inv s';
}.

Lemma row_at_other st live k : st.(key) <> k -> row_at (st :: live) k = row_at live k.
Proof. intros Hne. unfold row_at. cbn. by rewrite (proj2 (Z.eqb_neq _ _)). Qed.

Lemma row_at_here st live : row_at (st :: live) st.(key) = Some st.
Proof. unfold row_at. cbn. by rewrite Z.eqb_refl. Qed.

Lemma row_at_None live k : k ∉ key <$> live -> row_at live k = None.
Proof.
  induction live as [|st live IH]; [done|]. rewrite fmap_cons, not_elem_of_cons. intros [Hne Hk].
  rewrite row_at_other by done. by apply IH.
Qed.

Lemma row_at_None_inv live k : row_at live k = None -> k ∉ key <$> live.
Proof.
  unfold row_at. intros Hf (st & -> & Hin)%list_elem_of_fmap.
  eapply List.find_none in Hf; [|by apply list_elem_of_In]. by rewrite Z.eqb_refl in Hf.
Qed.

Lemma under_agreement_mono (s s' : AS W) live a :
  (forall k l, s.(known) !! k = Some l -> s'.(known) !! k = Some (updated live k l)) ->
  under_agreement s.(known) a -> under_agreement s'.(known) a.
Proof.
  intros Hk (k & l & Hl & <-). exists k, (updated live k l). split; [by apply Hk|].
  unfold updated. by destruct (row_at live k).
Qed.

(** One row's step composes with the rest. *)
Lemma adopts_cons st live s s1 s2 :
  NoDup (key <$> st :: live) -> adopts s1 s2 live ->
  grows s.(sys).(world) s1.(sys).(world) ->
  (forall r, r ∈ s.(sys).(pool).(members) -> r ∈ s1.(sys).(pool).(members)) ->
  (forall r, is_Some (entry s.(sys).(pool) r) -> entry s1.(sys).(pool) r = entry s.(sys).(pool) r) ->
  match s.(known) !! st.(key) with
  | Some held => s1.(known) = <[st.(key) := set_blocks st.(created_at) st.(expires_at) held]> s.(known)
  | None =>
      (under_agreement s.(known) st.(record).(ag_provider) /\ s1.(known) = s.(known)) \/
      (~ under_agreement s.(known) st.(record).(ag_provider) /\
       exists r, s1.(known) = <[st.(key) := mkLive st r None false]> s.(known))
  end ->
  adopts s s2 (st :: live).
Proof.
  intros Hnd [A1 A2 A3 A4 A5 A6 A7] Hi Hm He Hcase.
  apply NoDup_cons in Hnd as [Hst Hnd].
  pose proof (row_at_None live _ Hst) as Hrow.
  (* what this row does not name is as before *)
  assert (forall k, k <> st.(key) -> s1.(known) !! k = s.(known) !! k) as Hother.
  { intros k Hne. destruct (known s !! key st) as [held|].
    - rewrite Hcase. by rewrite lookup_insert_ne.
    - destruct Hcase as [[_ ->]|[_ [r ->]]]; [done|]. by rewrite lookup_insert_ne. }
  assert (forall k l, s.(known) !! k = Some l -> s2.(known) !! k = Some (updated (st :: live) k l)) as Hheld.
  { intros k l Hl. destruct (decide (k = st.(key))) as [->|Hne].
    - rewrite Hl in Hcase. unfold updated. rewrite row_at_here.
      rewrite (A1 _ (set_blocks st.(created_at) st.(expires_at) l)).
      + unfold updated. by rewrite Hrow.
      + rewrite Hcase. apply lookup_insert_eq.
    - unfold updated. rewrite row_at_other by done. apply A1. by rewrite Hother. }
  constructor; [exact Hheld | ..].
  - intros k l Hnone Hl2. destruct (s1.(known) !! k) as [l1|] eqn:E1.
    + assert (k = st.(key)) as ->.
      { destruct (decide (k = st.(key))); [done|]. rewrite Hother in E1 by done. congruence. }
      rewrite Hnone in Hcase. destruct Hcase as [[_ E]|[Hno [r E]]]; [congruence|].
      rewrite E, lookup_insert_eq in E1. injection E1 as <-.
      rewrite (A1 _ (mkLive st r None false)) in Hl2 by (rewrite E; apply lookup_insert_eq).
      unfold updated in Hl2. rewrite Hrow in Hl2. injection Hl2 as <-.
      exists [], live. by split_and!.
    + destruct (A2 k l E1 Hl2) as (live1 & live2 & -> & Ekey & Ec & Et & Hno & Hall).
      exists (st :: live1), live2. split_and!; try done.
      * intros (k' & l' & Hl' & Ep). apply Hno. destruct (decide (k' = st.(key))) as [->|Hne].
        -- rewrite Hl' in Hcase. exists st.(key), (set_blocks st.(created_at) st.(expires_at) l').
           split; [rewrite Hcase; apply lookup_insert_eq | done].
        -- exists k', l'. by rewrite Hother.
      * constructor.
        -- intros Ep. destruct (known s !! key st) as [held|] eqn:Ek; [done|]. exfalso. apply Hno.
           destruct Hcase as [[Hu E]|[_ [r E]]]; rewrite E; [by rewrite <- Ep|].
           exists st.(key), (mkLive st r None false). split; [apply lookup_insert_eq|done].
        -- eapply Forall_impl; [apply Forall_and; split; [exact Hall|]|].
           { apply Forall_forall. intros st' Hst'. exact (conj Hst' I). }
           intros st' [Hp [Hin _]] Ep. specialize (Hp Ep).
           rewrite Hother in Hp; [done|]. intros E. apply Hst. rewrite <- E.
           apply list_elem_of_fmap_2. set_solver.
  - intros st' [->|Hst']%elem_of_cons; [|by apply A3].
    destruct (known s !! key st) as [held|] eqn:Ek.
    + left. rewrite (Hheld _ _ Ek). done.
    + destruct Hcase as [[Hu _]|[_ [r E]]].
      * right. by eapply under_agreement_mono.
      * left. rewrite (A1 _ (mkLive st r None false)) by (rewrite E; apply lookup_insert_eq). done.
  - auto.
  - intros r Hr. rewrite A5 by (by rewrite He). by apply He.
  - by etrans.
  - done.
Qed.

Context (keeps_clock : keeps (read_clock (W := W))).

Lemma taken_iff (m : KnownAgreements) a :
  existsb (fun x => Z.eqb x.2.(agreement).(record).(ag_provider) a) (iter m) = true <->
  under_agreement m a.
Proof.
  rewrite existsb_exists. split.
  - intros ([k l] & Hin & E%Z.eqb_eq). exists k, l. split; [|done].
    apply elem_of_map_to_list. rewrite <- iter_perm. by apply list_elem_of_In.
  - intros (k & l & Hl & <-). exists (k, l). rewrite <- list_elem_of_In, iter_perm.
    split; [by apply elem_of_map_to_list | apply Z.eqb_refl].
Qed.

(** One row: held, one too many, or new. *)
Lemma adopt_agreement_cases st s :
  agent_inv s -> issued s.(sys).(world) st.(key) -> is_address st.(record).(ag_provider) ->
  let s' := (adopt_agreement st s).2 in
  agent_inv s' /\ grows s.(sys).(world) s'.(sys).(world) /\
  (forall r, r ∈ s.(sys).(pool).(members) -> r ∈ s'.(sys).(pool).(members)) /\
  (forall r, is_Some (entry s.(sys).(pool) r) -> entry s'.(sys).(pool) r = entry s.(sys).(pool) r) /\
  match s.(known) !! st.(key) with
  | Some held => s'.(known) = <[st.(key) := set_blocks st.(created_at) st.(expires_at) held]> s.(known)
  | None =>
      (under_agreement s.(known) st.(record).(ag_provider) /\ s'.(known) = s.(known)) \/
      (~ under_agreement s.(known) st.(record).(ag_provider) /\
       exists r, s'.(known) = <[st.(key) := mkLive st r None false]> s.(known))
  end.
Proof using keeps_clock.
  intros Hinv Hi Ha. unfold adopt_agreement, get_known, put_known, mbind, M_bind. cbn [fst snd].
  destruct (s.(known) !! st.(key)) as [held|] eqn:Ek; cbn [fst snd sys known].
  - split_and!; try done. eapply mirrors_same; [exact Hinv | done | done | apply Hinv |].
    by eapply same_view_insert.
  - pose proof (taken_iff s.(known) st.(record).(ag_provider)) as Ht.
    destruct (existsb _ _) eqn:Ex; cbn [fst snd].
    { split_and!; try done. left. split; [by apply Ht | done]. }
    assert (~ under_agreement (known s) (ag_provider (record st))) as Hno
      by (intros Hu; apply Ht in Hu; congruence).
    pose proof (keeps_clock s.(sys)) as Hkeep. unfold on_sys, read_clock in *.
    destruct (clock (world (sys s))) as [now w]. cbn [fst snd pool history sys known] in *.
    unfold add_entry. cbn [pool history sys known].
    pose proof (mirrors_add w s.(sys).(pool) s.(known) now st.(key) st) as Hadd.
    cbv zeta in Hadd.
    pose proof (pool_add_entry (from_marketplace now (ag_provider (record st)) (key st)
      (ag_remote_port (record st))) s.(sys).(pool)) as Hent.
    assert (members (snd (pool_add (from_marketplace now (ag_provider (record st)) (key st)
      (ag_remote_port (record st))) s.(sys).(pool))) = members (pool (sys s)) ++ [next_ptr (pool (sys s))])
      as Emem by done.
    destruct (pool_add _ _) as [r pl]. cbn [fst snd sys known pool world] in *.
    split_and!.
    + apply Hadd; try done; [|by apply Hkeep|].
      * eapply mirrors_same; [exact Hinv | exact Hkeep | done | apply Hinv | done].
      * intros k' l Hl E. apply Hno. by exists k', l.
    + exact Hkeep.
    + intros r'. rewrite Emem. set_solver.
    + intros r' Hr'. rewrite Hent, decide_False; [done|]. intros <-.
      apply (wf_fresh _ (mi_wf _ _ _ Hinv)) in Hr'. lia.
    + right. split; [done|]. by exists r.
Qed.

Lemma adopt_agreements_spec live s :
  agent_inv s -> rows_ok s.(sys).(world) live -> adopts s (adopt_agreements live s).2 live.
Proof using keeps_clock.
  unfold adopt_agreements. revert s. induction live as [|st live IH]; intros s Hinv [Hnd Hall].
  - constructor; cbn [for_each mret M_ret snd]; try done; [intros; congruence|].
    by intros st ?%elem_of_nil.
  - cbn [for_each]. unfold mbind, M_bind. apply Forall_cons in Hall as [[Hi Ha] Hall].
    destruct (adopt_agreement_cases st s Hinv Hi Ha) as (Hinv1 & Hi1 & Hm1 & He1 & Hcase).
    destruct (adopt_agreement st s) as [[] s1]. cbn [snd] in *.
    eapply adopts_cons; [done | | done..].
    apply IH; [done|]. split; [by apply NoDup_cons in Hnd as [_ ?]|].
    eapply Forall_impl; [exact Hall|]. intros st' [? ?]. split; [by apply Hi1 | done].
Qed.
End adopts.

(** * Theorems *)

(** The earlier of two records: of an earlier block, or within one block
    of the lesser key. *)
Definition earlier {T} (x y : Stored T) : Prop :=
  x.(created_at) < y.(created_at) \/ (x.(created_at) = y.(created_at) /\ x.(key) <= y.(key)).

Lemma older_earlier {T} (x y : Stored T) : older x y = true <-> earlier x y.
Proof. unfold older, earlier, pair_leb. cbn. lia. Qed.

Section reconciled.
Context `{Alloy} `{UrlLib} `{HashOrder} {W : Type} `{World W} `{Issuer W} `{Memory W}.

(** What a poll makes of its memory [s1], once it has read the rows
    [live]: the memory and pool [s2], and what ended. *)
Record reconciled (live : list (Stored Agreement)) (s1 s2 : AS W) (ended : list Ended) : Prop := {
  (** Only what the chain has is kept. *)
  rc_only : forall k, is_Some (s2.(known) !! k) -> k ∈ key <$> live;
  (** What it has no more is out of the pool, and its count is owed. *)
  rc_gone : forall k l, s1.(known) !! k = Some l -> k ∉ key <$> live ->
    l.(provider) ∉ s2.(sys).(pool).(members);
  rc_ended : ended ≡ₚ omap (ended_of s1) (filter (fun k => k ∉ key <$> live) (elements (dom s1.(known))));
  (** What is held stays as it is, with the chain's blocks. *)
  rc_held : forall st l, st ∈ live -> s1.(known) !! st.(key) = Some l ->
    s2.(known) !! st.(key) = Some (set_blocks st.(created_at) st.(expires_at) l);
  (** What is new is a provider's oldest row, in memory without a counter. *)
  rc_new : forall k l, s1.(known) !! k = None -> s2.(known) !! k = Some l ->
    l.(agreement) ∈ live /\ l.(agreement).(key) = k /\ l.(counter) = None /\
    (forall st, st ∈ live -> st.(record).(ag_provider) = provider_of l ->
       is_Some (s1.(known) !! st.(key)) \/ earlier l.(agreement) st);
  (** Every provider of the chain is served. *)
  rc_all : forall st, st ∈ live ->
    is_Some (s2.(known) !! st.(key)) \/ under_agreement s2.(known) st.(record).(ag_provider);
}.

Lemma row_at_elem live st :
  NoDup (key <$> live) -> st ∈ live -> row_at live st.(key) = Some st.
Proof.
  induction live as [|st' live IH]; [by intros _ ?%elem_of_nil|].
  intros [Hn Hnd]%NoDup_cons [->|Hst]%elem_of_cons; [apply row_at_here|].
  rewrite row_at_other; [by apply IH|]. intros E. apply Hn. rewrite E. by apply list_elem_of_fmap_2.
Qed.

Lemma sorted_split {T} (leb : T -> T -> bool) l1 x l2 :
  StronglySorted (fun y z => leb y z = true) (l1 ++ x :: l2) -> Forall (fun y => leb x y = true) l2.
Proof.
  induction l1 as [|y l1 IH]; cbn; intros Hs; apply StronglySorted_inv in Hs as [? ?]; auto.
Qed.

Lemma older_sorted {T} (l : list (Stored T)) :
  StronglySorted (fun x y => older x y = true) (sort_by older l).
Proof.
  apply sort_by_sorted; unfold older; intros; [apply pair_leb_total | by eapply pair_leb_trans].
Qed.

Lemma older_refl {T} (x : Stored T) : older x x = true.
Proof. unfold older, pair_leb. cbn. lia. Qed.

Lemma reconciled_intro live s1 s2 s3 :
  let gone := filter (fun k => k ∉ key <$> live) (iter s1.(known)).*1 in
  agent_inv s1 -> NoDup (key <$> live) ->
  StronglySorted (fun x y => older x y = true) live ->
  ends s1 s2 gone -> adopts s2 s3 live ->
  reconciled live s1 s3 (omap (ended_of s1) gone).
Proof.
  intros gone Hinv Hnd Hsorted Hends Had.
  assert (forall k, k ∈ gone <-> is_Some (s1.(known) !! k) /\ k ∉ key <$> live) as Hgone.
  { intros k. unfold gone. rewrite list_elem_of_filter, iter_perm, (comm and).
    assert (k ∈ (map_to_list s1.(known)).*1 <-> is_Some (s1.(known) !! k)) as ->; [|done].
    rewrite list_elem_of_fmap. split.
    - intros ([k' l] & -> & Hin%elem_of_map_to_list). by exists l.
    - intros [l Hl]. exists (k, l). split; [done|]. by apply elem_of_map_to_list. }
  assert (forall k l, s1.(known) !! k = Some l -> k ∈ key <$> live -> s2.(known) !! k = Some l) as Hstay.
  { intros k l Hl Hk. rewrite (ends_known _ _ _ Hends), decide_False; [done|]. rewrite Hgone. tauto. }
  assert (forall k, is_Some (s3.(known) !! k) -> k ∈ key <$> live) as Honly.
  { intros k [l Hl]. destruct (s2.(known) !! k) as [l2|] eqn:E2.
    - rewrite (ends_known _ _ _ Hends) in E2. case_decide as Hk; [done|].
      destruct (decide (k ∈ key <$> live)); [done|]. exfalso. apply Hk, Hgone. by rewrite E2.
    - destruct (adopts_new _ _ _ Had _ _ E2 Hl) as (live1 & live2 & -> & <- & _).
      apply list_elem_of_fmap_2. set_solver. }
  constructor; [done|..].
  - intros k l Hl Hk Hin. destruct (mi_member _ _ _ Hinv _ _ Hl) as [Hin1 Hid1].
    assert (ident s3.(sys).(pool) l.(provider) = Some (ident_of k l.(agreement).(record))) as Hid3.
    { assert (is_Some (entry s1.(sys).(pool) l.(provider))) as Hs.
      { unfold ident in Hid1. by destruct (entry _ _). }
      rewrite <- Hid1. unfold ident. f_equal.
      rewrite (adopts_entries _ _ _ Had), (ends_entries _ _ _ Hends); [done|].
      by rewrite (ends_entries _ _ _ Hends). }
    destruct (mi_held _ _ _ (adopts_inv _ _ _ Had) _ _ _ _ _ Hin Hid3) as (l' & Hl' & _).
    apply Hk, Honly. by rewrite Hl'.
  - apply omap_Permutation, NoDup_Permutation.
    + apply NoDup_filter. rewrite iter_perm. apply NoDup_fst_map_to_list.
    + apply NoDup_filter, NoDup_elements.
    + intros k. rewrite Hgone, list_elem_of_filter, elem_of_elements, elem_of_dom. tauto.
  - intros st l Hst Hl. rewrite (adopts_held _ _ _ Had _ l).
    + unfold updated. by rewrite row_at_elem.
    + apply Hstay; [done|]. by apply list_elem_of_fmap_2.
  - intros k l Hnone Hl.
    assert (s2.(known) !! k = None) as E2 by (rewrite (ends_known _ _ _ Hends); by case_decide).
    destruct (adopts_new _ _ _ Had _ _ E2 Hl) as (live1 & live2 & -> & <- & Ec & _ & _ & Hfirst).
    split_and!; [set_solver|done|done|].
    intros st Hst Ep. apply elem_of_app in Hst as [Hst|[->|Hst]%elem_of_cons].
    + left. rewrite Forall_forall in Hfirst. destruct (Hfirst _ Hst Ep) as [l' Hl'].
      rewrite (ends_known _ _ _ Hends) in Hl'. case_decide; [done|]. by rewrite Hl'.
    + right. apply older_earlier, older_refl.
    + right. apply older_earlier. apply sorted_split in Hsorted. rewrite Forall_forall in Hsorted. by apply Hsorted.
  - apply (adopts_all _ _ _ Had).
Qed.

End reconciled.

Section theorems.
Context `{Alloy} `{SerdeJson} `{UrlLib} `{HashOrder}.
Context {W : Type} `{World W} `{Issuer W} `{Memory W} `{Quiet_memory : !QuietMemory W}.
Context (flip_after : Z).
Context {R Wr : Type} `{ChainReader R (Sys W)} `{ChainWriter Wr (Sys W)}.
Context `{Chain_laws : !Chain R Wr W flip_after}.
Context (ag : Agent R Wr).

(** A read of the rows of a query: counted first, refused when there are
    more than a page, and read only then. Rows that are not of the kind
    are left out. *)
Inductive rows_read {T} `{Record_ T} (kind : string) (q : Query) (s : AS W) :
    result ReconcileError (list (Stored T)) -> AS W -> Prop :=
| rows_uncounted e s1 :
    awaits (count ag.(reader) q) s = (Err e, s1) -> rows_read kind q s (Err (RcChain e)) s1
| rows_too_many n s1 :
    awaits (count ag.(reader) q) s = (Ok n, s1) -> PAGE_LIMIT < n ->
    rows_read kind q s (Err (RcTooMany kind n)) s1
| rows_unread n s1 e s2 :
    awaits (count ag.(reader) q) s = (Ok n, s1) -> n <= PAGE_LIMIT ->
    awaits (query ag.(reader) q) s1 = (Err e, s2) -> rows_read kind q s (Err (RcChain e)) s2
| rows_came n s1 page s2 rows :
    awaits (count ag.(reader) q) s = (Ok n, s1) -> n <= PAGE_LIMIT ->
    awaits (query ag.(reader) q) s1 = (Ok page, s2) ->
    rows ≡ₚ omap (fun e => match stored_decode e with Ok st => Some st | Err _ => None end) page.(entities) ->
    rows_read kind q s (Ok rows) s2.

(** This LB's own entities of a kind that are alive past [head]. *)
Definition own_alive (kind : string) (more : list Condition) (head : Z) : Query :=
  mkQuery ([CAttribute "kind" (AStr kind); CAttribute "v" (AI32 SCHEMA_VERSION);
            CCreator ag.(agent_identity).(address)] ++ more ++ [CExpiresAfter head]) None.

Lemma read_agreements_run head s :
  let '(out, s1) := read_agreements ag head s in
  rows_read "agreement" (own_alive "rpc.agreement" [] head) s out s1.
Proof.
  unfold read_agreements, mbind, M_bind.
  change (expires_after head _) with (own_alive "rpc.agreement" [] head).
  destruct (awaits (count _ _) s) as [[n|e] s1] eqn:Ec; [|by apply rows_uncounted].
  destruct (Z.ltb_spec PAGE_LIMIT n); [by eapply rows_too_many|].
  destruct (awaits (query _ _) s1) as [[page|e] s2] eqn:Eq; [|by eapply rows_unread].
  eapply rows_came; [done..|]. apply sort_by_perm.
Qed.

(** The last write an ended agreement is owed: its record deleted when it
    has no call to bill, and closed with its calls otherwise. *)
Definition owed (head : Z) (e : Ended) (op : Operation) : Prop :=
  (e.(ended_served) = 0 /\ deletes e.(ended_counter).(oc_key) op) \/
  (e.(ended_served) <> 0 /\
   let a := e.(ended_agreement) in
   writes_counter e.(ended_counter).(oc_key)
     (mkCounterRecord a.(key) a.(record).(ag_provider) Closed e.(ended_served)
        a.(record).(ag_wei_per_call) e.(ended_counter).(opened_block) (Some head)) op).

Lemma last_write_owed head e : owed head e (last_write head e).
Proof.
  unfold owed, last_write. destruct (Z.eqb_spec e.(ended_served) 0) as [E|E]; [by left|].
  right. split; [done|]. apply patch_writes_counter.
Qed.

(** What a whole reconcile may do. *)
Definition follows_chain (s : AS W) (out : result ReconcileError Z * AS W) : Prop :=
  match out with
  | (Err e, s') => drift flip_after s s' /\
      ((exists x, awaits (block_number ag.(reader)) s = (Err x, s') /\ e = RcChain x) \/
       exists head s0, awaits (block_number ag.(reader)) s = (Ok head, s0) /\
         rows_read (T := Agreement) "agreement" (own_alive "rpc.agreement" [] head) s0 (Err e) s')
  | (Ok head, s') => exists s0 s1 s2 live ended last,
      awaits (block_number ag.(reader)) s = (Ok head, s0) /\ drift flip_after s s0 /\
      rows_read "agreement" (own_alive "rpc.agreement" [] head) s0 (Ok live) s1 /\
      drift flip_after s0 s1 /\ reconciled live s1 s2 ended /\ agent_inv s2 /\
      Forall2 (owed head) ended last /\
      s' = (awaits (send ag.(writer) (mkBatch last)) s2).2 /\ drift flip_after s2 s'
  end.

Lemma reconcile_run s : agent_inv s -> follows_chain s (reconcile_agreements ag s).
Proof using Type*.
  intros Hinv. unfold follows_chain, reconcile_agreements, mbind, M_bind.
  pose proof (drifts_awaits flip_after (block_number ag.(reader)) (calm_block_number _) s) as D0.
  destruct (awaits (block_number _) s) as [[head|e] s0] eqn:Eh;
    [|split; [exact D0 | left; by eexists]]. cbn [snd] in D0.
  pose proof (drifts_read_agreements flip_after ag head s0) as D1.
  pose proof (read_agreements_run head s0) as Hrun.
  assert (in_order s0.(sys).(world)) as Hord by apply (drift_grows _ _ _ D0), Hinv.
  pose proof (fun l => read_agreements_rows flip_after ag head s0 l Hord) as Hrows.
  destruct (read_agreements ag head s0) as [[live|e] s1] eqn:Er; cbn [fst snd] in *;
    [|split; [by etrans | right; by exists head, s0]].
  destruct (Hrows live eq_refl) as [[Hnd Hok] [page ->]].
  assert (agent_inv s1) as Hinv1 by (apply (drift_inv flip_after s s1); [by etrans|done]).
  set (live := sort_by older (decode_all page)) in *.
  unfold end_agreements, get_known, mbind, M_bind.
  set (gone := filter (fun k => k ∉ key <$> live) (iter s1.(known)).*1).
  assert (filter (fun k => k ∉ (list_to_set (key <$> live) : gset EntityKey)) (iter (known s1)).*1 = gone)
    as -> by (apply list_filter_iff; intros k; rewrite elem_of_list_to_set; done).
  destruct (gather_ends gone s1) as [Eend Hends].
  { apply NoDup_filter. rewrite iter_perm. apply NoDup_fst_map_to_list. }
  { done. }
  { apply Forall_forall. intros k [_ ([k' l] & -> & Hin)%list_elem_of_fmap]%list_elem_of_filter.
    rewrite iter_perm in Hin. apply elem_of_map_to_list in Hin. by exists l. }
  destruct (gather end_agreement gone s1) as [ended s2]. cbn [fst snd] in *. subst ended.
  pose proof (adopt_agreements_spec (calm_keeps _ _ calm_clock) live s2) as Had.
  destruct (adopt_agreements live s2) as [[] s3]. cbn [snd] in Had.
  assert (adopts s2 s3 live) as Had'.
  { apply Had; [apply Hends|]. by rewrite (ends_world _ _ _ Hends). }
  pose proof (drifts_close_ended flip_after ag (omap (ended_of s1) gone) head s3) as D4.
  unfold close_ended, mbind, M_bind in *.
  destruct (awaits (send _ _) s3) as [sent s4] eqn:Ec. cbn [fst snd mret M_ret] in D4 |- *.
  exists s0, s1, s3, live, (omap (ended_of s1) gone), (last_write head <$> omap (ended_of s1) gone).
  split_and!; try done.
  - apply (reconciled_intro live s1 s2 s3); try done. apply older_sorted.
  - apply Had'.
  - apply Forall2_fmap_r, Forall_Forall2_diag, Forall_forall. intros e _. apply last_write_owed.
  - by rewrite Ec.
Qed.

Lemma keeps_inv_reconcile : keeps_inv (reconcile_agreements ag).
Proof using Type*.
  intros s Hs. pose proof (reconcile_run s Hs) as Hr.
  destruct (reconcile_agreements ag s) as [[head|e] s']; cbn in *;
    [|eapply drift_inv; [apply Hr | done]].
  destruct Hr as (s0 & s1 & s2 & live & ended & last & _ & _ & _ & _ & _ & Hinv & _ & _ & D).
  by eapply drift_inv.
Qed.

(** C7: A reconcile makes memory and pool what the chain says. It reads the
    head and its own live agreements first; when a read fails, or there
    are more than a page, nothing changes but by the other tasks.
    Otherwise exactly the agreements the chain still has are kept, with
    their providers, their counters and the chain's own blocks; a provider
    whose agreement is gone leaves the pool; a provider new to memory
    comes in under its earliest record; and the marketplace part of the
    pool mirrors the memory throughout. The batch sent last holds one
    write for each ended agreement that counted into a record: it deletes
    the record when no call is owed, and otherwise leaves it reading as
    closed at the head, with exactly the calls the entry held. *)
Theorem reconcile_follows_chain s :
  agent_inv s -> follows_chain s (reconcile_agreements ag s).
Proof using Type*. apply reconcile_run. Qed.
End theorems.
