(* ===== verification/Offers.v ===== *)
(** Offers turned into agreements: [discover_offers] and [accept] of
    [crates/lb/src/marketplace/agent.rs]. *)

From S2P Require Import Prelude External Concrete Pool World Records Reader Writer Chain Config Agent Mirror Reconcile.

#[local] Open Scope Z_scope.

(** [port_is_bound]: whether something listens on the port on loopback,
    an await. *)
Class Loopback (W : Type) := { port_is_bound : Z -> M (Sys W) bool }.

Section offers.
Context `{Alloy} `{SerdeJson} `{UrlLib} `{HashOrder}.
Context {W : Type} `{World W} `{Memory W} `{Loopback W}.
Context {R Wr : Type} `{ChainReader R (Sys W)} `{ChainWriter Wr (Sys W)}.
Context (ag : Agent R Wr).
Abbreviation config := (ag.(agent_config)) (only parsing).

(** The agreement an acceptance writes. *)
Definition accepted_agreement (offer : Stored Offer) (port : Z) : Agreement :=
  mkAgreement offer.(creator) offer.(key) config.(mp_wei_per_call) port.

(** The counter record that follows it. *)
Definition first_counter (offer : Stored Offer) (k : EntityKey) (port head : Z) : CounterRecord :=
  fresh_counter k (accepted_agreement offer port) config.(mp_wei_per_call) head.

(** Whether the port and the slot are held afterwards. *)
Definition accept (offer : Stored Offer) (port head : Z) : M (AS W) bool :=
  let agreement := accepted_agreement offer port in
  created ← awaits (create ag.(writer)
    (mkCreate (encode agreement) (Seconds (as_secs config.(offer_max_lifetime)))));
  match created with
  | Err (Unresolved _ _) => mret true
  | Err _ => mret false
  | Ok created =>
      let k := created.(created_key) in
      let stored := mkStored k ag.(agent_identity).(address) head
                      created.(created_expires_at) agreement in
      now ← on_sys read_clock;
      r ← on_sys (add_entry (from_marketplace now offer.(creator) k port));
      m ← get_known;
      _ ← put_known (<[k := mkLive stored r None false]> m);
      counter ← awaits (create ag.(writer)
        (mkCreate (encode (first_counter offer k port head))
                  (Seconds (as_secs config.(counter_record_life)))));
      m ← get_known;
      _ ← put_known (alter (set_counter (match counter with
                                         | Ok c => Some (mkOpenCounter c.(created_key) head)
                                         | Err _ => None
                                         end)) k m);
      mret true
  end.

(** The lowest usable port, and the bound ones on the way to it. *)
Fixpoint choose_port (candidates : list Z) (used : gset Z) : M (AS W) (option Z * gset Z) :=
  match candidates with
  | [] => mret (None, used)
  | candidate :: candidates =>
      if decide (candidate ∈ used) then choose_port candidates used
      else
        bound ← awaits (port_is_bound candidate);
        if (bound : bool) then choose_port candidates ({[candidate]} ∪ used)
        else mret (Some candidate, used)
  end.

(** The loop over the offers; what it carries is the providers under
    agreement, the ports in use and how many it accepted. *)
Fixpoint accept_offers (offers : list (Stored Offer)) (head : Z) (free : Z)
    (taken_offers : gset EntityKey) (providers : gset Address) (used : gset Z) (accepted : Z) :
    M (AS W) Z :=
  match offers with
  | [] => mret accepted
  | offer :: offers =>
      if Z.leb free accepted
      then accept_offers offers head free taken_offers providers used accepted
      else if decide (offer.(key) ∈ taken_offers)
      then accept_offers offers head free taken_offers providers used accepted
      else if decide (offer.(creator) ∈ providers)
      then accept_offers offers head free taken_offers providers used accepted
      else
        chosen ← choose_port (remote_ports config) used;
        match chosen with
        | (None, _) => mret accepted
        | (Some port, used) =>
            held ← accept offer port head;
            if (held : bool)
            then accept_offers offers head free taken_offers ({[offer.(creator)]} ∪ providers)
                   ({[port]} ∪ used) (accepted + 1)
            else accept_offers offers head free taken_offers providers used accepted
        end
  end.

(** The offers of a page that are worth a look. *)
Definition usable_offers (page : Page) : list (Stored Offer) :=
  sort_by older
    (List.filter (fun o => Z.eqb o.(record).(specs).(specs_chain_id) ag.(agent_identity).(chain_id))
       (decode_all (T := Offer) page)).

Definition offers_query (head : Z) : Query :=
  expires_by (add_u64 head (blocks config.(offer_max_lifetime)))
    (expires_after head (attr_key "lb_listing" ag.(listing_key) (query_kind KIND_OFFER))).

Definition agreements_of (m : KnownAgreements) : list Agreement :=
  (fun x => x.2.(agreement).(record)) <$> iter m.

Definition discover_offers (head : Z) : M (AS W) unit :=
  page ← awaits (query ag.(reader) (offers_query head));
  match page with
  | Err _ => mret tt
  | Ok page =>
      let offers := usable_offers page in
      m ← get_known;
      let free := sat_sub config.(max_providers) (Z.of_nat (size m)) in
      let records := agreements_of m in
      _ ← accept_offers offers head free
            (list_to_set (ag_offer <$> records)) (list_to_set (ag_provider <$> records))
            (list_to_set (ag_remote_port <$> records)) 0;
      mret tt
  end.
End offers.

(** * Lemmas *)

(** Asking a port changes nothing. *)
Class QuietLoopback (W : Type) `{World W} `{Issuer W} `{Loopback W} (flip_after : Z) : Prop := {
  calm_port_is_bound (p : Z) : calm flip_after (port_is_bound p);
}.

Section acceptance.
Context `{Alloy} `{SerdeJson} `{UrlLib} `{HashOrder}.
Context {W : Type} `{World W} `{Issuer W} `{Memory W} `{Loopback W}.
Context `{Quiet_memory : !QuietMemory W} (flip_after : Z).
Context `{Quiet_loopback : !QuietLoopback W flip_after}.
Context {R Wr : Type} `{ChainReader R (Sys W)} `{ChainWriter Wr (Sys W)}.
Context `{Chain_laws : !Chain R Wr W flip_after}.
Context (ag : Agent R Wr).

Abbreviation config := (ag.(agent_config)) (only parsing).

Lemma drift_size s s' : drift flip_after s s' -> size s'.(known) = size s.(known).
Proof.
  intros D. rewrite <- !size_dom. f_equal. apply set_eq. intros k. rewrite !elem_of_dom.
  pose proof (drift_core flip_after s s' k D) as E. rewrite <- (fmap_is_Some core), E.
  by rewrite fmap_is_Some.
Qed.

Lemma choose_port_run candidates used s :
  let '((chosen, used'), s') := choose_port candidates used s in
  drift flip_after s s' /\ used ⊆ used' /\
  match chosen with Some p => p ∈ candidates /\ p ∉ used' | None => True end.
Proof using Type*.
  revert used s. induction candidates as [|c candidates IH]; intros used s; cbn [choose_port]; [done|].
  case_decide as Hc.
  - specialize (IH used s). destruct (choose_port candidates used s) as [[[p|] used'] s'];
      [|done]. destruct IH as (? & ? & Hp & ?). split_and!; try done. by right.
  - unfold mbind, M_bind.
    pose proof (drifts_awaits flip_after (port_is_bound c) (calm_port_is_bound c) s) as D.
    destruct (awaits (port_is_bound c) s) as [[] s1]; cbn [snd] in D.
    + specialize (IH ({[c]} ∪ used) s1).
      destruct (choose_port candidates _ s1) as [[chosen used'] s'].
      destruct IH as (? & ? & Hp). split_and!; [by etrans | set_solver |].
      destruct chosen; [|done]. destruct Hp. split; [by right | done].
    + cbn. split_and!; [done | done | left | done].
Qed.

(** One acceptance: nothing but what the others do, or one agreement
    more, under a key no one had. *)
Lemma accept_run offer port head s :
  agent_inv s -> is_address offer.(creator) -> ~ under_agreement s.(known) offer.(creator) ->
  let '(held, s') := accept ag offer port head s in
  agent_inv s' /\
  (drift flip_after s s' \/
   held = true /\ exists k r c, s.(known) !! k = None /\
     forall k', core <$> s'.(known) !! k' =
       if decide (k = k') then Some (k, accepted_agreement ag offer port, r, c)
       else core <$> s.(known) !! k').
Proof using Type*.
  intros Hinv Ha Hno. unfold accept. cbv zeta. unfold mbind at 1, M_bind at 1.
  set (c0 := mkCreate _ _).
  pose proof (drifts_awaits flip_after (create ag.(writer) c0) (calm_create _ _) s) as D1.
  assert (forall x, (awaits (create ag.(writer) c0) s).1 = Ok x ->
    s.(known) !! x.(created_key) = None /\
    issued (awaits (create ag.(writer) c0) s).2.(sys).(world) x.(created_key)) as Hfresh.
  { unfold awaits. intros x. pose proof (create_fresh ag.(writer) c0 s.(sys) x) as Hf.
    destruct (create ag.(writer) c0 s.(sys)) as [r y]. cbn [fst snd] in Hf.
    pose proof (others_memory_grows y.(world)) as Ho. destruct (others_memory _) as [ms w].
    cbn [fst snd sys world] in *. intros ->. destruct (Hf (mi_order _ _ _ Hinv) eq_refl) as [Hnew Hi]. split; [|by apply Ho].
    destruct (known s !! created_key x) as [l|] eqn:E; [|done].
    by apply (mi_key _ _ _ Hinv) in E as [_ ?]. }
  destruct (awaits (create ag.(writer) c0) s) as [[x|e] s1]; cbn [fst snd] in *.
  2:{ destruct e; cbn; (split; [by eapply drift_inv | by left]). }
  destruct (Hfresh x eq_refl) as [Hnew Hi]. clear Hfresh. set (k := created_key x) in *.
  unfold mbind, M_bind.
  pose proof (drifts_on_sys flip_after read_clock calm_clock s1) as D2.
  destruct (on_sys read_clock s1) as [now s2]. cbn [snd] in D2.
  assert (drift flip_after s s2) as D12 by by etrans.
  assert (agent_inv s2) as Hinv2 by by eapply drift_inv.
  assert (s2.(known) !! k = None) as Hnew2.
  { pose proof (drift_core flip_after s s2 k D12) as E. rewrite Hnew in E. by destruct (known s2 !! k). }
  assert (~ under_agreement s2.(known) (creator offer)) as Hno2.
  { intros (k' & l & Hl & Ep). pose proof (drift_core flip_after s s2 k' D12) as E.
    rewrite Hl in E. symmetry in E. apply fmap_Some in E as (l0 & Hl0 & E). apply Hno. exists k', l0.
    split; [done|]. unfold provider_of, core in *. congruence. }
  unfold on_sys at 1, add_entry, get_known, put_known. cbn [fst snd].
  pose proof (mirrors_add s2.(sys).(world) s2.(sys).(pool) s2.(known) now k
    (mkStored k (address (agent_identity ag)) head (created_expires_at x)
       (accepted_agreement ag offer port)) Hinv2 Hnew2 eq_refl (proj1 (drift_grows _ _ _ D2) _ Hi) Ha) as Hadd.
  cbn [record accepted_agreement ag_provider ag_remote_port] in Hadd.
  destruct (pool_add _ _) as [r pl]. cbn [fst snd sys known pool world history] in *.
  set (stored := mkStored k _ head _ _) in *.
  set (s3 := mkAS _ (<[k := mkLive stored r None false]> (known s2))).
  assert (agent_inv s3) as Hinv3.
  { apply Hadd. intros k' l Hl E. apply Hno2. by exists k', l. }
  set (c1 := mkCreate _ _).
  pose proof (drifts_awaits flip_after (create ag.(writer) c1) (calm_create _ _) s3) as D4.
  destruct (awaits (create ag.(writer) c1) s3) as [oc s4]. cbn [fst snd] in *.
  set (c := match oc with Ok c => _ | Err _ => None end).
  assert (agent_inv s4) as Hinv4 by by eapply drift_inv.
  split.
  - eapply mirrors_same; [exact Hinv4 | done | done | apply Hinv4 |].
    apply same_view_alter. by intros [].
  - right. split; [done|]. exists k, r, c. split; [done|]. intros k'. cbn [known].
    rewrite lookup_alter.
    assert (core <$> s4.(known) !! k' = core <$> s3.(known) !! k') as E4 by by eapply drift_core.
    unfold s3 in E4. cbn [known] in E4. destruct (decide (k = k')) as [<-|Hne].
    + rewrite lookup_insert_eq in E4. apply fmap_Some in E4 as (l4 & -> & E4). cbn.
      unfold core in *. cbn in *. congruence.
    + rewrite lookup_insert_ne in E4 by done. rewrite E4. by eapply drift_core.
Qed.

(** What a discovery poll adds to the agreements [s0] knew, out of the
    offers it saw. *)
Record accepts (offers : list (Stored Offer)) (s0 s : AS W) : Prop := {
  ac_inv : agent_inv s;
  ac_old : forall k, is_Some (s0.(known) !! k) -> core <$> s.(known) !! k = core <$> s0.(known) !! k;
  (** A new agreement is an offer's, at this LB's price, on a port of its
      range; the provider, the offer and the port were all free. *)
  ac_new : forall k l, s0.(known) !! k = None -> s.(known) !! k = Some l ->
    exists offer, offer ∈ offers /\
      l.(agreement).(record) = accepted_agreement ag offer l.(agreement).(record).(ag_remote_port) /\
      l.(agreement).(record).(ag_remote_port) ∈ remote_ports config /\
      forall k0 l0, s0.(known) !! k0 = Some l0 ->
        let a0 := l0.(agreement).(record) in
        a0.(ag_provider) <> offer.(creator) /\ a0.(ag_offer) <> offer.(key) /\
        a0.(ag_remote_port) <> l.(agreement).(record).(ag_remote_port);
  (** No two new ones share a port. *)
  ac_ports : forall k1 k2 l1 l2, s0.(known) !! k1 = None -> s0.(known) !! k2 = None ->
    s.(known) !! k1 = Some l1 -> s.(known) !! k2 = Some l2 ->
    l1.(agreement).(record).(ag_remote_port) = l2.(agreement).(record).(ag_remote_port) -> k1 = k2;
}.

(** What the loop carries is right. *)
Record carries (s : AS W) (providers : gset Address) (used : gset Z) : Prop := {
  ca_known : forall k l, s.(known) !! k = Some l ->
    provider_of l ∈ providers /\ l.(agreement).(record).(ag_remote_port) ∈ used;
}.

Lemma core_back (m m' : KnownAgreements) k l :
  core <$> m' !! k = core <$> m !! k -> m' !! k = Some l ->
  exists l0, m !! k = Some l0 /\ l0.(agreement).(record) = l.(agreement).(record).
Proof.
  intros E Hl. rewrite Hl in E. symmetry in E. apply fmap_Some in E as (l0 & Hl0 & E).
  exists l0. split; [done|]. unfold core in E. congruence.
Qed.

Lemma drift_accepts offers s0 s s' :
  drift flip_after s s' -> accepts offers s0 s -> accepts offers s0 s'.
Proof.
  intros D [I Old New Ports].
  assert (forall k l, s'.(known) !! k = Some l -> exists l0, s.(known) !! k = Some l0 /\
    l0.(agreement).(record) = l.(agreement).(record)) as Hback.
  { intros k l. apply core_back. by eapply drift_core. }
  constructor.
  - by eapply drift_inv.
  - intros k Hk. rewrite (drift_core flip_after s s' k D). by apply Old.
  - intros k l Hk (l0 & Hl0 & <-)%Hback. eauto.
  - intros k1 k2 l1 l2 H1' H2' (? & ? & <-)%Hback (? & ? & <-)%Hback. eauto.
Qed.

Lemma drift_carries s s' providers used :
  drift flip_after s s' -> carries s providers used -> carries s' providers used.
Proof.
  intros D [Hk]. constructor. intros k l Hl.
  destruct (core_back s.(known) s'.(known) k l) as (l0 & Hl0 & E); [by eapply drift_core | done |].
  unfold provider_of. rewrite <- E. by apply (Hk k l0).
Qed.

Lemma accepted_one offers s0 s s' offer port k r c providers used (taken : gset EntityKey) :
  offer ∈ offers -> offer.(key) ∉ taken ->
  (forall k0 l0, s0.(known) !! k0 = Some l0 -> l0.(agreement).(record).(ag_offer) ∈ taken) ->
  offer.(creator) ∉ providers -> port ∈ remote_ports config -> port ∉ used ->
  accepts offers s0 s -> carries s providers used -> agent_inv s' -> s.(known) !! k = None ->
  (forall k', core <$> s'.(known) !! k' =
     if decide (k = k') then Some (k, accepted_agreement ag offer port, r, c)
     else core <$> s.(known) !! k') ->
  accepts offers s0 s' /\ carries s' ({[offer.(creator)]} ∪ providers) ({[port]} ∪ used).
Proof using Type*.
  intros Hin Htaken Hoffers Hcreator Hrange Hport [I Old New Ports] [Carry] Hinv Hnone Hcore.
  assert (s0.(known) !! k = None) as Hnone0.
  { destruct (known s0 !! k) as [l|] eqn:E; [|done]. specialize (Old k). rewrite E, Hnone in Old.
    by specialize (Old (mk_is_Some _ _ eq_refl)). }
  assert (forall k' l, s'.(known) !! k' = Some l ->
    (k' = k /\ l.(agreement).(record) = accepted_agreement ag offer port) \/
    (k' <> k /\ exists l0, s.(known) !! k' = Some l0 /\ l0.(agreement).(record) = l.(agreement).(record)))
    as Hcases.
  { intros k' l Hl. specialize (Hcore k'). rewrite Hl in Hcore. cbn in Hcore.
    destruct (decide (k = k')) as [<-|Hne].
    - left. split; [done|]. injection Hcore as _ E _ _. done.
    - right. split; [done|]. eapply core_back; [|exact Hl]. by rewrite Hl. }
  assert (forall k0 l0, s0.(known) !! k0 = Some l0 -> exists l, s.(known) !! k0 = Some l /\
    l.(agreement).(record) = l0.(agreement).(record)) as Hold.
  { intros k0 l0 Hl0. eapply core_back; [|exact Hl0]. symmetry. apply Old. by rewrite Hl0. }
  split.
  - constructor; [done|..].
    + intros k' Hk'. rewrite Hcore, decide_False; [by apply Old|]. intros <-. rewrite Hnone0 in Hk'.
      by destruct Hk'.
    + intros k' l Hk' Hl. destruct (Hcases k' l Hl) as [[-> E]|(Hne & l0 & Hl0 & E)].
      * exists offer. rewrite E. split_and!; [done..|]. intros k0 l0 Hl0 a0.
        destruct (Hold k0 l0 Hl0) as (l1 & Hl1 & E1). destruct (Carry k0 l1 Hl1) as [Hp Hq].
        unfold provider_of in Hp. rewrite E1 in Hp, Hq. specialize (Hoffers k0 l0 Hl0). unfold a0.
        split_and!; intros E2; rewrite E2 in *; done.
      * rewrite <- E. by apply (New k' l0).
    + intros k1 k2 l1 l2 Hn1 Hn2 Hl1 Hl2 Eport.
      destruct (Hcases k1 l1 Hl1) as [[-> E1]|(Hne1 & l1' & Hl1' & E1)],
        (Hcases k2 l2 Hl2) as [[-> E2]|(Hne2 & l2' & Hl2' & E2)]; [done|..].
      * exfalso. destruct (Carry k2 l2' Hl2') as [_ Hq]. apply Hport.
        rewrite E1 in Eport. cbn in Eport. by rewrite Eport, <- E2.
      * exfalso. destruct (Carry k1 l1' Hl1') as [_ Hq]. apply Hport.
        rewrite E2 in Eport. cbn in Eport. by rewrite <- Eport, <- E1.
      * eapply Ports; [exact Hn1 | exact Hn2 | exact Hl1' | exact Hl2' | congruence].
  - constructor. intros k' l Hl. destruct (Hcases k' l Hl) as [[-> E]|(Hne & l0 & Hl0 & E)].
    + unfold provider_of. rewrite E. cbn. set_solver.
    + destruct (Carry k' l0 Hl0) as [Hp Hq]. unfold provider_of in *. rewrite E in Hp, Hq. set_solver.
Qed.

(** The loop over the offers. *)
Lemma accept_offers_run all free head (taken : gset EntityKey) s0 offers providers used accepted s :
  Forall (fun o => o ∈ all /\ is_address o.(creator)) offers ->
  (forall k0 l0, s0.(known) !! k0 = Some l0 -> l0.(agreement).(record).(ag_offer) ∈ taken) ->
  accepts all s0 s -> carries s providers used -> 
  Z.of_nat (size s.(known)) <= Z.of_nat (size s0.(known)) + accepted -> accepted <= free ->
  let s' := (accept_offers ag offers head free taken providers used accepted s).2 in
  accepts all s0 s' /\ Z.of_nat (size s'.(known)) <= Z.of_nat (size s0.(known)) + free.
Proof using Type*.
  intros Hoffers Htaken. revert providers used accepted s.
  induction Hoffers as [|offer offers [Hin Ha] Hoffers IH];
    intros providers used accepted s Hacc Hcar Hsize Hfree; cbn [accept_offers]; [cbn [mret M_ret snd]; split; [done|lia]|].
  destruct (Z.leb_spec free accepted) as [Hle|Hlt]; [by apply IH|].
  destruct (decide (key offer ∈ taken)) as [|Hkey]; [by apply IH|].
  destruct (decide (creator offer ∈ providers)) as [|Hcreator]; [by apply IH|].
  unfold mbind, M_bind.
  pose proof (choose_port_run (remote_ports config) used s) as Hport.
  destruct (choose_port (remote_ports config) used s) as [[[port|] used'] s1];
    destruct Hport as (D1 & Hsub & Hport).
  2:{ cbn [mret M_ret snd]. split; [by eapply drift_accepts|]. rewrite (drift_size s s1 D1). lia. }
  destruct Hport as [Hrange Hfresh].
  assert (accepts all s0 s1) as Hacc1 by by eapply drift_accepts.
  assert (carries s1 providers used') as Hcar1.
  { destruct (drift_carries s s1 providers used D1 Hcar) as [Hc]. constructor. intros k l Hl.
    destruct (Hc k l Hl). set_solver. }
  assert (~ under_agreement s1.(known) (creator offer)) as Hno.
  { intros (k & l & Hl & E). apply Hcreator. rewrite <- E. by apply (ca_known _ _ _ Hcar1 k l). }
  pose proof (accept_run offer port head s1 (ac_inv _ _ _ Hacc1) Ha Hno) as Hrun.
  destruct (accept ag offer port head s1) as [held s2].
  destruct Hrun as [Hinv2 [D2|(-> & k & r & c & Hnone & Hcore)]].
  - assert (accepts all s0 s2) as Hacc2 by by eapply drift_accepts.
    assert (carries s2 providers used') as Hcar2 by by eapply drift_carries.
    assert (Z.of_nat (size s2.(known)) <= Z.of_nat (size s0.(known)) + accepted) as Hsize2.
    { rewrite (drift_size s1 s2 D2), (drift_size s s1 D1). done. }
    destruct held; apply IH; try done; try lia.
    constructor. intros k l Hl. destruct (ca_known _ _ _ Hcar2 k l Hl). set_solver.
  - destruct (accepted_one all s0 s1 s2 offer port k r c providers used' taken) as [Hacc2 Hcar2]; try done.
    apply IH; try done; [|lia].
    assert (dom s2.(known) = {[k]} ∪ dom s1.(known)) as Edom.
    { apply set_eq. intros k'. rewrite elem_of_union, elem_of_singleton, !elem_of_dom.
      rewrite <- (fmap_is_Some core), Hcore. case_decide; [set_solver|]. rewrite fmap_is_Some.
      split; [by right | by intros [->|]]. }
    rewrite <- !size_dom in Hsize |- *. rewrite Edom.
    rewrite size_union by (apply disjoint_singleton_l; rewrite elem_of_dom, Hnone; by intros []).
    rewrite size_singleton. pose proof (drift_size s s1 D1) as E1. rewrite <- !size_dom in E1. lia.
Qed.

(** An offer worth a look: a row of the page that reads as one, for the
    chain this LB is on. *)
Definition offered_here (page : Page) (o : Stored Offer) : Prop :=
  (exists e, e ∈ page.(entities) /\ stored_decode e = Ok o) /\
  o.(record).(specs).(specs_chain_id) = ag.(agent_identity).(chain_id).

Lemma usable_offers_here page o : o ∈ usable_offers ag page <-> offered_here page o.
Proof.
  unfold usable_offers, offered_here.
  rewrite elem_of_sort_by, list_elem_of_In, filter_In, <- list_elem_of_In, Z.eqb_eq.
  f_equiv. unfold decode_all. rewrite list_elem_of_omap. f_equiv. intros e.
  destruct (stored_decode e); cbn; naive_solver congruence.
Qed.

(** What a discovery may do: the offers it read, and what it made of them. *)
Definition discovers (head : Z) (s s' : AS W) : Prop :=
  drift flip_after s s' \/
  exists page s0, drift flip_after s s0 /\
    (awaits (query ag.(reader) (offers_query ag head)) s) = (Ok page, s0) /\
    (exists offers, (forall o, o ∈ offers -> offered_here page o) /\ accepts offers s0 s') /\
    Z.of_nat (size s'.(known)) <= Z.max (Z.of_nat (size s0.(known))) config.(max_providers).

Lemma usable_offers_address q s page s' :
  in_order s.(sys).(world) -> awaits (query ag.(reader) q) s = (Ok page, s') ->
  Forall (fun o => o ∈ usable_offers ag page /\ is_address o.(creator)) (usable_offers ag page).
Proof using Type*.
  unfold awaits. intros Hord E. pose proof (rows_issued ag.(reader) q s.(sys) page) as Hrows.
  destruct (query _ q _) as [r y]. destruct (others_memory _) as [ms w]. injection E as -> _.
  destruct (Hrows Hord eq_refl) as [_ Hall]. apply Forall_forall. intros o Ho. split; [done|].
  unfold usable_offers in Ho. apply elem_of_sort_by in Ho. apply list_elem_of_In, filter_In in Ho as [Ho _].
  apply list_elem_of_In, decode_all_elem in Ho as (e & He & Hd).
  apply stored_decode_Ok in Hd as (_ & _ & _ & _ & -> & _). rewrite Forall_forall in Hall. by apply Hall.
Qed.

Lemma elem_of_agreements_of (m : KnownAgreements) k l :
  m !! k = Some l -> l.(agreement).(record) ∈ agreements_of m.
Proof.
  intros Hl. unfold agreements_of. apply list_elem_of_fmap. exists (k, l). split; [done|].
  rewrite iter_perm. by apply elem_of_map_to_list.
Qed.

Lemma discover_run head s : agent_inv s -> discovers head s (discover_offers ag head s).2.
Proof using Type*.
  intros Hinv. unfold discovers, discover_offers, mbind, M_bind.
  pose proof (drifts_awaits flip_after (query ag.(reader) (offers_query ag head)) (calm_query _ _) s) as D0.
  destruct (awaits (query _ _) s) as [[page|e] s0] eqn:Eq; cbn [snd] in D0; [|by left].
  right. exists page, s0. split; [done|]. split; [done|]. unfold get_known. cbn [fst snd].
  pose proof (accept_offers_run (usable_offers ag page)
    (sat_sub config.(max_providers) (Z.of_nat (size s0.(known)))) head
    (list_to_set (ag_offer <$> agreements_of s0.(known))) s0 (usable_offers ag page)
    (list_to_set (ag_provider <$> agreements_of s0.(known)))
    (list_to_set (ag_remote_port <$> agreements_of s0.(known))) 0 s0) as Hrun.
  destruct (accept_offers _ _ _ _ _ _ _ _ s0) as [n s']. cbn [snd] in *.
  destruct Hrun as [Hacc Hsize]; [| | | |lia|unfold sat_sub; lia|].
  - eapply usable_offers_address; [apply Hinv | exact Eq].
  - intros k l Hl. apply elem_of_list_to_set, list_elem_of_fmap_2. by eapply elem_of_agreements_of.
  - constructor; [by apply (drift_inv flip_after s s0) | done | intros; congruence..].
  - constructor. intros k l Hl. pose proof (elem_of_agreements_of _ _ _ Hl).
    split; apply elem_of_list_to_set; [change (provider_of l) with (ag_provider (record (agreement l)))|];
      by apply list_elem_of_fmap_2.
  - split; [|unfold sat_sub in Hsize; cbn [mret M_ret snd]; lia].
    exists (usable_offers ag page). split; [intros o; apply usable_offers_here | done].
Qed.

Lemma keeps_inv_discover head : keeps_inv (discover_offers ag head).
Proof using Type*.
  intros s Hs. destruct (discover_run head s Hs) as [D|(page & s0 & _ & _ & (offers & _ & Hacc) & _)];
    [by eapply drift_inv | apply Hacc].
Qed.

(** * Theorems *)

(** C10: Discovery accepts only what the listing promises. A poll that cannot
    read the offers changes nothing. Otherwise every agreement it adds is
    of an offer it saw for this chain, at this LB's price, on a port of
    its range; the provider was under no agreement, the offer taken by
    none, the port used by none, and no two new agreements share one; the
    agreements there were stay as they were; and there are never more than
    the cap allows, beyond those already there. *)
Theorem discovery_accepts_within_bounds head s :
  agent_inv s -> discovers head s (discover_offers ag head s).2.
Proof using Type*. apply discover_run. Qed.
End acceptance.
