(* ===== verification/Flush.v ===== *)
(** The refresh and the flush of [crates/lb/src/marketplace/agent.rs]:
    the records kept alive, and what each provider served, written into
    its agreement's counter record. *)

From S2P Require Import Prelude External Concrete Pool World Records Reader Writer Config Agent.

#[local] Open Scope Z_scope.

Record RefreshBatch : Type := mkRefreshBatch {
  refresh_ops : Batch;
  ineligible : Z;
  expiring_later : Z;
}.

Record Landed : Type := mkLanded {
  patched : list EntityKey;
  created_count : Z;
  deleted_count : Z;
}.
Definition landed_default : Landed := mkLanded [] 0 0.

Record Closing : Type := mkClosing {
  closing_agreement : EntityKey;
  closing_counter : EntityKey;
  closing_count : Z;
}.

Section flush.
Context `{Alloy} `{SerdeJson} `{UrlLib} `{HashOrder}.
Context {W : Type} `{World W} `{Memory W} (flip_after : Z).
Context {R Wr : Type} `{ChainReader R (Sys W)} `{ChainWriter Wr (Sys W)}.
Context (ag : Agent R Wr).
Abbreviation config := (ag.(agent_config)) (only parsing).

(** ** Refresh *)

Definition extend_op (k : EntityKey) (life : Z) : Operation :=
  OpExtend (mkExtend k (Seconds (as_secs life))).

Definition expires_later (head : option Z) (expires life : Z) : bool :=
  match head with
  | Some head => Z.ltb (add_u64 head (blocks life)) expires
  | None => false
  end.

Definition already_expired (head : option Z) (expires : Z) : bool :=
  match head with Some head => Z.leb expires head | None => false end.

(** The agreements' part of a refresh, in iteration order. *)
Definition refresh_one (pl : Pool) (head : option Z) (b : RefreshBatch) (x : EntityKey * Live) :
    RefreshBatch :=
  let '(k, live) := x in
  if negb (test_entry pl eligible live.(provider))
  then mkRefreshBatch b.(refresh_ops) (b.(ineligible) + 1) b.(expiring_later)
  else if already_expired head live.(agreement).(expires_at) then b
  else if expires_later head live.(agreement).(expires_at) config.(agreement_life)
  then mkRefreshBatch b.(refresh_ops) b.(ineligible) (b.(expiring_later) + 1)
  else mkRefreshBatch (batch_push (extend_op k config.(agreement_life)) b.(refresh_ops))
         b.(ineligible) b.(expiring_later).

Definition refresh_batch (pl : Pool) (m : KnownAgreements) (head : option Z) : RefreshBatch :=
  let start :=
    if expires_later head ag.(listing_expires_at) config.(listing_life)
    then mkRefreshBatch batch_new 0 1
    else mkRefreshBatch
           (batch_push (extend_op ag.(listing_key) config.(listing_life)) batch_new) 0 0 in
  foldl (refresh_one pl head) start (iter m).

Definition gas_balance : M (AS W) (option Z) :=
  result_ok <$> awaits (balance ag.(reader) ag.(agent_identity).(address)).

Definition refresh : M (AS W) unit :=
  _ ← gas_balance;
  head ← awaits (block_number ag.(reader));
  m ← get_known;
  pl ← on_sys (fun y => (y.(pool), y));
  let b := refresh_batch pl m (result_ok head) in
  _ ← awaits (send ag.(writer) b.(refresh_ops));
  mret tt.

(** ** Flush *)

(** What the flush writes for one live agreement, given what its entry
    served: the operation, and the close it asks for. *)
Definition count_one (counters : Counters) (head : Z) (flush : Flush) (served : Z)
    (x : EntityKey * Live) : list Operation * list Closing :=
  let '(k, live) := x in
  let a := live.(agreement).(record) in
  match counters.(open) !! k with
  | Some stored =>
      if bool_decide (flush = Scheduled) && Z.ltb 0 served &&
         Z.leb (add_u64 stored.(record).(c_opened_block) (blocks config.(settlement_period))) head
      then ([OpPatch (patch_record stored.(key) (closed stored.(record) served head))],
            [mkClosing k stored.(key) served])
      else if Z.eqb stored.(record).(c_count) served then ([], [])
      else ([OpPatch (patch_record stored.(key) (counted_record stored served))], [])
  | None =>
      if bool_decide (flush = Stop) then ([], [])
      else ([OpCreate (mkCreate (encode (fresh_counter k a a.(ag_wei_per_call) head))
                         (Seconds (as_secs config.(counter_record_life))))], [])
  end.

(** What nobody counts into any more, on a scheduled flush. *)
Definition leftovers (counters : Counters) (head : Z) (flush : Flush) : list Operation :=
  match flush with
  | Stop => []
  | Scheduled =>
      ((fun k => OpDelete (mkDelete k)) <$> counters.(duplicates)) ++
      ((fun stray => if Z.eqb stray.(record).(c_count) 0 then OpDelete (mkDelete stray.(key))
                     else OpPatch (patch_record stray.(key)
                            (closed stray.(record) stray.(record).(c_count) head)))
         <$> counters.(strays))
  end.

Definition counts_batch (pl : Pool) (m : KnownAgreements) (counters : Counters) (head : Z)
    (flush : Flush) : Batch * list Closing :=
  let parts := (fun x => count_one counters head flush (entry_served pl x.2.(provider)) x)
                 <$> iter m in
  (mkBatch (leftovers counters head flush ++ concat parts.*1), concat parts.*2).

(** One close that landed: its count leaves the entry, and its successor
    is written. *)
Definition end_period (landed : Landed) (head : Z) (close : Closing) :
    M (AS W) (option Operation) :=
  if negb (bool_decide (close.(closing_counter) ∈ landed.(patched))) then mret None
  else
    m ← get_known;
    match m !! close.(closing_agreement) with
    | None => mret None
    | Some live =>
        _ ← on_sys (act flip_after live.(provider) (OnSubtract close.(closing_count)));
        _ ← put_known (<[close.(closing_agreement) := set_counter None live]> m);
        let a := live.(agreement).(record) in
        mret (Some (OpCreate (mkCreate
          (encode (fresh_counter close.(closing_agreement) a a.(ag_wei_per_call) head))
          (Seconds (as_secs config.(counter_record_life))))))
    end.

Definition end_periods (closing : list Closing) (landed : Landed) (head : Z) : M (AS W) Batch :=
  mkBatch <$> gather (end_period landed head) closing.

Definition landed_add (l : Landed) (x : Sent_) : Landed :=
  match x.(sent_result) with
  | Ok r => mkLanded (l.(patched) ++ r.(patched_entities))
              (l.(created_count) + Z.of_nat (length r.(created_entities)))
              (l.(deleted_count) + Z.of_nat (length r.(deleted_entities)))
  | Err _ => l
  end.

Definition send_flush (batch : Batch) : M (AS W) Landed :=
  if batch_is_empty batch then mret landed_default
  else
    sent ← awaits (send ag.(writer) batch);
    mret (foldl landed_add landed_default sent).

Definition flush_with (flush : Flush) : M (AS W) unit :=
  head ← awaits (block_number ag.(reader));
  match head with
  | Err _ => mret tt
  | Ok head =>
      counters ← reconcile_counters flip_after ag head;
      match counters with
      | Err _ => mret tt
      | Ok counters =>
          m ← get_known;
          pl ← on_sys (fun y => (y.(pool), y));
          let '(counts, closing) := counts_batch pl m counters head flush in
          landed ← send_flush counts;
          successors ← end_periods closing landed head;
          _ ← send_flush successors;
          mret tt
      end
  end.

Definition flush : M (AS W) unit := flush_with Scheduled.
Definition shutdown_flush : M (AS W) unit := flush_with Stop.

(** * Theorems: the refresh *)

(** Whether an extend moves a record's expiry later: it lands in a later
    block than the head. *)
Definition worth_extending (head : option Z) (expires life : Z) : Prop :=
  forall h, head = Some h -> forall landing, h < landing -> expires < landing + blocks life.

(** The agreements a refresh extends. *)
Definition refreshable (pl : Pool) (head : option Z) (l : Live) : Prop :=
  test_entry pl eligible l.(provider) = true /\
  (forall h, head = Some h -> h < l.(agreement).(expires_at)) /\
  worth_extending head l.(agreement).(expires_at) config.(agreement_life).

Lemma not_later head expires life :
  (forall h, head = Some h -> 0 <= h + blocks life <= u64_max) ->
  expires_later head expires life = false <-> worth_extending head expires life.
Proof.
  unfold expires_later, worth_extending. intros Hh. destruct head as [h|]; [|done].
  rewrite add_u64_small by by apply Hh. rewrite Z.ltb_ge. split.
  - intros Hle h' [= <-] landing Hl. lia.
  - intros Hall. specialize (Hall h eq_refl (h + 1)). lia.
Qed.

Lemma not_expired head expires :
  already_expired head expires = false <-> forall h, head = Some h -> h < expires.
Proof.
  unfold already_expired. destruct head as [h|]; [|done]. rewrite Z.leb_gt.
  split; [by intros Hl h' [= <-] | auto].
Qed.

Definition left_out (pl : Pool) (x : EntityKey * Live) : bool :=
  negb (test_entry pl eligible x.2.(provider)).
Definition kept_longer (pl : Pool) (head : option Z) (x : EntityKey * Live) : bool :=
  test_entry pl eligible x.2.(provider) && negb (already_expired head x.2.(agreement).(expires_at)) &&
  expires_later head x.2.(agreement).(expires_at) config.(agreement_life).
Definition extended_now (pl : Pool) (head : option Z) (x : EntityKey * Live) : bool :=
  test_entry pl eligible x.2.(provider) && negb (already_expired head x.2.(agreement).(expires_at)) &&
  negb (expires_later head x.2.(agreement).(expires_at) config.(agreement_life)).

Definition how_many {A} (f : A -> bool) (l : list A) : Z := Z.of_nat (length (filter (fun x => f x = true) l)).

Lemma refresh_fold pl head l x :
  let b := foldl (refresh_one pl head) x l in
  b.(refresh_ops).(operations) = x.(refresh_ops).(operations) ++
    ((fun y => extend_op y.1 config.(agreement_life)) <$> filter (fun y => extended_now pl head y = true) l) /\
  b.(ineligible) = x.(ineligible) + how_many (left_out pl) l /\
  b.(expiring_later) = x.(expiring_later) + how_many (kept_longer pl head) l.
Proof.
  revert x. induction l as [|[k live] l IH]; intros x; cbn [foldl].
  { unfold how_many. cbn. rewrite app_nil_r. split_and!; first [done | lia]. }
  destruct (IH (refresh_one pl head x (k, live))) as (-> & -> & ->). clear IH.
  unfold how_many. rewrite !filter_cons.
  unfold refresh_one, left_out, kept_longer, extended_now, batch_push. cbn [fst snd].
  destruct (test_entry pl eligible (provider live)), (already_expired head _), (expires_later head _ _);
    cbn [negb andb]; repeat case_decide; try done; cbn; (split_and!; [|lia..]); try done.
  by rewrite <- (assoc_L (++)).
Qed.

(** C22: A refresh extends the right records, and only extends. An
    agreement's record is extended exactly when its provider is eligible
    at that moment, the record is still there as far as the head is known,
    and the extend moves its expiry later wherever it lands, so that none
    of the batch is refused for it; the listing likewise. Each is extended
    once, and the ones left out are counted under their reasons. *)
Theorem refresh_extends_exactly pl m head :
  (forall h, head = Some h -> 0 <= h + blocks config.(agreement_life) <= u64_max /\
     0 <= h + blocks config.(listing_life) <= u64_max) ->
  let b := refresh_batch pl m head in
  exists (listing : bool) extended,
    b.(refresh_ops).(operations) =
      (if listing then [extend_op ag.(listing_key) config.(listing_life)] else []) ++
      ((fun k => extend_op k config.(agreement_life)) <$> extended) /\
    (listing = true <-> worth_extending head ag.(listing_expires_at) config.(listing_life)) /\
    NoDup extended /\
    (forall k, k ∈ extended <-> exists l, m !! k = Some l /\ refreshable pl head l) /\
    b.(ineligible) = how_many (left_out pl) (map_to_list m) /\
    b.(expiring_later) = (if listing then 0 else 1) + how_many (kept_longer pl head) (map_to_list m).
Proof.
  intros Hh b. unfold b, refresh_batch.
  destruct (refresh_fold pl head (iter m)
    (if expires_later head (listing_expires_at ag) (listing_life config) then mkRefreshBatch batch_new 0 1
     else mkRefreshBatch (batch_push (extend_op (listing_key ag) (listing_life config)) batch_new) 0 0))
    as (-> & -> & ->).
  pose proof (not_later head (listing_expires_at ag) (listing_life config)) as Hlisting.
  exists (negb (expires_later head (listing_expires_at ag) (listing_life config))),
    (filter (fun y => extended_now pl head y = true) (iter m)).*1.
  assert (forall f : EntityKey * Live -> bool, how_many f (iter m) = how_many f (map_to_list m)) as Hmany.
  { intros f. unfold how_many. f_equal. apply Permutation_length.
    apply filter_Permutation, iter_perm. }
  split_and!.
  - rewrite <- list_fmap_compose. by destruct (expires_later head _ _).
  - rewrite negb_true_iff. apply Hlisting. intros h E. apply Hh, E.
  - eapply sublist_NoDup; [|apply fmap_sublist, sublist_filter]. rewrite iter_perm.
    apply NoDup_fst_map_to_list.
  - intros k. rewrite list_elem_of_fmap. unfold refreshable.
    assert (forall l, extended_now pl head (k, l) = true <->
      test_entry pl eligible l.(provider) = true /\
      (forall h, head = Some h -> h < l.(agreement).(expires_at)) /\
      worth_extending head l.(agreement).(expires_at) config.(agreement_life)) as Hext.
    { intros l. unfold extended_now. cbn [snd]. rewrite !andb_true_iff, !negb_true_iff, not_expired, not_later;
        [tauto|]. intros h E. apply Hh, E. }
    split.
    + intros ([k' l] & -> & [He Hin]%list_elem_of_filter). exists l. split; [|by apply Hext].
      rewrite iter_perm in Hin. by apply elem_of_map_to_list in Hin.
    + intros (l & Hl & Hr). exists (k, l). split; [done|]. apply list_elem_of_filter.
      split; [by apply Hext|]. rewrite iter_perm. by apply elem_of_map_to_list.
  - rewrite Hmany. by destruct (expires_later head _ _).
  - rewrite Hmany. by destruct (expires_later head _ _).
Qed.
End flush.

(** * First lives and extends *)

Lemma blocks_lt a b :
  0 < a -> a mod from_secs 2 = 0 -> b mod from_secs 2 = 0 -> a < b -> 0 < blocks a < blocks b.
Proof. unfold blocks, as_secs, from_secs, NANOS. intros. Z.to_euclidean_division_equations. lia. Qed.

(** C39: Under a validated configuration a record's life tells whether it was
    extended. One in its first life - created at a block, living
    [offer_max_lifetime] - is told as never extended, and is worth an
    extend at every head; one whose last extend landed at its creation or
    later is told as extended, so no reconnect makes the LB write. *)
Theorem first_life_told_apart `{UrlLib} c l created landing :
  marketplace_typed c -> marketplace_validate c = Ok tt -> 0 <= created <= landing ->
  l.(agreement).(created_at) = created ->
  (l.(agreement).(expires_at) = created + blocks c.(offer_max_lifetime) ->
     was_extended l c.(agreement_life) = false /\
     forall head, created <= head ->
       worth_extending (Some head) l.(agreement).(expires_at) c.(agreement_life)) /\
  (l.(agreement).(expires_at) = landing + blocks c.(agreement_life) ->
     was_extended l c.(agreement_life) = true).
Proof.
  intros Ht Hv Hcl Hc. apply marketplace_validate_Ok in Hv; [|done].
  destruct Hv as (_ & _ & _ & _ & _ & Hlives & Hlt & _). rewrite !Forall_cons in Hlives.
  destruct Hlives as ([? Ha] & _ & _ & [? Ho] & _).
  pose proof (blocks_lt c.(offer_max_lifetime) c.(agreement_life)) as Hb.
  destruct Hb as [H1' H2']; [lia|done|done|done|].
  unfold was_extended, sat_sub, worth_extending. rewrite Hc. split; intros ->.
  - rewrite Z.leb_gt. split; [lia|]. intros head Hh h [= <-] landing' Hl. lia.
  - rewrite Z.leb_le. lia.
Qed.
