(* ===== verification/Billing.v ===== *)
(** What a call is billed by: the counter records on the chain and the
    count each pool entry holds, through the counter reconcile and the
    flush of [crates/lb/src/marketplace/agent.rs]. *)

From S2P Require Import Prelude External Concrete Pool World Served Records Reader Writer Chain Config Agent Patches Mirror Reconcile Flush.

#[local] Open Scope Z_scope.

(** * Lemmas: agreements take their open records *)

Section match_records.
Context `{Alloy} `{HashOrder} {W : Type} `{World W} `{Issuer W} `{Memory W} (flip_after : Z).

Lemma provider_inj (s : AS W) k1 k2 l1 l2 :
  agent_inv s -> s.(known) !! k1 = Some l1 -> s.(known) !! k2 = Some l2 ->
  l1.(provider) = l2.(provider) -> k1 = k2.
Proof.
  intros Hinv H1' H2' E. destruct (mi_member _ _ _ Hinv _ _ H1') as [_ I1].
  destruct (mi_member _ _ _ Hinv _ _ H2') as [_ I2]. rewrite E, I2 in I1. by injection I1.
Qed.

Lemma known_entry (s : AS W) k l :
  agent_inv s -> s.(known) !! k = Some l ->
  exists p, entry s.(sys).(pool) l.(provider) = Some p /\
    p.(served) = entry_served s.(sys).(pool) l.(provider).
Proof.
  intros Hinv Hl. destruct (mi_member _ _ _ Hinv _ _ Hl) as [_ Hid].
  unfold ident, entry_served in *. destruct (entry _ _) as [p|]; [by exists p | done].
Qed.

Lemma iter_keys {A} (m : gmap Z A) : NoDup (iter m).*1.
Proof. rewrite iter_perm. apply NoDup_fst_map_to_list. Qed.

Lemma elem_of_iter {A} (m : gmap Z A) k x : (k, x) ∈ iter m <-> m !! k = Some x.
Proof. rewrite iter_perm. apply elem_of_map_to_list. Qed.

Lemma elem_of_iter_keys {A} (m : gmap Z A) k : k ∈ (iter m).*1 <-> is_Some (m !! k).
Proof.
  rewrite list_elem_of_fmap. split.
  - intros ([k' x] & -> & Hin%elem_of_iter). by exists x.
  - intros [x Hx]. exists (k, x). split; [done|]. by apply elem_of_iter.
Qed.

(** The one event an agreement's entry takes from its open record. *)
Definition seed_of (records : CountersByAgreement) (x : EntityKey * Live) : option (ptr * Event) :=
  match x.2.(counter), records !! x.1 with
  | None, Some st => Some (x.2.(provider), OnSeed st.(record).(c_count))
  | _, _ => None
  end.

Lemma match_run records l (s : AS W) :
  NoDup l.*1 -> (forall k live, (k, live) ∈ l -> s.(known) !! k = Some live) ->
  let s' := (for_each (match_agreement flip_after records) l s).2 in
  steps flip_after s.(sys) s'.(sys) (mine_of (omap (seed_of records) l)) /\
  s'.(sys).(world) = s.(sys).(world) /\
  (forall k, s'.(known) !! k =
     if decide (k ∈ l.*1) then set_counter (open_counter <$> records !! k) <$> s.(known) !! k
     else s.(known) !! k).
Proof.
  revert s. induction l as [|[k live] l IH]; intros s Hnd Hl; cbn [for_each].
  { split_and!; [by apply steps_refl | done | intros k; by rewrite decide_False by apply not_elem_of_nil]. }
  apply NoDup_cons in Hnd as [Hk Hnd]. unfold mbind, M_bind.
  assert (exists s1, match_agreement flip_after records (k, live) s = (tt, s1) /\
    steps flip_after s.(sys) s1.(sys) (mine_of (option_list (seed_of records (k, live)))) /\
    s1.(sys).(world) = s.(sys).(world) /\
    s1.(known) = <[k := set_counter (open_counter <$> records !! k) live]> s.(known))
    as (s1 & -> & S1 & W1 & K1).
  { unfold match_agreement, seed_of, mbind, M_bind, on_sys, get_known, put_known. cbn.
    destruct (counter live), (records !! k); cbn; eexists; split_and!; try done; cbn;
      first [by apply steps_refl | apply act_steps]. }
  destruct (IH s1 Hnd) as (S2 & W2 & K2).
  { intros k' live' Hin. rewrite K1, lookup_insert_ne; [set_solver|].
    intros <-. apply Hk. apply list_elem_of_fmap. by exists (k, live'). }
  destruct (for_each _ l s1) as [[] s2]. cbn [snd] in *. split_and!; [|congruence|].
  - pose proof (steps_trans _ _ _ _ _ _ S1 S2) as S3. unfold mine_of in *.
    rewrite <- fmap_app in S3. cbn [omap list_omap]. by destruct (seed_of records (k, live)).
  - intros k'. rewrite K2, K1. destruct (decide (k = k')) as [<-|Hne].
    + rewrite decide_False by done. cbn. rewrite decide_True by set_solver.
      rewrite lookup_insert_eq. by rewrite (Hl k live) by set_solver.
    + rewrite lookup_insert_ne by done. cbn. repeat case_decide; set_solver.
Qed.

(** What an entry holds once its agreement has taken its record. *)
Definition seeded (l : Live) (found : option (Stored CounterRecord)) (n : Z) : Z :=
  match l.(counter), found with
  | None, Some st => add_u64 n st.(record).(c_count)
  | _, _ => n
  end.

Lemma seed_of_provider records x r e : seed_of records x = Some (r, e) -> r = x.2.(provider).
Proof. unfold seed_of. by destruct (counter x.2), (records !! x.1); intros; simplify_eq. Qed.

(** Distinct agreements have distinct entries. *)
Lemma one_event_each (s : AS W) (f : EntityKey * Live -> option (ptr * Event)) l :
  agent_inv s -> NoDup l.*1 -> (forall k live, (k, live) ∈ l -> s.(known) !! k = Some live) ->
  (forall x r e, f x = Some (r, e) -> r = x.2.(provider)) ->
  NoDup (omap f l).*1.
Proof.
  intros Hinv Hnd Hl Hf. induction l as [|[k live] l IH]; cbn; [constructor|].
  apply NoDup_cons in Hnd as [Hk Hnd].
  assert (NoDup (omap f l).*1) as Hrest by (apply IH; [done|]; intros; apply Hl; set_solver).
  destruct (f (k, live)) as [[r e]|] eqn:Ef; [|done]. cbn. constructor; [|done].
  intros ([r' e'] & -> & ([k' live'] & Hin & Ef')%list_elem_of_omap)%list_elem_of_fmap.
  apply Hf in Ef, Ef'. cbn in *. subst. apply Hk. apply list_elem_of_fmap.
  exists (k', live'). split; [|done]. cbn.
  eapply provider_inj; [done | apply Hl; left | apply Hl; by right | done].
Qed.

Lemma match_served records (s : AS W) k l :
  agent_inv s -> s.(known) !! k = Some l ->
  let s' := (for_each (match_agreement flip_after records) (iter s.(known)) s).2 in
  entry_served s'.(sys).(pool) l.(provider) =
    seeded l (records !! k) (entry_served s.(sys).(pool) l.(provider)).
Proof.
  intros Hinv Hl s'.
  destruct (match_run records (iter s.(known)) s) as (S1 & _ & _);
    [apply iter_keys | by intros ? ? ?%elem_of_iter |].
  destruct (known_entry s k l Hinv Hl) as (p & Hp & Es).
  destruct (steps_served _ _ _ _ _ _ S1 (mi_wf _ _ _ Hinv) Hp) as (p' & Hp' & Es').
  fold s' in Hp'. unfold entry_served at 1. rewrite Hp', Es', Es.
  set (evs := omap (seed_of records) (iter (known s))).
  assert (forall r e, (r, e) ∈ evs -> exists k' l', s.(known) !! k' = Some l' /\
    seed_of records (k', l') = Some (r, e) /\ r = l'.(provider)) as Hevs.
  { intros r e ([k' l'] & Hin%elem_of_iter & Hse)%list_elem_of_omap. exists k', l'. split_and!; try done.
    by apply seed_of_provider in Hse. }
  destruct (seed_of records (k, l)) as [[r e]|] eqn:Hse.
  - rewrite (served_through_in l.(provider) e).
    + unfold seed_of, seeded in *. cbn in Hse. by destruct (counter l), (records !! k); simplify_eq.
    + apply (one_event_each s); [done | apply iter_keys | by intros ? ? ?%elem_of_iter |].
      intros [k' l'] r' e'. apply seed_of_provider.
    + apply list_elem_of_omap. exists (k, l). split; [by apply elem_of_iter|].
      unfold seed_of in *. cbn in *. by destruct (counter l), (records !! k); simplify_eq.
  - rewrite served_through_out.
    + unfold seed_of, seeded in *. cbn in Hse. by destruct (counter l), (records !! k); simplify_eq.
    + intros ([r e] & E0 & Hin)%list_elem_of_fmap. cbn in E0.
      destruct (Hevs _ _ Hin) as (k' & l' & Hl' & Hse' & E).
      assert (k' = k) as -> by (eapply (provider_inj s); [done..|congruence]). congruence.
Qed.

(** ** Records found closed leave memory, and their counts the entries *)

Lemma entry_served_act r e pl r' :
  is_Some (entry pl r) ->
  entry_served (update r (apply_event flip_after e) pl) r' =
    if decide (r = r') then served_event e (entry_served pl r') else entry_served pl r'.
Proof.
  intros [p Hp]. unfold entry_served. rewrite entry_update. case_decide as Hr; [|done].
  subst r'. rewrite Hp. cbn. apply apply_event_served.
Qed.

(** What an entry holds once closed records were forgotten. *)
Definition forgotten (n : Z) (closed : option Z) : Z :=
  match closed with Some x => sat_sub n x | None => n end.

(** Memory and entries after the records in [closed] were forgotten. *)
Record forgets (s s' : AS W) (closed : gmap EntityKey Z) : Prop := {
  forgets_inv : agent_inv s';
  forgets_world : s'.(sys).(world) = s.(sys).(world);
  forgets_known : forall k, s'.(known) !! k =
    if decide (is_Some (closed !! k)) then set_counter None <$> s.(known) !! k else s.(known) !! k;
  forgets_served : forall k l, s.(known) !! k = Some l ->
    entry_served s'.(sys).(pool) l.(provider) =
      forgotten (entry_served s.(sys).(pool) l.(provider)) (closed !! k);
}.

Lemma forget_counter_run k n s :
  agent_inv s -> is_Some (s.(known) !! k) ->
  forgets s (forget_counter flip_after (k, n) s).2 {[k := n]}.
Proof.
  intros Hinv [live Hk]. unfold forget_counter, mbind, M_bind, get_known. rewrite Hk.
  unfold on_sys, act, put_known. cbn [fst snd sys known].
  constructor; cbn [sys known pool world].
  - eapply mirrors_same; [exact Hinv | done | apply update_ident | apply update_wf, Hinv |].
    by eapply same_view_insert.
  - done.
  - intros k'. destruct (decide (k = k')) as [<-|Hne].
    + by rewrite lookup_insert_eq, lookup_singleton_eq, decide_True, Hk by done.
    + rewrite lookup_insert_ne, lookup_singleton_ne by done. rewrite decide_False; [done|].
      by intros [].
  - intros k' l Hl. rewrite entry_served_act.
    2:{ destruct (known_entry s k live Hinv Hk) as (p & -> & _). done. }
    destruct (decide (k = k')) as [<-|Hne].
    + rewrite Hk in Hl. injection Hl as <-. by rewrite decide_True, lookup_singleton_eq by done.
    + rewrite lookup_singleton_ne by done. rewrite decide_False; [done|].
      intros E. apply Hne. by eapply (provider_inj s).
Qed.

Lemma forgets_trans s1 s2 s3 k n m :
  forgets s1 s2 {[k := n]} -> forgets s2 s3 m -> m !! k = None -> forgets s1 s3 (<[k := n]> m).
Proof.
  intros [I1 W1 K1 E1] [I2 W2 K2 E2] Hm. constructor; [done|congruence|..].
  - intros k'. rewrite K2, K1. destruct (decide (k = k')) as [<-|Hne].
    + rewrite Hm, lookup_insert_eq, lookup_singleton_eq.
      rewrite decide_False by (by intros []). by rewrite !decide_True.
    + rewrite lookup_insert_ne, lookup_singleton_ne by done.
      case_decide; [|by rewrite decide_False by (by intros [])].
      by rewrite decide_False by (by intros []).
  - intros k' l Hl. destruct (decide (k = k')) as [<-|Hne].
    + rewrite lookup_insert_eq. specialize (E1 _ _ Hl). rewrite lookup_singleton_eq in E1.
      rewrite <- E1. specialize (K1 k). rewrite lookup_singleton_eq, Hl, decide_True in K1 by done.
      specialize (E2 _ _ K1). rewrite Hm in E2. exact E2.
    + rewrite lookup_insert_ne by done. specialize (E1 _ _ Hl).
      rewrite lookup_singleton_ne in E1 by done. cbn in E1. rewrite <- E1. apply E2.
      rewrite K1, lookup_singleton_ne by done. by rewrite decide_False by (by intros []).
Qed.

Lemma forget_run closed s :
  agent_inv s -> NoDup closed.*1 -> Forall (fun x => is_Some (s.(known) !! x.1)) closed ->
  forgets s (for_each (forget_counter flip_after) closed s).2 (list_to_map closed).
Proof.
  revert s. induction closed as [|[k n] closed IH]; intros s Hinv Hnd Hall; cbn [for_each].
  { by constructor. }
  apply NoDup_cons in Hnd as [Hk Hnd]. apply Forall_cons in Hall as [Hs Hall].
  unfold mbind, M_bind. pose proof (forget_counter_run k n s Hinv Hs) as Hf.
  destruct (forget_counter flip_after (k, n) s) as [[] s1]. cbn [snd] in Hf.
  cbn [list_to_map foldr]. eapply forgets_trans; [exact Hf | | by apply not_elem_of_list_to_map_1].
  apply IH; [apply Hf | done |].
  eapply Forall_impl; [exact Hall|]. intros [k' n'] Hs'. cbn in *.
  rewrite (forgets_known _ _ _ Hf). case_decide; [by rewrite fmap_is_Some | done].
Qed.
End match_records.

(** * The record an agreement counts into *)

(** [records] split into the ones counted into and the keys of the rest. *)
Definition splits (records : list (Stored CounterRecord)) (x : CountersByAgreement * list EntityKey) : Prop :=
  (forall a st, x.1 !! a = Some st ->
     st ∈ records /\ st.(record).(c_agreement) = a /\
     (forall st', st' ∈ records -> st'.(record).(c_agreement) = a -> earlier st st')) /\
  (forall st, st ∈ records -> is_Some (x.1 !! st.(record).(c_agreement))) /\
  key <$> records ≡ₚ (key ∘ snd <$> map_to_list x.1) ++ x.2.

Lemma splits_step records st oldest dups :
  splits records (oldest, dups) -> Forall (fun x => older x st = true) records ->
  splits (records ++ [st])
    match oldest !! st.(record).(c_agreement) with
    | None => (<[st.(record).(c_agreement) := st]> oldest, dups)
    | Some _ => (oldest, dups ++ [st.(key)])
    end.
Proof.
  intros (Hold & Hall & Hkeys) Hle. rewrite Forall_forall in Hle. cbn [fst snd] in *.
  destruct (oldest !! c_agreement (record st)) as [st0|] eqn:E; split_and!; cbn [fst snd].
  - intros a x Hx. destruct (Hold a x Hx) as (Hin & Ea & Hx').
    split_and!; [set_solver | done |]. intros st' [Hst'| ->%list_elem_of_singleton]%elem_of_app Ea';
      [by apply Hx' | by apply older_earlier, Hle].
  - intros x [Hx| ->%list_elem_of_singleton]%elem_of_app; [by apply Hall | by rewrite E].
  - rewrite fmap_app, Hkeys. cbn. by rewrite (assoc_L (++)).
  - intros a x. rewrite lookup_insert_Some. intros [[<- <-]|[Hne Hx]].
    + split_and!; [set_solver | done |].
      intros st' [Hst'| ->%list_elem_of_singleton]%elem_of_app Ea';
        [|apply older_earlier, older_refl].
      destruct (Hall _ Hst') as [? E']. congruence.
    + destruct (Hold a x Hx) as (Hin & Ea & Hx'). split_and!; [set_solver | done |].
      intros st' [Hst'| ->%list_elem_of_singleton]%elem_of_app Ea'; [by apply Hx' | congruence].
  - intros x [Hx| ->%list_elem_of_singleton]%elem_of_app.
    + apply lookup_insert_is_Some'. right. by apply Hall.
    + by rewrite lookup_insert_eq.
  - rewrite fmap_app, Hkeys, map_to_list_insert by done. cbn.
    by rewrite Permutation_app_comm.
Qed.

(** An agreement counts into its oldest open record - the earliest
    created, the least key within one block - and into no other: the
    rest are the duplicates, and none is lost. *)
Theorem oldest_record_wins records : splits records (oldest_per_agreement records).
Proof.
  assert (forall l seen x, StronglySorted (fun x y => older x y = true) (seen ++ l) -> splits seen x ->
    splits (seen ++ l) (foldl (fun '(oldest, duplicates) stored =>
      match oldest !! stored.(record).(c_agreement) with
      | None => (<[stored.(record).(c_agreement) := stored]> oldest, duplicates)
      | Some _ => (oldest, duplicates ++ [stored.(key)])
      end) x l)) as Hfold.
  { induction l as [|st l IH]; intros seen [oldest dups] Hs Hx; [by rewrite app_nil_r|].
    cbn [foldl]. rewrite (cons_middle st seen l), (assoc_L (++)) in *. apply IH; [done|].
    apply splits_step; [done|]. clear -Hs. rewrite <- (assoc_L (++)) in Hs.
    induction seen as [|y seen IHs]; [constructor|]. apply StronglySorted_inv in Hs as [Hs Hy].
    constructor; [|by apply IHs]. rewrite Forall_forall in Hy. apply Hy. set_solver. }
  pose proof (Hfold (sort_by older records) [] (∅, []) (older_sorted records)) as (H1 & H2 & H3).
  { split_and!; cbn [fst snd]; [intros a st; by rewrite lookup_empty | by intros st ?%elem_of_nil |].
    by rewrite map_to_list_empty. }
  fold (oldest_per_agreement records) in *. cbn [app] in *. split_and!.
  - intros a st Hst. destruct (H1 a st Hst) as (Hin & Ea & Hle).
    rewrite sort_by_perm in Hin. split_and!; [done..|]. intros st' Hst'. apply Hle. by rewrite sort_by_perm.
  - intros st Hst. apply H2. by rewrite sort_by_perm.
  - rewrite <- H3. by rewrite sort_by_perm.
Qed.

(** * The counter reconcile *)

Section counters.
Context `{Alloy} `{SerdeJson} `{UrlLib} `{HashOrder}.
Context {W : Type} `{World W} `{Issuer W} `{Memory W} `{Quiet_memory : !QuietMemory W}.
Context (flip_after : Z).
Context {R Wr : Type} `{ChainReader R (Sys W)} `{ChainWriter Wr (Sys W)}.
Context `{Chain_laws : !Chain R Wr W flip_after}.
Context (ag : Agent R Wr).

Lemma drifts_read_open_counters head : drifts flip_after (read_open_counters ag head).
Proof using Type*. unfold read_open_counters. drift_steps. Qed.

Lemma drifts_closed_count c : drifts flip_after (closed_count ag c).
Proof using Type*. unfold closed_count. drift_steps. Qed.

Lemma drifts_closed_counts missing : drifts flip_after (closed_counts ag missing).
Proof using Type*.
  induction missing as [|[a c] missing IH]; cbn [closed_counts]; [apply drifts_ret|].
  apply drifts_bind; [apply drifts_closed_count|]. intros [n|e]; [|apply drifts_ret].
  apply drifts_bind; [done|]. intros [rest|e]; apply drifts_ret.
Qed.

(** The chain's answer to a query for one record: [Some n] when it was
    closed with [n], [None] when it is not there, not a counter record, or
    not closed. *)
Definition shows_closed (page : Page) (closed : option Z) : Prop :=
  forall n, closed = Some n <-> exists e rest st, page.(entities) = e :: rest /\
    stored_decode (T := CounterRecord) e = Ok st /\ st.(record).(c_state) = Closed /\
    st.(record).(c_count) = n.

(** One record asked for, by its key among the LB's own counters. *)
Definition record_query (c : EntityKey) : Query :=
  mkQuery [CAttribute "kind" (AStr "rpc.counter"); CAttribute "v" (AI32 SCHEMA_VERSION);
           CCreator ag.(agent_identity).(address); CKey c] None.

(** Records memory counts into that are not open any more, each with its
    agreement, asked for one after another; the first that cannot be read
    stops it. *)
Inductive looked_up : list (EntityKey * EntityKey) -> AS W ->
    result ReconcileError (list (EntityKey * Z)) -> AS W -> Prop :=
| looked_up_all s : looked_up [] s (Ok []) s
| looked_up_stuck a c missing s e s1 :
    awaits (query ag.(reader) (record_query c)) s = (Err e, s1) ->
    looked_up ((a, c) :: missing) s (Err (RcChain e)) s1
| looked_up_later a c missing s page s1 e s2 :
    awaits (query ag.(reader) (record_query c)) s = (Ok page, s1) ->
    looked_up missing s1 (Err e) s2 -> looked_up ((a, c) :: missing) s (Err e) s2
| looked_up_one a c missing s page s1 n found s2 :
    awaits (query ag.(reader) (record_query c)) s = (Ok page, s1) -> shows_closed page n ->
    looked_up missing s1 (Ok found) s2 ->
    looked_up ((a, c) :: missing) s
      (Ok (match n with Some n => (a, n) :: found | None => found end)) s2.

Lemma closed_count_run c s :
  match awaits (query ag.(reader) (record_query c)) s with
  | (Err e, s1) => closed_count ag c s = (Err (RcChain e), s1)
  | (Ok page, s1) => exists n, closed_count ag c s = (Ok n, s1) /\ shows_closed page n
  end.
Proof.
  unfold closed_count, mbind, M_bind.
  change (query_key c _) with (record_query c).
  destruct (awaits (query _ _) s) as [[page|e] s1]; [|done]. unfold shows_closed.
  destruct (entities page) as [|x rest]; cbn;
    [eexists; split; [done|]; split; [done | by intros (? & ? & ? & ? & _)]|].
  destruct (stored_decode x) as [st|] eqn:Ed; cbn;
    [destruct (c_state (record st)) eqn:Es|]; cbn; (eexists; split; [done|]); intros n; split;
    try done; try (intros (x' & rest' & st' & [= <- <-] & Ed' & Es' & En); congruence).
  intros [= <-]. by exists x, rest, st.
Qed.

Lemma closed_counts_run missing s :
  looked_up missing s (closed_counts ag missing s).1 (closed_counts ag missing s).2.
Proof.
  revert s. induction missing as [|[a c] missing IH]; intros s; cbn [closed_counts]; [constructor|].
  unfold mbind, M_bind. pose proof (closed_count_run c s) as Hc.
  destruct (awaits _ s) as [[page|e] s1] eqn:Eq; [|by rewrite Hc; eapply looked_up_stuck].
  destruct Hc as (n & -> & Hn). specialize (IH s1).
  destruct (closed_counts ag missing s1) as [[found|e] s2]; cbn in *;
    [by eapply looked_up_one | by eapply looked_up_later].
Qed.

Lemma looked_up_keys missing s found s' :
  looked_up missing s (Ok found) s' -> found.*1 `sublist_of` missing.*1.
Proof.
  remember (Ok found) as out eqn:E. intros Hl. revert found E.
  induction Hl as [| | |a c missing s page s1 n found s2 _ _ _ IH]; intros out' E; simplify_eq; [done|].
  specialize (IH _ eq_refl). by destruct n; constructor.
Qed.

(** What memory and entries are after a counter reconcile, from the state
    [s1] all its reads left. *)
Record takes_counters (oldest : CountersByAgreement) (closed : gmap EntityKey Z) (s1 s' : AS W) : Prop := {
  (** What the chain shows is what memory holds. *)
  tc_known : forall k, s'.(known) !! k =
    set_counter (open_counter <$> oldest !! k) <$> s1.(known) !! k;
  (** A record new to memory is counted in, once; one found closed is
      counted out; every other entry is left alone. *)
  tc_served : forall k l, s1.(known) !! k = Some l ->
    let n := entry_served s1.(sys).(pool) l.(provider) in
    entry_served s'.(sys).(pool) l.(provider) =
      match l.(counter), oldest !! k with
      | None, Some st => add_u64 n st.(record).(c_count)
      | Some _, None => forgotten n (closed !! k)
      | _, _ => n
      end;
  tc_inv : agent_inv s';
}.

(** The records memory counts into, with their agreements, that are not
    among the open ones. *)
Definition vanished (oldest : CountersByAgreement) (m : KnownAgreements)
    (missing : list (EntityKey * EntityKey)) : Prop :=
  NoDup missing.*1 /\
  forall k c, (k, c) ∈ missing <-> exists l oc, m !! k = Some l /\ l.(counter) = Some oc /\
    oc.(oc_key) = c /\ oldest !! k = None.

(** The open records are read; each agreement counts into its earliest
    one; what memory counts into and is not among these is looked up. *)
Definition reconciles_counters (head : Z) (s : AS W) (out : result ReconcileError Counters * AS W) : Prop :=
  let open_query := own_alive ag "rpc.counter" [CAttribute "state" (AStr "open")] head in
  match out with
  | (Err e, s') => drift flip_after s s' /\
      (rows_read ag (T := CounterRecord) "open counter" open_query s (Err e) s' \/
       exists records s0 oldest duplicates missing,
         rows_read ag "open counter" open_query s (Ok records) s0 /\
         splits records (oldest, duplicates) /\ vanished oldest s0.(known) missing /\
         looked_up missing s0 (Err e) s')
  | (Ok counters, s') => exists records s0 oldest missing found s1,
      rows_read ag "open counter" open_query s (Ok records) s0 /\
      splits records (oldest, counters.(duplicates)) /\ vanished oldest s0.(known) missing /\
      looked_up missing s0 (Ok found) s1 /\
      drift flip_after s s0 /\ drift flip_after s0 s1 /\
      takes_counters oldest (list_to_map found) s1 s' /\
      (forall k st, counters.(open) !! k = Some st <-> oldest !! k = Some st /\ is_Some (s1.(known) !! k)) /\
      counters.(strays) ≡ₚ (map_to_list (filter (fun x => s1.(known) !! x.1 = None) oldest)).*2
  end.

Lemma omap_keys {A B} (f : EntityKey * A -> option (EntityKey * B)) l :
  (forall x y, f x = Some y -> y.1 = x.1) -> (omap f l).*1 `sublist_of` l.*1.
Proof.
  intros Hf. induction l as [|x l IH]; cbn; [constructor|].
  destruct (f x) as [y|] eqn:E; cbn; [|by constructor]. rewrite (Hf _ _ E). by constructor.
Qed.

(** The records memory holds that are no longer among the open ones. *)
Definition missing_of (oldest : CountersByAgreement) (m : KnownAgreements) :
    list (EntityKey * EntityKey) :=
  omap (fun x => if decide (is_Some (oldest !! x.1)) then None
                 else (fun c => (x.1, c.(oc_key))) <$> x.2.(counter)) (iter m).

Lemma missing_of_vanished oldest m : vanished oldest m (missing_of oldest m).
Proof.
  split.
  - eapply sublist_NoDup; [apply (iter_keys m)|]. apply omap_keys.
    intros [k l] y. cbn. case_decide; [done|]. by destruct (counter l); cbn; intros; simplify_eq/=.
  - intros k c. unfold missing_of. rewrite list_elem_of_omap. split.
    + intros ([k' l] & Hin%elem_of_iter & E). cbn in E. case_decide as Ho; [done|].
      destruct (counter l) as [oc|] eqn:Ec; [|done]. injection E as -> <-. exists l, oc.
      by rewrite <- eq_None_not_Some in Ho.
    + intros (l & oc & Hl & Ec & <- & Ho). exists (k, l). split; [by apply elem_of_iter|]. cbn.
      rewrite Ho, decide_False, Ec by (by intros []). done.
Qed.

Lemma forget_closed_run oldest s :
  agent_inv s ->
  match forget_closed_counters flip_after ag oldest s with
  | (Err e, s') => drift flip_after s s' /\ looked_up (missing_of oldest s.(known)) s (Err e) s'
  | (Ok _, s') => exists s1 found, drift flip_after s s1 /\
      looked_up (missing_of oldest s.(known)) s (Ok found) s1 /\
      forgets s1 s' (list_to_map found) /\
      forall k n, (list_to_map found : gmap EntityKey Z) !! k = Some n -> exists l c,
        s1.(known) !! k = Some l /\ l.(counter) = Some c /\ oldest !! k = None
  end.
Proof using Type*.
  intros Hinv. unfold forget_closed_counters, get_known, mbind, M_bind.
  fold (missing_of oldest s.(known)).
  pose proof (drifts_closed_counts (missing_of oldest s.(known)) s) as D.
  pose proof (closed_counts_run (missing_of oldest s.(known)) s) as Hrun.
  destruct (closed_counts ag _ s) as [[found|e] s1]; cbn [fst snd] in *; [|done].
  pose proof (looked_up_keys _ _ _ _ Hrun) as Hsub.
  destruct (missing_of_vanished oldest s.(known)) as [Hmnd Hmin].
  assert (forall a, a ∈ found.*1 -> exists l c, s1.(known) !! a = Some l /\
    l.(counter) = Some c /\ oldest !! a = None) as Hc.
  { intros a Ha. eapply elem_of_sublist in Ha; [|exact Hsub].
    apply list_elem_of_fmap in Ha as ([a' c] & -> & (l0 & oc & Hl0 & Ec & _ & Ho)%Hmin). cbn.
    pose proof (drift_core flip_after s s1 a' D) as Ecore. rewrite Hl0 in Ecore.
    apply fmap_Some in Ecore as (l & Hl & E). exists l, oc. split_and!; try done.
    unfold core in E. congruence. }
  pose proof (forget_run flip_after found s1) as Hf.
  destruct (for_each _ found s1) as [[] s2]. cbn in *. exists s1, found.
  split_and!; [done..| |].
  - apply Hf; [by eapply drift_inv | by eapply sublist_NoDup |].
    apply Forall_forall. intros [a n] Ha.
    destruct (Hc a) as (l & ? & Hl & _); [by apply (list_elem_of_fmap_2 fst) in Ha | by exists l].
  - intros k n Hk%elem_of_list_to_map_2. apply Hc. by apply (list_elem_of_fmap_2 fst) in Hk.
Qed.

Lemma match_inv records s :
  agent_inv s -> agent_inv (for_each (match_agreement flip_after records) (iter s.(known)) s).2.
Proof.
  intros Hinv.
  assert (forall l s, NoDup l.*1 -> agent_inv s ->
    (forall k live, (k, live) ∈ l -> s.(known) !! k = Some live) ->
    agent_inv (for_each (match_agreement flip_after records) l s).2) as Hgen.
  { clear s Hinv. induction l as [|[k live] l IH]; intros s Hnd Hinv Hl; [done|].
    apply NoDup_cons in Hnd as [Hk Hnd]. cbn [for_each]. unfold mbind, M_bind.
    destruct (match_run flip_after records [(k, live)] s) as (_ & _ & K1).
    { apply NoDup_singleton. }
    { intros k' live' [= -> ->]%list_elem_of_singleton. apply Hl. left. }
    cbn [for_each] in K1. unfold mbind, M_bind in K1.
    assert (agent_inv (match_agreement flip_after records (k, live) s).2) as H1'.
    { unfold match_agreement, mbind, M_bind, on_sys, get_known, put_known.
      assert (s.(known) !! k = Some live) as Hlive by (apply Hl; left).
      destruct (counter live), (records !! k); cbn;
        (eapply mirrors_same; [exact Hinv | done | | | by eapply same_view_insert]);
        try done; try apply Hinv; [apply update_ident | apply update_wf, Hinv]. }
    destruct (match_agreement _ _ _ s) as [[] s1]. cbn in K1, H1'. apply IH; [done..|].
    intros k' live' Hin. rewrite K1, decide_False; [apply Hl; by right|].
    intros ->%list_elem_of_singleton. apply Hk. apply list_elem_of_fmap. by exists (k, live'). }
  apply Hgen; [apply iter_keys | done | by intros ? ? ?%elem_of_iter].
Qed.

Lemma takes_counters_intro oldest closed s1 s2 :
  agent_inv s1 -> forgets s1 s2 closed ->
  (forall k n, closed !! k = Some n -> exists l c, s1.(known) !! k = Some l /\
     l.(counter) = Some c /\ oldest !! k = None) ->
  takes_counters oldest closed s1
    (for_each (match_agreement flip_after oldest) (iter s2.(known)) s2).2.
Proof using Type*.
  intros Hinv [I2 W2 K2 E2] Hclosed.
  destruct (match_run flip_after oldest (iter s2.(known)) s2) as (_ & _ & K3);
    [apply iter_keys | by intros ? ? ?%elem_of_iter |].
  constructor; [| |by apply match_inv].
  - intros k. rewrite K3, K2. destruct (s1.(known) !! k) as [l|] eqn:E.
    + rewrite decide_True; [by case_decide|]. apply elem_of_iter_keys. rewrite K2, E.
      by case_decide.
    + by repeat case_decide.
  - intros k l Hl. cbv zeta. specialize (E2 k l Hl). specialize (K2 k). rewrite Hl in K2.
    assert (exists l2, s2.(known) !! k = Some l2 /\ l2.(provider) = l.(provider) /\
      l2.(counter) = (if decide (is_Some (closed !! k)) then None else l.(counter)))
      as (l2 & Hl2 & Ep & Ec).
    { rewrite K2. case_decide; cbn; by eexists. }
    rewrite <- Ep, (match_served flip_after oldest s2 k l2 I2 Hl2), Ep.
    unfold seeded. rewrite Ec. destruct (closed !! k) as [n|] eqn:Ek; cbn in E2 |- *.
    + rewrite decide_True by done. destruct (Hclosed k n Ek) as (l' & c & Hl' & Ec' & ->).
      assert (l' = l) as -> by congruence. rewrite Ec'. cbn. by rewrite <- E2.
    + rewrite decide_False by (by intros []). rewrite <- E2. by destruct (counter l), (oldest !! k).
Qed.

Lemma read_open_counters_run head s :
  let '(out, s1) := read_open_counters ag head s in
  rows_read ag "open counter" (own_alive ag "rpc.counter" [CAttribute "state" (AStr "open")] head) s out s1.
Proof.
  unfold read_open_counters, mbind, M_bind.
  change (expires_after head _) with (own_alive ag "rpc.counter" [CAttribute "state" (AStr "open")] head).
  destruct (awaits (count _ _) s) as [[n|e] s1] eqn:Ec; [|by apply rows_uncounted].
  destruct (Z.ltb_spec PAGE_LIMIT n); [by eapply rows_too_many|].
  destruct (awaits (query _ _) s1) as [[page|e] s2] eqn:Eq; [|by eapply rows_unread].
  by eapply rows_came.
Qed.

Lemma reconcile_counters_run head s :
  agent_inv s -> reconciles_counters head s (reconcile_counters flip_after ag head s).
Proof using Type*.
  intros Hinv. unfold reconciles_counters, reconcile_counters, mbind, M_bind.
  pose proof (drifts_read_open_counters head s) as D0. pose proof (read_open_counters_run head s) as Hrows.
  destruct (read_open_counters ag head s) as [[records|e] s0] eqn:Er; cbn [fst snd] in *;
    [|split; [done | by left]].
  pose proof (oldest_record_wins records) as Hsplit.
  destruct (oldest_per_agreement records) as [oldest dups] eqn:Eo.
  assert (agent_inv s0) as Hinv0 by by eapply drift_inv.
  pose proof (forget_closed_run oldest s0 Hinv0) as Hf. pose proof (missing_of_vanished oldest s0.(known)) as Hv.
  destruct (forget_closed_counters flip_after ag oldest s0) as [[[]|e] s2].
  2:{ destruct Hf as [D1 Hlook]. split; [by etrans|]. right. by eexists _, _, _, _, _. }
  destruct Hf as (s1 & found & D1 & Hlook & Hforgets & Hclosed).
  assert (agent_inv s1) as Hinv1 by by eapply drift_inv.
  pose proof (takes_counters_intro oldest (list_to_map found) s1 s2 Hinv1 Hforgets Hclosed) as Htc.
  unfold match_to_agreements, get_known, mbind, M_bind. cbn [fst snd].
  destruct (for_each _ (iter s2.(known)) s2) as [[] s3]. cbn [fst snd mret M_ret] in *.
  assert (forall k, is_Some (s2.(known) !! k) <-> is_Some (s1.(known) !! k)) as Hdom.
  { intros k. rewrite (forgets_known _ _ _ Hforgets). by case_decide; rewrite ?fmap_is_Some. }
  exists records, s0, oldest, (missing_of oldest s0.(known)), found, s1. cbn [open duplicates strays].
  split_and!; try done.
  - intros k st. rewrite map_lookup_filter_Some. cbn. by rewrite Hdom.
  - assert (filter (fun x => s2.(known) !! x.1 = None) oldest =
            filter (fun x => s1.(known) !! x.1 = None) oldest) as ->.
    { apply map_filter_ext. intros k x _. cbn. rewrite !eq_None_not_Some. by rewrite Hdom. }
    by rewrite iter_perm.
Qed.

Lemma keeps_inv_reconcile_counters head : keeps_inv (reconcile_counters flip_after ag head).
Proof using Type*.
  intros s Hs. pose proof (reconcile_counters_run head s Hs) as Hr.
  destruct (reconcile_counters flip_after ag head s) as [[c|e] s']; cbn in *;
    [|eapply drift_inv; [apply Hr | done]].
  destruct Hr as (? & ? & ? & ? & ? & ? & _ & _ & _ & _ & _ & _ & Htc & _). apply Htc.
Qed.

(** ** The flush *)

Lemma drifts_send_flush batch : drifts flip_after (send_flush ag batch).
Proof using Type*. unfold send_flush. drift_steps. Qed.

(** The close of the agreement at [k], when it landed: the count the
    written record carries. *)
Definition landed_close (closing : list Closing) (landed : Landed) (k : EntityKey) : option Z :=
  closing_count <$> List.find (fun c => Z.eqb c.(closing_agreement) k &&
    bool_decide (c.(closing_counter) ∈ landed.(patched))) closing.

Record ends_periods (closing : list Closing) (landed : Landed) (s s' : AS W) : Prop := {
  ep_world : s'.(sys).(world) = s.(sys).(world);
  ep_inv : agent_inv s';
  ep_known : forall k, s'.(known) !! k =
    if decide (is_Some (landed_close closing landed k)) then set_counter None <$> s.(known) !! k
    else s.(known) !! k;
  ep_served : forall k l, s.(known) !! k = Some l ->
    entry_served s'.(sys).(pool) l.(provider) =
      forgotten (entry_served s.(sys).(pool) l.(provider)) (landed_close closing landed k);
}.

(** The successor a landed close is followed by. *)
Definition successor (head : Z) (s : AS W) (c : Closing) : option Operation :=
  l ← s.(known) !! c.(closing_agreement);
  Some (OpCreate (mkCreate
    (encode (fresh_counter c.(closing_agreement) l.(agreement).(record)
       l.(agreement).(record).(ag_wei_per_call) head))
    (Seconds (as_secs ag.(agent_config).(counter_record_life))))).

Definition has_landed (landed : Landed) (c : Closing) : bool :=
  bool_decide (c.(closing_counter) ∈ landed.(patched)).

Lemma end_period_run landed head c s :
  agent_inv s ->
  let '(o, s') := end_period flip_after ag landed head c s in
  ends_periods [c] landed s s' /\
  o = if has_landed landed c then successor head s c else None.
Proof.
  intros Hinv. unfold end_period, has_landed.
  destruct (bool_decide (closing_counter c ∈ patched landed)) eqn:Hl; cbn [negb].
  2:{ cbn. split; [|done]. constructor; try done; intros k; unfold landed_close; cbn; rewrite Hl;
      by rewrite andb_false_r. }
  unfold mbind, M_bind, get_known, successor.
  destruct (s.(known) !! closing_agreement c) as [live|] eqn:Hk; cbn.
  - split; [|done].
    assert (forall k, landed_close [c] landed k =
      if decide (closing_agreement c = k) then Some c.(closing_count) else None) as Hlc.
    { intros k. unfold landed_close. cbn. rewrite Hl, andb_true_r.
      destruct (decide (closing_agreement c = k)) as [E|E];
        [by rewrite (proj2 (Z.eqb_eq _ _) E) | by rewrite (proj2 (Z.eqb_neq _ _) E)]. }
    constructor; cbn [sys known pool world]; [done|..].
    + eapply mirrors_same; [exact Hinv | done | apply update_ident | apply update_wf, Hinv |].
      by eapply same_view_insert.
    + intros k. rewrite Hlc. destruct (decide (closing_agreement c = k)) as [<-|Hne].
      * by rewrite decide_True, lookup_insert_eq, Hk.
      * rewrite decide_False by (by intros []). by rewrite lookup_insert_ne.
    + intros k l Hl'. rewrite Hlc, (entry_served_act flip_after).
      2:{ destruct (known_entry s _ _ Hinv Hk) as (p & -> & _). done. }
      destruct (decide (closing_agreement c = k)) as [<-|Hne].
      * rewrite decide_True by congruence. done.
      * rewrite decide_False; [done|]. intros E. apply Hne. by eapply (provider_inj s).
  - split; [|done].
    assert (forall k, is_Some (landed_close [c] landed k) -> s.(known) !! k = None) as Hno.
    { intros k. unfold landed_close. cbn. destruct (Z.eqb_spec (closing_agreement c) k); [by subst|].
      by intros []. }
    constructor; try done.
    + intros k. destruct (decide (is_Some (landed_close [c] landed k))) as [E|]; [|done].
      by rewrite (Hno _ E).
    + intros k l Hl'. destruct (landed_close [c] landed k) eqn:E; [|done].
      rewrite Hno in Hl' by (by rewrite E). done.
Qed.

Lemma landed_close_cons c closing landed k :
  landed_close (c :: closing) landed k =
    match landed_close [c] landed k with Some n => Some n | None => landed_close closing landed k end.
Proof. unfold landed_close. cbn. by destruct (_ && _). Qed.

Lemma landed_close_other closing landed k :
  k ∉ closing_agreement <$> closing -> landed_close closing landed k = None.
Proof.
  unfold landed_close. intros Hk. destruct (List.find _ closing) as [c|] eqn:E; [|done].
  apply List.find_some in E as [Hin [E _]%andb_true_iff]. apply Z.eqb_eq in E. exfalso. apply Hk.
  rewrite <- E. apply list_elem_of_fmap_2. by apply list_elem_of_In.
Qed.

Lemma landed_close_here c landed k n : landed_close [c] landed k = Some n -> k = closing_agreement c.
Proof. unfold landed_close. cbn. by destruct (Z.eqb_spec (closing_agreement c) k). Qed.

Lemma ends_periods_cons c closing landed s s1 s2 :
  closing_agreement c ∉ closing_agreement <$> closing ->
  ends_periods [c] landed s s1 -> ends_periods closing landed s1 s2 ->
  ends_periods (c :: closing) landed s s2.
Proof.
  intros Hc [W1 I1 K1 E1] [W2 I2 K2 E2]. constructor; [congruence|done|..].
  - intros k. rewrite K2, K1, (landed_close_cons c closing).
    destruct (landed_close [c] landed k) as [n|] eqn:E.
    + apply landed_close_here in E as ->. rewrite landed_close_other by done.
      rewrite decide_False by (by intros []). by rewrite !decide_True.
    + rewrite (decide_False (P := is_Some None)) by (by intros []). done.
  - intros k l Hl. rewrite (landed_close_cons c closing). specialize (E1 k l Hl). specialize (K1 k).
    rewrite Hl in K1. destruct (landed_close [c] landed k) as [n|] eqn:E; cbn in E1 |- *.
    + apply landed_close_here in E as ->. rewrite decide_True in K1 by done.
      specialize (E2 _ _ K1). rewrite landed_close_other in E2 by done. cbn in E2. by rewrite E2.
    + rewrite decide_False in K1 by (by intros []). rewrite <- E1. by apply E2.
Qed.

Lemma end_periods_run closing landed head s :
  agent_inv s -> NoDup (closing_agreement <$> closing) ->
  let '(batch, s') := end_periods flip_after ag closing landed head s in
  ends_periods closing landed s s' /\
  batch = mkBatch (omap (fun c => if has_landed landed c then successor head s c else None) closing).
Proof.
  unfold end_periods, fmap, M_fmap. revert s. induction closing as [|c closing IH]; intros s Hinv Hnd.
  { cbn. split; [|done]. by constructor. }
  apply NoDup_cons in Hnd as [Hc Hnd]. cbn [gather]. unfold mbind, M_bind.
  pose proof (end_period_run landed head c s Hinv) as H1'.
  destruct (end_period flip_after ag landed head c s) as [o s1]. destruct H1' as [E1 ->].
  specialize (IH s1 (ep_inv _ _ _ _ E1) Hnd).
  destruct (gather _ closing s1) as [os s2]. destruct IH as [E2 Eos]. cbn in *.
  injection Eos as ->. split; [by eapply ends_periods_cons|]. f_equal.
  assert (forall c', successor head s1 c' = successor head s c') as Hsucc.
  { intros c'. unfold successor. rewrite (ep_known _ _ _ _ E1). case_decide; [|done].
    by destruct (s.(known) !! closing_agreement c'). }
  assert (omap (fun c => if has_landed landed c then successor head s1 c else None) closing =
    omap (fun c => if has_landed landed c then successor head s c else None) closing) as ->.
  { apply list_omap_ext, Forall_Forall2_diag, Forall_forall. intros c' _. by rewrite Hsucc. }
  by destruct (if has_landed landed c then _ else _).
Qed.

Lemma elem_of_parts {A B C} (f : A -> B * list C) (l : list A) c :
  c ∈ concat (f <$> l).*2 <-> exists x, x ∈ l /\ c ∈ (f x).2.
Proof.
  induction l as [|x l IH]; cbn; [by split; [intros ?%elem_of_nil | intros (? & ?%elem_of_nil & _)]|].
  rewrite elem_of_app, IH. setoid_rewrite elem_of_cons. naive_solver.
Qed.

(** *** What a flush writes *)

(** The open record [st] the agreement at [k] counts into is due for
    settlement: its period is over, and [n] calls are there to settle. A
    stopping LB settles nothing. *)
Definition due (counters : Counters) (head : Z) (fl : Flush) (k : EntityKey)
    (st : Stored CounterRecord) (n : Z) : Prop :=
  counters.(open) !! k = Some st /\ fl = Scheduled /\ 0 < n /\
  add_u64 st.(record).(c_opened_block) (blocks ag.(agent_config).(settlement_period)) <= head.

(** A record with another count, and possibly closed. *)
Definition with_count (c : CounterRecord) (n : Z) : CounterRecord :=
  mkCounterRecord c.(c_agreement) c.(c_provider) c.(c_state) n c.(c_wei_per_call)
    c.(c_opened_block) c.(c_closed_block).
Definition closed_with (c : CounterRecord) (n head : Z) : CounterRecord :=
  mkCounterRecord c.(c_agreement) c.(c_provider) Closed n c.(c_wei_per_call)
    c.(c_opened_block) (Some head).

(** A new period of the agreement [a] at [k]. *)
Definition opens_period (head : Z) (k : EntityKey) (a : Agreement) : Operation -> Prop :=
  opens_counter ag.(agent_config).(counter_record_life)
    (mkCounterRecord k a.(ag_provider) Open 0 a.(ag_wei_per_call) head None).

(** What the batch of the counts holds for one live agreement, whose entry
    holds [n] calls: the close of a record that is due, with these calls;
    another count when it changed; a first record where there is none, but
    not when the LB stops. *)
Inductive counts_write (counters : Counters) (head : Z) (fl : Flush) (s : AS W) :
    EntityKey * Live -> list Operation -> Prop :=
| writes_close k l st op :
    let n := entry_served s.(sys).(pool) l.(provider) in
    due counters head fl k st n -> writes_counter st.(key) (closed_with st.(record) n head) op ->
    counts_write counters head fl s (k, l) [op]
| writes_count k l st op :
    let n := entry_served s.(sys).(pool) l.(provider) in
    counters.(open) !! k = Some st -> ~ due counters head fl k st n -> st.(record).(c_count) <> n ->
    writes_counter st.(key) (with_count st.(record) n) op -> counts_write counters head fl s (k, l) [op]
| writes_unchanged k l st :
    let n := entry_served s.(sys).(pool) l.(provider) in
    counters.(open) !! k = Some st -> ~ due counters head fl k st n -> st.(record).(c_count) = n ->
    counts_write counters head fl s (k, l) []
| writes_first k l op :
    counters.(open) !! k = None -> fl = Scheduled ->
    opens_period head k l.(agreement).(record) op -> counts_write counters head fl s (k, l) [op]
| writes_no_first k l :
    counters.(open) !! k = None -> fl = Stop -> counts_write counters head fl s (k, l) [].

(** A record of no live agreement is closed with its own count, or deleted
    when it has none. *)
Definition stray_write (head : Z) (st : Stored CounterRecord) (op : Operation) : Prop :=
  (st.(record).(c_count) = 0 /\ deletes st.(key) op) \/
  (st.(record).(c_count) <> 0 /\
   writes_counter st.(key) (closed_with st.(record) st.(record).(c_count) head) op).

Definition leftovers_write (counters : Counters) (head : Z) (fl : Flush) (ops : list Operation) : Prop :=
  match fl with
  | Stop => ops = []
  | Scheduled => exists twice strayed, ops = twice ++ strayed /\
      Forall2 deletes counters.(duplicates) twice /\
      Forall2 (stray_write head) counters.(strays) strayed
  end.

(** A batch sent, with its reports; an empty one is not sent. *)
Definition sends (ops : list Operation) (s : AS W) (sent : list Sent_) (s' : AS W) : Prop :=
  (ops = [] /\ sent = [] /\ s' = s) \/
  (ops <> [] /\ awaits (send ag.(writer) (mkBatch ops)) s = (sent, s')).

(** The chain reported the entity patched. *)
Definition landed_on (sent : list Sent_) (k : EntityKey) : Prop :=
  exists x r, x ∈ sent /\ x.(sent_result) = Ok r /\ k ∈ r.(patched_entities).

(** The close of the agreement at [k] landed, with the [n] calls its entry
    held when the batch was built. *)
Definition close_landed (counters : Counters) (head : Z) (fl : Flush) (s1 : AS W)
    (sent : list Sent_) (k : EntityKey) (n : Z) : Prop :=
  exists l st, s1.(known) !! k = Some l /\ n = entry_served s1.(sys).(pool) l.(provider) /\
    due counters head fl k st n /\ landed_on sent st.(key).

(** What the write of the counts, from [s1] to [s2], and the end of the
    periods it closed, to [s3], make of one agreement's calls. *)
Record bills (landed : EntityKey -> Z -> Prop) (s1 s2 s3 : AS W) : Prop := {
  bi_inv : agent_inv s3;
  (** The calls written leave the entry, the ones served meanwhile stay. *)
  bi_during : exists hs, steps flip_after s1.(sys) s2.(sys) hs /\ Forall quiet_step hs /\
    forall k l, s1.(known) !! k = Some l ->
      let n := entry_served s1.(sys).(pool) l.(provider) in
      let during := calls l.(provider) hs in
      0 <= n -> n + during <= u64_max ->
      (landed k n -> entry_served s3.(sys).(pool) l.(provider) = during) /\
      ((forall x, ~ landed k x) -> entry_served s3.(sys).(pool) l.(provider) = n + during);
  (** The closed record is no longer the one counted into. *)
  bi_counter : forall k,
    ((exists n, landed k n) -> s3.(known) !! k = set_counter None <$> s2.(known) !! k) /\
    ((forall n, ~ landed k n) -> s3.(known) !! k = s2.(known) !! k);
}.

(** The periods that follow the closed ones: one for each. *)
Definition follow (landed : EntityKey -> Z -> Prop) (head : Z) (s2 : AS W) (new : list Operation) : Prop :=
  exists ks, NoDup ks /\ (forall k, k ∈ ks <-> exists n, landed k n) /\
    Forall2 (fun k op => exists l, s2.(known) !! k = Some l /\
      opens_period head k l.(agreement).(record) op) ks new.

(** What a whole flush does. *)
Definition flush_bills (fl : Flush) (s s' : AS W) : Prop :=
  match awaits (block_number ag.(reader)) s with
  | (Err _, s0) => s' = s0 /\ drift flip_after s s'
  | (Ok head, s0) => drift flip_after s s0 /\
      match reconcile_counters flip_after ag head s0 with
      | (Err _, s1) => s' = s1 /\ drift flip_after s0 s'
      | (Ok counters, s1) => reconciles_counters head s0 (Ok counters, s1) /\
          exists rows left counts sent s2 new s3 sent',
            rows ≡ₚ map_to_list s1.(known) /\
            leftovers_write counters head fl left /\
            Forall2 (counts_write counters head fl s1) rows counts /\
            sends (left ++ concat counts) s1 sent s2 /\
            bills (close_landed counters head fl s1 sent) s1 s2 s3 /\
            follow (close_landed counters head fl s1 sent) head s2 new /\
            sends new s3 sent' s' /\ drift flip_after s3 s'
      end
  end.

(** *** That it does *)

Lemma due_decides counters head fl k st n :
  counters.(open) !! k = Some st ->
  (bool_decide (fl = Scheduled) && Z.ltb 0 n &&
     Z.leb (add_u64 st.(record).(c_opened_block) (blocks ag.(agent_config).(settlement_period))) head = true
   <-> due counters head fl k st n).
Proof.
  intros Hk. unfold due. rewrite !andb_true_iff, bool_decide_eq_true, Z.ltb_lt, Z.leb_le. tauto.
Qed.

(** One agreement's part of the batch, and the close it asks for. *)
Lemma count_one_run counters head fl (s : AS W) k l :
  let n := entry_served s.(sys).(pool) l.(provider) in
  counts_write counters head fl s (k, l) (count_one ag counters head fl n (k, l)).1 /\
  forall c, c ∈ (count_one ag counters head fl n (k, l)).2 <->
    exists st, due counters head fl k st n /\ c = mkClosing k st.(key) n.
Proof.
  intros n. unfold count_one. destruct (counters.(open) !! k) as [st|] eqn:Ek.
  2:{ split; [|intros c; case_bool_decide; split; try (by intros ?%elem_of_nil);
        intros (st & (? & _) & _); congruence].
      case_bool_decide as E; [by apply writes_no_first|]. destruct fl; [|done].
      apply writes_first; [done..|]. apply create_opens_counter. }
  pose proof (due_decides counters head fl k st n Ek) as Hd.
  assert (forall st', due counters head fl k st' n -> st' = st) as Hst by (intros st' (? & _); congruence).
  destruct (_ && _) eqn:Eb; cbn [fst snd].
  - destruct Hd as [Hd _]. specialize (Hd eq_refl). split.
    + eapply writes_close; [exact Hd|]. apply patch_writes_counter.
    + intros c. rewrite list_elem_of_singleton. split.
      * intros ->. by exists st.
      * by intros (st' & ->%Hst & ->).
  - assert (~ due counters head fl k st n) as Hn by (intros Hn%Hd; congruence).
    assert (forall c, c ∈ [] <-> exists st', due counters head fl k st' n /\ c = mkClosing k st'.(key) n) as Hnone.
    { intros c. split; [by intros ?%elem_of_nil|]. intros (st' & Hd' & _).
      by rewrite (Hst st' Hd') in Hd'. }
    destruct (Z.eqb_spec st.(record).(c_count) n); (split; [|exact Hnone]).
    + by eapply writes_unchanged.
    + eapply writes_count; [done..|]. apply patch_writes_counter.
Qed.

Lemma count_one_key counters head fl n k l c :
  c ∈ (count_one ag counters head fl n (k, l)).2 ->
  c.(closing_agreement) = k /\ (count_one ag counters head fl n (k, l)).2 = [c].
Proof.
  unfold count_one. repeat case_match; cbn; try (by intros ?%elem_of_nil);
    by intros ->%list_elem_of_singleton.
Qed.

Lemma leftovers_run counters head fl : leftovers_write counters head fl (leftovers counters head fl).
Proof.
  unfold leftovers_write, leftovers. destruct fl; [|done]. eexists _, _. split; [done|].
  split; apply Forall2_fmap_r, Forall_Forall2_diag, Forall_forall; [done|].
  intros st _. unfold stray_write, compose. destruct (Z.eqb_spec (c_count (record st)) 0); [by left|].
  right. split; [done|]. apply patch_writes_counter.
Qed.

Lemma distinct_closings {A} (f : EntityKey * Live -> A * list Closing) rows :
  (forall x c, c ∈ (f x).2 -> c.(closing_agreement) = x.1 /\ (f x).2 = [c]) ->
  NoDup rows.*1 -> NoDup (closing_agreement <$> concat (f <$> rows).*2).
Proof.
  intros Hf. induction rows as [|x rows IH]; cbn; [constructor|]. intros [Hx Hnd]%NoDup_cons.
  rewrite fmap_app. apply NoDup_app. split_and!; [| |by apply IH].
  - destruct (f x).2 as [|c cs] eqn:Ef; [constructor|]. destruct (Hf x c) as [_ E].
    { rewrite Ef. left. }
    rewrite <- Ef, E. apply NoDup_singleton.
  - intros a (c & -> & Hc)%list_elem_of_fmap (c' & E & (y & Hin & Hc')%elem_of_parts)%list_elem_of_fmap.
    apply Hf in Hc as [Hc _], Hc' as [Hc' _]. apply Hx. apply list_elem_of_fmap.
    exists y. split; [congruence | done].
Qed.

(** The batch of the counts: what it holds, and the closes in it. *)
Lemma counts_batch_run counters head fl (s : AS W) :
  let '(batch, closing) := counts_batch ag s.(sys).(pool) s.(known) counters head fl in
  exists left counts, batch = mkBatch (left ++ concat counts) /\
    leftovers_write counters head fl left /\
    Forall2 (counts_write counters head fl s) (iter s.(known)) counts /\
    NoDup (closing_agreement <$> closing) /\
    (forall c, c ∈ closing <-> exists l st, s.(known) !! c.(closing_agreement) = Some l /\
       due counters head fl c.(closing_agreement) st (entry_served s.(sys).(pool) l.(provider)) /\
       c = mkClosing c.(closing_agreement) st.(key) (entry_served s.(sys).(pool) l.(provider))).
Proof.
  unfold counts_batch.
  set (f := fun x : EntityKey * Live => count_one ag counters head fl (entry_served s.(sys).(pool) x.2.(provider)) x).
  exists (leftovers counters head fl), (f <$> iter s.(known)).*1. split; [done|].
  split; [apply leftovers_run|]. split_and!.
  - rewrite <- list_fmap_compose. apply Forall2_fmap_r, Forall_Forall2_diag, Forall_forall.
    intros [k l] _. exact (proj1 (count_one_run counters head fl s k l)).
  - apply distinct_closings; [|apply iter_keys]. intros [k l] c. apply count_one_key.
  - intros c. rewrite elem_of_parts. split.
    + intros ([k l] & Hl%elem_of_iter & Hin). pose proof Hin as [E _]%count_one_key.
      apply (proj2 (count_one_run counters head fl s k l)) in Hin as (st & Hd & ->).
      by exists l, st.
    + intros (l & st & Hl & Hd & ->). eexists (_, l). split; [by apply elem_of_iter|].
      apply (proj2 (count_one_run counters head fl s _ l)). by exists st.
Qed.

Lemma landed_patched sent x k :
  k ∈ (foldl landed_add x sent).(patched) <-> k ∈ x.(patched) \/ landed_on sent k.
Proof.
  unfold landed_on. revert x. induction sent as [|y sent IH]; intros x; cbn [foldl].
  { split; [by left|]. intros [?|(? & ? & ?%elem_of_nil & _)]; done. }
  rewrite IH. unfold landed_add. destruct (sent_result y) as [r|] eqn:Er; cbn [patched];
    [rewrite elem_of_app|]; setoid_rewrite elem_of_cons; naive_solver congruence.
Qed.

Lemma send_flush_run ops s :
  exists sent, sends ops s sent (send_flush ag (mkBatch ops) s).2 /\
    forall k, k ∈ (send_flush ag (mkBatch ops) s).1.(patched) <-> landed_on sent k.
Proof.
  unfold send_flush, batch_is_empty. destruct ops as [|op ops].
  { exists []. split; [by left|]. intros k. split; [by intros ?%elem_of_nil|].
    by intros (? & ? & ?%elem_of_nil & _). }
  unfold mbind, M_bind, sends. cbn [operations].
  destruct (awaits (send ag.(writer) (mkBatch (op :: ops))) s) as [sent s'] eqn:Es. exists sent.
  cbn [length Nat.eqb]. rewrite Es. split; [right; by split|]. intros k. cbn. rewrite landed_patched. split; [intros [?%elem_of_nil|]; done | auto].
Qed.

(** The closes that landed, as memory is changed for them. *)
Lemma landed_close_spec counters head fl s1 closing landed sent k n :
  NoDup (closing_agreement <$> closing) ->
  (forall c, c ∈ closing <-> exists l st, s1.(known) !! c.(closing_agreement) = Some l /\
     due counters head fl c.(closing_agreement) st (entry_served s1.(sys).(pool) l.(provider)) /\
     c = mkClosing c.(closing_agreement) st.(key) (entry_served s1.(sys).(pool) l.(provider))) ->
  (forall k, k ∈ landed.(patched) <-> landed_on sent k) ->
  landed_close closing landed k = Some n <-> close_landed counters head fl s1 sent k n.
Proof.
  intros Hnd Hcl Hld. unfold landed_close, close_landed. split.
  - intros (c & Hf & ->)%fmap_Some. apply List.find_some in Hf as [Hin%list_elem_of_In Hb].
    apply andb_true_iff in Hb as [<-%Z.eqb_eq Hp%bool_decide_eq_true%Hld].
    apply Hcl in Hin as (l & st & Hl & Hd & E). exists l, st. rewrite E in Hp |- *. by split_and!.
  - intros (l & st & Hl & -> & Hd & Hp). apply fmap_Some.
    set (c := mkClosing k st.(key) (entry_served s1.(sys).(pool) l.(provider))).
    assert (c ∈ closing) as Hc by (apply Hcl; by exists l, st). exists c. split; [|done].
    apply Hld in Hp. clear Hcl Hld Hd Hl. induction closing as [|c' closing IH]; [by apply elem_of_nil in Hc|].
    apply NoDup_cons in Hnd as [Hn Hnd]. apply elem_of_cons in Hc as [<-|Hc]; cbn.
    + by rewrite Z.eqb_refl, bool_decide_true.
    + assert (closing_agreement c' <> k) as Hne.
      { intros E. apply Hn. rewrite E. by apply (list_elem_of_fmap_2 closing_agreement) in Hc. }
      rewrite (proj2 (Z.eqb_neq _ _) Hne). cbn. by apply IH.
Qed.

Lemma has_landed_spec counters head fl s1 (closing : list Closing) landed sent :
  (forall c, c ∈ closing <-> exists l st, s1.(known) !! c.(closing_agreement) = Some l /\
     due counters head fl c.(closing_agreement) st (entry_served s1.(sys).(pool) l.(provider)) /\
     c = mkClosing c.(closing_agreement) st.(key) (entry_served s1.(sys).(pool) l.(provider))) ->
  (forall k, k ∈ landed.(patched) <-> landed_on sent k) ->
  forall k, k ∈ closing_agreement <$> filter (fun c => has_landed landed c = true) closing <->
    exists n, close_landed counters head fl s1 sent k n.
Proof.
  intros Hcl Hld k. unfold has_landed, close_landed. rewrite list_elem_of_fmap. split.
  - intros (c & -> & [Hp%bool_decide_eq_true%Hld Hin%Hcl]%list_elem_of_filter).
    destruct Hin as (l & st & Hl & Hd & E). rewrite E in Hp. cbn in Hp. by eexists _, l, st.
  - intros (n & l & st & Hl & -> & Hd & Hp).
    exists (mkClosing k st.(key) (entry_served s1.(sys).(pool) l.(provider))). split; [done|].
    apply list_elem_of_filter. split; [by apply bool_decide_eq_true, Hld|]. apply Hcl. by exists l, st.
Qed.

(** The successors of the closes that landed. *)
Lemma successors_follow (landed_k : EntityKey -> Z -> Prop) landed (closing : list Closing) head s2 :
  NoDup (closing_agreement <$> closing) ->
  (forall k, k ∈ closing_agreement <$> filter (fun c => has_landed landed c = true) closing <->
     exists n, landed_k k n) ->
  (forall k n, landed_k k n -> is_Some (s2.(known) !! k)) ->
  follow landed_k head s2 (omap (fun c => if has_landed landed c then successor head s2 c else None) closing).
Proof.
  intros Hnd Hin Hsome. eexists. split; [|split; [exact Hin|]].
  { eapply sublist_NoDup; [exact Hnd | apply fmap_sublist, sublist_filter]. }
  assert (forall c, c ∈ filter (fun c => has_landed landed c = true) closing ->
    is_Some (s2.(known) !! c.(closing_agreement))) as Hs.
  { intros c Hc. destruct (proj1 (Hin c.(closing_agreement))) as [n Hn]; [|by eapply Hsome].
    by apply list_elem_of_fmap_2. }
  clear Hin Hsome Hnd. induction closing as [|c closing IH]; [constructor|].
  cbn [omap list_omap]. rewrite filter_cons in Hs |- *. case_decide as Hl.
  - rewrite Hl. destruct (Hs c) as [l E]; [left|]. unfold successor at 1. rewrite E.
    cbn [mbind option_bind]. rewrite fmap_cons. constructor; [|apply IH; intros c' Hc'; apply Hs; by right].
    exists l. split; [done|]. apply create_opens_counter.
  - apply not_true_is_false in Hl. rewrite Hl. by apply IH.
Qed.

Lemma send_bills (landed_k : EntityKey -> Z -> Prop) closing landed s1 s2 s3 :
  agent_inv s1 ->
  (forall k n, landed_k k n -> exists l, s1.(known) !! k = Some l /\
     n = entry_served s1.(sys).(pool) l.(provider)) ->
  (forall k n, landed_close closing landed k = Some n <-> landed_k k n) ->
  drift flip_after s1 s2 -> ends_periods closing landed s2 s3 ->
  bills landed_k s1 s2 s3.
Proof using Type*.
  intros Hinv Hlk Hcl D [W3 I3 K3 E3]. constructor; [done| |].
  - pose proof D as D'. destruct D' as [(hs & Hsteps & Hq) _ _].
    exists hs. split_and!; [done..|]. intros k l Hl n during Hn Hmax.
    destruct (known_entry s1 k l Hinv Hl) as (p & Hp & Ep).
    destruct (steps_served _ _ _ _ _ _ Hsteps (mi_wf _ _ _ Hinv) Hp) as (p' & Hp' & Ep').
    rewrite Ep, quiet_served in Ep' by done.
    assert (entry_served s2.(sys).(pool) l.(provider) = n + during) as E2.
    { unfold entry_served. by rewrite Hp'. }
    pose proof (drift_core flip_after s1 s2 k D) as Ecore. rewrite Hl in Ecore.
    apply fmap_Some in Ecore as (l2 & Hl2 & Ecore). unfold core in Ecore.
    assert (l2.(provider) = l.(provider)) as Eptr by congruence.
    specialize (E3 k l2 Hl2). rewrite Eptr, E2 in E3. split.
    + intros Hk. apply Hcl in Hk. rewrite Hk in E3. cbn in E3. rewrite E3. unfold sat_sub.
      pose proof (calls_nonneg l.(provider) hs). lia.
    + intros Hno. destruct (landed_close closing landed k) as [x|] eqn:E; [|done].
      apply Hcl in E. by apply Hno in E.
  - intros k. split.
    + intros [n Hn]. rewrite K3, decide_True; [done|]. apply Hcl in Hn. by rewrite Hn.
    + intros Hno. rewrite K3, decide_False; [done|]. intros [n Hn]. apply Hcl in Hn. by apply Hno in Hn.
Qed.

Lemma flush_run fl s : agent_inv s -> flush_bills fl s (flush_with flip_after ag fl s).2.
Proof using Type*.
  intros Hinv. unfold flush_bills, flush_with, mbind, M_bind.
  pose proof (drifts_awaits flip_after (block_number ag.(reader)) (calm_block_number _) s) as D0.
  destruct (awaits (block_number _) s) as [[head|e] s0]; cbn [snd] in D0; [|by split].
  split; [done|]. assert (agent_inv s0) as Hinv0 by by eapply drift_inv.
  pose proof (reconcile_counters_run head s0 Hinv0) as Hr.
  pose proof (keeps_inv_reconcile_counters head s0 Hinv0) as Hinv1.
  destruct (reconcile_counters flip_after ag head s0) as [[counters|e] s1] eqn:Er;
    [|split; [done | apply Hr]]. cbn [snd] in Hinv1. split; [done|].
  unfold get_known, on_sys. cbn [sys known pool fst snd].
  replace (mkAS s1.(sys) s1.(known)) with s1 by by destruct s1.
  pose proof (counts_batch_run counters head fl s1) as Hbatch.
  destruct (counts_batch ag _ _ counters head fl) as [batch closing].
  destruct Hbatch as (left & counts & -> & Hleft & Hcounts & Hnd & Hcl).
  pose proof (drifts_send_flush (mkBatch (left ++ concat counts)) s1) as D2.
  destruct (send_flush_run (left ++ concat counts) s1) as (sent & Hsends & Hld).
  destruct (send_flush ag _ s1) as [landed s2]. cbn [fst snd] in *.
  assert (agent_inv s2) as Hinv2 by by eapply drift_inv.
  pose proof (end_periods_run closing landed head s2 Hinv2 Hnd) as Hep.
  destruct (end_periods flip_after ag closing landed head s2) as [successors s3].
  destruct Hep as [Hends ->]. set (new := omap _ closing).
  pose proof (drifts_send_flush (mkBatch new) s3) as D3.
  destruct (send_flush_run new s3) as (sent' & Hsends' & _).
  pose proof (has_landed_spec counters head fl s1 closing landed sent Hcl Hld) as Hkeys.
  assert (forall k n, close_landed counters head fl s1 sent k n -> exists l,
    s1.(known) !! k = Some l /\ n = entry_served s1.(sys).(pool) l.(provider)) as Hlk
    by (intros k n (l & st & Hl & -> & _); by exists l).
  exists (iter s1.(known)), left, counts, sent, s2, new, s3, sent'.
  split_and!; [apply iter_perm | done | done | done | | | |].
  - eapply send_bills; [done | done | | done | done].
    intros k n. by apply landed_close_spec.
  - apply successors_follow; [done | done |]. intros k n (l & Hl & _)%Hlk.
    pose proof (drift_core flip_after s1 s2 k D2) as Ecore. rewrite Hl in Ecore.
    apply fmap_Some in Ecore as (l2 & -> & _). done.
  - by destruct (send_flush ag (mkBatch new) s3).
  - by destruct (send_flush ag (mkBatch new) s3).
Qed.

Lemma keeps_inv_flush fl : keeps_inv (flush_with flip_after ag fl).
Proof using Type*.
  intros s Hs. pose proof (flush_run fl s Hs) as Hf. unfold flush_bills in Hf.
  destruct (awaits (block_number _) s) as [[head|e] s0];
    [|destruct Hf as [_ D]; by eapply drift_inv]. destruct Hf as [D0 Hf].
  destruct (reconcile_counters _ _ head s0) as [[counters|e] s1].
  - destruct Hf as (_ & rows & left & counts & sent & s2 & new & s3 & sent' & _ & _ & _ & _ & Hb & _ & _ & D).
    eapply drift_inv; [exact D | apply Hb].
  - destruct Hf as [_ D]. eapply drift_inv; [exact D|]. by eapply drift_inv.
Qed.

(** * Theorems *)


(** C2: Each call is billed in exactly one period. A flush that cannot read
    the head or the counter records changes nothing; otherwise memory
    takes its counters from the chain, and one batch writes the counts:
    the open record of each agreement is left reading as closed at the
    head with exactly the calls its entry holds when it is due - its
    period over, calls to settle, the LB not stopping - and with these
    calls, still open, when they changed; an agreement without one gets
    its first, at zero; duplicates are deleted, and strays closed with
    their own counts. Where a close landed, the calls it carries leave the
    entry, so it is left with the ones served while the write was in
    flight, memory forgets the record, and the next period's record is
    opened, at zero; where none landed every call stays in its entry for
    the next flush. *)
Theorem flush_bills_each_call_once fl s :
  agent_inv s -> flush_bills fl s (flush_with flip_after ag fl s).2.
Proof using Type*. apply flush_run. Qed.
End counters.
