(* ===== verification/Lifecycle.v ===== *)
(** The agent's start, its polls and its admissions, of
    [crates/lb/src/marketplace/agent.rs]. *)

From S2P Require Import Prelude External Concrete Pool World Records Reader Writer Chain Config Agent Mirror Reconcile Offers Flush Billing.

#[local] Open Scope Z_scope.

Inductive StartError : Type :=
| Sidecar (e : WriteError)
| Chain_ (e : ReadError)
| TooManyAgreements (n : Z)
| Listing (e : WriteError)
| TooManyCounters (n : Z).

(** [integrity::IntegrityCheck]: one check of one entry, run to its end. *)
Class IntegrityCheck (W : Type) := { check : ptr -> M (Sys W) unit }.

Definition ADMISSION_POLL : Z := 200 * MILLIS.

Section lifecycle.
Context `{Alloy} `{SerdeJson} `{UrlLib} `{HashOrder}.
Context {W : Type} `{World W} `{Memory W} `{Loopback W} `{Sleep W} (flip_after : Z).
Context {R Wr : Type} `{ChainReader R (Sys W)} `{ChainWriter Wr (Sys W)}.

Definition desired_listing (c : MarketplaceConfig) : LbListing :=
  mkLbListing c.(mp_wei_per_call) c.(mp_tunnel_server) c.(max_providers).

(** One live listing that says what the configuration says; the oldest
    one, when there are several. Its key and its expiry. *)
Definition ensure_listing (rd : R) (wr : Wr) (c : MarketplaceConfig) (lb : Address) (head : Z) :
    M (AS W) (result StartError (EntityKey * Z)) :=
  let desired := desired_listing c in
  page ← awaits (query rd (expires_after head (query_creator lb (query_kind KIND_LB_LISTING))));
  match page with
  | Err e => mret (Err (Chain_ e))
  | Ok page =>
      match sort_by older (decode_all (T := LbListing) page) with
      | [] =>
          created ← awaits (create wr (mkCreate (encode desired)
                                          (Seconds (as_secs c.(listing_life)))));
          mret (match created with
                | Err e => Err (Listing e)
                | Ok created => Ok (created.(created_key), created.(created_expires_at))
                end)
      | kept :: _ =>
          if bool_decide (kept.(record) = desired) then mret (Ok (kept.(key), kept.(expires_at)))
          else
            patched ← awaits (patch wr (mkPatch kept.(key)
                                          (keep [PAYLOAD_ATTRIBUTE] (encode desired))));
            mret (match patched with
                  | Err e => Err (Listing e)
                  | Ok _ => Ok (kept.(key), kept.(expires_at))
                  end)
      end
  end.

(** [Agent::start]: the two reconciles only read and can refuse the
    start; the listing is written last. *)
Definition start (rd : R) (wr : Wr) (c : MarketplaceConfig) :
    M (AS W) (result StartError (Agent R Wr)) :=
  who ← awaits (identity wr);
  match who with
  | Err e => mret (Err (Sidecar e))
  | Ok who =>
      let ag := mkAgent rd wr c who ENTITY_KEY_ZERO 0 in
      head ← reconcile_agreements ag;
      match head with
      | Err (RcChain e) => mret (Err (Chain_ e))
      | Err (RcTooMany _ n) => mret (Err (TooManyAgreements n))
      | Ok head =>
          counters ← reconcile_counters flip_after ag head;
          match counters with
          | Err (RcChain e) => mret (Err (Chain_ e))
          | Err (RcTooMany _ n) => mret (Err (TooManyCounters n))
          | Ok _ =>
              head ← awaits (block_number rd);
              match head with
              | Err e => mret (Err (Chain_ e))
              | Ok head =>
                  listing ← ensure_listing rd wr c who.(address) head;
                  mret (match listing with
                        | Err e => Err e
                        | Ok (k, e) => Ok (mkAgent rd wr c who k e)
                        end)
              end
          end
      end
  end.

Context (ag : Agent R Wr).
Abbreviation config := (ag.(agent_config)) (only parsing).

(** One discovery poll. *)
Definition discovery_poll : M (AS W) unit :=
  reconciled ← reconcile_agreements ag;
  head ← match reconciled with
         | Ok head => mret (Some head)
         | Err (RcTooMany _ _) => result_ok <$> awaits (block_number ag.(reader))
         | Err (RcChain _) => mret None
         end;
  match head with
  | None => mret tt
  | Some head =>
      _ ← reconcile_counters flip_after ag head;
      discover_offers ag head
  end.

(** What the agent's task does next, as its timers and the shutdown
    signal call for it. *)
Inductive Tick : Type := DiscoveryPoll | Refresh | FlushTick.

Definition agent_tick (t : Tick) : M (AS W) unit :=
  match t with
  | DiscoveryPoll => discovery_poll
  | Refresh => refresh ag
  | FlushTick => flush flip_after ag
  end.

(** The task until its shutdown: the ticks in the order they fired, then
    the last flush. *)
Fixpoint agent_run (ticks : list Tick) : M (AS W) unit :=
  match ticks with
  | [] => shutdown_flush flip_after ag
  | t :: ticks => _ ← agent_tick t; agent_run ticks
  end.

(** ** Admissions: their own task, on the same state *)

(** Waits for the probes, polling the entry until the deadline; [fuel]
    bounds the polls. *)
Fixpoint wait_healthy (fuel : nat) (r : ptr) (deadline : Z) : M (AS W) bool :=
  match fuel with
  | O => mret false
  | S fuel =>
      h ← on_sys (read_entry r healthy false);
      if (h : bool) then mret true
      else
        now ← on_sys read_clock;
        if Z.leb deadline now then mret false
        else _ ← awaits (sleep ADMISSION_POLL); wait_healthy fuel r deadline
  end.

(** After a provider's tunnel is let in: its probes pass, it is checked
    for integrity where that is configured, then its agreement is
    extended. *)
Definition admission (checker : option (IntegrityCheck W)) (polls : nat) (r : ptr)
    (k : EntityKey) : M (AS W) unit :=
  started ← on_sys read_clock;
  passed ← wait_healthy polls r (started + config.(offer_max_lifetime));
  if negb passed then mret tt
  else
    wrong ← match checker with
            | None => mret false
            | Some c => _ ← awaits (@check W c r); on_sys (read_entry r serving_wrong_data true)
            end;
    if (wrong : bool) then mret tt
    else
      extended ← awaits (extend ag.(writer)
                           (mkExtend k (Seconds (as_secs config.(agreement_life)))));
      match extended with
      | Ok x => m ← get_known; put_known (alter (set_expiry x.(extended_expires_at)) k m)
      | Err _ => mret tt
      end.

(** [admitted]: whether a task for the steps above is started. A
    reconnect is a probe due at once; a record that was extended already
    starts nothing, nor does one whose task still runs. *)
Definition admitted (k : EntityKey) : M (AS W) bool :=
  m ← get_known;
  match m !! k with
  | None => mret false
  | Some live =>
      now ← on_sys read_clock;
      _ ← on_sys (act flip_after live.(provider) (OnScheduleProbeNow now));
      if was_extended live config.(agreement_life) || live.(admission_task) then mret false
      else _ ← put_known (<[k := set_task true live]> m); mret true
  end.
End lifecycle.

(** * Lemmas: every operation keeps the invariant *)

(** What an integrity check may do: change entries, with requests and
    the others' steps in between. *)
Definition entry_step (x : Step) : Prop :=
  match x with Mine _ _ => True | _ => quiet_step x end.

Class QuietCheck (W : Type) `{World W} `{Issuer W} (c : IntegrityCheck W) (flip_after : Z) : Prop := {
  check_steps : forall r s, exists hs, steps flip_after s (check r s).2 hs /\ Forall entry_step hs;
  check_keeps : forall r, keeps (check r);
}.

(** A sleep changes nothing itself. *)
Class QuietSleep (W : Type) `{World W} `{Issuer W} `{Sleep W} (flip_after : Z) : Prop := {
  calm_sleep d : calm flip_after (sleep d);
}.

Section invariant.
Context `{Alloy} `{SerdeJson} `{UrlLib} `{HashOrder}.
Context {W : Type} `{World W} `{Issuer W} `{Memory W} `{Loopback W} `{Sleep W}.
Context `{Quiet_memory : !QuietMemory W} (flip_after : Z).
Context `{Quiet_loopback : !QuietLoopback W flip_after} `{Quiet_sleep : !QuietSleep W flip_after}.
Context {R Wr : Type} `{ChainReader R (Sys W)} `{ChainWriter Wr (Sys W)}.
Context `{Chain_laws : !Chain R Wr W flip_after}.

Lemma entry_steps_ident (s s' : Sys W) hs :
  steps flip_after s s' hs -> Forall entry_step hs ->
  same_idents s'.(pool) s.(pool) /\ (pool_wf s.(pool) -> pool_wf s'.(pool)).
Proof.
  intros [_ Hp] Hq.
  assert (forall pl, same_idents (foldl (history_step flip_after) pl hs) pl /\
    (pool_wf pl -> pool_wf (foldl (history_step flip_after) pl hs))) as Hf.
  { clear Hp. induction Hq as [|x hs Hx Hq IH]; intros pl; [done|]. cbn.
    destruct (IH (history_step flip_after pl x)) as [E Hw].
    assert (same_idents (history_step flip_after pl x) pl) as E1.
    { destruct x; try done; [apply update_ident | by apply quiet_step_ident]. }
    split; [by rewrite E|]. intros Hpl. apply Hw.
    destruct x; try done; [by apply update_wf | by apply quiet_step_wf]. }
  destruct (Hf s.(pool)) as [E Hw]. split.
  - rewrite <- E. by apply same_pool_idents.
  - intros Hs. eapply same_pool_wf; [symmetry; exact Hp|]. by apply Hw.
Qed.

Lemma keeps_inv_check c r : QuietCheck W c flip_after -> keeps_inv (awaits (@check W c r)).
Proof using Type*.
  intros Hc s Hs. destruct (check_steps r s.(sys)) as (hs & Hsteps & Hall).
  pose proof (check_keeps (c := c) r s.(sys)) as Hk.
  apply (entry_steps_ident _ _ _ Hsteps) in Hall as [Hid Hwf]. unfold awaits.
  destruct (check r s.(sys)) as [[] y]. cbn [snd] in *.
  pose proof (others_memory_grows y.(world)) as Ho. destruct (others_memory y.(world)) as [ms w].
  eapply mirrors_same; [exact Hs | | exact Hid | apply Hwf, Hs | apply memory_steps_view].
  cbn in *. by etrans.
Qed.

Lemma drifts_ensure_listing rd wr c lb head :
  drifts flip_after (ensure_listing (W := W) (R := R) (Wr := Wr) rd wr c lb head).
Proof using Type*. unfold ensure_listing. cbv zeta. drift_steps. Qed.

Lemma keeps_inv_start rd wr c : keeps_inv (start (W := W) flip_after rd wr c).
Proof using Type*.
  unfold start. apply keeps_inv_bind; [apply (keeps_inv_drifts flip_after), drifts_awaits, calm_identity|].
  intros [who|e]; [|apply keeps_inv_ret].
  apply keeps_inv_bind; [exact (keeps_inv_reconcile flip_after _)|].
  intros [head|[e|kind n]]; try apply keeps_inv_ret.
  apply keeps_inv_bind; [exact (keeps_inv_reconcile_counters flip_after _ head)|].
  intros [counters|[e|kind n]]; try apply keeps_inv_ret.
  apply keeps_inv_bind; [apply (keeps_inv_drifts flip_after), drifts_awaits, calm_block_number|].
  intros [head'|e]; [|apply keeps_inv_ret].
  apply keeps_inv_bind; [apply (keeps_inv_drifts flip_after), drifts_ensure_listing|].
  intros [[k e]|e]; apply keeps_inv_ret.
Qed.
(** Memory holds what the chain showed of the agent's own agreements: only
    those, and a provider of each. *)
Definition remembers (ag : Agent R Wr) (m : KnownAgreements) : Prop :=
  exists head x live y,
    rows_read ag (T := Agreement) "agreement" (own_alive ag "rpc.agreement" [] head) x (Ok live) y /\
    (forall k, is_Some (m !! k) -> k ∈ key <$> live) /\
    forall st, st ∈ live -> is_Some (m !! st.(key)) \/ under_agreement m st.(record).(ag_provider).

(** The same agreements, whatever they count into. *)
Definition same_agreements (m m' : KnownAgreements) : Prop :=
  forall k, (fun l => l.(agreement).(record)) <$> m' !! k = (fun l => l.(agreement).(record)) <$> m !! k.

Lemma same_agreements_trans m1 m2 m3 :
  same_agreements m1 m2 -> same_agreements m2 m3 -> same_agreements m1 m3.
Proof. intros E1 E2 k. by rewrite E2. Qed.

Lemma drift_agreements s s' : drift flip_after s s' -> same_agreements s.(known) s'.(known).
Proof.
  intros D k. pose proof (drift_core flip_after s s' k D) as E.
  destruct (s.(known) !! k) as [l|], (s'.(known) !! k) as [l'|]; cbn in *; try done.
  unfold core in E. congruence.
Qed.

Lemma remembers_same ag m m' : same_agreements m m' -> remembers ag m -> remembers ag m'.
Proof.
  intros E (head & x & live & y & Hr & Honly & Hall). exists head, x, live, y. split; [done|].
  assert (forall k, is_Some (m' !! k) <-> is_Some (m !! k)) as Hd.
  { intros k. rewrite <- !(fmap_is_Some (fun l => l.(agreement).(record))). by rewrite (E k). }
  split; [intros k Hk%Hd; by apply Honly|]. intros st [Hst|(k & l & Hl & Ep)]%Hall; [left; by apply Hd|].
  right. specialize (E k). rewrite Hl in E. apply fmap_Some in E as (l' & Hl' & E'). exists k, l'.
  split; [done|]. unfold provider_of in *. congruence.
Qed.

Lemma rows_read_identity rd wr c who k1 e1 k2 e2 kind q (s s' : AS W) (rows : list (Stored Agreement)) :
  rows_read (mkAgent rd wr c who k1 e1) kind q s (Ok rows) s' ->
  rows_read (mkAgent (R := R) (Wr := Wr) rd wr c who k2 e2) kind q s (Ok rows) s'.
Proof. intros Hr. inversion Hr; subst. by eapply rows_came. Qed.

(** An agent that starts has the handles it was given, and remembers. *)
Lemma start_remembers rd wr c s ag :
  agent_inv s -> (start (W := W) flip_after rd wr c s).1 = Ok ag ->
  ag.(reader) = rd /\ ag.(writer) = wr /\ ag.(agent_config) = c /\
  remembers ag (start flip_after rd wr c s).2.(known).
Proof using Type*.
  intros Hinv. unfold start, mbind, M_bind.
  pose proof (drifts_awaits flip_after (identity wr) (calm_identity _) s) as D0.
  destruct (awaits (identity wr) s) as [[who|x] s0]; [|done]. cbn [snd] in D0.
  set (ag0 := mkAgent rd wr c who ENTITY_KEY_ZERO 0).
  assert (agent_inv s0) as Hinv0 by by eapply drift_inv.
  pose proof (reconcile_run flip_after ag0 s0 Hinv0) as Hr.
  pose proof (keeps_inv_reconcile flip_after ag0 s0 Hinv0) as Hinv1.
  destruct (reconcile_agreements ag0 s0) as [[head|[x|kind n]] s1]; try done. cbn [snd] in Hinv1.
  destruct Hr as (sa & sb & sc & live & ended & last & _ & _ & Hrows & _ & Hrec & _ & _ & _ & D1).
  pose proof (reconcile_counters_run flip_after ag0 head s1 Hinv1) as Hc.
  destruct (reconcile_counters flip_after ag0 head s1) as [[counters|[x|kind n]] s2]; try done.
  destruct Hc as (recs & sd & oldest & missing & found & se & _ & _ & _ & _ & D2 & D3 & [Hk _ _] & _).
  pose proof (drifts_awaits flip_after (block_number rd) (calm_block_number _) s2) as D4.
  destruct (awaits (block_number rd) s2) as [[head'|x] s3]; [|done]. cbn [snd] in D4.
  pose proof (drifts_ensure_listing rd wr c who.(address) head' s3) as D5.
  destruct (ensure_listing rd wr c _ head' s3) as [[[k e]|x] s4]; [|done]. cbn in *. intros [= <-].
  split_and!; [done..|]. apply (remembers_same _ sc.(known)).
  - eapply same_agreements_trans; [exact (drift_agreements _ _ D1)|].
    eapply same_agreements_trans; [apply (drift_agreements s1 se); by etrans|].
    eapply same_agreements_trans; [|apply (drift_agreements s2 s4); by etrans].
    intros k'. rewrite Hk. by destruct (known se !! k').
  - exists head, sa, live, sb. split; [exact (rows_read_identity _ _ _ _ _ _ k e _ _ _ _ _ Hrows)|].
    split; [apply (rc_only _ _ _ _ Hrec) | apply (rc_all _ _ _ _ Hrec)].
Qed.
Context (ag : Agent R Wr).

Lemma drifts_refresh : drifts flip_after (refresh ag).
Proof using Type*. unfold refresh, gas_balance. cbv zeta. drift_steps. Qed.

Lemma keeps_inv_discovery_poll : keeps_inv (discovery_poll flip_after ag).
Proof using Type*.
  unfold discovery_poll. apply keeps_inv_bind; [exact (keeps_inv_reconcile flip_after ag)|].
  intros reconciled. apply keeps_inv_bind.
  - destruct reconciled as [head|[e|kind n]]; try apply keeps_inv_ret.
    apply (keeps_inv_drifts flip_after). drift_steps.
  - intros [head|]; [|apply keeps_inv_ret]. apply keeps_inv_bind; [exact (keeps_inv_reconcile_counters flip_after ag head)|].
    intros _. exact (keeps_inv_discover flip_after ag head).
Qed.

Lemma keeps_inv_tick t : keeps_inv (agent_tick flip_after ag t).
Proof using Type*.
  destruct t; cbn.
  - apply keeps_inv_discovery_poll.
  - apply (keeps_inv_drifts flip_after), drifts_refresh.
  - exact (keeps_inv_flush flip_after ag Scheduled).
Qed.

Lemma keeps_inv_run ticks : keeps_inv (agent_run flip_after ag ticks).
Proof using Type*.
  induction ticks as [|t ticks IH]; [exact (keeps_inv_flush flip_after ag Stop)|].
  apply keeps_inv_bind; [apply keeps_inv_tick | done].
Qed.

Lemma keeps_inv_wait_healthy fuel r deadline : keeps_inv (wait_healthy fuel r deadline).
Proof using Type*.
  apply (keeps_inv_drifts flip_after). induction fuel as [|fuel IH]; cbn [wait_healthy];
    [apply drifts_ret|].
  apply drifts_bind; [apply drifts_on_sys, calm_read_entry|]. intros []; [apply drifts_ret|].
  apply drifts_bind; [apply drifts_on_sys, calm_clock|]. intros now.
  destruct (Z.leb deadline now); [apply drifts_ret|].
  apply drifts_bind; [apply drifts_awaits, calm_sleep | done].
Qed.

Lemma keeps_inv_learn k f :
  (forall l, (f l).(agreement).(key) = l.(agreement).(key) /\
             (f l).(agreement).(record) = l.(agreement).(record) /\ (f l).(provider) = l.(provider)) ->
  keeps_inv (m ← get_known; put_known (W := W) (alter f k m)).
Proof.
  intros Hf s Hs. eapply mirrors_same; [exact Hs | done | done | apply Hs |]. by apply same_view_alter.
Qed.

Lemma keeps_inv_admission checker polls r k :
  (forall c, checker = Some c -> QuietCheck W c flip_after) ->
  keeps_inv (admission ag checker polls r k).
Proof using Type*.
  intros Hc. unfold admission. cbv zeta.
  apply keeps_inv_bind; [apply (keeps_inv_drifts flip_after), drifts_on_sys, calm_clock|]. intros started.
  apply keeps_inv_bind; [apply keeps_inv_wait_healthy|]. intros [|]; [|apply keeps_inv_ret].
  apply keeps_inv_bind.
  - destruct checker as [c|]; [|apply keeps_inv_ret].
    apply keeps_inv_bind; [by apply keeps_inv_check, Hc|]. intros _.
    apply (keeps_inv_drifts flip_after), drifts_on_sys, calm_read_entry.
  - intros [|]; [apply keeps_inv_ret|].
    apply keeps_inv_bind; [apply (keeps_inv_drifts flip_after), drifts_awaits, calm_extend|].
    intros [x|e]; [|apply keeps_inv_ret]. apply keeps_inv_learn. by intros [].
Qed.

Lemma keeps_inv_admitted k : keeps_inv (admitted flip_after ag k).
Proof using Type*.
  intros s Hs. unfold admitted, get_known, mbind, M_bind. cbn [fst snd].
  destruct (s.(known) !! k) as [live|] eqn:Hk; [|exact Hs].
  pose proof (drifts_on_sys flip_after read_clock calm_clock s) as D.
  destruct (on_sys read_clock s) as [now s1] eqn:E. cbn [snd] in D.
  assert (s1.(known) = s.(known)) as Ek.
  { unfold on_sys in E. destruct (read_clock (sys s)). by injection E as _ <-. }
  assert (agent_inv s1) as Hs1 by by eapply drift_inv.
  pose proof (keeps_inv_act flip_after live.(provider) (OnScheduleProbeNow now) s1 Hs1) as Hs2.
  unfold on_sys, act in *. cbn [fst snd sys known] in *.
  destruct (_ || _); [exact Hs2|]. unfold put_known. cbn [fst snd sys known].
  eapply mirrors_same; [exact Hs2 | done | done | apply Hs2 |].
  cbn [known]. rewrite Ek. by eapply same_view_insert.
Qed.

End invariant.

(** * The agent as a state machine

    One step is an operation run to its end; while it awaits, and between
    two of them, the other tasks - the monitor, the requests, the
    admissions - take theirs, and the chain moves. *)

Section machine.
Context `{Alloy} `{SerdeJson} `{UrlLib} `{HashOrder}.
Context {W : Type} `{World W} `{Issuer W} `{Memory W} `{Loopback W} `{Sleep W}.
Context `{Quiet_memory : !QuietMemory W} (flip_after : Z).
Context `{Quiet_loopback : !QuietLoopback W flip_after} `{Quiet_sleep : !QuietSleep W flip_after}.
Context {R Wr : Type} `{ChainReader R (Sys W)} `{ChainWriter Wr (Sys W)}.
Context `{Chain_laws : !Chain R Wr W flip_after}.

Inductive agent_step : AS W -> AS W -> Prop :=
| StepStart rd wr c s : agent_step s (start flip_after rd wr c s).2
| StepTick (ag : Agent R Wr) t s : agent_step s (agent_tick flip_after ag t s).2
| StepStop (ag : Agent R Wr) s : agent_step s (shutdown_flush flip_after ag s).2
| StepAdmitted (ag : Agent R Wr) k s : agent_step s (admitted flip_after ag k s).2
| StepAdmission (ag : Agent R Wr) checker polls r k s :
    (forall c, checker = Some c -> QuietCheck W c flip_after) ->
    agent_step s (admission ag checker polls r k s).2
| StepOthers s s' : drift flip_after s s' -> agent_step s s'.

(** Before the start: the configured providers, none of them named like a
    marketplace provider, and nothing in memory. *)
Record initial (s : AS W) : Prop := {
  in_known : s.(known) = ∅;
  in_world : in_order s.(sys).(world);
  in_wf : pool_wf s.(sys).(pool);
  in_static : forall r, r ∈ s.(sys).(pool).(members) -> exists i,
    ident s.(sys).(pool) r = Some (i, Static) /\ forall a, i <> marketplace_id a;
}.

Lemma initial_inv s : initial s -> agent_inv s.
Proof.
  intros [Hk Hord Hwf Hst]. unfold agent_inv. rewrite Hk. constructor; try done.
  - intros r i a k p Hr Hid. destruct (Hst r Hr) as (i' & Hid' & _). congruence.
  - intros r i a Hr Hid. destruct (Hst r Hr) as (i' & Hid' & Hne). naive_solver congruence.
Qed.

(** C1: The pool's marketplace members are the agreements' providers, always.
    From a start with only configured providers, whatever polls, flushes,
    refreshes, admissions, reconnects and stops follow, in any order and
    with anything the other tasks do in between: a member of the pool is
    either configured, or the provider of exactly one agreement in memory,
    at that agreement's address, key and port; every agreement's provider
    is a member; and no provider is under two agreements. *)
Theorem pool_mirrors_agreements s0 s :
  initial s0 -> rtc agent_step s0 s ->
  (forall r i src, r ∈ s.(sys).(pool).(members) -> ident s.(sys).(pool) r = Some (i, src) ->
     src = Static \/
     exists k l, s.(known) !! k = Some l /\ l.(provider) = r /\
       (i, src) = ident_of k l.(agreement).(record)) /\
  (forall k l, s.(known) !! k = Some l ->
     l.(agreement).(key) = k /\ l.(provider) ∈ s.(sys).(pool).(members) /\
     ident s.(sys).(pool) l.(provider) = Some (ident_of k l.(agreement).(record))) /\
  (forall k1 k2 l1 l2, s.(known) !! k1 = Some l1 -> s.(known) !! k2 = Some l2 ->
     provider_of l1 = provider_of l2 \/ l1.(provider) = l2.(provider) -> k1 = k2).
Proof using Type*.
  intros Hinit Hsteps.
  assert (agent_inv s) as Hinv.
  { apply initial_inv in Hinit. induction Hsteps as [|s0 s1 s Hstep _ IH]; [done|]. apply IH.
    destruct Hstep as [rd wr c x|ag t x|ag x|ag k x|ag checker polls r k x Hc|x y D].
    - exact (keeps_inv_start flip_after rd wr c x Hinit).
    - exact (keeps_inv_tick flip_after ag t x Hinit).
    - exact (keeps_inv_flush flip_after ag Stop x Hinit).
    - exact (keeps_inv_admitted flip_after ag k x Hinit).
    - exact (keeps_inv_admission flip_after ag checker polls r k Hc x Hinit).
    - by eapply drift_inv. }
  split_and!.
  - intros r i [|a k p] Hr Hid; [by left|]. right.
    destruct (mi_held _ _ _ Hinv _ _ _ _ _ Hr Hid) as (l & Hl & <-). exists k, l.
    split_and!; [done..|]. destruct (mi_member _ _ _ Hinv _ _ Hl) as [_ Hid']. congruence.
  - intros k l Hl. destruct (mi_key _ _ _ Hinv _ _ Hl). by destruct (mi_member _ _ _ Hinv _ _ Hl).
  - intros k1 k2 l1 l2 Hl1 Hl2 [E|E]; [by eapply (mi_one _ _ _ Hinv) | by eapply (provider_inj s)].
Qed.
End machine.

(** * A refused start *)

Section refused.
Context `{Alloy} `{SerdeJson} `{UrlLib} `{HashOrder}.
Context {W : Type} `{World W} `{Memory W} (flip_after : Z).
Context {R Wr : Type} `{ChainReader R (Sys W)} `{ChainWriter Wr (Sys W)}.

(** Anything that reads and waits leave as it is: what was written, say. *)
Context (P : W -> Prop).
Definition leaves {A} (m : M (Sys W) A) : Prop := forall s, P s.(world) -> P (m s).2.(world).
Context (leaves_clock : leaves read_clock) (leaves_block_number : forall r : R, leaves (block_number r))
  (leaves_query : forall (r : R) q, leaves (query r q))
  (leaves_count : forall (r : R) q, leaves (count r q))
  (leaves_identity : forall w : Wr, leaves (identity w))
  (leaves_memory : forall w, P w -> P (others_memory w).2).

Definition untouched {A} (m : M (AS W) A) : Prop :=
  forall s, P s.(sys).(world) -> P (m s).2.(sys).(world).

Lemma untouched_ret {A} (a : A) : untouched (mret a).
Proof. by intros s. Qed.
Lemma untouched_bind {A B} (m : M (AS W) A) (f : A -> M (AS W) B) :
  untouched m -> (forall a, untouched (f a)) -> untouched (m ≫= f).
Proof.
  intros Hm Hf s Hs. specialize (Hm s Hs). unfold mbind, M_bind. destruct (m s) as [a s'].
  by apply Hf.
Qed.
Lemma untouched_awaits {A} (m : M (Sys W) A) : leaves m -> untouched (awaits m).
Proof using leaves_memory.
  intros Hm s Hs. specialize (Hm s.(sys) Hs). unfold awaits. destruct (m s.(sys)) as [a y].
  apply leaves_memory in Hm. cbn in *. by destruct (others_memory (world y)).
Qed.
Lemma untouched_on_sys {A} (m : M (Sys W) A) : leaves m -> untouched (on_sys m).
Proof. intros Hm s Hs. specialize (Hm s.(sys) Hs). unfold on_sys. by destruct (m s.(sys)). Qed.
Lemma untouched_known m : untouched (put_known m).
Proof. by intros s. Qed.
Lemma untouched_get : untouched get_known.
Proof. by intros s. Qed.
Lemma untouched_for_each {A} (f : A -> M (AS W) unit) l :
  (forall x, untouched (f x)) -> untouched (for_each f l).
Proof.
  intros Hf. induction l as [|x l IH]; [apply untouched_ret|]. by apply untouched_bind.
Qed.

Ltac untouched_steps :=
  repeat first
    [ apply untouched_ret
    | apply untouched_bind; [|intros ?]
    | apply untouched_get
    | apply untouched_known
    | apply untouched_for_each; intros ?
    | solve [apply untouched_awaits; auto]
    | solve [apply untouched_on_sys; auto; intros ? ?; done]
    | case_match ].

Lemma untouched_read_agreements (ag : Agent R Wr) head : untouched (read_agreements ag head).
Proof using leaves_memory leaves_count leaves_query. unfold read_agreements. untouched_steps. Qed.

Lemma untouched_closed_counts (ag : Agent R Wr) missing : untouched (closed_counts ag missing).
Proof using leaves_memory leaves_query.
  induction missing as [|[a c] missing IH]; cbn [closed_counts]; [apply untouched_ret|].
  unfold closed_count. untouched_steps; done.
Qed.

Lemma untouched_reconcile_counters (ag : Agent R Wr) head :
  untouched (reconcile_counters flip_after ag head).
Proof using leaves_memory leaves_query leaves_count.
  unfold reconcile_counters, read_open_counters, forget_closed_counters, match_to_agreements.
  untouched_steps; try apply untouched_closed_counts; untouched_steps.
  all: unfold forget_counter, match_agreement; untouched_steps.
Qed.

Lemma untouched_adopt live : untouched (adopt_agreements (W := W) live).
Proof using leaves_clock.
  unfold adopt_agreements, adopt_agreement. untouched_steps.
Qed.

Lemma empty_memory ms : foldl memory_step ∅ ms = ∅.
Proof.
  induction ms as [|x ms IH]; [done|]. cbn. destruct x; cbn [memory_step]; by rewrite alter_empty.
Qed.

Lemma awaits_empty {A} (m : M (Sys W) A) s : s.(known) = ∅ -> (awaits m s).2.(known) = ∅.
Proof.
  intros Hk. unfold awaits. destruct (m s.(sys)) as [a y]. destruct (others_memory _) as [ms w].
  cbn. rewrite Hk. apply empty_memory.
Qed.

(** From an empty memory a reconcile has nothing to close. *)
Lemma untouched_first_reconcile (ag : Agent R Wr) s :
  s.(known) = ∅ -> P s.(sys).(world) -> P (reconcile_agreements ag s).2.(sys).(world).
Proof using leaves_memory leaves_clock leaves_block_number leaves_query leaves_count.
  intros Hk Hp. unfold reconcile_agreements, mbind, M_bind.
  pose proof (untouched_awaits _ (leaves_block_number ag.(reader)) s Hp) as P0.
  pose proof (awaits_empty (block_number ag.(reader)) s Hk) as K0.
  destruct (awaits (block_number _) s) as [[head|e] s0]; [|done]. cbn [snd] in *.
  pose proof (untouched_read_agreements ag head s0 P0) as P1.
  assert ((read_agreements ag head s0).2.(known) = ∅) as K1.
  { unfold read_agreements, mbind, M_bind. cbv zeta.
    pose proof (awaits_empty (count ag.(reader) (expires_after head (query_creator
      ag.(agent_identity).(address) (query_kind KIND_AGREEMENT)))) s0 K0) as Kc.
    destruct (awaits (count _ _) s0) as [[n|e] sc]; [|done]. cbn [snd] in Kc.
    destruct (Z.ltb PAGE_LIMIT n); [done|].
    pose proof (awaits_empty (query ag.(reader) (expires_after head (query_creator
      ag.(agent_identity).(address) (query_kind KIND_AGREEMENT)))) sc Kc) as Kq.
    by destruct (awaits (query _ _) sc) as [[page|e] sq]. }
  destruct (read_agreements ag head s0) as [[live|e] s1]; [|done]. cbn [snd] in *.
  unfold end_agreements, get_known, mbind, M_bind. rewrite K1.
  assert (iter (∅ : KnownAgreements) = []) as ->.
  { apply Permutation_nil_r. rewrite iter_perm. by rewrite map_to_list_empty. }
  cbn [filter list_filter fmap list_fmap gather mret M_ret].
  pose proof (untouched_adopt live s1 P1) as P2.
  destruct (adopt_agreements live s1) as [[] s2]. cbn [snd] in P2.
  assert (untouched (close_ended ag [] head)) as Hclose.
  { unfold close_ended. apply untouched_bind; [|intros; apply untouched_ret].
    apply untouched_awaits. by intros s'. }
  specialize (Hclose s2 P2). by destruct (close_ended ag [] head s2).
Qed.

(** C37: A start that is refused has written nothing, unless what failed is
    the one write it makes, the listing's: every refusal before that -
    the identity, the chain, too many agreements or counters - leaves
    whatever reads and waits leave. *)
Theorem refused_start_writes_nothing rd wr c s e :
  s.(known) = ∅ -> P s.(sys).(world) ->
  (start flip_after rd wr c s).1 = Err e -> (forall w, e <> Listing w) ->
  P (start flip_after rd wr c s).2.(sys).(world).
Proof using leaves_memory leaves_clock leaves_block_number leaves_query leaves_count leaves_identity.
  intros Hk Hp. unfold start, mbind, M_bind.
  pose proof (untouched_awaits _ (leaves_identity wr) s Hp) as P0.
  pose proof (awaits_empty (identity wr) s Hk) as K0.
  destruct (awaits (identity wr) s) as [[who|x] s0]; [|done]. cbn [snd] in *.
  set (ag := mkAgent rd wr c who ENTITY_KEY_ZERO 0).
  pose proof (untouched_first_reconcile ag s0 K0 P0) as P1.
  destruct (reconcile_agreements ag s0) as [[head|[x|kind n]] s1]; [|done..]. cbn [snd] in *.
  pose proof (untouched_reconcile_counters ag head s1 P1) as P2.
  destruct (reconcile_counters flip_after ag head s1) as [[cs|[x|kind n]] s2]; [|done..]. cbn [snd] in *.
  pose proof (untouched_awaits _ (leaves_block_number rd) s2 P2) as P3.
  destruct (awaits (block_number rd) s2) as [[head'|x] s3]; [|done]. cbn [snd] in *.
  unfold ensure_listing, mbind, M_bind, mret, M_ret. cbv zeta.
  set (q := expires_after _ _). pose proof (untouched_awaits _ (leaves_query rd q) s3 P3) as P4.
  destruct (awaits (query rd q) s3) as [[page|x] s4]; [|done]. cbn [snd] in *.
  intros He Hne. revert He. repeat case_match; cbn; intros; simplify_eq/=; exfalso; by eapply Hne.
Qed.
End refused.

(** * What an admission may do *)

(** Time: a reading is the time it is, and a sleep lasts at least as long
    as asked. *)
Class Timed (W : Type) `{World W} `{Memory W} `{Sleep W} := {
  now : W -> Z;
  clock_reads : forall w, (clock w).1 = now w /\ now w <= now (clock w).2;
  sleep_passes : forall d s, now s.(world) + d <= now (sleep d s).2.(world);
  memory_passes : forall w, now w <= now (others_memory w).2;
}.

Section admissions.
Context `{Alloy} `{SerdeJson} `{UrlLib} `{HashOrder}.
Context {W : Type} `{World W} `{Issuer W} `{Memory W} `{Loopback W} `{Sleep W} `{!Timed W}.
Context `{Quiet_memory : !QuietMemory W} (flip_after : Z).
Context `{Quiet_sleep : !QuietSleep W flip_after}.
Context {R Wr : Type} `{ChainReader R (Sys W)} `{ChainWriter Wr (Sys W)}.
Context `{Chain_laws : !Chain R Wr W flip_after}.
Context (ag : Agent R Wr).
Abbreviation config := (ag.(agent_config)) (only parsing).

Definition healthy_now (r : ptr) (s : AS W) : Prop :=
  test_entry s.(sys).(pool) healthy r = true.
Definition wrong_now (r : ptr) (s : AS W) : bool :=
  match entry s.(sys).(pool) r with Some p => serving_wrong_data p | None => true end.

(** What an admission may do, from [s]: give up once a first life has
    passed without the probes passing; stop at a provider found serving
    wrong data; or extend the agreement - only of a provider seen healthy
    and, where integrity is checked, checked since then - and remember
    the expiry the chain answered. *)
Inductive AdmissionRun (checker : option (IntegrityCheck W)) (r : ptr) (k : EntityKey) (s : AS W) :
    AS W -> Prop :=
| GaveUp s' :
    drift flip_after s s' ->
    now s.(sys).(world) + config.(offer_max_lifetime) <= now s'.(sys).(world) ->
    AdmissionRun checker r k s s'
| FoundWrong c s1 s2 :
    drift flip_after s s1 -> healthy_now r s1 -> checker = Some c ->
    s2 = (awaits (@check W c r) s1).2 -> wrong_now r s2 = true ->
    AdmissionRun checker r k s s2
| Extends s1 s2 s3 answer s' :
    drift flip_after s s1 -> healthy_now r s1 ->
    match checker with
    | None => s2 = s1
    | Some c => s2 = (awaits (@check W c r) s1).2 /\ wrong_now r s2 = false
    end ->
    awaits (extend ag.(writer) (mkExtend k (Seconds (as_secs config.(agreement_life))))) s2 = (answer, s3) ->
    s' = match answer with
         | Ok x => mkAS s3.(sys) (alter (set_expiry x.(extended_expires_at)) k s3.(known))
         | Err _ => s3
         end ->
    AdmissionRun checker r k s s'.

(** Polls that outlast a wait of [d]. *)
Definition polls_for (d : Z) : nat := Z.to_nat (d / ADMISSION_POLL + 2).

Lemma wait_healthy_run fuel r deadline s :
  let '(passed, s') := wait_healthy fuel r deadline s in
  drift flip_after s s' /\ now s.(sys).(world) <= now s'.(sys).(world) /\
  (passed = true -> healthy_now r s') /\
  (passed = false -> deadline <= now s'.(sys).(world) \/
     now s.(sys).(world) + Z.of_nat fuel * ADMISSION_POLL <= now s'.(sys).(world)).
Proof using Type*.
  revert s. induction fuel as [|fuel IH]; intros s; cbn [wait_healthy].
  { cbn. split_and!; [done | lia | done | lia]. }
  unfold mbind, M_bind. unfold on_sys at 1, read_entry at 1. cbn [fst snd].
  replace (mkAS s.(sys) s.(known)) with s by by destruct s.
  assert (match entry (pool (sys s)) r with Some p => healthy p | None => false end =
    test_entry s.(sys).(pool) healthy r) as -> by done.
  destruct (test_entry s.(sys).(pool) healthy r) eqn:Eh.
  { cbn. split_and!; [done | lia | done | done]. }
  pose proof (drifts_on_sys flip_after read_clock calm_clock s) as D1.
  pose proof (clock_reads s.(sys).(world)) as [Et Ht].
  assert (on_sys read_clock s = ((clock s.(sys).(world)).1,
    mkAS (mkSys s.(sys).(pool) (clock s.(sys).(world)).2 s.(sys).(history)) s.(known))) as Eclock.
  { unfold on_sys, read_clock. by destruct (clock _). }
  rewrite Eclock in D1 |- *. cbn [fst snd] in *. rewrite Et.
  set (s1 := mkAS _ s.(known)) in *.
  destruct (Z.leb_spec deadline (now (world (sys s)))) as [Hd|Hd].
  { cbn. split_and!; [done | done | done |]. intros _. left. lia. }
  pose proof (drifts_awaits flip_after (sleep ADMISSION_POLL) (calm_sleep _) s1) as D2.
  assert (now s1.(sys).(world) + ADMISSION_POLL <= now (awaits (sleep ADMISSION_POLL) s1).2.(sys).(world)) as Hs.
  { pose proof (sleep_passes ADMISSION_POLL s1.(sys)) as Hsl. unfold awaits.
    destruct (sleep ADMISSION_POLL (sys s1)) as [[] y]. pose proof (memory_passes y.(world)) as Hm.
    destruct (others_memory y.(world)) as [ms w]. cbn in *. lia. }
  destruct (awaits (sleep ADMISSION_POLL) s1) as [[] s2]. cbn [fst snd] in *.
  specialize (IH s2). destruct (wait_healthy fuel r deadline s2) as [passed s3].
  destruct IH as (D3 & Hn & Ht' & Hf). assert (now (world (sys s1)) = now (clock (world (sys s))).2) as E1 by done.
  assert (0 <= ADMISSION_POLL) by (unfold ADMISSION_POLL, MILLIS; lia).
  split_and!; [by do 2 (etrans; [eassumption|]) | lia | done |].
  intros Hp. destruct (Hf Hp) as [?|?]; [by left | right; lia].
Qed.

(** C12: An admission extends an agreement only for a provider that passed.
    With polls enough for a first life, it gives up only after that life
    has passed; it extends only after seeing the provider healthy and,
    where integrity is checked, after a check that did not leave it
    serving wrong data; and it writes nothing else. *)
Theorem admission_extends_only_passed checker polls r k s :
  0 <= config.(offer_max_lifetime) ->
  (polls_for config.(offer_max_lifetime) <= polls)%nat ->
  AdmissionRun checker r k s (admission ag checker polls r k s).2.
Proof using Type*.
  intros Hlife Hpolls. unfold admission, mbind, M_bind. cbv zeta.
  pose proof (drifts_on_sys flip_after read_clock calm_clock s) as D1.
  pose proof (clock_reads s.(sys).(world)) as [Et Ht].
  assert (on_sys read_clock s = ((clock s.(sys).(world)).1,
    mkAS (mkSys s.(sys).(pool) (clock s.(sys).(world)).2 s.(sys).(history)) s.(known))) as Eclock.
  { unfold on_sys, read_clock. by destruct (clock _). }
  rewrite Eclock in D1 |- *. cbn [fst snd] in *. rewrite Et. set (s1 := mkAS _ s.(known)) in *.
  pose proof (wait_healthy_run polls r (now s.(sys).(world) + config.(offer_max_lifetime)) s1) as Hw.
  destruct (wait_healthy polls r _ s1) as [passed s2]. destruct Hw as (D2 & Hn & Hpass & Hfail).
  assert (drift flip_after s s2) as D by by etrans.
  assert (now (world (sys s1)) = now (clock (world (sys s))).2) as E1 by done.
  destruct passed; cbn [negb].
  2:{ apply GaveUp; [done|]. destruct (Hfail eq_refl) as [?|Hf]; [done|].
      unfold polls_for in Hpolls. cbn.
      assert (config.(offer_max_lifetime) <= Z.of_nat polls * ADMISSION_POLL); [|lia].
      unfold ADMISSION_POLL, MILLIS in *. Z.to_euclidean_division_equations. lia. }
  specialize (Hpass eq_refl). destruct checker as [c|].
  - destruct (awaits (check r) s2) as [[] s3] eqn:Ec. unfold on_sys, read_entry. cbn [fst snd].
    replace (mkAS s3.(sys) s3.(known)) with s3 by by destruct s3.
    change (match entry (pool (sys s3)) r with Some p => serving_wrong_data p | None => true end)
      with (wrong_now r s3).
    destruct (wrong_now r s3) eqn:Ew.
    + eapply FoundWrong; [exact D | done | done | by rewrite Ec | done].
    + destruct (awaits (extend _ _) s3) as [answer s4] eqn:Ex.
      eapply Extends; [exact D | done | split; [by rewrite Ec | done] | exact Ex |]. by destruct answer.
  - cbn [mret M_ret]. destruct (awaits (extend _ _) s2) as [answer s4] eqn:Ex.
    eapply Extends; [exact D | done | done | exact Ex |]. by destruct answer.
Qed.
End admissions.
