(* ===== verification/FakeChain.v ===== *)
(** The in-memory chain of the integration tests,
    [crates/lb/tests/common/fake_chain.rs]: an implementation of the two
    chain traits without a node or a sidecar. Its head is moved by the
    test, writes land at once, keys are counters, a batch is checked
    before anything of it is applied. It satisfies what the agent relies on of a chain, and it
    is where the agent's theorems meet concrete runs. *)

From S2P Require Import Prelude External Concrete Pool World Records Reader Writer Chain Config Agent Mirror Offers Billing Lifecycle.

#[local] Open Scope Z_scope.

Definition FINALITY_LAG : Z := 64.
Definition SECONDS_PER_BLOCK : Z := 2.

(** A stored entity. *)
Record Entity : Type := mkEntity {
  f_key : EntityKey;
  f_creator : Address;
  f_created_at : Z;
  f_updated_at : Z;
  f_expires_at : Z;
  f_attributes : Attributes;
}.

Record BatchLog : Type := mkBatchLog {
  log_created : list EntityKey;
  log_patched : list EntityKey;
  log_deleted : list EntityKey;
  log_extended : list EntityKey;
}.

Inductive Transaction : Type :=
| TxCreate (k : EntityKey)
| TxPatch (k : EntityKey)
| TxDelete (k : EntityKey)
| TxExtend (k : EntityKey)
| TxBatch (log : BatchLog).

Record FakeState : Type := mkFakeState {
  f_head : Z;
  f_address : Address;
  f_chain_id : Z;
  f_balance : Z;
  next_key : Z;
  next_tx : Z;
  f_entities : list Entity;
  f_transactions : list Transaction;
  sidecar_down_after : option Z;
  sidecar_down_message : option string;
  reference_down : option string;
  queries_down : option string;
  unresolved_next : bool;
  operation_limit : Z;
  pinned_at : list Z;
  unpinned_reads : Z;
}.

Definition fake_new (address : Address) (chain_id : Z) : FakeState :=
  mkFakeState 1 address chain_id 1000000000000000000 1 1 [] [] None None None None false u64_max [] 0.

Definition set_entities (es : list Entity) (f : FakeState) : FakeState :=
  mkFakeState f.(f_head) f.(f_address) f.(f_chain_id) f.(f_balance) f.(next_key) f.(next_tx)
    es f.(f_transactions) f.(sidecar_down_after) f.(sidecar_down_message) f.(reference_down)
    f.(queries_down) f.(unresolved_next) f.(operation_limit) f.(pinned_at) f.(unpinned_reads).
Definition set_next_key (k : Z) (f : FakeState) : FakeState :=
  mkFakeState f.(f_head) f.(f_address) f.(f_chain_id) f.(f_balance) k f.(next_tx)
    f.(f_entities) f.(f_transactions) f.(sidecar_down_after) f.(sidecar_down_message)
    f.(reference_down) f.(queries_down) f.(unresolved_next) f.(operation_limit) f.(pinned_at)
    f.(unpinned_reads).
Definition set_unresolved (b : bool) (f : FakeState) : FakeState :=
  mkFakeState f.(f_head) f.(f_address) f.(f_chain_id) f.(f_balance) f.(next_key) f.(next_tx)
    f.(f_entities) f.(f_transactions) f.(sidecar_down_after) f.(sidecar_down_message)
    f.(reference_down) f.(queries_down) b f.(operation_limit) f.(pinned_at) f.(unpinned_reads).
Definition set_balance (b : Z) (f : FakeState) : FakeState :=
  mkFakeState f.(f_head) f.(f_address) f.(f_chain_id) b f.(next_key) f.(next_tx)
    f.(f_entities) f.(f_transactions) f.(sidecar_down_after) f.(sidecar_down_message)
    f.(reference_down) f.(queries_down) f.(unresolved_next) f.(operation_limit) f.(pinned_at)
    f.(unpinned_reads).
Definition set_reads (pinned : list Z) (unpinned : Z) (f : FakeState) : FakeState :=
  mkFakeState f.(f_head) f.(f_address) f.(f_chain_id) f.(f_balance) f.(next_key) f.(next_tx)
    f.(f_entities) f.(f_transactions) f.(sidecar_down_after) f.(sidecar_down_message)
    f.(reference_down) f.(queries_down) f.(unresolved_next) f.(operation_limit) pinned unpinned.
Definition set_head (h : Z) (f : FakeState) : FakeState :=
  mkFakeState h f.(f_address) f.(f_chain_id) f.(f_balance) f.(next_key) f.(next_tx)
    f.(f_entities) f.(f_transactions) f.(sidecar_down_after) f.(sidecar_down_message)
    f.(reference_down) f.(queries_down) f.(unresolved_next) f.(operation_limit) f.(pinned_at)
    f.(unpinned_reads).
Definition set_operation_limit (n : Z) (f : FakeState) : FakeState :=
  mkFakeState f.(f_head) f.(f_address) f.(f_chain_id) f.(f_balance) f.(next_key) f.(next_tx)
    f.(f_entities) f.(f_transactions) f.(sidecar_down_after) f.(sidecar_down_message)
    f.(reference_down) f.(queries_down) f.(unresolved_next) n f.(pinned_at) f.(unpinned_reads).

(** [n.to_be_bytes()], of a [u64]. *)
Definition to_be_bytes (n : Z) : Bytes :=
  (fun i => default x00 (Byte.of_N (Z.to_N (n / 256 ^ i mod 256)))) <$> [7; 6; 5; 4; 3; 2; 1; 0].

Section fake.
Context `{Alloy} `{Keccak}.

(** [State::expires_at]. *)
Definition expiry_block (f : FakeState) (e : Expiry) : Z :=
  match e with Seconds seconds => f.(f_head) + seconds / SECONDS_PER_BLOCK end.

(** [State::insert]. *)
Definition insert_entity (creator : Address) (a : Attributes) (expires : Z) (f : FakeState) :
    EntityKey * FakeState :=
  let k := f.(next_key) in
  (k, set_entities (f.(f_entities) ++
         [mkEntity k creator f.(f_head) f.(f_head) expires a]) (set_next_key (k + 1) f)).

(** [FakeChain::write_as]: someone else's record. *)
Definition write_as (creator : Address) (a : Attributes) (e : Expiry) (f : FakeState) :
    EntityKey * FakeState := insert_entity creator a (expiry_block f e) f.

(** [FakeChain::advance]. *)
Definition advance (n : Z) (f : FakeState) : FakeState := set_head (f.(f_head) + n) f.
Definition finalize : FakeState -> FakeState := advance FINALITY_LAG.

(** [FakeChain::entity]. *)
Definition stored_entity (k : EntityKey) (f : FakeState) : option Entity :=
  List.find (fun e => Z.eqb e.(f_key) k) f.(f_entities).

(** [FakeChain::outlive]; the [expect] of a key that is not stored is
    [None]. *)
Definition outlive (k : EntityKey) (f : FakeState) : option FakeState :=
  e ← stored_entity k f;
  Some (set_head (Z.max f.(f_head) (e.(f_expires_at) + 1 + FINALITY_LAG)) f).

(** The ways a test breaks the chain: [fail_sidecar], [fail_reference],
    [fail_queries], [fail_sidecar_after], [heal]. *)
Definition set_failures (after : option Z) (message reference queries : option string)
    (unresolved : bool) (f : FakeState) : FakeState :=
  mkFakeState f.(f_head) f.(f_address) f.(f_chain_id) f.(f_balance) f.(next_key) f.(next_tx)
    f.(f_entities) f.(f_transactions) after message reference queries unresolved
    f.(operation_limit) f.(pinned_at) f.(unpinned_reads).
Definition fail_sidecar_after (writes : Z) (message : string) (f : FakeState) : FakeState :=
  set_failures (Some writes) (Some message) f.(reference_down) f.(queries_down)
    f.(unresolved_next) f.
Definition fail_sidecar : string -> FakeState -> FakeState := fail_sidecar_after 0.
Definition fail_reference (message : string) (f : FakeState) : FakeState :=
  set_failures f.(sidecar_down_after) f.(sidecar_down_message) (Some message) f.(queries_down)
    f.(unresolved_next) f.
Definition fail_queries (message : string) (f : FakeState) : FakeState :=
  set_failures f.(sidecar_down_after) f.(sidecar_down_message) f.(reference_down) (Some message)
    f.(unresolved_next) f.
Definition heal (f : FakeState) : FakeState := set_failures None None None None false f.

(** [State::transaction]. *)
Definition transaction (t : Transaction) (f : FakeState) : string * FakeState :=
  (key_hex f.(next_tx),
   mkFakeState f.(f_head) f.(f_address) f.(f_chain_id) f.(f_balance) f.(next_key) (f.(next_tx) + 1)
     f.(f_entities) (f.(f_transactions) ++ [t]) ((fun left => sat_sub left 1) <$> f.(sidecar_down_after))
     f.(sidecar_down_message) f.(reference_down) f.(queries_down) f.(unresolved_next)
     f.(operation_limit) f.(pinned_at) f.(unpinned_reads)).

(** [State::answer]: a landed write's answer, or a 504 when asked for. *)
Definition answer {T} (hash : string) (value : T) (f : FakeState) : result WriteError T * FakeState :=
  if f.(unresolved_next)
  then (Err (Unresolved hash
               [mkErrorLink "WaitForTransactionReceiptTimeoutError" "timed out" None]),
        set_unresolved false f)
  else (Ok value, f).

Definition sidecar (f : FakeState) : result WriteError unit :=
  match f.(sidecar_down_after) with
  | Some 0 => Err (Failed [mkErrorLink "FakeChain" (default EmptyString f.(sidecar_down_message)) None])
  | _ => Ok tt
  end.

Definition reference (f : FakeState) : result ReadError unit :=
  match f.(reference_down) with
  | Some message => Err (RRpc (-32000) message)
  | None => Ok tt
  end.

Definition no_entity (k : EntityKey) : WriteError :=
  Failed [mkErrorLink "FakeChain" ("no entity " ++ key_hex k)%string None].

(** [State::position]: the entity a write names; an expired one is gone. *)
Definition entity_at (k : EntityKey) (f : FakeState) : result WriteError Entity :=
  ok_or (no_entity k)
    (List.find (fun e => Z.eqb e.(f_key) k && Z.ltb f.(f_head) e.(f_expires_at)) f.(f_entities)).

(** [State::extendable]: unless the expiry would move earlier. *)
Definition extendable (x : Extend) (f : FakeState) : result WriteError Entity :=
  e ← entity_at x.(extend_key) f;
  let asked := expiry_block f x.(extend_expiration) in
  if Z.ltb asked e.(f_expires_at)
  then Err (Failed [mkErrorLink "FakeChain"
    ("the extend of " ++ key_hex x.(extend_key) ++ " to block " ++ decimal asked ++
     " would move its expiry, " ++ decimal e.(f_expires_at) ++ ", earlier")%string None])
  else Ok e.

(** [Entity::matches]. *)
Definition matches (e : Entity) (c : Condition) : bool :=
  match c with
  | CKey k => Z.eqb e.(f_key) k
  | CCreator a => Z.eqb e.(f_creator) a
  | CAttribute name value => bool_decide (e.(f_attributes) !! name = Some value)
  | CExpiresAfter h => Z.ltb h e.(f_expires_at)
  | CExpiresBy b => Z.leb e.(f_expires_at) b
  end.

Definition as_arkiv_entity (e : Entity) : ArkivEntity :=
  mkArkivEntity e.(f_key) e.(f_creator) e.(f_created_at) e.(f_updated_at) e.(f_expires_at)
    (attributes_to_read e.(f_attributes)).

(** [State::matching]. *)
Definition matching (q : Query) (f : FakeState) : list ArkivEntity :=
  let at_ := default f.(f_head) q.(at_block) in
  as_arkiv_entity <$>
    List.filter (fun e => forallb (matches e) q.(conditions))
      (List.filter (fun e => Z.ltb at_ e.(f_expires_at)) f.(f_entities)).

(** One entity written in place; no two have one key. *)
Definition rewrite_entity (k : EntityKey) (g : Entity -> Entity) (f : FakeState) : FakeState :=
  set_entities ((fun e => if Z.eqb e.(f_key) k then g e else e) <$> f.(f_entities)) f.

(** [Entity::apply]. *)
Definition apply_patch (p : Patch) (head : Z) (e : Entity) : Entity :=
  mkEntity e.(f_key) e.(f_creator) e.(f_created_at) head e.(f_expires_at)
    (foldl (fun a kv => with_ kv.1 kv.2 a) e.(f_attributes) (attributes_iter p.(set))).

Definition apply_extend (expires head : Z) (e : Entity) : Entity :=
  mkEntity e.(f_key) e.(f_creator) e.(f_created_at) head expires e.(f_attributes).

Definition remove_entity (k : EntityKey) (f : FakeState) : FakeState :=
  set_entities (List.filter (fun e => negb (Z.eqb e.(f_key) k)) f.(f_entities)) f.

(** ** The traits *)

Definition fake_block_number : M FakeState (result ReadError Z) := fun f =>
  (_ ← reference f; Ok f.(f_head), f).

(** A block per height, made up from the height and the chain id. *)
Definition seal (f : FakeState) (tag : string) (n : Z) : EntityKey :=
  keccak256 (String.list_byte_of_string tag ++ to_be_bytes n ++ to_be_bytes f.(f_chain_id)).

Definition fake_block (at_ : BlockAt) : M FakeState (result ReadError (option BlockFields)) := fun f =>
  (_ ← reference f;
   let block n := Ok (Some (mkBlockFields n (seal f "hash" n) (seal f "hash" (sat_sub n 1))
                             (seal f "state" n) (seal f "txs" n) (seal f "receipts" n) [])) in
   match at_ with
   | Finalized => block (sat_sub f.(f_head) FINALITY_LAG)
   | Number_ n => if Z.ltb f.(f_head) n then Ok None else block n
   end, f).

Definition fake_balance (a : Address) : M FakeState (result ReadError Z) := fun f =>
  (_ ← reference f; Ok (if Z.eqb a f.(f_address) then f.(f_balance) else 0), f).

Definition fake_query (q : Query) : M FakeState (result ReadError Page) := fun f =>
  match reference f with
  | Err e => (Err e, f)
  | Ok _ =>
      match f.(queries_down) with
      | Some message => (Err (RRpc (-32000) message), f)
      | None =>
          let f := match q.(at_block) with
                   | Some block => set_reads (f.(pinned_at) ++ [block]) f.(unpinned_reads) f
                   | None => set_reads f.(pinned_at) (f.(unpinned_reads) + 1) f
                   end in
          let es := matching q f in
          (Ok (mkPage (take (Z.to_nat PAGE_LIMIT) es) (Z.ltb PAGE_LIMIT (Z.of_nat (length es)))
                 (default f.(f_head) q.(at_block))), f)
      end
  end.

Definition fake_count (q : Query) : M FakeState (result ReadError Z) := fun f =>
  (_ ← reference f; Ok (Z.of_nat (length (matching q f))), f).

Definition fake_identity : M FakeState (result WriteError Identity) := fun f =>
  (_ ← sidecar f; Ok (mkIdentity f.(f_address) f.(f_chain_id)), f).

Definition fake_create (c : Create) : M FakeState (result WriteError Created) := fun f =>
  match sidecar f with
  | Err e => (Err e, f)
  | Ok _ =>
      let expires := expiry_block f c.(expiration) in
      let '(k, f) := insert_entity f.(f_address) c.(create_attributes) expires f in
      let '(hash, f) := transaction (TxCreate k) f in
      answer hash (mkCreated k hash expires) f
  end.

Definition fake_patch (p : Patch) : M FakeState (result WriteError Written) := fun f =>
  match (_ ← sidecar f; entity_at p.(patch_key) f) with
  | Err e => (Err e, f)
  | Ok _ =>
      let f := rewrite_entity p.(patch_key) (apply_patch p f.(f_head)) f in
      let '(hash, f) := transaction (TxPatch p.(patch_key)) f in
      (Ok (mkWritten p.(patch_key) hash), f)
  end.

Definition fake_delete (d : Delete) : M FakeState (result WriteError Written) := fun f =>
  match (_ ← sidecar f; entity_at d.(delete_key) f) with
  | Err e => (Err e, f)
  | Ok _ =>
      let f := remove_entity d.(delete_key) f in
      let '(hash, f) := transaction (TxDelete d.(delete_key)) f in
      (Ok (mkWritten d.(delete_key) hash), f)
  end.

Definition fake_extend (x : Extend) : M FakeState (result WriteError Extended) := fun f =>
  match (_ ← sidecar f; extendable x f) with
  | Err e => (Err e, f)
  | Ok _ =>
      let expires := expiry_block f x.(extend_expiration) in
      let f := rewrite_entity x.(extend_key) (apply_extend expires f.(f_head)) f in
      let '(hash, f) := transaction (TxExtend x.(extend_key)) f in
      (Ok (mkExtended x.(extend_key) hash expires), f)
  end.

(** What every operation of a batch has to pass before any is applied. *)
Definition operation_check (f : FakeState) (o : Operation) : result WriteError unit :=
  match o with
  | OpCreate _ => Ok tt
  | OpPatch p => (fun _ => tt) <$> entity_at p.(patch_key) f
  | OpDelete d => (fun _ => tt) <$> entity_at d.(delete_key) f
  | OpExtend x => (fun _ => tt) <$> extendable x f
  end.

(** One operation applied; a key gone by then fails it. *)
Definition apply_operation (o : Operation) (log : BatchLog) (f : FakeState) :
    result WriteError BatchLog * FakeState :=
  match o with
  | OpCreate c =>
      let '(k, f) := insert_entity f.(f_address) c.(create_attributes)
                       (expiry_block f c.(expiration)) f in
      (Ok (mkBatchLog (log.(log_created) ++ [k]) log.(log_patched) log.(log_deleted) log.(log_extended)), f)
  | OpPatch p =>
      match entity_at p.(patch_key) f with
      | Err e => (Err e, f)
      | Ok _ =>
          (Ok (mkBatchLog log.(log_created) (log.(log_patched) ++ [p.(patch_key)]) log.(log_deleted)
                 log.(log_extended)), rewrite_entity p.(patch_key) (apply_patch p f.(f_head)) f)
      end
  | OpDelete d =>
      match entity_at d.(delete_key) f with
      | Err e => (Err e, f)
      | Ok _ =>
          (Ok (mkBatchLog log.(log_created) log.(log_patched) (log.(log_deleted) ++ [d.(delete_key)])
                 log.(log_extended)), remove_entity d.(delete_key) f)
      end
  | OpExtend x =>
      match entity_at x.(extend_key) f with
      | Err e => (Err e, f)
      | Ok _ =>
          (Ok (mkBatchLog log.(log_created) log.(log_patched) log.(log_deleted)
                 (log.(log_extended) ++ [x.(extend_key)])),
           rewrite_entity x.(extend_key)
             (apply_extend (expiry_block f x.(extend_expiration)) f.(f_head)) f)
      end
  end.

Fixpoint apply_operations (os : list Operation) (log : BatchLog) (f : FakeState) :
    result WriteError BatchLog * FakeState :=
  match os with
  | [] => (Ok log, f)
  | o :: os =>
      match apply_operation o log f with
      | (Err e, f) => (Err e, f)
      | (Ok log, f) => apply_operations os log f
      end
  end.

Definition fake_execute_batch (x : Batch) : M FakeState (result WriteError BatchResult) := fun f =>
  match sidecar f with
  | Err e => (Err e, f)
  | Ok _ =>
      let os := x.(operations) in
      let n := Z.of_nat (length os) in
      if Z.ltb f.(operation_limit) n
      then (Err (WTooLarge [mkErrorLink "FakeChain" "Missing or invalid parameters."
              (Some ("oversized data: " ++ decimal n ++ " operations, limit " ++
                     decimal f.(operation_limit))%string)]), f)
      else
        match for_each_ok (operation_check f) os with
        | Err e => (Err e, f)
        | Ok _ =>
            match apply_operations os (mkBatchLog [] [] [] []) f with
            | (Err e, f) => (Err e, f)
            | (Ok log, f) =>
                let '(hash, f) := transaction (TxBatch log) f in
                answer hash (mkBatchResult hash log.(log_created) log.(log_patched)
                               log.(log_deleted) log.(log_extended)) f
            end
        end
  end.
End fake.

(** * The world around it

    The chain, the clock, which [sleep] moves, the ports something
    listens on, and a script of what the other tasks do at each await:
    to the pool, and to the agent's memory. *)
Record FakeWorld : Type := mkFakeWorld {
  fw_chain : FakeState;
  fw_time : Z;
  fw_bound : list Z;
  fw_others : list (list OtherStep);
  fw_learned : list (list MemoryStep);
}.

Definition set_chain (f : FakeState) (w : FakeWorld) : FakeWorld :=
  mkFakeWorld f w.(fw_time) w.(fw_bound) w.(fw_others) w.(fw_learned).

(** The steps of [OtherStep] the other tasks take. *)
Definition others_take (o : OtherStep) : bool :=
  match o with
  | OAdd _ | ORemove _ | OEvent _ (OnSeed _) | OEvent _ (OnSubtract _) => false
  | _ => true
  end.

#[export] Instance fake_world : World FakeWorld := {
  clock w := (w.(fw_time), w);
  http_post _ w := (Err false, w);
  others w := (List.filter others_take (hd [] w.(fw_others)),
    mkFakeWorld w.(fw_chain) w.(fw_time) w.(fw_bound) (tl w.(fw_others)) w.(fw_learned));
  random_id w := (1, w);
  others_select w := (fun _ => 0, w);
}.

#[export] Instance fake_memory : Memory FakeWorld := {
  others_memory w := (hd [] w.(fw_learned),
    mkFakeWorld w.(fw_chain) w.(fw_time) w.(fw_bound) w.(fw_others) (tl w.(fw_learned)));
}.

(** A chain in order: keys are given out once, below the counter. *)
Record chain_ok (f : FakeState) : Prop := {
  ok_address : is_address f.(f_address);
  ok_entities : Forall (fun e => e.(f_key) < f.(next_key) /\ is_address e.(f_creator)) f.(f_entities);
  ok_keys : NoDup (f_key <$> f.(f_entities));
}.

#[export] Instance fake_issuer : Issuer FakeWorld := {
  issued w k := k < w.(fw_chain).(next_key);
  in_order w := chain_ok w.(fw_chain);
}.

(** The chain after an operation: keys stay given out, order stays. *)
Record onward (f f' : FakeState) : Prop := {
  on_keys : f.(next_key) <= f'.(next_key);
  on_ok : chain_ok f -> chain_ok f';
}.

#[export] Instance onward_preorder : PreOrder onward.
Proof. split; [by intros f | intros f1 f2 f3 [? ?] [? ?]; split; [lia | auto]]. Qed.

Lemma onward_same f f' :
  f'.(next_key) = f.(next_key) -> f'.(f_address) = f.(f_address) ->
  f'.(f_entities) = f.(f_entities) -> onward f f'.
Proof. intros E1 E2 E3. split; [lia|]. intros [? ? ?]. by constructor; rewrite ?E1, ?E2, ?E3. Qed.

Section onward.
Context `{Alloy}.

Lemma onward_insert creator a expires f :
  (chain_ok f -> is_address creator) -> onward f (insert_entity creator a expires f).2.
Proof.
  intros Hc. split; [cbn; lia|]. intros Hok. pose proof (Hc Hok) as Hcr. destruct Hok as [Ha He Hk].
  constructor; cbn; [done|..].
  - apply Forall_app. split.
    + eapply Forall_impl; [exact He|]. cbn. intros e [? ?]. split; [lia|done].
    + apply Forall_singleton. cbn. split; [lia|done].
  - rewrite fmap_app, NoDup_app. split_and!; [done| |by apply NoDup_singleton].
    intros k (e & -> & Hin)%list_elem_of_fmap E%list_elem_of_singleton. cbn in E.
    rewrite Forall_forall in He. destruct (He e Hin) as [Hlt _]. lia.
Qed.

Lemma onward_transaction t f : onward f (transaction t f).2.
Proof. by apply onward_same. Qed.

Lemma onward_answer {T} hash (v : T) f : onward f (answer hash v f).2.
Proof. unfold answer. destruct (unresolved_next f); by apply onward_same. Qed.

Lemma onward_rewrite k g f :
  (forall e, (g e).(f_key) = e.(f_key) /\ (g e).(f_creator) = e.(f_creator)) ->
  onward f (rewrite_entity k g f).
Proof.
  intros Hg. split; [cbn; lia|]. intros [Ha He Hk].
  assert (forall e, (if Z.eqb e.(f_key) k then g e else e).(f_key) = e.(f_key) /\
    (if Z.eqb e.(f_key) k then g e else e).(f_creator) = e.(f_creator)) as Hid.
  { intros e. by destruct (Z.eqb _ _). }
  constructor; cbn; [done|..].
  - apply Forall_fmap. eapply Forall_impl; [exact He|]. intros e. cbn. by destruct (Hid e) as [-> ->].
  - rewrite <- list_fmap_compose. rewrite (list_fmap_ext _ f_key); [done|].
    intros i e _. apply Hid.
Qed.

Lemma filter_sublist {A} (p : A -> bool) l : List.filter p l `sublist_of` l.
Proof. induction l as [|x l IH]; cbn; [done|]. destruct (p x); by constructor. Qed.

Lemma Forall_sublist {A} (P : A -> Prop) l k : Forall P k -> l `sublist_of` k -> Forall P l.
Proof. rewrite !Forall_forall. intros Hk Hs x Hx. by eapply Hk, elem_of_sublist. Qed.

Lemma onward_remove k f : onward f (remove_entity k f).
Proof.
  split; [cbn; lia|]. intros [Ha He Hk]. constructor; cbn; [done|..].
  - eapply Forall_sublist; [exact He | apply filter_sublist].
  - eapply sublist_NoDup; [exact Hk | apply fmap_sublist, filter_sublist].
Qed.

Lemma onward_apply o log f : onward f (apply_operation o log f).2.
Proof.
  destruct o as [c|p|d|x]; cbn [apply_operation].
  - pose proof (onward_insert f.(f_address) c.(create_attributes) (expiry_block f c.(expiration)) f) as Hi.
    destruct (insert_entity _ _ _ _) as [k f']. apply Hi. by intros [].
  - destruct (entity_at _ _); [by apply onward_rewrite | done].
  - destruct (entity_at _ _); [apply onward_remove | done].
  - destruct (entity_at _ _); [by apply onward_rewrite | done].
Qed.

Lemma onward_apply_all os log f : onward f (apply_operations os log f).2.
Proof.
  revert log f. induction os as [|o os IH]; intros log f; cbn [apply_operations]; [done|].
  pose proof (onward_apply o log f) as Ho. destruct (apply_operation o log f) as [[log'|e] f'];
    [|done]. etrans; [exact Ho | apply IH].
Qed.

(** An operation on the chain alone. *)
Definition goes_on {A} (m : M FakeState A) : Prop := forall f, onward f (m f).2.

Lemma query_goes_on q : goes_on (fake_query q).
Proof.
  intros f. unfold fake_query. destruct (reference f); [|done]. destruct (queries_down f); [done|].
  destruct (at_block q); by apply onward_same.
Qed.

Lemma create_goes_on c : goes_on (fake_create c).
Proof.
  intros f. unfold fake_create. destruct (sidecar f); [|done].
  pose proof (onward_insert f.(f_address) c.(create_attributes) (expiry_block f c.(expiration)) f) as Hi.
  destruct (insert_entity _ _ _ _) as [k f1]. pose proof (onward_transaction (TxCreate k) f1) as Ht.
  destruct (transaction _ _) as [hash f2].
  pose proof (onward_answer hash (mkCreated k hash (expiry_block f c.(expiration))) f2) as Ha.
  etrans; [apply Hi; by intros []|]. by etrans.
Qed.

Lemma patch_goes_on p : goes_on (fake_patch p).
Proof.
  intros f. unfold fake_patch. destruct (_ ≫= _); [|done].
  etrans; [|apply onward_transaction]. by apply onward_rewrite.
Qed.

Lemma delete_goes_on d : goes_on (fake_delete d).
Proof.
  intros f. unfold fake_delete. destruct (_ ≫= _); [|done].
  etrans; [|apply onward_transaction]. apply onward_remove.
Qed.

Lemma extend_goes_on x : goes_on (fake_extend x).
Proof.
  intros f. unfold fake_extend. destruct (_ ≫= _); [|done].
  etrans; [|apply onward_transaction]. by apply onward_rewrite.
Qed.

Lemma batch_goes_on x : goes_on (fake_execute_batch x).
Proof.
  intros f. unfold fake_execute_batch. destruct (sidecar f); [|done]. cbv zeta.
  destruct (Z.ltb _ _); [done|]. destruct (for_each_ok _ _); [|done].
  pose proof (onward_apply_all x.(operations) (mkBatchLog [] [] [] []) f) as Ho.
  destruct (apply_operations _ _ f) as [[log|e] f1]; [|done].
  pose proof (onward_transaction (TxBatch log) f1) as Ht. destruct (transaction _ _) as [hash f2].
  pose proof (onward_answer hash (mkBatchResult hash log.(log_created) log.(log_patched)
    log.(log_deleted) log.(log_extended)) f2) as Ha.
  etrans; [exact Ho|]. by etrans.
Qed.
End onward.

(** * The instances

    An operation on the chain is an await: the others run at its end. *)
Inductive FakeChain : Type := TheChain.

Section instances.
Context `{Alloy} `{Keccak} (flip_after : Z).

Definition on_chain {A} (m : M FakeState A) : M (Sys FakeWorld) A := fun s =>
  let '(a, f) := m s.(world).(fw_chain) in
  let '(_, s) := let_others_run flip_after
                   (mkSys s.(pool) (set_chain f s.(world)) s.(history)) in
  (a, s).

#[export] Instance fake_reader : ChainReader FakeChain (Sys FakeWorld) := {|
  block_number _ := on_chain fake_block_number;
  block _ at_ := on_chain (fake_block at_);
  balance _ a := on_chain (fake_balance a);
  query _ q := on_chain (fake_query q);
  count _ q := on_chain (fake_count q);
|}.

#[export] Instance fake_writer : ChainWriter FakeChain (Sys FakeWorld) := {|
  identity _ := on_chain fake_identity;
  create _ c := on_chain (fake_create c);
  patch _ p := on_chain (fake_patch p);
  delete _ d := on_chain (fake_delete d);
  extend _ x := on_chain (fake_extend x);
  execute_batch _ x := on_chain (fake_execute_batch x);
|}.

#[export] Instance fake_loopback : Loopback FakeWorld := {
  port_is_bound p := fun s =>
    let '(_, s') := let_others_run flip_after s in
    (bool_decide (p ∈ s.(world).(fw_bound)), s');
}.

(** The paused clock of the tests: a sleep moves it. *)
#[export] Instance fake_sleep : Sleep FakeWorld := {
  sleep d := fun s =>
    let w := s.(world) in
    let_others_run flip_after
      (mkSys s.(pool) (mkFakeWorld w.(fw_chain) (w.(fw_time) + d) w.(fw_bound) w.(fw_others)
         w.(fw_learned)) s.(history));
}.

#[export] Instance fake_rely : Rely FakeWorld.
Proof.
  split. intros w. cbn. apply Forall_forall. intros o [_ Ho]%list_elem_of_In%filter_In.
  by destruct o as [r []| | | |].
Qed.

Lemma others_chain (s : Sys FakeWorld) :
  (let_others_run flip_after s).2.(world).(fw_chain) = s.(world).(fw_chain) /\
  (let_others_run flip_after s).2.(world).(fw_time) = s.(world).(fw_time).
Proof. done. Qed.

Lemma calm_others_at (g : FakeWorld -> FakeWorld) :
  (forall w, onward w.(fw_chain) (g w).(fw_chain)) ->
  calm flip_after (fun s : Sys FakeWorld =>
    let_others_run flip_after (mkSys s.(pool) (g s.(world)) s.(history))).
Proof.
  intros Hg. split; intros s.
  - destruct (quiet_others flip_after (mkSys s.(pool) (g s.(world)) s.(history))) as (hs & Hs & Hq).
    by exists hs.
  - destruct (Hg s.(world)) as [Hk Hok]. split; cbn; [intros k; lia | done].
Qed.

Lemma calm_on_chain {A} (m : M FakeState A) : goes_on m -> calm flip_after (on_chain m).
Proof.
  intros Hm.
  pose proof (calm_others_at (fun w => set_chain (m w.(fw_chain)).2 w) (fun w => Hm w.(fw_chain)))
    as [Hq Hk].
  split; intros s; specialize (Hq s); specialize (Hk s); unfold on_chain; cbn beta in *;
    destruct (m s.(world).(fw_chain)) as [a f]; cbn [snd] in *;
    destruct (let_others_run _ _) as [[] s']; assumption.
Qed.

(** What an operation answers, and the chain it leaves. *)
Lemma on_chain_run {A} (m : M FakeState A) s :
  (on_chain m s).1 = (m s.(world).(fw_chain)).1 /\
  (on_chain m s).2.(world).(fw_chain) = (m s.(world).(fw_chain)).2.
Proof. unfold on_chain. by destruct (m s.(world).(fw_chain)). Qed.

#[export] Instance fake_chain : Chain FakeChain FakeChain FakeWorld flip_after.
Proof.
  split.
  - split; [apply quiet_clock | by intros s].
  - intros r. by apply calm_on_chain.
  - intros r a. by apply calm_on_chain.
  - intros r q. apply calm_on_chain, query_goes_on.
  - intros r q. by apply calm_on_chain.
  - intros w. by apply calm_on_chain.
  - intros w c. apply calm_on_chain, create_goes_on.
  - intros w p. apply calm_on_chain, patch_goes_on.
  - intros w x. apply calm_on_chain, extend_goes_on.
  - intros w x. apply calm_on_chain, batch_goes_on.
  - intros r q s page Hord. cbn [query fake_reader].
    destruct (on_chain_run (fake_query q) s) as [-> E]. unfold in_order, issued in *.
    cbn [fake_issuer] in *. rewrite E. clear E.
    generalize dependent s.(world).(fw_chain). intros f [Ha He Hk]. unfold fake_query.
    destruct (reference f); [|done]. destruct (queries_down f); [done|].
    set (f' := match at_block q with Some _ => _ | None => _ end).
    assert (f'.(f_entities) = f.(f_entities) /\ f'.(next_key) = f.(next_key)) as [E1 E2]
      by by unfold f'; destruct (at_block q).
    cbn [fst snd]. intros [= <-]. cbn [entities].
    assert (exists es, as_arkiv_entity <$> es = take (Z.to_nat PAGE_LIMIT) (matching q f') /\
      es `sublist_of` f.(f_entities)) as (es & <- & Hsub).
    { unfold matching. rewrite <- fmap_take. eexists. split; [done|].
      etrans; [apply sublist_take|]. etrans; [apply filter_sublist|].
      rewrite <- E1. apply filter_sublist. }
    split.
    + rewrite <- list_fmap_compose. eapply sublist_NoDup; [exact Hk | by apply fmap_sublist].
    + apply Forall_fmap. eapply Forall_sublist; [|exact Hsub]. rewrite E2. exact He.
  - intros w c s x Hord. cbn [create fake_writer].
    destruct (on_chain_run (fake_create c) s) as [-> E]. unfold issued. cbn [fake_issuer].
    rewrite E. clear E Hord. generalize s.(world).(fw_chain) as f. intros f.
    unfold fake_create. destruct (sidecar f); [|done]. unfold insert_entity, transaction, answer.
    cbn. destruct (unresolved_next f); cbn; [done|]. intros [= <-]. cbn. lia.
Qed.

#[export] Instance fake_quiet_memory : QuietMemory FakeWorld.
Proof. by split. Qed.

#[export] Instance fake_quiet_loopback : QuietLoopback FakeWorld flip_after.
Proof.
  split. intros p.
  pose proof (calm_others_at (fun w => w) (fun w => reflexivity w.(fw_chain))) as [Hq Hk].
  split; intros s; specialize (Hq s); specialize (Hk s); cbn beta in *;
    replace (mkSys s.(pool) s.(world) s.(history)) with s in * by (by destruct s);
    unfold port_is_bound, fake_loopback; destruct (let_others_run _ s) as [[] s']; assumption.
Qed.

#[export] Instance fake_quiet_sleep : QuietSleep FakeWorld flip_after.
Proof.
  split. intros d. apply (calm_others_at (fun w => mkFakeWorld w.(fw_chain) (w.(fw_time) + d)
    w.(fw_bound) w.(fw_others) w.(fw_learned))). by intros w.
Qed.

#[export] Instance fake_timed : Timed FakeWorld.
Proof.
  refine {| now := fw_time |}.
  - intros w. cbn. lia.
  - intros d s. cbn. lia.
  - intros w. cbn. lia.
Defined.
(** Between two operations the test moves the chain, and others write. *)
Definition chain_does (g : FakeState -> FakeState) (s : AS FakeWorld) : AS FakeWorld :=
  mkAS (mkSys s.(sys).(pool) (set_chain (g s.(sys).(world).(fw_chain)) s.(sys).(world))
          s.(sys).(history)) s.(known).

Lemma chain_does_drift g s : (forall f, onward f (g f)) -> drift flip_after s (chain_does g s).
Proof.
  intros Hg. destruct (Hg s.(sys).(world).(fw_chain)) as [Hk Hok]. split.
  - exists []. split; [by apply steps_refl | done].
  - by exists [].
  - split; [intros k; unfold issued; cbn; lia | exact Hok].
Qed.

(** What the other tasks will do at the next awaits. *)
Definition scripted (os : list (list OtherStep)) (s : AS FakeWorld) : AS FakeWorld :=
  let w := s.(sys).(world) in
  mkAS (mkSys s.(sys).(pool) (mkFakeWorld w.(fw_chain) w.(fw_time) w.(fw_bound) os w.(fw_learned))
          s.(sys).(history)) s.(known).

Lemma scripted_drift os s : drift flip_after s (scripted os s).
Proof. split; [|by exists []|done]. exists []. split; [by apply steps_refl | done]. Qed.

(** Between two operations the other tasks act on the pool. *)
Definition others_do (os : list OtherStep) (s : AS FakeWorld) : AS FakeWorld :=
  mkAS (mkSys (foldl (fun pl o => other_step flip_after o pl) s.(sys).(pool) os) s.(sys).(world)
          (s.(sys).(history) ++ (Theirs <$> os))) s.(known).

Lemma others_do_drift os s : Forall benign os -> drift flip_after s (others_do os s).
Proof.
  intros Hos. split; [|by exists []|done]. exists (Theirs <$> os). split; [|by apply Forall_fmap].
  split; [done|]. cbn. clear. generalize (pool (sys s)).
  induction os as [|o os IH]; intros pl; [done|]. apply IH.
Qed.

Lemma onward_advance n f : onward f (advance n f).
Proof. by apply onward_same. Qed.

Lemma onward_write_as creator a e f : is_address creator -> onward f (write_as creator a e f).2.
Proof. intros Hc. by apply onward_insert. Qed.
End instances.

(** A batch that names a key twice passes the checks, which run before
    anything is applied; its first delete lands and its second does not. *)
Example batch_half_lands :
  let f := (insert_entity 100 ∅ 50 (fake_new 100 42)).2 in
  let os := [OpDelete (mkDelete 1); OpDelete (mkDelete 1)] in
  let '(r, f') := fake_execute_batch (mkBatch os) f in
  length f.(f_entities) = 1%nat /\ is_ok r = false /\ f'.(f_entities) = [].
Proof. vm_compute. done. Qed.
