(* ===== verification/Proxy.v ===== *)
(** The public listener, [crates/lb/src/proxy.rs]: the refusals answered
    before any provider is involved, and failover over the pool. *)

From S2P Require Import Prelude External Concrete Denylist Jsonrpc Pool World Forwarder Config.

#[local] Open Scope Z_scope.

Definition newline : string := String (ascii_of_N 10) EmptyString.

(** A [BytesRejection]: its status and the response it makes itself. *)
Record BytesRejection : Type := mkBytesRejection {
  rejection_status : Z;
  rejection_response : Response;
}.

Record ProxyState : Type := mkProxyState {
  forwarder : Forwarder;
  config : Proxy;
  state_flip_after : Z;
}.

Definition text_response (status : Z) (headers : list (string * string)) (s : string) : Response :=
  mkResponse status headers (RText s).

Definition not_found : Response :=
  text_response 404 [] ("Nothing here: the JSON-RPC endpoint is the root path." ++ newline).

Definition method_not_allowed : Response :=
  text_response 405 [("allow", "POST, OPTIONS")]%string
    ("This is a JSON-RPC endpoint: send requests with HTTP POST." ++ newline).

Section proxy.
Context `{SerdeJson}.

(** The envelope as a response, the id echoed when the body yields one. *)
Definition error (status code : Z) (message : string) (request_body : Bytes) : Response :=
  mkResponse status [("content-type", "application/json")]%string
    (RJson (error_response code message (extract_id request_body))).

Definition check_request (body : result BytesRejection Bytes) : result Response Bytes :=
  match body with
  | Err rejection =>
      if Z.eqb rejection.(rejection_status) 413
      then Err (error 413 REQUEST_TOO_LARGE "request too large" [])
      else Err rejection.(rejection_response)
  | Ok body =>
      if negb (looks_like_json body)
      then Err (text_response 400 []
        ("Request body is not a JSON-RPC request: expected a JSON object or a batch array." ++
         newline))
      else match denied body with
           | Some name =>
               Err (error 200 METHOD_DENIED
                      ("method not supported: " ++ String.string_of_list_byte name) body)
           | None => Ok body
           end
  end.

Context {W : Type} `{World W} (st : ProxyState).
Abbreviation flip := (st.(state_flip_after)) (only parsing).

(** A provider silent for the whole attempt is ticked like a refusal. *)
Definition tick_unless (answered : bool) (r : ptr) : M (Sys W) unit :=
  if answered then mret tt else act flip r (OnHealth false Traffic).

(** The [for] over the attempts left: a response, or falling out of it. *)
Fixpoint try_providers (left_ : nat) (deadline : Z) (body : Bytes) {struct left_} :
    M (Sys W) (option Response) :=
  match left_ with
  | O => mret None
  | S left_ =>
      provider ← select;
      match provider with
      | None =>
          _ ← count_outcome NoHealthyProvider;
          mret (Some (error 503 NO_HEALTHY_PROVIDER "no healthy provider" body))
      | Some r =>
          now ← read_clock;
          let remaining := since deadline now in
          if Z.eqb remaining 0 then mret None
          else
            let timeout := Z.min remaining st.(config).(attempt_timeout) in
            attempt_started ← read_clock;
            target ← read_entry r url EmptyString;
            outcome ← attempt flip st.(forwarder) target body timeout;
            match outcome with
            | Answer response =>
                now ← read_clock;
                _ ← act flip r (OnServed now);
                mret (Some response)
            | TooLarge => mret (Some (error 502 RESPONSE_TOO_LARGE "response too large" body))
            | NoAnswer =>
                _ ← act flip r (OnHealth false Traffic);
                _ ← act flip r OnTransportFailure;
                try_providers left_ deadline body
            | TimedOut =>
                answered ← read_entry r (fun p => answered_since p attempt_started) false;
                _ ← tick_unless answered r;
                _ ← act flip r OnTransportFailure;
                try_providers left_ deadline body
            end
      end
  end.

(** [1 + max_retries], on a [u32]. *)
Definition max_attempts : Z := (1 + st.(config).(max_retries)) mod (u32_max + 1).

Definition forward_with_failover (body : Bytes) : M (Sys W) Response :=
  started ← read_clock;
  let deadline := started + st.(config).(request_timeout) in
  answer ← try_providers (Z.to_nat max_attempts) deadline body;
  match answer with
  | Some response => mret response
  | None =>
      now ← read_clock;
      if Z.leb deadline now
      then _ ← count_outcome RequestTimedOut;
           mret (error 504 REQUEST_TIMED_OUT "request timed out" body)
      else _ ← count_outcome NoProviderAnswered;
           mret (error 503 NO_HEALTHY_PROVIDER "no provider answered" body)
  end.

Definition handle (body : result BytesRejection Bytes) : M (Sys W) Response :=
  match check_request body with
  | Ok body => forward_with_failover body
  | Err refusal => mret refusal
  end.

(** The routes: only POST on the root path is served. CORS preflight is
    answered by a layer above. *)
Definition router (path method : string) (body : result BytesRejection Bytes) :
    M (Sys W) Response :=
  if bool_decide (path = "/"%string)
  then if bool_decide (method = "POST"%string) then handle body else mret method_not_allowed
  else mret not_found.
End proxy.

(** * What a request does, abstractly

    A request tries providers one after another, each a member in
    rotation at that moment. It ends with a provider's answer, with an
    answer over the cap, without a provider to try, or out of tries or
    time; [Worth] tells what an exchange was worth. *)
Inductive Ending : Type :=
| Answered (r : ptr) (response : Response) | OverCap | NoneHealthy | GaveUp.

(** One try: the provider, what it was sent, how that went, and whether
    the provider had shown since that it answers. *)
Record Attempt : Type := mkAttempt {
  tried : ptr;
  asked : HttpRequest;
  exchange : result HttpError HttpResponse;
  heard : bool;
}.

Section spec.
Context `{SerdeJson} {W : Type} `{World W} (st : ProxyState) (body : Bytes) (deadline : Z).
Abbreviation flip := (st.(state_flip_after)) (only parsing).

(** A selection moves the rotation on and nothing else; it picks a member
    in rotation, and none only when there is none. *)
Definition picked (s : Sys W) (o : option ptr) (s1 : Sys W) : Prop :=
  same_pool s1.(pool) s.(pool) /\ s1.(history) = s.(history) /\
  match o with
  | Some r => r ∈ s.(pool).(members) /\ test_entry s.(pool) eligible r = true
  | None => Forall (fun r => test_entry s.(pool) eligible r = false) s.(pool).(members)
  end.

(** A try from [s] to [s']: a provider is picked before the deadline, and
    sent the client's body for as long as there is time left, at most one
    attempt's. *)
Definition attempted (s : Sys W) (a : Attempt) (s' : Sys W) : Prop :=
  exists s1 now s2 started s3 p,
    picked s (Some a.(tried)) s1 /\ read_clock s1 = (now, s2) /\ now < deadline /\
    read_clock s2 = (started, s3) /\
    entry s.(pool) a.(tried) = Some p /\
    a.(asked) = mkHttpRequest POST p.(url) "application/json" None body
                  (Z.min (deadline - now) st.(config).(attempt_timeout)) /\
    post flip a.(asked) s3 = (a.(exchange), s') /\
    a.(heard) = test_entry s'.(pool) (fun p => answered_since p started) a.(tried).

(** What a try without an answer costs its provider: a failed health
    signal, unless it was only slow while others heard from it, and a
    transport failure. *)
Definition cost_of (a : Attempt) (o : Outcome) : list Event :=
  match o with
  | NoAnswer => [OnHealth false Traffic; OnTransportFailure]
  | TimedOut => if a.(heard) then [OnTransportFailure] else [OnHealth false Traffic; OnTransportFailure]
  | Answer _ | TooLarge => []
  end.

(** Events on one entry, by this task. *)
Definition acts (r : ptr) (es : list Event) (s : Sys W) : Sys W :=
  foldl (fun s e => (act flip r e s).2) s es.

Inductive Failover : nat -> Sys W -> list Attempt -> Ending -> Sys W -> Prop :=
| fo_tries_spent s : Failover 0 s [] GaveUp s
| fo_time_spent n s r s1 now s2 :
    picked s (Some r) s1 -> read_clock s1 = (now, s2) -> deadline <= now ->
    Failover (S n) s [] GaveUp s2
| fo_none n s s1 : picked s None s1 -> Failover (S n) s [] NoneHealthy s1
| fo_answer n s a s1 response now s2 :
    attempted s a s1 -> Worth st.(forwarder) a.(exchange) (Answer response) ->
    read_clock s1 = (now, s2) ->
    Failover (S n) s [a] (Answered a.(tried) response) (acts a.(tried) [OnServed now] s2)
| fo_over_cap n s a s1 :
    attempted s a s1 -> Worth st.(forwarder) a.(exchange) TooLarge ->
    Failover (S n) s [a] OverCap s1
| fo_next n s a s1 o l e s2 :
    attempted s a s1 -> Worth st.(forwarder) a.(exchange) o -> o = NoAnswer \/ o = TimedOut ->
    Failover n (acts a.(tried) (cost_of a o) s1) l e s2 ->
    Failover (S n) s (a :: l) e s2.

(** The end: the response, and the outcome it is counted under. *)
Definition concluded (e : Ending) (s : Sys W) (response : Response) (s' : Sys W) : Prop :=
  match e with
  | Answered _ r => response = r /\ s' = s
  | OverCap => response = error 502 RESPONSE_TOO_LARGE "response too large" body /\ s' = s
  | NoneHealthy =>
      response = error 503 NO_HEALTHY_PROVIDER "no healthy provider" body /\
      s' = (count_outcome NoHealthyProvider s).2
  | GaveUp => exists now s1, read_clock s = (now, s1) /\
      (deadline <= now /\ response = error 504 REQUEST_TIMED_OUT "request timed out" body /\
         s' = (count_outcome RequestTimedOut s1).2 \/
       now < deadline /\ response = error 503 NO_HEALTHY_PROVIDER "no provider answered" body /\
         s' = (count_outcome NoProviderAnswered s1).2)
  end.
End spec.

(** * Lemmas: the code implements it *)

Section refinement.
Context `{SerdeJson} {W : Type} `{World W} (st : ProxyState).
Abbreviation flip := (st.(state_flip_after)) (only parsing).

Lemma select_picked (s : Sys W) : picked s (select s).1 (select s).2.
Proof.
  unfold picked, select. destruct (others_select _) as [f w].
  pose proof (next_eligible_run f s.(pool)) as (Hsome & Hnone & c & Hc).
  destruct (next_eligible f s.(pool)) as [o pl]. cbn in *. subst pl. split_and!; [done..|].
  destruct o as [r|]; [by apply Hsome | by apply Hnone].
Qed.

Lemma test_entry_there pl f r : test_entry pl f r = true -> exists p, entry pl r = Some p /\ f p = true.
Proof. unfold test_entry. destruct (entry pl r) as [p|]; [by exists p | done]. Qed.

Lemma same_pool_entry p1 p2 r : same_pool p1 p2 -> entry p1 r = entry p2 r.
Proof. unfold same_pool, with_cursor, entry. intros [= -> _ _ _]. done. Qed.

Lemma since_spent deadline now : since deadline now = 0 <-> deadline <= now.
Proof. unfold since. lia. Qed.

(** A request that goes out is a try. *)
Lemma attempt_attempted deadline body (s s1 s2 s3 : Sys W) r now started :
  picked s (Some r) s1 -> read_clock s1 = (now, s2) -> now < deadline ->
  read_clock s2 = (started, s3) ->
  let timeout := Z.min (since deadline now) st.(config).(attempt_timeout) in
  let out := attempt flip st.(forwarder) (read_entry r url EmptyString s3).1 body timeout s3 in
  exists a, attempted st body deadline s a out.2 /\ a.(tried) = r /\
    out.1 = judge_response st.(forwarder) a.(exchange) /\
    a.(heard) = test_entry out.2.(pool) (fun p => answered_since p started) r.
Proof.
  intros Hp Hnow Hlt Hst timeout out. destruct (Hp) as (Hpool & _ & _ & Ht).
  destruct (test_entry_there _ _ _ Ht) as (p & Hentry & _).
  assert (s3.(pool) = s1.(pool)) as E3.
  { unfold read_clock in *. destruct (clock _), (clock _). by simplify_eq/=. }
  assert ((read_entry r url EmptyString s3).1 = p.(url)) as Eurl.
  { unfold read_entry. cbn. by rewrite E3, (same_pool_entry _ _ _ Hpool), Hentry. }
  unfold out, timeout. rewrite Eurl. unfold attempt, mbind, M_bind, mret, M_ret.
  set (q := mkHttpRequest POST p.(url) "application/json" None body _).
  destruct (post flip q s3) as [x s'] eqn:Epost. cbn [fst snd].
  exists (mkAttempt r q x (test_entry s'.(pool) (fun p => answered_since p started) r)).
  split; [|done]. exists s1, now, s2, started, s3, p. cbn. split_and!; try done.
  unfold q, since. f_equal. lia.
Qed.

(** What holds where the loop ends. *)
Definition loop_end (body : Bytes) (a : option Response) (e : Ending) (s s' : Sys W) : Prop :=
  match a with
  | Some response => e <> GaveUp /\ forall deadline, concluded body deadline e s response s'
  | None => e = GaveUp /\ s' = s
  end.

Lemma try_providers_refines n deadline body (s : Sys W) :
  exists l e s1,
    Failover st body deadline n s l e s1 /\
    loop_end body (try_providers st n deadline body s).1 e s1 (try_providers st n deadline body s).2.
Proof.
  revert s. induction n as [|n IH]; intros s.
  { exists [], GaveUp, s. by split; [apply fo_tries_spent|]. }
  cbn [try_providers]. unfold mbind, M_bind, mret, M_ret.
  pose proof (select_picked s) as Hp. destruct (select s) as [[r|] s1]; cbn [fst snd] in Hp.
  2:{ exists [], NoneHealthy, s1. by split; [apply fo_none|]. }
  destruct (read_clock s1) as [now s2] eqn:Enow.
  destruct (Z.eqb_spec (since deadline now) 0) as [E0|E0].
  { exists [], GaveUp, s2. split; [|done]. eapply fo_time_spent; [done..|]. by apply since_spent. }
  rewrite since_spent in E0. apply Z.nle_gt in E0.
  destruct (read_clock s2) as [started s3] eqn:Est.
  pose proof (attempt_attempted deadline body s s1 s2 s3 r now started Hp Enow E0 Est) as Ha.
  cbv zeta in Ha. cbn [read_entry fst] in Ha |- *.
  destruct (attempt flip _ _ body _ s3) as [o s4]. cbn [fst snd] in Ha.
  destruct Ha as (a & Ha & <- & Ho & Hheard).
  pose proof (judge_response_worth st.(forwarder) a.(exchange)) as Hj. rewrite <- Ho in Hj.
  assert (forall s5, o = NoAnswer \/ o = TimedOut -> s5 = acts st a.(tried) (cost_of a o) s4 ->
    exists l e s6, Failover st body deadline (S n) s l e s6 /\
      loop_end body (try_providers st n deadline body s5).1 e s6 (try_providers st n deadline body s5).2)
    as Hnext.
  { intros s5 Hfail ->. destruct (IH (acts st a.(tried) (cost_of a o) s4)) as (l & e & s6 & HF & He).
    exists (a :: l), e, s6. split; [|done]. by eapply fo_next. }
  destruct o as [response| | |].
  - destruct (read_clock s4) as [now' s5] eqn:E5.
    exists [a], (Answered a.(tried) response), (acts st a.(tried) [OnServed now'] s5).
    split; [by eapply fo_answer | done].
  - apply Hnext; [by left | done].
  - unfold test_entry in Hheard.
    assert (match entry s4.(pool) a.(tried) with
      | Some p => answered_since p started | None => false end = a.(heard)) as ->
      by (rewrite Hheard; by destruct (entry _ _)).
    specialize (Hnext _ (or_intror eq_refl) eq_refl). cbn [cost_of] in Hnext. by destruct a.(heard).
  - exists [a], OverCap, s4. split; [by eapply fo_over_cap | done].
Qed.
End refinement.

(** ** What follows from the specification *)

Section spec_lemmas.
Context `{SerdeJson} {W : Type} `{World W} (st : ProxyState) (body : Bytes) (deadline : Z).
Abbreviation flip := (st.(state_flip_after)) (only parsing).

Definition is_served (x : ptr * Event) : bool :=
  match x.2 with OnServed _ => true | _ => false end.

(** How many of a list's entries pass a test. *)
Definition count_if {A} (f : A -> bool) (l : list A) : nat := length (List.filter f l).

(** What a try does to its provider, by what its exchange was worth. *)
Inductive charged (a : Attempt) : list (ptr * Event) -> Prop :=
| charged_served response now :
    Worth st.(forwarder) a.(exchange) (Answer response) -> charged a [(a.(tried), OnServed now)]
| charged_over_cap : Worth st.(forwarder) a.(exchange) TooLarge -> charged a []
| charged_failed :
    Worth st.(forwarder) a.(exchange) NoAnswer ->
    charged a [(a.(tried), OnHealth false Traffic); (a.(tried), OnTransportFailure)]
| charged_silent :
    Worth st.(forwarder) a.(exchange) TimedOut ->
    charged a ((if a.(heard) then [] else [(a.(tried), OnHealth false Traffic)]) ++
               [(a.(tried), OnTransportFailure)]).

(** The request of a try is the client's, under fresh headers... *)
Definition client_request (q : HttpRequest) : Prop :=
  q.(req_method) = POST /\ q.(req_body) = body /\ q.(req_bearer) = None /\
  q.(req_content_type) = "application/json"%string /\
  q.(req_timeout) <= st.(config).(attempt_timeout).
(** ... to the provider that is charged. *)
Definition asks_provider (s : Sys W) (a : Attempt) : Prop :=
  exists p, entry s.(pool) a.(tried) = Some p /\ a.(asked).(req_url) = p.(url).

Definition no_answer (a : Attempt) : Prop :=
  Worth st.(forwarder) a.(exchange) NoAnswer \/ Worth st.(forwarder) a.(exchange) TimedOut.

(** The ending is the last try's. *)
Definition ends_with (e : Ending) (l : list Attempt) : Prop :=
  match e with
  | Answered r response => exists front a, l = front ++ [a] /\ Forall no_answer front /\
      a.(tried) = r /\ Worth st.(forwarder) a.(exchange) (Answer response)
  | OverCap => exists front a, l = front ++ [a] /\ Forall no_answer front /\
      Worth st.(forwarder) a.(exchange) TooLarge
  | NoneHealthy | GaveUp => Forall no_answer l
  end.
End spec_lemmas.

(** * Theorems *)

Section theorems.
Context `{SerdeJson} {W : Type} `{World W} (st : ProxyState).
Abbreviation flip := (st.(state_flip_after)) (only parsing).

Lemma forward_run body (s : Sys W) :
  let '(started, s0) := read_clock s in
  let deadline := started + st.(config).(request_timeout) in
  let '(response, s') := forward_with_failover st body s in
  exists l e s1,
    Failover st body deadline (Z.to_nat (max_attempts st)) s0 l e s1 /\
    concluded body deadline e s1 response s'.
Proof.
  unfold forward_with_failover, mbind, M_bind, mret, M_ret.
  destruct (read_clock s) as [started s0].
  destruct (try_providers_refines st (Z.to_nat (max_attempts st))
    (started + request_timeout (config st)) body s0) as (l & e & s1 & HF & He).
  destruct (try_providers st _ _ body s0) as [[response|] s2]; cbn [fst snd loop_end] in *.
  { exists l, e, s1. split; [done|]. by apply He. }
  destruct He as [-> ->]. destruct (read_clock s1) as [now s3] eqn:Enow.
  destruct (Z.leb_spec (started + request_timeout (config st)) now) as [Hle|Hlt];
    cbn; exists l, GaveUp, s1; (split; [done|]); exists now, s3; split; [done|by left|done|by right].
Qed.

(** C3: Forwarding a request refines the specification of failover. The
    request tries members in rotation, one after another, each with the
    client's body and the time that is left, as long as tries and time
    are left and none has answered: an exchange that is worth an answer,
    or one over the cap, ends it, one that failed or stayed silent costs
    that provider its signal and its transport failure and the next is
    tried. The response is the one its ending calls for, and what the
    pool and the history are afterwards is exactly what these tries made
    of them: the provider that answered is credited, and an ending
    without an answer is counted, once. *)
Theorem forward_refines body (s : Sys W) :
  let '(started, s0) := read_clock s in
  let deadline := started + st.(config).(request_timeout) in
  let '(response, s') := forward_with_failover st body s in
  exists l e s1,
    Failover st body deadline (Z.to_nat (max_attempts st)) s0 l e s1 /\
    concluded body deadline e s1 response s'.
Proof. apply forward_run. Qed.

(** ** The accounts of a request *)

Lemma acts_steps r es (s : Sys W) : steps flip s (acts st r es s) (Mine r <$> es).
Proof.
  unfold acts. revert s. induction es as [|e es IH]; intros s; cbn; [by apply steps_refl|].
  exact (steps_trans _ _ _ _ [Mine r e] _ (act_steps _ r e s) (IH _)).
Qed.

Lemma mine_acts r es : mine (Mine r <$> es) = (fun e => (r, e)) <$> es.
Proof. induction es as [|e es IH]; cbn; [done|]. unfold mine in IH. by rewrite IH. Qed.
Lemma sent_acts r es : sent (Mine r <$> es) = [].
Proof. by induction es. Qed.
Lemma counted_acts r es : counted (Mine r <$> es) = [].
Proof. by induction es. Qed.

Lemma picked_steps (s : Sys W) o s1 : picked s o s1 -> steps flip s s1 [].
Proof. intros (Hp & Hh & _). split; [by rewrite app_nil_r | done]. Qed.

(** A try sends its request, and the others run meanwhile. *)
Lemma attempted_steps body deadline (s : Sys W) a s' :
  attempted st body deadline s a s' ->
  client_request st body a.(asked) /\ asks_provider s a /\
  exists os, steps flip s s' (Sent a.(asked) :: (Theirs <$> os)).
Proof.
  intros (s1 & now & s2 & started & s3 & p & Hp & Hnow & Hlt & Hst & He & Hq & Hpost & _). split_and!.
  { rewrite Hq. split_and!; try done. cbn. lia. }
  { exists p. by rewrite Hq. }
  destruct (post_steps flip a.(asked) s3) as [os Hos]. rewrite Hpost in Hos. exists os.
  pose proof (read_clock_steps flip s1) as H1. pose proof (read_clock_steps flip s2) as H2.
  rewrite Hnow in H1. rewrite Hst in H2.
  exact (steps_trans _ _ _ _ _ _ (steps_trans _ _ _ _ _ _ (steps_trans _ _ _ _ _ _
    (picked_steps _ _ _ Hp) H1) H2) Hos).
Qed.

(** An entry's address is the one it was made with. *)
Lemma asks_provider_later hs (s s' : Sys W) a :
  pool_wf s.(pool) -> steps flip s s' hs -> asks_provider s a -> asks_provider s' a.
Proof.
  intros Hwf Hs (p & Hp & Hurl).
  pose proof (steps_run _ _ _ _ _ _ Hs Hwf Hp) as Hp'. exists (run flip (events_on a.(tried) hs) p).
  split; [done|]. destruct (run_place flip (events_on a.(tried) hs) p) as (-> & _). done.
Qed.

Record accounts (body : Bytes) (s s' : Sys W) (hs : list Step) (l : list Attempt) (e : Ending) : Prop := {
  acc_steps : steps flip s s' hs;
  acc_sent : sent hs = asked <$> l;
  acc_mine : exists charges, Forall2 (charged st) l charges /\ mine hs = concat charges;
  acc_counted : counted hs = [];
  acc_requests : Forall (fun a => client_request st body a.(asked)) l;
  acc_asked : pool_wf s.(pool) -> Forall (asks_provider s') l;
  acc_ends : ends_with st e l;
}.

Lemma failover_accounts body deadline n (s : Sys W) l e s' :
  Failover st body deadline n s l e s' -> (length l <= n)%nat /\ exists hs, accounts body s s' hs l e.
Proof.
  induction 1 as [s|n s r s1 now s2 Hp Hnow Hle|n s s1 Hp|n s a s1 response now s2 Ha Hj Hnow
    |n s a s1 Ha Hj|n s a s1 o l e s2 Ha Hj Ho HF [Hlen [hs IH]]]; (split; [cbn; lia|]).
  - exists []. split; try done; [by apply steps_refl | by exists [] | by constructor].
  - exists []. pose proof (read_clock_steps flip s1) as H1. rewrite Hnow in H1.
    split; try done; [exact (steps_trans _ _ _ _ _ _ (picked_steps _ _ _ Hp) H1) | by exists [] | by constructor].
  - exists []. split; try done; [by eapply picked_steps | by exists [] | by constructor].
  - apply attempted_steps in Ha as (Hreq & Hask & os & Hos). pose proof (read_clock_steps flip s1) as H1.
    rewrite Hnow in H1. eexists.
    assert (steps flip s (acts st a.(tried) [OnServed now] s2) _) as Hs
      by exact (steps_trans _ _ _ _ _ _ (steps_trans _ _ _ _ _ _ Hos H1) (acts_steps _ _ _)).
    split; [exact Hs | | | | | |].
    + rewrite !app_nil_r, sent_app, sent_acts. cbn. unfold sent in *. by rewrite sent_theirs.
    + exists [[(a.(tried), OnServed now)]]. split; [constructor; [by econstructor|constructor]|].
      rewrite app_nil_r, mine_app, mine_acts. cbn. by rewrite mine_theirs.
    + rewrite app_nil_r, counted_app, counted_acts. cbn. by rewrite counted_theirs.
    + by apply Forall_singleton.
    + intros Hwf. constructor; [by eapply asks_provider_later|constructor].
    + by exists [], a.
  - apply attempted_steps in Ha as (Hreq & Hask & os & Hos). exists (Sent a.(asked) :: (Theirs <$> os)).
    split; [done| | | | | |].
    + cbn. by rewrite sent_theirs.
    + exists [[]]. split; [constructor; [by constructor|constructor]|]. cbn. by rewrite mine_theirs.
    + cbn. by rewrite counted_theirs.
    + by apply Forall_singleton.
    + intros Hwf. constructor; [by eapply asks_provider_later|constructor].
    + by exists [], a.
  - apply attempted_steps in Ha as (Hreq & Hask & os & Hos). eexists.
    assert (steps flip s (acts st a.(tried) (cost_of a o) s1) _) as Hs1
      by exact (steps_trans _ _ _ _ _ _ Hos (acts_steps _ _ _)).
    assert (steps flip s s2 _) as Hs by exact (steps_trans _ _ _ _ _ _ Hs1 (acc_steps _ _ _ _ _ _ IH)).
    split; [exact Hs | | | | | |].
    + rewrite !sent_app, sent_acts, (acc_sent _ _ _ _ _ _ IH), app_nil_r. cbn.
      by rewrite sent_theirs.
    + destruct (acc_mine _ _ _ _ _ _ IH) as (cs & Hcs & Em).
      exists (((fun e => (a.(tried), e)) <$> cost_of a o) :: cs). split.
      * constructor; [|done]. destruct Ho as [-> | ->]; [by constructor|].
        cbn [cost_of]. pose proof (charged_silent st a Hj). by destruct a.(heard).
      * rewrite !mine_app, mine_acts, Em. cbn. by rewrite mine_theirs.
    + rewrite !counted_app, counted_acts, (acc_counted _ _ _ _ _ _ IH), app_nil_r. cbn.
      by rewrite counted_theirs.
    + constructor; [done | apply (acc_requests _ _ _ _ _ _ IH)].
    + intros Hwf. constructor; [by eapply asks_provider_later|].
      apply (acc_asked _ _ _ _ _ _ IH). eapply steps_wf; [exact Hs1 | done].
    + assert (no_answer st a) as Hna by (destruct Ho as [-> | ->]; [by left | by right]).
      pose proof (acc_ends _ _ _ _ _ _ IH) as He.
      destruct e; cbn in *; [| |by constructor..].
      * destruct He as (front & a' & -> & Hf & ? & ?). exists (a :: front), a'.
        split_and!; try done. by constructor.
      * destruct He as (front & a' & -> & Hf & ?). exists (a :: front), a'.
        split_and!; try done. by constructor.
Qed.

(** The response an ending gives, and the outcome it is counted under. *)
Definition answered_with (body : Bytes) (e : Ending) (response : Response) (k : list OutcomeKind) : Prop :=
  match e with
  | Answered _ r => response = r /\ k = []
  | OverCap => response = error 502 RESPONSE_TOO_LARGE "response too large" body /\ k = []
  | NoneHealthy =>
      response = error 503 NO_HEALTHY_PROVIDER "no healthy provider" body /\ k = [NoHealthyProvider]
  | GaveUp =>
      (response = error 504 REQUEST_TIMED_OUT "request timed out" body /\ k = [RequestTimedOut]) \/
      (response = error 503 NO_HEALTHY_PROVIDER "no provider answered" body /\ k = [NoProviderAnswered])
  end.

Lemma concluded_steps body deadline e (s : Sys W) response s' :
  concluded body deadline e s response s' ->
  exists k, steps flip s s' (Counted <$> k) /\ answered_with body e response k.
Proof.
  intros Hc. destruct e as [r x| | |]; cbn in Hc.
  - destruct Hc as [-> ->]. exists []. by split; [apply steps_refl|].
  - destruct Hc as [-> ->]. exists []. by split; [apply steps_refl|].
  - destruct Hc as [-> ->]. exists [NoHealthyProvider]. split; [apply count_outcome_steps | done].
  - destruct Hc as (now & s1 & Hnow & Hc). pose proof (read_clock_steps flip s) as H1.
    rewrite Hnow in H1. cbn [snd] in H1. destruct Hc as [(_ & -> & ->)|(_ & -> & ->)];
      eexists [_]; (split; [exact (steps_trans _ _ _ _ _ _ H1 (count_outcome_steps _ _ _))|]);
      [by left | by right].
Qed.

Lemma forward_accounted body (s : Sys W) :
  let '(response, s') := forward_with_failover st body s in
  exists hs l e charges,
    steps flip s s' hs /\ sent hs = asked <$> l /\
    (length l <= Z.to_nat (max_attempts st))%nat /\
    Forall (fun a => client_request st body a.(asked)) l /\
    (pool_wf s.(pool) -> Forall (asks_provider s') l) /\
    Forall2 (charged st) l charges /\ mine hs = concat charges /\
    ends_with st e l /\ answered_with body e response (counted hs).
Proof.
  pose proof (forward_run body s) as Hr. pose proof (read_clock_steps flip s) as H0'.
  destruct (read_clock s) as [started s0] eqn:E0.
  assert (s0.(pool) = s.(pool)) as Ep.
  { unfold read_clock in E0. destruct (clock _). by injection E0 as _ <-. }
  destruct (forward_with_failover st body s) as [response s'].
  destruct Hr as (l & e & s1 & HF & Hc). apply failover_accounts in HF as [Hlen [hs Hacc]].
  apply concluded_steps in Hc as (k & Hk & Hresp).
  destruct (acc_mine _ _ _ _ _ _ Hacc) as (charges & Hch & Em). pose proof (acc_steps _ _ _ _ _ _ Hacc) as Hs.
  exists (hs ++ (Counted <$> k)), l, e, charges.
  assert (mine (Counted <$> k) = [] /\ sent (Counted <$> k) = [] /\ counted (Counted <$> k) = k)
    as (Km & Ks & Kc).
  { clear. unfold mine, sent, counted. induction k as [|o k (IH1 & IH2 & IH3)]; [done|].
    cbn. by rewrite IH3. }
  split_and!; [| | done | by apply (acc_requests _ _ _ _ _ _ Hacc) | | done | | by apply (acc_ends _ _ _ _ _ _ Hacc) |].
  - exact (steps_trans _ _ _ _ _ _ (steps_trans _ _ _ _ _ _ H0' Hs) Hk).
  - rewrite sent_app, Ks, app_nil_r. apply (acc_sent _ _ _ _ _ _ Hacc).
  - intros Hwf. rewrite <- Ep in Hwf. pose proof (acc_asked _ _ _ _ _ _ Hacc Hwf) as Ha.
    eapply Forall_impl; [exact Ha|]. intros a. eapply asks_provider_later; [|exact Hk].
    by eapply steps_wf.
  - by rewrite mine_app, Km, app_nil_r.
  - by rewrite counted_app, Kc, (acc_counted _ _ _ _ _ _ Hacc).
Qed.

(** A request credits one served call when it ends with an answer, and
    none otherwise. *)
Lemma charges_served l charges e :
  Forall2 (charged st) l charges -> ends_with st e l ->
  count_if is_served (concat charges) = match e with Answered _ _ => 1%nat | _ => 0%nat end.
Proof.
  unfold count_if. intros Hc He.
  assert (forall l charges, Forall (no_answer st) l -> Forall2 (charged st) l charges ->
    List.filter is_served (concat charges) = []) as Hnone.
  { clear. intros l charges Hl Hc. induction Hc as [|a c l charges Ha Hc IH]; [done|].
    apply Forall_cons in Hl as [Hna Hl]. cbn. rewrite List.filter_app, (IH Hl), app_nil_r.
    destruct Ha as [response now Hj|Hj|Hj|Hj]; [|done..|by destruct (heard a)].
    destruct Hna as [Hn|Hn]; by pose proof (worth_functional _ _ _ _ Hj Hn). }
  destruct e as [r x| | |]; cbn in He; [| |by rewrite (Hnone l charges)..].
  - destruct He as (front & a & -> & Hf & _ & Hj).
    apply Forall2_app_inv_l in Hc as (c1 & c2 & Hc1 & Hc2 & ->).
    apply Forall2_cons_inv_l in Hc2 as (c & c3 & Ha & Hc3 & ->). apply Forall2_nil_inv_l in Hc3 as ->.
    rewrite concat_app, List.filter_app, (Hnone _ _ Hf Hc1). cbn. rewrite app_nil_r.
    destruct Ha as [response now Hj'|Hj'|Hj'|Hj']; [done|..];
      by pose proof (worth_functional _ _ _ _ Hj Hj').
  - destruct He as (front & a & -> & Hf & Hj).
    apply Forall2_app_inv_l in Hc as (c1 & c2 & Hc1 & Hc2 & ->).
    apply Forall2_cons_inv_l in Hc2 as (c & c3 & Ha & Hc3 & ->). apply Forall2_nil_inv_l in Hc3 as ->.
    rewrite concat_app, List.filter_app, (Hnone _ _ Hf Hc1). cbn. rewrite app_nil_r.
    destruct Ha as [response now Hj'|Hj'|Hj'|Hj']; [|done|..];
      by pose proof (worth_functional _ _ _ _ Hj Hj').
Qed.


(** C34: What reaches a provider. Through the router, by any path and method,
    a provider is only ever sent the client's body, untouched and under
    fresh headers, as a POST; and only a body that starts as a JSON
    object or array and names no denied method. A refused request sends
    nothing, changes nothing and is counted nowhere. *)
Theorem only_allowed_requests_forwarded path method body (s : Sys W) :
  let '(response, s') := router st path method body s in
  exists hs, steps flip s s' hs /\
    Forall (fun q => path = "/"%string /\ method = "POST"%string /\ body = Ok q.(req_body) /\
      q.(req_method) = POST /\ q.(req_bearer) = None /\
      looks_like_json q.(req_body) = true /\ denied q.(req_body) = None) (sent hs) /\
    (path <> "/"%string \/ method <> "POST"%string \/ is_ok (check_request body) = false ->
     s' = s /\ hs = []).
Proof.
  assert (forall response, exists hs, steps flip s s hs /\
    Forall (fun q => path = "/"%string /\ method = "POST"%string /\ body = Ok q.(req_body) /\
      q.(req_method) = POST /\ q.(req_bearer) = None /\
      looks_like_json q.(req_body) = true /\ denied q.(req_body) = None) (sent hs) /\
    (path <> "/"%string \/ method <> "POST"%string \/ is_ok (check_request body) = false ->
     s = s /\ hs = [] /\ response = response :> Response)) as Hnone.
  { intros r. exists []. split; [by apply steps_refl|]. split; [constructor|done]. }
  unfold router, handle, mret, M_ret.
  case_bool_decide as Hp; [|destruct (Hnone not_found) as (hs & ? & ? & ?); exists hs; naive_solver].
  case_bool_decide as Hm;
    [|destruct (Hnone method_not_allowed) as (hs & ? & ? & ?); exists hs; naive_solver].
  destruct (check_request body) as [x|refusal] eqn:Ec;
    [|destruct (Hnone refusal) as (hs & ? & ? & ?); exists hs; naive_solver].
  assert (body = Ok x /\ looks_like_json x = true /\ denied x = None) as (-> & Hj & Hd).
  { unfold check_request in Ec. destruct body as [y|rej]; [|by destruct (Z.eqb _ 413)].
    destruct (looks_like_json y) eqn:Ej; [|done]. cbn [negb] in Ec.
    destruct (denied y) eqn:Ed; [done|]. by injection Ec as ->. }
  pose proof (forward_accounted x s) as Hr.
  destruct (forward_with_failover st x s) as [response s'].
  destruct Hr as (hs & l & e & charges & Hs & Hsent & _ & Hreq & _).
  exists hs. split; [done|]. split; [|by intros [?|[?|?]]].
  rewrite Hsent. apply Forall_fmap. eapply Forall_impl; [exact Hreq|].
  intros a (Em & Eb & Eh & _). cbn. rewrite Em, Eb, Eh. done.
Qed.
End theorems.

(** The most retries a [u32] can ask for wrap to no attempt at all. *)
Lemma most_retries_wrap st : st.(config).(max_retries) = u32_max -> max_attempts st = 0.
Proof. intros E. unfold max_attempts. by rewrite E. Qed.
