(* ===== verification/Monitor.v ===== *)
(** The Monitor, [crates/lb/src/monitor.rs]: the probe loop. One sweep
    per probe interval; the probes of a sweep wait concurrently, each on
    its own entry, and what the others do while one waits is what
    [World.others] allows at its awaits. *)

From S2P Require Import Prelude External Concrete Jsonrpc Pool World Records Reader Config.

#[local] Open Scope Z_scope.

(** The most probes at once: a bound on waiting, which changes no
    probe's own steps. *)
Definition CONCURRENT_PROBES : Z := 16.
Definition PROBE_RESPONSE_CAP : Z := 4 * 1024.

Record ReferenceHeight : Type := mkReferenceHeight {
  ref_height : option Z;
  asked : option Z;
}.
Definition reference_height_default : ReferenceHeight := mkReferenceHeight None None.

(** [ready] is the flag [/health] shows; the rest is the loop's own. *)
Record Monitor (R : Type) : Type := mkMonitor {
  monitor_config : Health;
  monitor_reference : option R;
}.
Arguments mkMonitor {R}.
Arguments monitor_config {R}.
Arguments monitor_reference {R}.

Record Loop : Type := mkLoop {
  reference_height : ReferenceHeight;
  last_chain_round : option Z;
  rounds_ : Z;
  ready : bool;
}.
Definition loop_start : Loop := mkLoop reference_height_default None 0 false.

(** [probe_interval * 2^excess], saturating, capped. *)
Definition checked_shl (excess : Z) : option Z :=
  if Z.ltb excess 32 then Some (Z.shiftl 1 excess mod (u32_max + 1)) else None.
Definition saturating_mul (d n : Z) : Z := Z.min duration_max (d * n).

Definition probe_delay (c : Health) (failures : Z) : Z :=
  let excess := sat_sub failures c.(flip_after) in
  Z.min (saturating_mul c.(probe_interval) (default u32_max (checked_shl excess)))
    c.(max_probe_backoff).

Definition hex_quantity (value : Value) : option Z :=
  hex ← as_str value ≫= strip_prefix "0x"%string;
  from_str_radix u64_max 16 hex.

Definition block_number_probe : string :=
  "{'jsonrpc':'2.0','id':0,'method':'eth_blockNumber','params':[]}".
Definition chain_id_probe : string :=
  "{'jsonrpc':'2.0','id':0,'method':'eth_chainId','params':[]}".
(** The literals above with their quotes doubled back. *)
Definition quoted (s : string) : Bytes :=
  (fun c => if Byte.eqb c x27 then x22 else c) <$> b s.

(** The body of a probe's answer: [None] when broken or over the cap. *)
Fixpoint probe_body (cs : list Bytes) (e : BodyEnd) (body : Bytes) : option Bytes :=
  match cs with
  | [] => match e with BodyDone => Some body | BodyBroken _ => None end
  | c :: cs =>
      if Z.ltb PROBE_RESPONSE_CAP (Z.of_nat (length body) + Z.of_nat (length c)) then None
      else probe_body cs e (body ++ c)
  end.

Section monitor.
Context `{SerdeJson} {W : Type} `{World W} {R : Type}.
Context `{ChainReader R (Sys W)}.

(** What a probe makes of the exchange's result. *)
Definition probe_answer (sent : result HttpError HttpResponse) : option Z :=
  match sent with
  | Ok response =>
      if is_success response.(status)
      then body ← probe_body response.(chunks) response.(body_end) [];
           body ← from_slice body;
           value_get "result" body ≫= hex_quantity
      else None
  | Err _ => None
  end.

Context (m : Monitor R).
Abbreviation config := (m.(monitor_config)) (only parsing).
Abbreviation flip := (m.(monitor_config).(flip_after)) (only parsing).

Definition monitor_query (target : Url) (body : Bytes) : M (Sys W) (option Z) :=
  probe_answer <$>
    post flip (mkHttpRequest POST target "application/json" None body config.(probe_timeout)).

Definition query_block_number (target : Url) : M (Sys W) (option Z) :=
  monitor_query target (quoted block_number_probe).
Definition query_chain_id (target : Url) : M (Sys W) (option Z) :=
  monitor_query target (quoted chain_id_probe).

Definition entry_url (r : ptr) : M (Sys W) Url := read_entry r url EmptyString.

(** Returns whether the provider answered - a lagging one did. *)
Definition probe (r : ptr) (reference : option Z) : M (Sys W) bool :=
  started ← read_clock;
  target ← entry_url r;
  height ← query_block_number target;
  now ← read_clock;
  _ ← act flip r (OnProbeDuration (since now started));
  match height with
  | None =>
      _ ← act flip r OnUnansweredProbe;
      _ ← act flip r (OnHealth false Probe);
      mret false
  | Some height =>
      now ← read_clock;
      _ ← act flip r (OnAnsweredProbe now);
      _ ← act flip r (OnHeight height);
      _ ← match reference with
          | Some reference =>
              if Z.ltb (sat_add_u64 height config.(lag_tolerance_blocks)) reference
              then act flip r (OnHealth false Lag)
              else act flip r (OnHealth true Probe)
          | None => act flip r (OnHealth true Probe)
          end;
      mret true
  end.

Definition verify_chain (r : ptr) (expected : Z) : M (Sys W) unit :=
  target ← entry_url r;
  actual ← query_chain_id target;
  match actual with
  | Some actual =>
      if Z.eqb actual expected then act flip r (OnChainVerified true)
      else _ ← act flip r (OnChainVerified false);
           act flip r (OnQuarantine Chain)
  | None => mret tt
  end.

Definition chain_cleared (r : ptr) (chain_round : bool) : M (Sys W) bool :=
  match config.(health_chain_id) with
  | None => mret true
  | Some expected =>
      asked ← read_entry r chain_check_due false;
      _ ← act flip r OnTakeChainCheckDue;
      _ ← (if chain_round || asked then verify_chain r expected else mret tt);
      read_entry r chain_verified false
  end.

Definition reschedule_unanswered (r : ptr) (now : Z) : M (Sys W) unit :=
  streak ← read_entry r unanswered_probe_streak 0;
  act flip r (OnNextProbe (now + probe_delay config streak)).

(** One provider's part of a sweep. *)
Definition probe_one (r : ptr) (reference : option Z) (chain_round : bool) (now : Z) :
    M (Sys W) unit :=
  at_ ← read_entry r next_probe 0;
  if negb (Z.leb at_ now) then mret tt
  else
    cleared ← chain_cleared r chain_round;
    if negb cleared then mret tt
    else
      answered ← probe r reference;
      if (answered : bool) then mret tt else reschedule_unanswered r now.

Fixpoint probe_each (l : list ptr) (reference : option Z) (chain_round : bool) (now : Z) :
    M (Sys W) unit :=
  match l with
  | [] => mret tt
  | r :: l => _ ← probe_one r reference chain_round now; probe_each l reference chain_round now
  end.

Definition probe_all (reference : option Z) (chain_round : bool) : M (Sys W) unit :=
  now ← read_clock;
  members ← (fun s => (snapshot s.(pool), s));
  probe_each members reference chain_round now.

(** At most one ask per [ref_height_interval]; a failed one clears the
    height. *)
Definition refresh_reference_height (rh : ReferenceHeight) : M (Sys W) ReferenceHeight :=
  match m.(monitor_reference) with
  | None => mret rh
  | Some reader =>
      due ← match rh.(asked) with
            | None => mret true
            | Some at_ => now ← read_clock;
                          mret (Z.leb config.(ref_height_interval) (since now at_))
            end;
      if negb due then mret rh
      else
        now ← read_clock;
        answer ← block_number reader;
        mret (mkReferenceHeight (result_ok answer) (Some now))
  end.

Definition chain_round_due (at_ : option Z) : M (Sys W) bool :=
  match at_ with
  | None => mret true
  | Some at_ => now ← read_clock;
                mret (Z.leb config.(chainid_check_interval) (since now at_))
  end.

(** One tick of the loop of [run]. *)
Definition tick (l : Loop) : M (Sys W) Loop :=
  rh ← refresh_reference_height l.(reference_height);
  chain_round ← chain_round_due l.(last_chain_round);
  last ← (if (chain_round : bool) then now ← read_clock; mret (Some now)
          else mret l.(last_chain_round));
  _ ← probe_all rh.(ref_height) chain_round;
  let rounds := Z.min u32_max (l.(rounds_) + 1) in
  mret (mkLoop rh last rounds (l.(ready) || Z.eqb rounds flip)).

(** The loop until its shutdown, which comes after [n] ticks. *)
Fixpoint run (n : nat) (l : Loop) : M (Sys W) Loop :=
  match n with
  | O => mret l
  | S n => l ← tick l; run n l
  end.
End monitor.

(** * What one provider's part of a sweep may do, abstractly *)

Section spec.
Context `{SerdeJson} {W : Type} `{World W}.
Context (c : Health) (r : ptr).

(** A provider answered a question with the quantity [n]: in full, within
    the cap, with a result that is one. *)
Definition answers_quantity (sent : result HttpError HttpResponse) (n : Z) : Prop :=
  exists response v x, sent = Ok response /\ 200 <= response.(status) <= 299 /\
    response.(body_end) = BodyDone /\
    Z.of_nat (length (concat response.(chunks))) <= PROBE_RESPONSE_CAP /\
    from_slice (concat response.(chunks)) = Some v /\ value_get "result" v = Some x /\
    hex_quantity x = Some n.

(** The provider is asked for a quantity, once, at its own address and
    within the probe's time. *)
Definition asked_for (question : string) (s : Sys W) (n : option Z) (s' : Sys W) : Prop :=
  exists p sent, entry s.(pool) r = Some p /\
    post c.(flip_after) (mkHttpRequest POST p.(url) "application/json" None (quoted question)
                           c.(probe_timeout)) s = (sent, s') /\
    forall x, n = Some x <-> answers_quantity sent x.

Definition acts (es : list Event) (s : Sys W) : Sys W :=
  foldl (fun s e => (act c.(flip_after) r e s).2) s es.

(** What the entry holds. *)
Definition holding {A} (f : Provider -> A) (x : A) (s : Sys W) : Prop :=
  exists p, entry s.(pool) r = Some p /\ f p = x.

(** The check of the provider's chain, and whether it clears a probe. It
    asks on a chain round or when somebody asked for it, a question it
    takes; without an answer, and in between, the last check stands. *)
Inductive ChainCheck (chain_round : bool) (s : Sys W) : list Event -> bool -> Sys W -> Prop :=
| cc_unchecked : c.(health_chain_id) = None -> ChainCheck chain_round s [] true s
| cc_not_asked expected v s' :
    c.(health_chain_id) = Some expected -> chain_round = false -> holding chain_check_due false s ->
    s' = acts [OnTakeChainCheckDue] s -> holding chain_verified v s' ->
    ChainCheck chain_round s [OnTakeChainCheckDue] v s'
| cc_no_answer expected v s' :
    c.(health_chain_id) = Some expected -> chain_round = true \/ holding chain_check_due true s ->
    asked_for chain_id_probe (acts [OnTakeChainCheckDue] s) None s' -> holding chain_verified v s' ->
    ChainCheck chain_round s [OnTakeChainCheckDue] v s'
| cc_right expected s1 :
    c.(health_chain_id) = Some expected -> chain_round = true \/ holding chain_check_due true s ->
    asked_for chain_id_probe (acts [OnTakeChainCheckDue] s) (Some expected) s1 ->
    ChainCheck chain_round s [OnTakeChainCheckDue; OnChainVerified true] true
      (acts [OnChainVerified true] s1)
| cc_wrong expected actual s1 :
    c.(health_chain_id) = Some expected -> chain_round = true \/ holding chain_check_due true s ->
    asked_for chain_id_probe (acts [OnTakeChainCheckDue] s) (Some actual) s1 -> actual <> expected ->
    ChainCheck chain_round s [OnTakeChainCheckDue; OnChainVerified false; OnQuarantine Chain] false
      (acts [OnChainVerified false; OnQuarantine Chain] s1).

Context (reference : option Z) (now : Z).

(** A height against the reference's: behind it by more than the
    tolerance is one failure, everything else is healthy. *)
Definition judgement (height : Z) : Event :=
  match reference with
  | Some x => if Z.ltb (sat_add_u64 height c.(lag_tolerance_blocks)) x
              then OnHealth false Lag else OnHealth true Probe
  | None => OnHealth true Probe
  end.

Inductive ProbeRun (chain_round : bool) (s : Sys W) : list Event -> Sys W -> Prop :=
| pr_not_due at_ : holding next_probe at_ s -> now < at_ -> ProbeRun chain_round s [] s
| pr_not_cleared at_ es s' :
    holding next_probe at_ s -> at_ <= now -> ChainCheck chain_round s es false s' ->
    ProbeRun chain_round s es s'
| pr_answered at_ es s1 started s2 h s3 ended s4 d t s5 :
    holding next_probe at_ s -> at_ <= now -> ChainCheck chain_round s es true s1 ->
    read_clock s1 = (started, s2) -> asked_for block_number_probe s2 (Some h) s3 ->
    read_clock s3 = (ended, s4) -> d = since ended started ->
    read_clock (acts [OnProbeDuration d] s4) = (t, s5) ->
    ProbeRun chain_round s
      (es ++ [OnProbeDuration d; OnAnsweredProbe t; OnHeight h; judgement h])
      (acts [OnAnsweredProbe t; OnHeight h; judgement h] s5)
| pr_unanswered at_ es s1 started s2 s3 ended s4 d s5 streak :
    holding next_probe at_ s -> at_ <= now -> ChainCheck chain_round s es true s1 ->
    read_clock s1 = (started, s2) -> asked_for block_number_probe s2 None s3 ->
    read_clock s3 = (ended, s4) -> d = since ended started ->
    s5 = acts [OnProbeDuration d; OnUnansweredProbe; OnHealth false Probe] s4 ->
    holding unanswered_probe_streak streak s5 ->
    ProbeRun chain_round s
      (es ++ [OnProbeDuration d; OnUnansweredProbe; OnHealth false Probe;
              OnNextProbe (now + probe_delay c streak)])
      (acts [OnNextProbe (now + probe_delay c streak)] s5).
End spec.

(** * Lemmas *)

Section refinement.
Context `{SerdeJson} {W : Type} `{World W} {R : Type} `{ChainReader R (Sys W)}.
Context (m : Monitor R).
Abbreviation config := (m.(monitor_config)) (only parsing).
Abbreviation flip := (m.(monitor_config).(flip_after)) (only parsing).

(** [s'] came from [s] by this task's changes [es] to entry [r] alone,
    and the others' steps. *)
Definition ran (r : ptr) (s s' : Sys W) (es : list Event) : Prop :=
  exists hs, steps flip s s' hs /\ mine hs = (fun e => (r, e)) <$> es /\ counted hs = [].

Lemma ran_nil r s s' : steps flip s s' [] -> ran r s s' [].
Proof. intros Hs. by exists []. Qed.

Lemma ran_trans r s1 s2 s3 e1 e2 : ran r s1 s2 e1 -> ran r s2 s3 e2 -> ran r s1 s3 (e1 ++ e2).
Proof.
  intros (h1 & S1 & M1 & C1) (h2 & S2 & M2 & C2). exists (h1 ++ h2).
  split; [by eapply steps_trans|]. by rewrite mine_app, counted_app, M1, M2, C1, C2, fmap_app.
Qed.

Lemma ran_act r s e : ran r s (act flip r e s).2 [e].
Proof. exists [Mine r e]. split; [apply act_steps|done]. Qed.

Lemma ran_clock r s : ran r s (read_clock s).2 [].
Proof. apply ran_nil, read_clock_steps. Qed.

Lemma ran_query r target body s : ran r s (monitor_query m target body s).2 [].
Proof.
  unfold monitor_query, fmap, M_fmap. set (q := mkHttpRequest _ _ _ _ _ _).
  destruct (post_steps flip q s) as [os Hos]. destruct (post flip q s) as [x s'].
  exists (Sent q :: (Theirs <$> os)). split; [exact Hos|]. cbn.
  by rewrite mine_theirs, counted_theirs.
Qed.

Lemma ran_entry r s s' es :
  ran r s s' es -> is_Some (entry s.(pool) r) -> is_Some (entry s'.(pool) r).
Proof. intros (hs & Hs & _). by eapply steps_entry. Qed.

Lemma is_success_range n : is_success n = true <-> 200 <= n <= 299.
Proof. unfold is_success. lia. Qed.

Lemma probe_body_spec cs e acc body :
  Z.of_nat (length acc) <= PROBE_RESPONSE_CAP ->
  probe_body cs e acc = Some body <->
    e = BodyDone /\ body = acc ++ concat cs /\ Z.of_nat (length body) <= PROBE_RESPONSE_CAP.
Proof.
  revert acc. induction cs as [|x cs IH]; intros acc Hacc; cbn [probe_body concat].
  - rewrite app_nil_r. destruct e; split; [intros [= <-] | by intros (_ & -> & _) | done | by intros []].
    by split_and!.
  - destruct (Z.ltb_spec PROBE_RESPONSE_CAP (Z.of_nat (length acc) + Z.of_nat (length x))).
    + split; [done|]. intros (_ & -> & Hl). rewrite !length_app in Hl. lia.
    + rewrite IH by (rewrite length_app; lia). by rewrite <- (assoc_L (++)).
Qed.

Lemma probe_answer_spec sent n : probe_answer sent = Some n <-> answers_quantity sent n.
Proof.
  unfold probe_answer, answers_quantity. destruct sent as [resp|e]; [|split; [done | by intros (? & ? & ? & ? & _)]].
  pose proof (is_success_range resp.(status)) as Hs. destruct (is_success resp.(status)).
  - pose proof (fun body => probe_body_spec resp.(chunks) resp.(body_end) [] body) as Hb. split.
    + intros E. apply bind_Some in E as (body & (E1 & -> & Hl)%Hb & E); [|done].
      apply bind_Some in E as (v & Ev & E). apply bind_Some in E as (x & Ex & E).
      exists resp, v, x. split_and!; try done; by apply Hs.
    + intros (? & v & x & [= <-] & _ & E1 & Hl & Ev & Ex & E).
      rewrite (proj2 (Hb (concat resp.(chunks)) ltac:(done))) by done. cbn. rewrite Ev. cbn. by rewrite Ex.
  - split; [done|]. intros (? & ? & ? & [= <-] & Hr & _). apply Hs in Hr. done.
Qed.

Lemma asks_for r question (s : Sys W) p :
  entry s.(pool) r = Some p ->
  let '(n, s') := monitor_query m p.(url) (quoted question) s in
  ran r s s' [] /\ asked_for config r question s n s'.
Proof.
  intros Hp. pose proof (ran_query r p.(url) (quoted question) s) as Hr.
  unfold monitor_query, fmap, M_fmap in *. unfold asked_for.
  destruct (post _ _ s) as [sent s'] eqn:Ep. split; [exact Hr|]. exists p, sent. split_and!; [done..|].
  intros x. apply probe_answer_spec.
Qed.

Lemma ran_acts r es (s : Sys W) : ran r s (acts config r es s) es.
Proof.
  revert s. induction es as [|e es IH]; intros s; [by apply ran_nil, steps_refl|].
  exact (ran_trans _ _ _ _ [e] es (ran_act r s e) (IH _)).
Qed.

Lemma holding_read {A} r (f : Provider -> A) d (s : Sys W) :
  is_Some (entry s.(pool) r) -> holding r f (read_entry r f d s).1 s.
Proof. intros [p Hp]. exists p. split; [done|]. cbn. by rewrite Hp. Qed.

Lemma entry_acts r es (s : Sys W) p :
  entry s.(pool) r = Some p ->
  entry (acts config r es s).(pool) r = Some (foldl (fun p e => apply_event flip e p) p es).
Proof.
  revert s p. induction es as [|e es IH]; intros s p Hp; [done|]. apply (IH (act flip r e s).2).
  unfold entry in *. cbn. by rewrite lookup_alter_eq, Hp.
Qed.

Lemma chain_cleared_run r chain_round (s : Sys W) :
  is_Some (entry s.(pool) r) ->
  exists es, let '(v, s') := chain_cleared m r chain_round s in
    ran r s s' es /\ ChainCheck config r chain_round s es v s'.
Proof.
  intros Hr. unfold chain_cleared, mbind, M_bind, mret, M_ret.
  destruct (health_chain_id config) as [expected|] eqn:Ec.
  2:{ exists []. split; [by apply ran_nil, steps_refl | by constructor]. }
  pose proof (holding_read r chain_check_due false s Hr) as Hdue. cbn [read_entry fst] in Hdue.
  set (due := match entry s.(pool) r with Some p => chain_check_due p | None => false end) in *.
  unfold read_entry at 1. fold due. set (s1 := acts config r [OnTakeChainCheckDue] s).
  pose proof (ran_acts r [OnTakeChainCheckDue] s) as R1. fold s1 in R1.
  change (act flip r OnTakeChainCheckDue s) with (tt, s1). cbn [fst snd].
  pose proof (ran_entry _ _ _ _ R1 Hr) as Hr1.
  destruct (chain_round || due) eqn:Edue.
  2:{ apply orb_false_iff in Edue as [-> E]. rewrite E in Hdue. eexists. split; [exact R1|].
      eapply cc_not_asked; [done..|]. by apply holding_read. }
  assert (chain_round = true \/ holding r chain_check_due true s) as Hasked.
  { apply orb_true_iff in Edue as [->|E]; [by left|]. right. by rewrite E in Hdue. }
  unfold verify_chain, mbind, M_bind, entry_url, query_chain_id, read_entry at 1 2.
  destruct Hr1 as [p1 Hp1]. rewrite Hp1. pose proof (asks_for r chain_id_probe s1 p1 Hp1) as R2.
  destruct (monitor_query m _ _ s1) as [n s2]. destruct R2 as [R2 Hn].
  pose proof (ran_trans _ _ _ _ _ _ R1 R2) as R12. cbn [app] in R12.
  assert (is_Some (entry s2.(pool) r)) as Hr2 by (eapply ran_entry; [exact R2 | by exists p1]).
  destruct n as [actual|].
  2:{ eexists. split; [exact R12|]. eapply cc_no_answer; [done.. |]. by apply holding_read. }
  destruct Hr2 as [p2 Hp2]. destruct (Z.eqb_spec actual expected) as [->|Hne].
  - exists [OnTakeChainCheckDue; OnChainVerified true].
    change (act flip r (OnChainVerified true) s2) with (tt, acts config r [OnChainVerified true] s2).
    cbv beta iota. rewrite (entry_acts r _ s2 p2 Hp2).
    split; [exact (ran_trans _ _ _ _ _ _ R12 (ran_acts r _ s2)) | by eapply cc_right].
  - exists [OnTakeChainCheckDue; OnChainVerified false; OnQuarantine Chain].
    set (s4 := acts config r [OnChainVerified false; OnQuarantine Chain] s2).
    change (act flip r (OnChainVerified false) s2) with (tt, acts config r [OnChainVerified false] s2).
    cbv beta iota.
    change (act flip r (OnQuarantine Chain) (acts config r [OnChainVerified false] s2)) with (tt, s4).
    cbv beta iota. pose proof (entry_acts r [OnChainVerified false; OnQuarantine Chain] s2 p2 Hp2) as Hp4.
    fold s4 in Hp4. rewrite Hp4.
    split; [exact (ran_trans _ _ _ _ _ _ R12 (ran_acts r _ s2)) | by eapply cc_wrong].
Qed.

Lemma probe_one_run r reference chain_round now (s : Sys W) :
  is_Some (entry s.(pool) r) ->
  exists es, let '(_, s') := probe_one m r reference chain_round now s in
    ran r s s' es /\ ProbeRun config r reference now chain_round s es s'.
Proof.
  intros Hr. unfold probe_one, mbind, M_bind, mret, M_ret.
  pose proof (holding_read r next_probe 0 s Hr) as Hat. cbn [read_entry fst] in Hat.
  unfold read_entry at 1. set (at_ := match entry s.(pool) r with Some p => next_probe p | None => 0 end) in *.
  destruct (Z.leb_spec at_ now) as [Hd|Hd]; cbn [negb].
  2:{ exists []. split; [by apply ran_nil, steps_refl | by eapply pr_not_due]. }
  destruct (chain_cleared_run r chain_round s Hr) as (es & Hc).
  destruct (chain_cleared m r chain_round s) as [[] s1]; cbn [fst snd negb] in *; destruct Hc as [R1 Hc].
  2:{ exists es. split; [exact R1 | by eapply pr_not_cleared]. }
  unfold probe, mbind, M_bind, mret, M_ret. pose proof (ran_clock r s1) as R2.
  destruct (read_clock s1) as [started s2] eqn:Es2. cbn [snd] in R2.
  unfold entry_url, query_block_number, read_entry at 1.
  assert (is_Some (entry s2.(pool) r)) as [p2 Hp2].
  { eapply ran_entry; [exact R2|]. by eapply ran_entry. }
  rewrite Hp2. pose proof (asks_for r block_number_probe s2 p2 Hp2) as R3.
  destruct (monitor_query m _ _ s2) as [n s3]. destruct R3 as [R3 Hn].
  pose proof (ran_clock r s3) as R4. destruct (read_clock s3) as [ended s4] eqn:Es4. cbn [snd] in R4.
  pose proof (ran_trans _ _ _ _ _ _ R1 (ran_trans _ _ _ _ _ _ R2 (ran_trans _ _ _ _ _ _ R3 R4))) as R5.
  rewrite !app_nil_r in R5. set (d := since ended started).
  change (act flip r (OnProbeDuration d) s4) with (tt, acts config r [OnProbeDuration d] s4).
  cbv beta iota. destruct n as [h|].
  - destruct (read_clock (acts config r [OnProbeDuration d] s4)) as [t s5] eqn:Es5.
    pose proof (ran_clock r (acts config r [OnProbeDuration d] s4)) as R6. rewrite Es5 in R6. cbn [snd] in R6.
    set (j := judgement config reference h).
    assert (forall s' : Sys W, match reference with
      | Some x => if Z.ltb (sat_add_u64 h config.(lag_tolerance_blocks)) x
                  then act flip r (OnHealth false Lag) else act flip r (OnHealth true Probe)
      | None => act flip r (OnHealth true Probe)
      end s' = (tt, acts config r [j] s')) as Ej.
    { intros s'. unfold j, judgement. destruct reference as [x|]; [|done]. by destruct (Z.ltb _ x). }
    change (act flip r (OnAnsweredProbe t) s5) with (tt, acts config r [OnAnsweredProbe t] s5).
    cbv beta iota.
    change (act flip r (OnHeight h) (acts config r [OnAnsweredProbe t] s5))
      with (tt, acts config r [OnAnsweredProbe t; OnHeight h] s5).
    cbv beta iota. rewrite Ej. eexists. split; [|by eapply pr_answered].
    exact (ran_trans _ _ _ _ _ _ R5 (ran_trans _ _ _ _ [_] _ (ran_acts r _ s4)
      (ran_trans _ _ _ _ [] _ R6 (ran_acts r [_; _; _] s5)))).
  - set (s5 := acts config r [OnProbeDuration d; OnUnansweredProbe; OnHealth false Probe] s4).
    change (act flip r OnUnansweredProbe (acts config r [OnProbeDuration d] s4))
      with (tt, acts config r [OnProbeDuration d; OnUnansweredProbe] s4).
    cbv beta iota. change (act flip r (OnHealth false Probe)
      (acts config r [OnProbeDuration d; OnUnansweredProbe] s4)) with (tt, s5).
    cbv beta iota. unfold reschedule_unanswered, mbind, M_bind, read_entry.
    pose proof (entry_acts r [OnProbeDuration d; OnUnansweredProbe; OnHealth false Probe] s4) as He.
    assert (is_Some (entry s4.(pool) r)) as [p4 Hp4] by by eapply ran_entry.
    specialize (He p4 Hp4). fold s5 in He. set (p5 := foldl _ _ _) in He. rewrite He.
    exists (es ++ [OnProbeDuration d; OnUnansweredProbe; OnHealth false Probe;
                   OnNextProbe (now + probe_delay config p5.(unanswered_probe_streak))]). split.
    + exact (ran_trans _ _ _ _ _ _ R5 (ran_trans _ _ _ _ [_; _; _] _ (ran_acts r _ s4) (ran_acts r [_] s5))).
    + eapply pr_unanswered; try done. by exists p5.
Qed.
End refinement.

(** * Theorems *)

Section theorems.
Context `{SerdeJson} {W : Type} `{World W} {R : Type} `{ChainReader R (Sys W)}.
Context (m : Monitor R).
Abbreviation config := (m.(monitor_config)) (only parsing).

(** C9: A provider's part of a sweep refines its specification, whatever the
    others do meanwhile: it is skipped while its next probe is not due;
    with a chain id configured its chain is asked for on a chain round, or
    when somebody asked for it since: the answer it gives at its own
    address clears it or quarantines it without a probe, and without an
    answer the last check stands; else its height is asked for once, and
    the outcome is recorded on this entry alone - the height it answered,
    judged against the reference's, or an unanswered probe with the wait
    that the streak of its unanswered probes asks for. *)
Theorem probe_one_refines r reference chain_round now (s : Sys W) :
  is_Some (entry s.(pool) r) ->
  exists es, let '(_, s') := probe_one m r reference chain_round now s in
    ran m r s s' es /\ ProbeRun config r reference now chain_round s es s'.
Proof. apply probe_one_run. Qed.

(** Only a probe that was answered brings a provider closer to rotation,
    and only one that shows it in step: each health success of a sweep
    comes from a height within the tolerance of the reference's, in a
    sweep that found no wrong chain. A sweep never records a verdict or
    served traffic, and quarantines for nothing but the wrong chain. *)
Theorem probe_success_means r reference chain_round now p (s : Sys W) :
  entry s.(pool) r = Some p ->
  exists es, ran m r s (probe_one m r reference chain_round now s).2 es /\
    (forall x, OnHealth true x ∈ es ->
       x = Probe /\ (OnChainVerified false ∉ es) /\
       exists h, OnHeight h ∈ es /\
         forall ref, reference = Some ref -> ref <= sat_add_u64 h config.(lag_tolerance_blocks)) /\
    (forall x, OnQuarantine x ∈ es -> x = Chain /\ OnChainVerified false ∈ es) /\
    Forall (fun e => match e with
                     | OnVerdict _ _ | OnServed _ | OnTransportFailure | OnSeed _
                     | OnSubtract _ => False
                     | _ => True
                     end) es.
Proof.
  intros Hp. destruct (probe_one_run m r reference chain_round now s) as (es & Hrun); [by exists p|].
  exists es. destruct (probe_one m r reference chain_round now s) as [x s']. destruct Hrun as [Hr Hrun].
  split; [exact Hr|]. clear Hr x.
  assert (forall s s' es v, ChainCheck config r chain_round s es v s' ->
    (forall x, OnHealth true x ∉ es) /\
    (forall x, OnQuarantine x ∈ es -> x = Chain /\ OnChainVerified false ∈ es /\ v = false) /\
    (OnChainVerified false ∈ es -> v = false) /\
    Forall (fun e => match e with
                     | OnVerdict _ _ | OnServed _ | OnTransportFailure | OnSeed _
                     | OnSubtract _ => False | _ => True end) es) as Hcheck.
  { clear. intros s s' es v []; split_and!; repeat constructor; intros; set_solver. }
  assert (forall h x, judgement config reference h = OnHealth true x -> x = Probe /\
    forall ref, reference = Some ref -> ref <= sat_add_u64 h config.(lag_tolerance_blocks))
    as Hj.
  { clear. intros h x. unfold judgement. destruct reference as [ref|]; [|intros [= <-]; done].
    destruct (Z.ltb_spec (sat_add_u64 h config.(lag_tolerance_blocks)) ref); [done|].
    intros [= <-]. split; [done|]. by intros ? [= <-]. }
  assert (forall h, exists v x, judgement config reference h = OnHealth v x) as Hjh.
  { intros h. unfold judgement. destruct reference; [destruct (Z.ltb _ _)|]; by eexists _, _. }
  destruct Hrun as [| at_ es s' _ _ Hc | at_ es s1 started s2 h s3 ended s4 d t s5 _ _ Hc
    | at_ es s1 started s2 s3 ended s4 d s5 k _ _ Hc].
  - split_and!; [set_solver.. | constructor].
  - destruct (Hcheck _ _ _ _ Hc) as (H1' & H2' & _ & H4'). split_and!; [naive_solver.. | done].
  - destruct (Hcheck _ _ _ _ Hc) as (H1' & H2' & H3' & H4').
    destruct (Hjh h) as (v & y & Ey). split_and!.
    + intros x. rewrite !elem_of_app, !elem_of_cons, elem_of_nil, Ey. intros [Hx|Hx].
      { by apply H1' in Hx. }
      destruct Hx as [Hx|[Hx|[Hx|[Hx|[]]]]]; try done. injection Hx as <- <-.
      destruct (Hj h x Ey) as [-> Href]. split_and!; [done| |].
      * intros [Hx|Hx]; [by apply H3' in Hx|]. set_solver.
      * exists h. split; [set_solver|exact Href].
    + intros x. rewrite !elem_of_app, !elem_of_cons, elem_of_nil, Ey.
      intros [Hx|Hx]; [by apply H2' in Hx as (_ & _ & ?)|].
      by destruct Hx as [Hx|[Hx|[Hx|[Hx|[]]]]].
    + apply Forall_app. split; [exact H4'|]. rewrite Ey. by repeat constructor.
  - destruct (Hcheck _ _ _ _ Hc) as (H1' & H2' & H3' & H4'). split_and!.
    + intros x. rewrite !elem_of_app, !elem_of_cons, elem_of_nil. intros [Hx|Hx].
      { by apply H1' in Hx. } by destruct Hx as [Hx|[Hx|[Hx|[Hx|[]]]]].
    + intros x. rewrite !elem_of_app, !elem_of_cons, elem_of_nil.
      intros [Hx|Hx]; [by apply H2' in Hx as (_ & _ & ?)|].
      by destruct Hx as [Hx|[Hx|[Hx|[Hx|[]]]]].
    + apply Forall_app. split; [exact H4'|]. by repeat constructor.
Qed.
End theorems.

(** The wait before a failing provider's next probe. The first
    [flip_after] failures keep the full cadence; each one after doubles
    the wait up to the configured most, which it never passes; and more
    failures never shorten it. *)
Theorem probe_delay_spec c :
  0 < c.(probe_interval) <= duration_max -> 0 <= c.(max_probe_backoff) <= duration_max ->
  0 <= c.(flip_after) ->
  (forall n, 0 <= n <= c.(flip_after) ->
     probe_delay c n = Z.min c.(probe_interval) c.(max_probe_backoff)) /\
  (forall k, 0 <= k < 32 ->
     probe_delay c (c.(flip_after) + k)%Z = Z.min (c.(probe_interval) * 2 ^ k) c.(max_probe_backoff)) /\
  (forall n, 0 <= probe_delay c n <= c.(max_probe_backoff)) /\
  (forall n n', n <= n' -> probe_delay c n <= probe_delay c n').
Proof.
  intros Hi Hb Hf.
  assert (forall k, 0 <= k < 32 -> checked_shl k = Some (2 ^ k) /\ 1 <= 2 ^ k <= 2 ^ 31) as Hshl.
  { intros k Hk. unfold checked_shl. rewrite (proj2 (Z.ltb_lt _ _)) by lia.
    rewrite Z.shiftl_1_l.
    assert (1 <= 2 ^ k <= 2 ^ 31) as Hp.
    { split; [pose proof (Z.pow_pos_nonneg 2 k); lia | apply Z.pow_le_mono_r; lia]. }
    split; [|exact Hp]. f_equal. apply Z.mod_small. machine_unfold. lia. }
  set (factor := fun n => default u32_max (checked_shl (sat_sub n c.(flip_after)))).
  assert (forall n, probe_delay c n =
    Z.min (Z.min duration_max (c.(probe_interval) * factor n)) c.(max_probe_backoff)) as Hd by done.
  assert (forall n n', n <= n' -> 1 <= factor n <= factor n') as Hmono.
  { intros n n' Hn. unfold factor.
    assert (0 <= sat_sub n (flip_after c) <= sat_sub n' (flip_after c)) as Hs
      by (machine_unfold; lia).
    destruct (Z.ltb_spec (sat_sub n (flip_after c)) 32) as [H1|H1].
    - destruct (Hshl (sat_sub n (flip_after c))) as [-> Hr]; [lia|]. cbn [default from_option Datatypes.id].
      destruct (Z.ltb_spec (sat_sub n' (flip_after c)) 32) as [H2|H2].
      + destruct (Hshl (sat_sub n' (flip_after c))) as [-> _]; [lia|]. cbn [default from_option Datatypes.id].
        split; [apply Hr|]. apply Z.pow_le_mono_r; lia.
      + unfold checked_shl. rewrite (proj2 (Z.ltb_ge _ _)) by lia.
        cbn [default from_option Datatypes.id]. revert Hr. change (2 ^ 31) with 2147483648.
        generalize (2 ^ sat_sub n (flip_after c)). clear. unfold u32_max. lia.
    - unfold checked_shl. rewrite !(proj2 (Z.ltb_ge _ _)) by lia. done. }
  split_and!.
  - intros n Hn. rewrite Hd. assert (factor n = 1) as ->.
    { unfold factor. replace (sat_sub n (flip_after c)) with 0 by (machine_unfold; lia). done. }
    lia.
  - intros k Hk. rewrite Hd. unfold factor.
    replace (sat_sub (flip_after c + k) (flip_after c)) with k by (machine_unfold; lia).
    destruct (Hshl k Hk) as [-> Hr]. cbn [default from_option Datatypes.id].
    generalize (probe_interval c * 2 ^ k). clear -Hb. lia.
  - intros n. rewrite Hd. destruct (Hmono n n ltac:(lia)). split; [|lia].
    repeat apply Z.min_glb; [unfold duration_max; machine_unfold; unfold NANOS; lia | nia | lia].
  - intros n n' Hn. rewrite !Hd. destruct (Hmono n n' Hn).
    assert (probe_interval c * factor n <= probe_interval c * factor n')
      by (apply Z.mul_le_mono_nonneg_l; lia). lia.
Qed.

Lemma probe_delay_spec_witness :
  probe_delay default_health 3 = from_secs 5 /\ probe_delay default_health 5 = from_secs 20 /\
  probe_delay default_health 40 <= from_secs 300.
Proof.
  destruct (probe_delay_spec default_health) as (H1 & H2 & H3 & _);
    [vm_compute; intuition congruence .. |].
  split_and!.
  - rewrite H1 by (cbn; lia). done.
  - exact (H2 2 ltac:(lia)).
  - apply (H3 40).
Defined.

(** * The boot window *)

Section boot.
Context `{SerdeJson} {W : Type} `{World W} {R : Type} `{ChainReader R (Sys W)}.
Context (m : Monitor R).

Lemma tick_counts l (s : Sys W) :
  let l' := (tick m l s).1 in
  l'.(rounds_) = Z.min u32_max (l.(rounds_) + 1) /\
  l'.(ready) = l.(ready) || Z.eqb l'.(rounds_) m.(monitor_config).(flip_after).
Proof.
  unfold tick, mbind, M_bind, mret, M_ret.
  destruct (refresh_reference_height m _ s) as [rh s1].
  destruct (chain_round_due m _ s1) as [due s2].
  destruct (if due then _ else _) as [last s3].
  by destruct (probe_all m _ due s3) as [[] s4].
Qed.

(** [/health] reports ready from the sweep that closes the boot window
    on, and not a sweep earlier: after [n] sweeps, exactly when [n] has
    reached [flip_after]. *)
Theorem ready_after_boot_window n (s : Sys W) :
  1 <= m.(monitor_config).(flip_after) <= u32_max -> Z.of_nat n <= u32_max ->
  (run m n loop_start s).1.(ready) =
    Z.leb m.(monitor_config).(flip_after) (Z.of_nat n).
Proof.
  intros Hf Hn.
  assert (forall k l s, Z.of_nat k + l.(rounds_) <= u32_max -> 0 <= l.(rounds_) ->
    l.(ready) = Z.leb m.(monitor_config).(flip_after) l.(rounds_) ->
    (run m k l s).1.(ready) =
      Z.leb m.(monitor_config).(flip_after) (Z.of_nat k + l.(rounds_))) as Hrun.
  { clear. induction k as [|k IH]; intros l s Hk Hpos Hl; [exact Hl|].
    cbn [run]. unfold mbind, M_bind. pose proof (tick_counts l s) as [Hr Hready].
    destruct (tick m l s) as [l' s']. cbn [fst] in *.
    assert (rounds_ l' = rounds_ l + 1) as E by lia. rewrite Hl in Hready.
    rewrite IH; [f_equal; lia | lia | lia |]. rewrite Hready.
    destruct (Z.leb_spec m.(monitor_config).(flip_after) l.(rounds_)),
      (Z.eqb_spec (rounds_ l') m.(monitor_config).(flip_after)),
      (Z.leb_spec m.(monitor_config).(flip_after) (rounds_ l')); cbn; try done; lia. }
  rewrite Hrun; cbn; [f_equal; lia | lia | lia |]. symmetry. apply Z.leb_gt. lia.
Qed.
End boot.

(** ** Quantities *)

Lemma hex_digits_fixed fuel n acc :
  0 <= n < 16 ^ Z.of_nat fuel -> (0 < fuel)%nat ->
  exists width, (0 < width <= fuel)%nat /\ n < 16 ^ Z.of_nat width /\
    hex_digits fuel n acc = hex_fixed width n acc.
Proof.
  revert n acc. induction fuel as [|fuel IH]; intros n acc Hn Hf; [lia|].
  cbn [hex_digits]. destruct (Z.eqb_spec (n / 16) 0) as [E|E].
  - exists 1%nat. split_and!; [lia | lia | | done]. cbn. Z.to_euclidean_division_equations. lia.
  - rewrite Nat2Z.inj_succ, Z.pow_succ_r in Hn by lia.
    assert (0 < fuel)%nat as Hf'.
    { destruct fuel; [|lia]. cbn in Hn. exfalso. apply E, Z.div_small. lia. }
    destruct (IH (n / 16) (String (hex_digit (n mod 16)) acc)) as (w & Hw & Hlt & Ew); [|done|].
    { split; [apply Z.div_pos; lia | apply Z.div_lt_upper_bound; lia]. }
    exists (S w). split_and!; [lia | lia | | exact Ew].
    rewrite Nat2Z.inj_succ, Z.pow_succ_r by lia.
    pose proof (Z.div_mod n 16). pose proof (Z.mod_pos_bound n 16). lia.
Qed.

(** A quantity a node writes is read as the number it is: the hex form
    round-trips for every 64-bit value. *)
Theorem hex_quantity_round_trip n :
  is_u64 n -> hex_quantity (Str (hex_u64 n)) = Some n.
Proof.
  intros Hn. unfold hex_quantity, hex_u64. cbn [as_str mbind option_bind].
  destruct (hex_digits_fixed 16 n EmptyString) as (w & Hw & Hlt & ->);
    [machine_unfold; cbn; lia | lia |].
  assert (strip_prefix "0x"%string ("0x" ++ hex_fixed w n "")%string = Some (hex_fixed w n ""))
    as -> by by apply strip_prefix_Some.
  change (from_str_radix u64_max 16 (hex_fixed w n "") = Some n). unfold is_u64 in Hn.
  assert (from_str_radix u64_max 16 (hex_fixed w n "") =
    parse_digits u64_max 16 0 (hex_fixed w n "")) as ->.
  { assert (forall v acc, 0 <= v -> exists d t, 0 <= d < 16 /\
      hex_fixed w v acc = String (hex_digit d) t) as Hhead.
    { destruct w as [|w]; [lia|]. clear. induction w as [|w IH]; intros v acc Hv.
      - exists (v mod 16), acc. split; [apply Z.mod_pos_bound; lia | done].
      - apply (IH (v / 16) (String (hex_digit (v mod 16)) acc)), Z.div_pos; lia. }
    destruct (Hhead n EmptyString) as (d & t & Hd & ->); [lia|].
    apply from_str_radix_no_plus. rewrite <- (Z2N.id d) by lia.
    below 16%nat (fun d => hex_digit (Z.of_N d) <> "+"%char). }
  by rewrite parse_hex_fixed by lia.
Qed.

Lemma hex_quantity_round_trip_witness : hex_quantity (Str (hex_u64 60138453056)) = Some 60138453056.
Proof. apply hex_quantity_round_trip. vm_compute. intuition congruence. Defined.

(** * Witnesses *)

Definition demo_monitor : Monitor Reader := mkMonitor default_health None.

(** A provider that answers block 42. *)
Definition demo_probe_answer : HttpResponse :=
  mkHttpResponse 200 None
    [to_vec (Object [("jsonrpc", Str "2.0"); ("result", Str "0x2a")]%string)] BodyDone.
Definition demo_probed : Sys Script :=
  demo_system (mkScript [1; 2; 3] [Ok demo_probe_answer] []).

Lemma probe_one_refines_witness :
  is_Some (entry demo_probed.(pool) 0%nat) /\
    (exists es, let '(_, s') := probe_one demo_monitor 0%nat (Some 50) false 5 demo_probed in
       ran demo_monitor 0%nat demo_probed s' es /\
       ProbeRun default_health 0%nat (Some 50) 5 false demo_probed es s') /\
    mine (probe_one demo_monitor 0%nat (Some 50) false 5
            demo_probed).2.(history) =
      [(0%nat, OnProbeDuration 1); (0%nat, OnAnsweredProbe 3); (0%nat, OnHeight 42);
       (0%nat, OnHealth true Probe)].
Proof.
  assert (is_Some (entry demo_probed.(pool) 0%nat)) as Hp by (eexists; vm_compute; reflexivity).
  split; [exact Hp|]. split; [|by vm_compute].
  exact (probe_one_refines demo_monitor 0%nat (Some 50) false 5 demo_probed Hp).
Defined.

Lemma probe_success_means_witness :
  exists es x, ran demo_monitor 0%nat demo_probed
    (probe_one demo_monitor 0%nat (Some 50) false 5 demo_probed).2 es /\
    (OnHealth true x ∈ es -> x = Probe).
Proof.
  destruct (probe_success_means demo_monitor 0%nat (Some 50) false 5
    (provider_new 0 "a" "http://a" Static) demo_probed) as (es & Hr & Hs & _); [by vm_compute|].
  exists es, Probe. split; [exact Hr|]. intros Hin. apply (Hs Probe Hin).
Defined.

Lemma ready_after_boot_window_witness :
  (run (H1 := reader_chain_reader 3) demo_monitor 3 loop_start demo_probed).1.(ready) = true.
Proof.
  rewrite (ready_after_boot_window (H1 := reader_chain_reader 3) demo_monitor 3 demo_probed);
    [done | cbn; unfold u32_max; lia | unfold u32_max; lia].
Defined.

(** [from_str_radix] takes a sign, so a quantity may carry one. *)
Example signed_quantity : hex_quantity (Str "0x+2a") = Some 42.
Proof. reflexivity. Qed.
