(* ===== verification/Recovery.v ===== *)
(** The probe loop over time ([Monitor::run] and the health gate of the
    pool together): what a provider whose probes keep answering the same
    way becomes. Whatever the other tasks do meanwhile, short of judging
    its health the other way or taking it out, [flip_after] sweeps later
    its gate stands as the answers say: a provider that is in step again
    is back, one that stays behind is out. *)

From S2P Require Import Prelude External Concrete Jsonrpc Pool World Records Reader Config Monitor.

#[local] Open Scope Z_scope.

(** * Health signals that agree *)

Definition leaning (g : bool) (n : nat) (k : Z) : Prop :=
  if g then Z.min i64_max (Z.of_nat n) <= k else k <= Z.max i64_min (- Z.of_nat n).

Lemma steady_streak flip_after (g : bool) n h k :
  i64_min <= k <= i64_max ->
  let c := foldl (signal_step flip_after) (h, k) (replicate n (Some g)) in
  i64_min <= c.2 <= i64_max /\ (n <> 0%nat -> leaning g n c.2).
Proof.
  intros Hk. induction n as [|n IH]; [done|]. cbv zeta in *.
  rewrite replicate_S_end, foldl_snoc. destruct IH as [Hr Hl].
  destruct (foldl _ _ (replicate n _)) as [open k'] eqn:E. cbn [fst snd signal_step] in *.
  split; [by apply streak_step_range|]. intros _.
  assert (n = 0%nat \/ leaning g n k') as Hl' by (destruct n; [by left | by right; apply Hl]).
  clear Hl. destruct g, Hl' as [->|Hl']; unfold leaning, streak_step in *; cbn [snd];
    machine_unfold; unfold i64_min, i64_max in *; lia.
Qed.

Lemma steady_gate flip_after (g : bool) n c :
  1 <= flip_after <= i64_max -> flip_after <= Z.of_nat n -> i64_min <= c.2 <= i64_max ->
  (foldl (signal_step flip_after) c (replicate n (Some g))).1 = g.
Proof.
  intros Hf Hn Hc. destruct n as [|n]; [lia|]. destruct c as [h k].
  destruct (steady_streak flip_after g (S n) h k Hc) as [_ Hl]. specialize (Hl ltac:(done)).
  rewrite replicate_S_end, foldl_snoc in *.
  destruct (foldl _ _ (replicate n _)) as [open k']. cbn [fst snd signal_step] in *.
  destruct g; unfold leaning in Hl.
  - by rewrite (proj2 (Z.leb_le _ _)) by lia.
  - rewrite (proj2 (Z.leb_gt _ _)), (proj2 (Z.leb_le _ _)); unfold i64_min, i64_max in *; lia.
Qed.

(** * What is told of an entry *)

(** Health signals on the entry [r] say [g], and are of a [kind]. *)
Definition says (g : bool) (kind : HealthSignal -> Prop) (e : Event) : Prop :=
  match e with
  | OnHealth b x => b = g /\ kind x
  | OnQuarantine _ => False
  | _ => True
  end.
Definition tells (r : ptr) (g : bool) (kind : HealthSignal -> Prop) (x : Step) : Prop :=
  Forall (says g kind) (events_on r [x]).
Definition signals_on (r : ptr) (hs : list Step) : list (option bool) :=
  health_signals (events_on r hs).

Lemma signals_on_app r h1 h2 : signals_on r (h1 ++ h2) = signals_on r h1 ++ signals_on r h2.
Proof. unfold signals_on, health_signals. rewrite events_on_app. apply omap_app. Qed.

Lemma tells_events r g kind hs : Forall (tells r g kind) hs -> Forall (says g kind) (events_on r hs).
Proof.
  induction 1 as [|y hs Hy Hhs IH]; [constructor|].
  change (y :: hs) with ([y] ++ hs). rewrite events_on_app. by apply Forall_app.
Qed.

Lemma tells_all r g kind hs :
  Forall (tells r g kind) hs -> signals_on r hs = replicate (length (signals_on r hs)) (Some g).
Proof.
  intros Hhs%tells_events. symmetry. apply replicate_as_elem_of. split; [done|]. intros x Hx.
  unfold signals_on, health_signals in Hx. apply list_elem_of_omap in Hx as (e & He & Ex).
  rewrite Forall_forall in Hhs. specialize (Hhs e He). destruct e; try done; cbn in *.
  destruct Hhs as [-> _]. congruence.
Qed.

(** The last source of an entry is one of those it was told by. *)
Definition sourced (kind : HealthSignal -> Prop) (p : Provider) : Prop :=
  exists x, kind x /\ p.(last_health_source) = signal_code x.

Lemma source_step flip_after g kind e p :
  says g kind e -> sourced kind (apply_event flip_after e p) \/
    (health_signals [e] = [] /\
     (apply_event flip_after e p).(last_health_source) = p.(last_health_source)).
Proof.
  destruct e; cbn; try (intros; right; split; [done|];
    unfold record_integrity; repeat case_match; done).
  intros [_ Hof]. left. eexists. split; [exact Hof|]. unfold record_health. by repeat case_match.
Qed.

Lemma last_source flip_after g kind evs p :
  Forall (says g kind) evs -> sourced kind p \/ health_signals evs <> [] ->
  sourced kind (Pool.run flip_after evs p).
Proof.
  intros Hev. revert p. induction Hev as [|e evs He Hev IH]; intros p Hp.
  { by destruct Hp. }
  change (Pool.run flip_after (e :: evs) p) with (Pool.run flip_after evs (apply_event flip_after e p)).
  apply IH. destruct (source_step flip_after g kind e p He) as [Hs|[En Es]]; [by left|].
  destruct Hp as [(x & Hx & E)|Hn]; [left; exists x; by rewrite Es|]. right.
  unfold health_signals in *. change (e :: evs) with ([e] ++ evs) in Hn. by rewrite omap_app, En in Hn.
Qed.

(** An entry told the same thing [flip_after] times and more stands as it
    was told. *)
Lemma told_often flip_after {W} (s s' : Sys W) hs r p g kind :
  1 <= flip_after <= i64_max -> pool_wf s.(pool) -> entry s.(pool) r = Some p -> provider_wf p ->
  steps flip_after s s' hs -> Forall (tells r g kind) hs ->
  flip_after <= Z.of_nat (length (signals_on r hs)) ->
  exists p', entry s'.(pool) r = Some p' /\ provider_wf p' /\ healthy p' = g /\ sourced kind p'.
Proof.
  intros Hf Hwf Hp Hpwf Hs Hhs Hn. eexists. split; [by eapply steps_run|].
  split; [by apply run_wf|]. split; cycle 1.
  { eapply last_source; [by apply tells_events|]. right. unfold signals_on in Hn. intros E.
    rewrite E in Hn. cbn in Hn. lia. }
  pose proof (run_health flip_after (events_on r hs) p Hpwf) as E.
  rewrite health_signals_fold in E. fold (signals_on r hs) in E. rewrite (tells_all r g kind hs Hhs) in E.
  apply (f_equal fst) in E. cbn [fst] in E. rewrite E.
  apply steady_gate; [done | by rewrite length_replicate || done | apply Hpwf].
Qed.

(** * One entry under the probe loop *)

Section loop.
Context `{SerdeJson} {W : Type} `{World W} {R : Type} `{ChainReader R (Sys W)}.
Context (m : Monitor R).
Abbreviation config := (m.(monitor_config)) (only parsing).
Abbreviation flip := (m.(monitor_config).(flip_after)) (only parsing).

(** The entry [r], the member [i0] at [u]; its next probe is due from [T]
    on, and what is said of its health is [g], by signals of a [kind]. *)
Context (r : ptr) (u : Url) (i0 : string) (T : Z) (g : bool) (kind : HealthSignal -> Prop).

(** The others do not speak against it, nor take it out, nor put its
    probes off. *)
Definition leaves_alone (o : OtherStep) : Prop :=
  match o with
  | OEvent r' (OnHealth success x) => r' = r -> success = g /\ kind x
  | OEvent r' (OnQuarantine _) | OEvent r' OnTakeChainCheckDue => r' <> r
  | OEvent r' (OnChainVerified v) => r' = r -> v = true
  | OEvent r' (OnNextProbe t) | OEvent r' (OnScheduleProbeNow t) => r' = r -> t <= T
  | ORemove i => i <> i0
  | _ => True
  end.
Definition gentle (x : Step) : Prop :=
  match x with
  | Mine r' e => leaves_alone (OEvent r' e)
  | Theirs o => leaves_alone o
  | Removed i => leaves_alone (ORemove i)
  | _ => True
  end.

(** The entry is a member, where it was, due; [C] is what is known of its
    chain check. *)
Record member_of (C : Provider -> Prop) (pl : Pool) : Prop := {
  mo_wf : pool_wf pl;
  mo_in : r ∈ pl.(members);
  mo_entry : exists p, entry pl r = Some p /\ provider_wf p /\ p.(url) = u /\ p.(id) = i0 /\
               p.(next_probe) <= T /\ C p;
}.

(** The chain is checked, or will be with the next probe; is checked. *)
Definition checkable (p : Provider) : Prop :=
  config.(health_chain_id) = None \/ p.(chain_verified) = true \/ p.(chain_check_due) = true.
Definition checked_ (p : Provider) : Prop :=
  config.(health_chain_id) = None \/ p.(chain_verified) = true.

Definition stable (C : Provider -> Prop) : Prop :=
  forall e p, leaves_alone (OEvent r e) -> C p -> C (apply_event flip e p).

Lemma chain_cells e p :
  leaves_alone (OEvent r e) ->
  let p' := apply_event flip e p in
  (p.(chain_verified) = true -> p'.(chain_verified) = true) /\
  (p.(chain_check_due) = true -> p'.(chain_check_due) = true) /\
  (p.(next_probe) <= T -> p'.(next_probe) <= T).
Proof.
  intros Hg. destruct e as [? ?|?|v ?| | | | | | | | | | | |]; cbn in Hg |- *;
    try (unfold record_health, quarantine, record_integrity; repeat case_match; done);
    try done; naive_solver.
Qed.

Lemma stable_checkable : stable checkable.
Proof. intros e p Hg. pose proof (chain_cells e p Hg). unfold checkable. naive_solver. Qed.
Lemma stable_checked : stable checked_.
Proof. intros e p Hg. pose proof (chain_cells e p Hg). unfold checked_. naive_solver. Qed.
Lemma stable_true : stable (fun _ => True).
Proof. done. Qed.

Lemma removed_other i pl : pool_wf pl -> r ∈ pl.(members) ->
  (exists p, entry pl r = Some p /\ p.(id) = i0) -> i <> i0 -> r ∈ (snd (pool_remove i pl)).(members).
Proof.
  intros Hwf Hin (p & Hp & Hi) Hne. unfold pool_remove.
  pose proof (remove_first_spec (has_id pl i) pl.(members)) as Hs.
  destruct (remove_first _ _) as [[r'|] l']; cbn [snd members with_members].
  2:{ by destruct Hs as [-> _]. }
  destruct Hs as (l1 & l2 & E & -> & Hr & _). rewrite E in Hin.
  assert (r' <> r).
  { intros ->. unfold has_id, test_entry in Hr. rewrite Hp in Hr.
    apply bool_decide_eq_true in Hr. congruence. }
  rewrite elem_of_app, elem_of_cons in *. naive_solver.
Qed.

Lemma member_step C pl x :
  stable C -> gentle x -> member_of C pl -> member_of C (history_step flip pl x).
Proof.
  intros HC Hx [Hwf Hin (p & Hp & Hpwf & Hu & Hi & Ht & Hc)].
  destruct (history_step_run flip pl x r p Hwf Hp) as [Hwf' Hp'].
  split; [done| |].
  - destruct x as [r' e|k|q|i|[r' e|k|n|q|i]|q]; cbn in *; try done; try (by apply elem_of_app; left);
      (apply removed_other; eauto).
  - eexists. split; [exact Hp'|]. split; [by apply run_wf|].
    destruct (run_place flip (events_on r [x]) p) as (-> & -> & _). split; [done|]. split; [done|].
    assert (events_on r [x] = [] \/ exists e, events_on r [x] = [e] /\ leaves_alone (OEvent r e)) as Hev.
    { destruct x as [r' e|k|q|i|[r' e|k|n|q|i]|q]; cbn in *; try (by left);
        (destruct (decide (r' = r)) as [->|]; [right; by exists e | by left]). }
    destruct Hev as [->|(e & -> & He)]; [done|]. change (Pool.run flip [e] p) with (apply_event flip e p).
    split; [by apply chain_cells | by apply HC].
Qed.

Lemma member_same C p1 p2 : same_pool p1 p2 -> member_of C p1 -> member_of C p2.
Proof.
  intros E [[Hf Hm Hn] Hin Hp]. unfold same_pool, with_cursor in E.
  injection E as Eh En Em _. split; [|by rewrite <- Em|unfold entry in *; by rewrite <- Eh].
  constructor; rewrite <- ?Eh, <- ?En, <- ?Em; done.
Qed.

Lemma member_steps C (s s' : Sys W) hs :
  stable C -> steps flip s s' hs -> Forall gentle hs -> member_of C s.(pool) -> member_of C s'.(pool).
Proof.
  intros HC [_ Hs] Hhs Hm. eapply member_same; [symmetry; exact Hs|]. clear Hs.
  revert Hm. generalize s.(pool). induction Hhs as [|x hs Hx Hhs IH]; intros pl Hm; [done|].
  cbn [foldl]. by apply IH, member_step.
Qed.

Lemma gentle_tells x : gentle x -> tells r g kind x.
Proof.
  unfold tells. destruct x as [r' e|k|q|i|[r' e|k|n|q|i]|q]; cbn; try by constructor.
  all: destruct (decide (r' = r)) as [->|]; [|by constructor].
  all: destruct e; cbn; intros Hg; repeat constructor; try done; by apply Hg.
Qed.

(** ** Computations on the entry

    From a state where [C] is known of it, [mx] leaves one where [C'] is,
    tells it [k] more times, and answers what [F] says. *)
Definition gains (k : nat) (s s' : Sys W) : Prop :=
  exists hs, steps flip s s' hs /\ Forall (tells r g kind) hs /\ (k <= length (signals_on r hs))%nat.

Definition goes {A} (C C' : Provider -> Prop) (k : nat) (mx : M (Sys W) A) (F : A -> Prop) : Prop :=
  forall s, member_of C s.(pool) ->
    member_of C' (mx s).2.(pool) /\ gains k s (mx s).2 /\ F (mx s).1.

Lemma gains_trans k1 k2 s1 s2 s3 : gains k1 s1 s2 -> gains k2 s2 s3 -> gains (k1 + k2) s1 s3.
Proof.
  intros (h1 & S1 & T1 & N1) (h2 & S2 & T2 & N2). exists (h1 ++ h2).
  split; [by eapply steps_trans|]. split; [by apply Forall_app|].
  rewrite signals_on_app, length_app. lia.
Qed.

Lemma goes_bind {A B} C C' C'' k1 k2 (mx : M (Sys W) A) (f : A -> M (Sys W) B) F G :
  goes C C' k1 mx F -> (forall a, F a -> goes C' C'' k2 (f a) G) ->
  goes C C'' (k1 + k2) (mx ≫= f) G.
Proof.
  intros Hm Hf s Hs. unfold mbind, M_bind. destruct (Hm s Hs) as (Hs1 & Hg1 & Ha).
  destruct (mx s) as [a s1]. cbn [fst snd] in *. destruct (Hf a Ha s1 Hs1) as (Hs2 & Hg2 & Hb).
  split; [done|]. split; [by eapply gains_trans | done].
Qed.

Lemma goes_weaken {A} (C1 C1' C2 C2' : Provider -> Prop) k k' (mx : M (Sys W) A) (F F' : A -> Prop) :
  goes C1' C2' k' mx F' -> (forall p, C1 p -> C1' p) -> (forall p, C2' p -> C2 p) ->
  (k <= k')%nat -> (forall a, F' a -> F a) -> goes C1 C2 k mx F.
Proof.
  intros Hm H1' H2' Hk HF s [Hwf Hin (p & Hp & ? & ? & ? & ? & Hc)].
  assert (member_of C1' s.(pool)) as Hs by (split; [done..|]; exists p; split_and!; auto).
  destruct (Hm s Hs) as ([Hwf' Hin' (p' & Hp' & ? & ? & ? & ? & Hc')] & (hs & ? & ? & ?) & Ha).
  split; [split; [done..|]; exists p'; split_and!; auto|]. split; [|by apply HF].
  exists hs. do 2 (split; [done|]). lia.
Qed.

Lemma goes_does {A} C (mx : M (Sys W) A) :
  stable C -> does flip gentle mx -> goes C C 0 mx (fun _ => True).
Proof.
  intros HC Hm s Hs. destruct (Hm s) as (hs & Hst & Hhs). split; [by eapply member_steps|].
  split; [|done]. exists hs. split; [done|]. split; [|lia].
  eapply Forall_impl; [exact Hhs|]. apply gentle_tells.
Qed.

Lemma goes_ret {A} (C : Provider -> Prop) (a : A) (F : A -> Prop) : F a -> goes C C 0 (mret a) F.
Proof.
  intros Ha s Hs. split; [done|]. split; [|done]. exists []. split; [by apply steps_refl|].
  split; [constructor | cbn; lia].
Qed.

(** What this task does to the entry. *)
Lemma goes_act (C C' : Provider -> Prop) e k :
  tells r g kind (Mine r e) -> (k <= length (health_signals [e]))%nat ->
  (forall p, p.(next_probe) <= T -> C p -> C' (apply_event flip e p) /\ (apply_event flip e p).(next_probe) <= T) ->
  goes C C' k (act flip r e) (fun _ => True).
Proof.
  intros He Hk HC s [Hwf Hin (p & Hp & Hpwf & Hu & Hi & Ht & Hc)]. split; [|split; [|done]].
  - destruct (history_step_run flip s.(pool) (Mine r e) r p Hwf Hp) as [Hwf' Hp'].
    split; [done | done |]. eexists. split; [exact Hp'|]. split; [by apply run_wf|].
    destruct (run_place flip (events_on r [Mine r e]) p) as (-> & -> & _).
    do 2 (split; [done|]). cbn. rewrite decide_True by done.
    change (Pool.run flip [e] p) with (apply_event flip e p). destruct (HC p Ht Hc). done.
  - exists [Mine r e]. split; [apply act_steps|]. split; [by constructor|].
    unfold signals_on, events_on. cbn. by rewrite decide_True by done.
Qed.

Lemma goes_act_gentle C e :
  stable C -> leaves_alone (OEvent r e) ->
  goes C C (length (health_signals [e])) (act flip r e) (fun _ => True).
Proof.
  intros HC He. apply goes_act; [by apply gentle_tells | done |]. intros p Ht Hc.
  split; [by apply HC | by apply chain_cells].
Qed.

Lemma goes_read {A} (C : Provider -> Prop) (f : Provider -> A) d (F : A -> Prop) :
  (forall p, p.(url) = u -> p.(next_probe) <= T -> C p -> F (f p)) ->
  goes C C 0 (read_entry r f d) F.
Proof.
  intros HF s Hs. split; [done|]. split.
  - exists []. split; [by apply steps_refl|]. split; [constructor | cbn; lia].
  - destruct Hs as [_ _ (p & Hp & _ & Hu & _ & Ht & Hc)]. cbn. rewrite Hp. by apply HF.
Qed.

(** ** The sweep

    What its node answers: the chain the configuration names, and a
    height of [heights]; what the reference's height may be: [refs]. *)
Context (heights : Z -> Prop) (refs : option Z -> Prop).
Context (Hothers : forall w : W, Forall leaves_alone (others w).1).
Context (Hclock : forall w : W, T <= (clock w).1).
Context (Hheight : forall q (w : W), q.(req_url) = u -> q.(req_body) = quoted block_number_probe ->
  exists h, probe_answer (http_post q w).1 = Some h /\ heights h).
Context (Hchain : forall q (w : W) n, config.(health_chain_id) = Some n ->
  q.(req_url) = u -> q.(req_body) = quoted chain_id_probe ->
  probe_answer (http_post q w).1 = Some n).
Context (Hjudged : forall ref h, refs ref -> heights h ->
  exists x, judgement config ref h = OnHealth g x /\ kind x).
Context (Hreference : forall reader, m.(monitor_reference) = Some reader ->
  does flip gentle (block_number reader) /\
  forall s, refs (result_ok (block_number reader s).1)).

Lemma does_query target body : does flip gentle (monitor_query m target body).
Proof using Hothers. apply does_fmap, does_post; [exact Hothers | done]. Qed.

Lemma post_answer q (F : result HttpError HttpResponse -> Prop) (s : Sys W) :
  (forall w : W, F (http_post q w).1) -> F (post flip q s).1.
Proof using Type.
  intros HF. unfold post. specialize (HF s.(world)). destruct (http_post q _) as [a w].
  by destruct (let_others_run _ _).
Qed.

Lemma goes_query C body (F : option Z -> Prop) :
  stable C ->
  (forall q (w : W), q.(req_url) = u -> q.(req_body) = body -> F (probe_answer (http_post q w).1)) ->
  goes C C 0 (monitor_query m u body) F.
Proof using Hothers.
  intros HC HF s Hs. destruct (goes_does C _ HC (does_query u body) s Hs) as (Hs' & Hg & _).
  split; [done|]. split; [done|]. unfold monitor_query, fmap, M_fmap.
  match goal with |- context [post _ ?q s] =>
    pose proof (post_answer q (fun a => F (probe_answer a)) s (fun w => HF q w eq_refl eq_refl)) as Ha;
    by destruct (post flip q s) end.
Qed.

Lemma goes_clock C : stable C -> goes C C 0 read_clock (fun t => T <= t).
Proof using Hclock.
  intros HC s Hs. destruct (goes_does C _ HC (does_clock flip gentle) s Hs) as (Hs' & Hg & _).
  do 2 (split; [done|]). unfold read_clock. specialize (Hclock s.(world)). by destruct (clock _).
Qed.

Lemma goes_url C : goes C C 0 (entry_url r) (fun x => x = u).
Proof using Type. by apply goes_read. Qed.

Lemma goes_probe C ref :
  stable C -> refs ref -> goes C C 1 (probe m r ref) (fun answered => answered = true).
Proof using Hothers Hclock Hheight Hjudged.
  intros HC Href. unfold probe.
  apply (goes_bind C C C 0 1 _ _ _ _ (goes_clock C HC)). intros started _.
  apply (goes_bind C C C 0 1 _ _ _ _ (goes_url C)). intros target ->.
  apply (goes_bind C C C 0 1 _ _ _ _ (goes_query C _
    (fun a => exists h, a = Some h /\ heights h) HC Hheight)). intros ? (h & -> & Hh).
  apply (goes_bind C C C 0 1 _ _ _ _ (goes_clock C HC)). intros now _.
  apply (goes_bind C C C 0 1 _ _ _ _ (goes_act_gentle C (OnProbeDuration _) HC I)). intros _ _.
  apply (goes_bind C C C 0 1 _ _ _ _ (goes_clock C HC)). intros t _.
  apply (goes_bind C C C 0 1 _ _ _ _ (goes_act_gentle C (OnAnsweredProbe _) HC I)). intros _ _.
  apply (goes_bind C C C 0 1 _ _ _ _ (goes_act_gentle C (OnHeight _) HC I)). intros _ _.
  apply (goes_bind C C C 1 0 _ _ (fun _ => True)); [|intros _ _; by apply goes_ret].
  destruct (Hjudged ref h Href Hh) as (x & Ex & Hof).
  assert (goes C C 1 (act flip r (judgement config ref h)) (fun _ => True)) as Hg.
  { rewrite Ex. apply (goes_act_gentle C (OnHealth g x) HC). by split. }
  unfold judgement in Hg. destruct ref as [ref|]; [|exact Hg]. by destruct (Z.ltb _ ref).
Qed.

Lemma goes_verify n :
  config.(health_chain_id) = Some n -> goes (fun _ => True) checked_ 0 (verify_chain m r n) (fun _ => True).
Proof using Hothers Hchain.
  intros Hn. unfold verify_chain.
  apply (goes_bind _ _ _ 0 0 _ _ _ _ (goes_url (fun _ => True))). intros target ->.
  apply (goes_bind _ _ _ 0 0 _ _ _ _ (goes_query (fun _ => True) _ (fun a => a = Some n) stable_true
    (fun q w Hq Hb => Hchain q w n Hn Hq Hb))).
  intros ? ->. rewrite Z.eqb_refl. apply goes_act; [|cbn; lia|].
  - by apply gentle_tells.
  - intros p Ht _. split; [by right | done].
Qed.

Lemma goes_cleared chain_round :
  goes checkable checked_ 0 (chain_cleared m r chain_round) (fun cleared => cleared = true).
Proof using Hothers Hchain.
  unfold chain_cleared. case_eq (health_chain_id config); [intros n En | intros En].
  2:{ eapply goes_weaken; [by apply (goes_ret checked_ true (fun x => x = true)) |
        intros p _; by left | done | lia | done]. }
  intros s Hs. pose proof Hs as [_ _ (p & Hp & _ & _ & _ & _ & Hc)].
  set (due := p.(chain_check_due)).
  assert (member_of (fun p => p.(chain_verified) = true \/ due = true) s.(pool)) as Hs1.
  { destruct Hs as [Hwf Hin (p' & Hp' & ? & ? & ? & ? & Hc')].
    assert (p' = p) as -> by congruence. split; [done..|]. exists p. split_and!; try done.
    destruct Hc as [?|[?|?]]; [congruence | by left | by right]. }
  match goal with |- context [read_entry r chain_check_due false ≫= ?k] =>
    assert ((read_entry r chain_check_due false ≫= k) s = k due s) as ->
      by (unfold mbind, M_bind, read_entry; by rewrite Hp) end.
  revert s Hs1 Hs Hp. cut (goes (fun p => p.(chain_verified) = true \/ due = true) checked_ 0
    (_ ← act flip r OnTakeChainCheckDue;
     _ ← (if chain_round || due then verify_chain m r n else mret tt);
     read_entry r chain_verified false) (fun cleared => cleared = true)).
  { intros Hg s Hs1 _ _. by apply Hg. }
  apply (goes_bind _ (fun p => p.(chain_verified) = true \/ due = true) _ 0 0 _ _ (fun _ => True)).
  { apply goes_act; [|cbn; lia | done]. unfold tells, events_on. cbn.
    rewrite decide_True by done. by repeat constructor. }
  intros _ _. apply (goes_bind _ checked_ _ 0 0 _ _ (fun _ => True)).
  - destruct (chain_round || due) eqn:E.
    + by eapply goes_weaken; [apply goes_verify | ..].
    + apply orb_false_iff in E as [_ E]. eapply goes_weaken; [by apply (goes_ret checked_ tt (fun _ => True)) |
        | done | lia | done]. intros q [Hq|Hq]; [by right | congruence].
  - intros _ _. apply goes_read. intros q _ _ [Hq|Hq]; [congruence | done].
Qed.

Lemma goes_probe_one ref chain_round now :
  refs ref -> T <= now -> goes checkable checkable 1 (probe_one m r ref chain_round now) (fun _ => True).
Proof using Hothers Hclock Hheight Hchain Hjudged.
  intros Href Hnow. unfold probe_one.
  apply (goes_bind _ checkable _ 0 1 _ _ (fun t => t <= T)); [by apply goes_read|]. intros t Ht.
  rewrite (proj2 (Z.leb_le t now)) by lia. cbn [negb].
  apply (goes_bind _ checked_ _ 0 1 _ _ (fun x => x = true)); [apply goes_cleared|]. intros ? ->. cbn [negb].
  eapply goes_weaken; [|done| |done|done].
  - apply (goes_bind _ checked_ checked_ 1 0 _ _ (fun x => x = true) (fun _ => True));
      [by apply goes_probe, Href; apply stable_checked|]. intros ? ->. by apply goes_ret.
  - intros p [Hp|Hp]; [by left | right; by left].
Qed.

(** Another entry's part of the sweep is none of its business. *)
Lemma other_gentle r' e : r' <> r -> gentle (Mine r' e).
Proof using Type. intros Hr. by destruct e; cbn. Qed.

Lemma does_probe_other r' ref chain_round now :
  r' <> r -> does flip gentle (probe_one m r' ref chain_round now).
Proof using Hothers.
  clear Hchain Hheight Hjudged Hreference Hclock.
  intros Hr. assert (forall e, does flip gentle (act (W:=W) flip r' e)) as Hact.
  { intros e. by apply does_act, other_gentle. }
  unfold probe_one, chain_cleared, verify_chain, probe, reschedule_unanswered, query_chain_id,
    query_block_number, entry_url.
  repeat first
    [ apply does_query | apply does_bind; [|intros ?] | apply does_entry | apply does_clock
    | apply Hact | apply does_ret | case_match ].
Qed.

Lemma goes_probe_each l ref chain_round now :
  refs ref -> T <= now ->
  goes checkable checkable (if decide (r ∈ l) then 1 else 0) (probe_each m l ref chain_round now)
    (fun _ => True).
Proof using Hothers Hclock Hheight Hchain Hjudged.
  intros Href Hnow. induction l as [|r' l IH]; cbn [probe_each].
  { rewrite decide_False by apply not_elem_of_nil. by apply goes_ret. }
  destruct (decide (r' = r)) as [->|Hr].
  - rewrite decide_True by by left.
    eapply goes_weaken; [|done|done| |done].
    { apply (goes_bind _ checkable checkable 1 (if decide (r ∈ l) then 1 else 0)%nat _ _ _ (fun _ => True)
        (goes_probe_one ref chain_round now Href Hnow)).
      intros _ _. exact IH. }
    lia.
  - apply (goes_bind _ checkable checkable 0
      (if decide (r ∈ r' :: l) then 1 else 0)%nat _ _ _ (fun _ => True) (goes_does _ _ stable_checkable
      (does_probe_other r' ref chain_round now Hr))).
    intros _ _. eapply goes_weaken; [exact IH|done|done| |done].
    destruct (decide (r ∈ r' :: l)) as [Hd|]; [|lia].
    apply elem_of_cons in Hd as [->|Hd]; [done|]. by rewrite decide_True by done.
Qed.

Lemma goes_probe_all ref chain_round :
  refs ref -> goes checkable checkable 1 (probe_all m ref chain_round) (fun _ => True).
Proof using Hothers Hclock Hheight Hchain Hjudged.
  intros Href. unfold probe_all.
  apply (goes_bind _ _ _ 0 1 _ _ _ _ (goes_clock _ stable_checkable)). intros now Hnow.
  apply (goes_bind _ checkable _ 0 1 _ _ (fun l => r ∈ l)).
  - intros s Hs. split; [done|]. split; [|by destruct Hs].
    exists []. split; [by apply steps_refl|]. split; [constructor | cbn; lia].
  - intros l Hl. pose proof (goes_probe_each l ref chain_round now Href Hnow) as Hg.
    by rewrite decide_True in Hg.
Qed.

Lemma goes_clock_only {A} (mx : M (Sys W) A) F :
  does flip gentle mx -> (forall s, F (mx s).1) -> goes checkable checkable 0 mx F.
Proof using Type.
  intros Hm HF s Hs. destruct (goes_does _ _ stable_checkable Hm s Hs) as (? & ? & _). auto.
Qed.

Lemma goes_refresh rh :
  refs rh.(ref_height) ->
  goes checkable checkable 0 (refresh_reference_height m rh) (fun rh => refs rh.(ref_height)).
Proof using Hothers Hreference.
  intros Hrh. unfold refresh_reference_height. destruct (monitor_reference m) as [reader|] eqn:Er;
    [|by apply goes_ret].
  destruct (Hreference reader eq_refl) as [Hd Hrefs].
  apply (goes_bind _ checkable _ 0 0 _ _ (fun _ => True)).
  { destruct (asked rh); [|by apply goes_ret].
    apply goes_clock_only; [|done]. apply does_bind; [apply does_clock | intros ?; apply does_ret]. }
  intros due _. destruct due; cbn [negb]; [|by apply goes_ret].
  apply (goes_bind _ checkable _ 0 0 _ _ (fun _ => True)); [by apply goes_clock_only; [apply does_clock|]|].
  intros now _. apply (goes_bind _ checkable _ 0 0 _ _ (fun a => refs (result_ok a)));
    [by apply goes_clock_only|]. intros a Ha. by apply goes_ret.
Qed.

Lemma goes_tick l :
  refs l.(reference_height).(ref_height) ->
  goes checkable checkable 1 (tick m l) (fun l => refs l.(reference_height).(ref_height)).
Proof using Hothers Hclock Hheight Hchain Hjudged Hreference.
  intros Hl. unfold tick.
  apply (goes_bind _ _ _ 0 1 _ _ _ _ (goes_refresh _ Hl)). intros rh Hrh.
  apply (goes_bind _ checkable _ 0 1 _ _ (fun _ => True)).
  { unfold chain_round_due. destruct (last_chain_round l); [|by apply goes_ret].
    apply goes_clock_only; [|done]. apply does_bind; [apply does_clock | intros ?; apply does_ret]. }
  intros chain_round _. apply (goes_bind _ checkable _ 0 1 _ _ (fun _ => True)).
  { destruct chain_round; [|by apply goes_ret].
    apply goes_clock_only; [|done]. apply does_bind; [apply does_clock | intros ?; apply does_ret]. }
  intros last _. apply (goes_bind _ checkable _ 1 0 _ _ _ _ (goes_probe_all _ chain_round Hrh)).
  intros _ _. by apply goes_ret.
Qed.

Lemma goes_run n l :
  refs l.(reference_height).(ref_height) ->
  goes checkable checkable n (run m n l) (fun l => refs l.(reference_height).(ref_height)).
Proof using Hothers Hclock Hheight Hchain Hjudged Hreference.
  revert l. induction n as [|n IH]; intros l Hl; [by apply goes_ret|]. cbn [run].
  apply (goes_bind _ checkable _ 1 n _ _ _ _ (goes_tick l Hl)). apply IH.
Qed.

(** [flip_after] sweeps later the health gate is as the probes say. *)
Lemma steady_health n l s :
  1 <= flip <= i64_max -> flip <= Z.of_nat n ->
  refs l.(reference_height).(ref_height) -> member_of checkable s.(pool) ->
  let s' := (run m n l s).2 in
  member_of checkable s'.(pool) /\
  exists p', entry s'.(pool) r = Some p' /\ provider_wf p' /\ healthy p' = g /\ sourced kind p'.
Proof using Hothers Hclock Hheight Hchain Hjudged Hreference.
  intros Hf Hn Hl Hs. destruct (goes_run n l Hl s Hs) as (Hs' & (hs & Hst & Htells & Hlen) & _).
  split; [done|]. destruct Hs as [Hwf _ (p & Hp & Hpwf & _)].
  eapply told_often; try done. lia.
Qed.
End loop.

(** * Theorems *)

Section theorems.
Context `{SerdeJson} {W : Type} `{World W} {R : Type} `{ChainReader R (Sys W)}.
Context (m : Monitor R) (r : ptr) (u : Url) (i0 : string) (T : Z).
Abbreviation config := (m.(monitor_config)) (only parsing).
Abbreviation flip := (m.(monitor_config).(flip_after)) (only parsing).

(** While the loop runs: the clock is past the entry's next probe, and the
    others leave the entry alone. *)
Definition undisturbed (g : bool) (kind : HealthSignal -> Prop) : Prop :=
  (forall w : W, T <= (clock w).1) /\ forall w : W, Forall (leaves_alone r i0 T g kind) (others w).1.

(** What its node answers to the probes: the configured chain, and a
    height. *)
Definition node_at (heights : Z -> Prop) : Prop :=
  (forall q (w : W), q.(req_url) = u -> q.(req_body) = quoted block_number_probe ->
     exists h, probe_answer (http_post q w).1 = Some h /\ heights h) /\
  (forall q (w : W) n, config.(health_chain_id) = Some n ->
     q.(req_url) = u -> q.(req_body) = quoted chain_id_probe ->
     probe_answer (http_post q w).1 = Some n).

(** What the reference's height may be, as the loop has it and as it
    comes to be read. *)
Definition reference_at (g : bool) (kind : HealthSignal -> Prop) (refs : option Z -> Prop) (l : Loop) : Prop :=
  refs l.(reference_height).(ref_height) /\
  forall reader, m.(monitor_reference) = Some reader ->
    does flip (gentle r i0 T g kind) (block_number reader) /\
    forall s, refs (result_ok (block_number reader s).1).

(** C13: A provider that is in step comes back, once its probe is due. Its
    entry is a member whose next probe is due at every reading of the
    clock from here on - one still in its back-off has that to wait out
    first - with its chain checked, or the check due; its node answers the
    configured chain and heights the reference is not ahead of by more
    than the tolerance; no other task speaks against it, takes it out or
    puts its probes off meanwhile. Then, however its gate stood before,
    [flip_after] sweeps later it is healthy, still a member, and eligible
    unless it serves wrong data. *)
Theorem provider_in_step_returns top n l s :
  1 <= flip <= i64_max -> flip <= Z.of_nat n ->
  undisturbed true (fun _ => True) -> node_at (fun h => top <= sat_add_u64 h config.(lag_tolerance_blocks)) ->
  reference_at true (fun _ => True) (fun ref => forall x, ref = Some x -> x <= top) l ->
  member_of r u i0 T (checkable m) s.(pool) ->
  let s' := (run m n l s).2 in
  r ∈ s'.(pool).(members) /\
  exists p, entry s'.(pool) r = Some p /\ healthy p = true /\
    eligible p = negb (serving_wrong_data p).
Proof.
  intros Hf Hn [Hclock Hothers] [Hheight Hchain] [Hl Hreference] Hs.
  assert (forall ref h, (forall x, ref = Some x -> x <= top) ->
    top <= sat_add_u64 h config.(lag_tolerance_blocks) ->
    exists x, judgement config ref h = OnHealth true x /\ True) as Hj.
  { intros ref h Href Hh. unfold judgement. destruct ref as [x|]; [|by eexists].
    specialize (Href x eq_refl). rewrite (proj2 (Z.ltb_ge _ _)) by lia. by eexists. }
  destruct (steady_health m r u i0 T true (fun _ => True) _ _ Hothers Hclock Hheight Hchain Hj Hreference n l s
    Hf Hn Hl Hs) as ([_ Hin _] & p & Hp & Hpwf & Hh & _).
  split; [done|]. exists p. split; [done|]. split; [done|].
    by rewrite eligible_gates, Hh by apply Hpwf.
Qed.

(** A provider that stays behind goes out. Its node answers heights of
    at most [stuck], the reference's height is read and is ahead of that
    by more than the tolerance, and nobody but the probes judges it:
    [flip_after] sweeps later it is not healthy, so not eligible, and lag
    is the reason. *)
Theorem provider_behind_goes_out stuck n l s :
  1 <= flip <= i64_max -> flip <= Z.of_nat n ->
  undisturbed false (eq Lag) -> node_at (fun h => h <= stuck) ->
  reference_at false (eq Lag)
    (fun ref => exists x, ref = Some x /\ sat_add_u64 stuck config.(lag_tolerance_blocks) < x) l ->
  member_of r u i0 T (checkable m) s.(pool) ->
  let s' := (run m n l s).2 in
  r ∈ s'.(pool).(members) /\
  exists p, entry s'.(pool) r = Some p /\ healthy p = false /\ eligible p = false /\
    ineligibility_reason p = Some "lag"%string.
Proof.
  intros Hf Hn [Hclock Hothers] [Hheight Hchain] [Hl Hreference] Hs.
  assert (forall ref h, (exists x, ref = Some x /\ sat_add_u64 stuck config.(lag_tolerance_blocks) < x) ->
    h <= stuck -> exists x, judgement config ref h = OnHealth false x /\ Lag = x) as Hj.
  { intros ref h (x & -> & Hx) Hh. unfold judgement.
    rewrite (proj2 (Z.ltb_lt _ _)); [by eexists|]. machine_unfold. lia. }
  destruct (steady_health m r u i0 T false (eq Lag) _ _ Hothers Hclock Hheight Hchain Hj Hreference
    n l s Hf Hn Hl Hs) as ([_ Hin _] & p & Hp & Hpwf & Hh & x & <- & Hx).
  assert (eligible p = false) as He by by rewrite eligible_gates, Hh by apply Hpwf.
  split; [done|]. exists p. split; [done|]. split; [done|]. split; [done|].
  unfold ineligibility_reason. by rewrite He, Hh, Hx.
Qed.
End theorems.

(** * Witnesses *)

(** A node that answers block 42 to every probe, and nobody else. *)
Record Steady : Type := mkSteady {}.
#[export] Instance steady_world : World Steady := {
  clock w := (7, w);
  http_post _ w := (Ok demo_probe_answer, w);
  others w := ([], w);
  random_id w := (1, w);
  others_select w := (fun _ => 0, w);
}.

(** The entry after a failure too many. *)
Definition demo_lost : Sys Steady :=
  mkSys (update 0%nat (quarantine Traffic)
           (snd (pool_add (provider_new 0 "a" "http://a" Static) empty_pool))) mkSteady [].

Lemma demo_lost_member : member_of 0%nat "http://a" "a" 7 (checkable demo_monitor) demo_lost.(pool).
Proof.
  split; [apply update_wf, pool_add_wf, empty_pool_wf | by left |].
  eexists. split; [by vm_compute|]. split_and!; try by vm_compute. constructor; by vm_compute.
Qed.

(** The reference is at 50, and the tolerance 30. *)
Record Told : Type := mkTold { told_height : Z }.
#[export] Instance told_reader : ChainReader Told (Sys Steady) := {
  block_number x := mret (Ok x.(told_height));
  block _ _ := mret (Ok None);
  balance _ _ := mret (Ok 0);
  query _ _ := mret (Ok (mkPage [] false 0));
  count _ _ := mret (Ok 0);
}.

Lemma provider_in_step_returns_witness :
  let m := mkMonitor default_health (Some (mkTold 50)) in
  exists p, entry (run m 3 loop_start demo_lost).2.(pool) 0%nat = Some p /\ healthy p = true.
Proof.
  intros m. assert (undisturbed (W := Steady) 0%nat "a" 7 true (fun _ => True)) as Hu.
  { split; [intros w; cbn; lia | intros w; constructor]. }
  assert (node_at (W := Steady) m "http://a"
    (fun h => 50 <= sat_add_u64 h m.(monitor_config).(lag_tolerance_blocks))) as Hn.
  { split; [|done]. intros q w _ _. exists 42. split; [by vm_compute|]. cbn. machine_unfold. lia. }
  assert (reference_at (W := Steady) m 0%nat "a" 7 true (fun _ => True)
    (fun ref => forall x, ref = Some x -> x <= 50) loop_start) as Hr.
  { split; [done|]. intros reader [= <-]. split; [apply does_ret|]. intros s x [= <-]. cbn. lia. }
  assert (1 <= m.(monitor_config).(flip_after) <= i64_max) as Hf by (cbn; unfold i64_max; lia).
  assert (m.(monitor_config).(flip_after) <= Z.of_nat 3) as H3 by (cbn; lia).
  pose proof (provider_in_step_returns m 0%nat "http://a" "a" 7 50 3 loop_start demo_lost
    Hf H3 Hu Hn Hr demo_lost_member) as Hback.
  destruct Hback as (_ & p & Hp & Hh & _). exists p. exact (conj Hp Hh).
Defined.
