(* ===== verification/Scenarios.v ===== *)
(** Runs of the agent on the tests' chain: what its theorems say of
    concrete states, from a start with an offer on the chain to a first
    settlement. *)

From S2P Require Import Prelude External Concrete Pool World Served Records Reader Writer Chain Config Agent Patches Mirror Reconcile Offers Flush Billing Lifecycle FakeChain.

#[local] Open Scope Z_scope.

#[local] Instance some_keccak : Keccak := {| keccak256 x := Z.of_nat (length x) |}.
#[local] Instance list_order : HashOrder := {| iter A m := map_to_list m; iter_perm A m := reflexivity _ |}.

Abbreviation flips := 3 (only parsing).
#[local] Instance the_reader : ChainReader FakeChain (Sys FakeWorld) := fake_reader flips.
#[local] Instance the_writer : ChainWriter FakeChain (Sys FakeWorld) := fake_writer flips.
#[local] Instance the_loopback : Loopback FakeWorld := fake_loopback flips.
#[local] Instance the_sleep : Sleep FakeWorld := fake_sleep flips.
#[local] Instance the_timed : Timed FakeWorld := fake_timed flips.
#[local] Instance the_chain : Chain FakeChain FakeChain FakeWorld flips := fake_chain flips.
#[local] Instance the_quiet_loopback : QuietLoopback FakeWorld flips := fake_quiet_loopback flips.
#[local] Instance the_quiet_sleep : QuietSleep FakeWorld flips := fake_quiet_sleep flips.

(** Two slots, on the last ports there are. *)
Definition scenario : MarketplaceConfig :=
  mkMarketplaceConfig default_writer_url 7 "lb.example:7000" 2 65534 default_discovery_interval
    default_refresh_interval default_agreement_life default_listing_life default_counter_record_life
    default_offer_max_lifetime default_settlement_period default_flush_interval 0.

Example scenario_valid : marketplace_validate scenario = Ok tt.
Proof. vm_compute. reflexivity. Qed.

(** An LB at address 100 on chain 42, and nothing else. *)
Definition empty_world : FakeWorld := mkFakeWorld (fake_new 100 42) 0 [] [] [].
Definition before_start : AS FakeWorld := mkAS (mkSys empty_pool empty_world []) ∅.

Lemma before_start_initial : initial before_start.
Proof.
  constructor; [done|..].
  - constructor; cbn; [vm_compute; intuition congruence | done | constructor].
  - constructor; [by intros r [? ?] | constructor | constructor].
  - intros r Hr. by apply elem_of_nil in Hr.
Qed.

Definition the_agent : Agent FakeChain FakeChain :=
  mkAgent TheChain TheChain scenario (mkIdentity 100 42) 1
    (1 + blocks scenario.(listing_life)).

Definition started : AS FakeWorld := (start flips TheChain TheChain scenario before_start).2.

Example start_runs :
  (start flips TheChain TheChain scenario before_start).1 = Ok the_agent.
Proof. vm_compute. reflexivity. Qed.

(** Provider 10 offers itself. *)
Definition demo_offer : Offer := mkOffer 1 (mkSpecs 42 5 "geth" "lighthouse" (mkHardware 8 32)).
Definition offered : AS FakeWorld :=
  chain_does (fun f => (write_as 10 (encode demo_offer) (Seconds 600) f).2) started.

Definition accepted : AS FakeWorld := (agent_tick flips the_agent DiscoveryPoll offered).2.

Example discovery_runs :
  (fun x => (x.1, x.2.(agreement).(record), x.2.(counter))) <$> map_to_list accepted.(known) =
    [(3, mkAgreement 10 2 7 65534, Some (mkOpenCounter 4 1))] /\
  accepted.(sys).(pool).(members) = [0%nat].
Proof. vm_compute. done. Qed.

Lemma started_inv : agent_inv started.
Proof.
  apply (keeps_inv_start flips TheChain TheChain scenario before_start).
  apply initial_inv, before_start_initial.
Qed.

Lemma offered_inv : agent_inv offered.
Proof.
  eapply drift_inv; [|exact started_inv].
  apply (chain_does_drift flips). intros f. apply onward_write_as. vm_compute. intuition congruence.
Qed.

Lemma accepted_inv : agent_inv accepted.
Proof. apply (keeps_inv_tick flips the_agent DiscoveryPoll offered), offered_inv. Qed.

(** Two calls served, then a week passes. *)
Definition served_two : AS FakeWorld :=
  others_do flips [OEvent 0 (OnServed 1); OEvent 0 (OnServed 2)] accepted.

Lemma served_two_inv : agent_inv served_two.
Proof.
  eapply drift_inv; [|exact accepted_inv]. apply (others_do_drift flips). by repeat constructor.
Qed.

(** The settlement is due, and a third call is served while the close is
    on its way to the chain. *)
Definition settling : AS FakeWorld :=
  scripted [[]; []; []; [OEvent 0 (OnServed 3)]]
    (chain_does (advance (blocks scenario.(settlement_period))) served_two).

Lemma settling_inv : agent_inv settling.
Proof.
  unfold settling. eapply drift_inv; [apply (scripted_drift flips)|].
  eapply drift_inv; [|exact served_two_inv]. apply (chain_does_drift flips), onward_advance.
Qed.

Definition settled : AS FakeWorld := (agent_tick flips the_agent FlushTick settling).2.

(** The counter records on the chain. *)
Definition counters_of (s : AS FakeWorld) : list CounterRecord :=
  omap (fun e => record <$> result_ok (stored_decode (T := CounterRecord) (as_arkiv_entity e)))
    s.(sys).(world).(fw_chain).(f_entities).

(** * Witnesses *)

(** A restart after the first settlement's flush: memory is the chain's. *)
Lemma reconcile_follows_chain_witness :
  agent_inv offered /\
  follows_chain flips the_agent offered (reconcile_agreements the_agent offered).
Proof.
  split; [exact offered_inv|]. apply (reconcile_follows_chain flips the_agent offered), offered_inv.
Defined.


(** The close carries the two calls of its period; the third stays. *)
Lemma flush_bills_each_call_once_witness :
  agent_inv settling /\
  flush_bills flips the_agent Scheduled settling (flush_with flips the_agent Scheduled settling).2 /\
  counters_of settled =
    [mkCounterRecord 3 10 Closed 2 7 1 (Some 302401); mkCounterRecord 3 10 Open 0 7 302401 None] /\
  entry_served settled.(sys).(pool) 0 = 1.
Proof.
  split; [exact settling_inv|]. split.
  - apply (flush_bills_each_call_once flips the_agent Scheduled settling), settling_inv.
  - vm_compute. done.
Defined.

Lemma discovery_accepts_within_bounds_witness :
  agent_inv offered /\ discovers flips the_agent 1 offered (discover_offers the_agent 1 offered).2 /\
  size (discover_offers the_agent 1 offered).2.(known) = 1%nat.
Proof.
  split; [exact offered_inv|]. split.
  - apply (discovery_accepts_within_bounds flips the_agent 1 offered), offered_inv.
  - vm_compute. done.
Defined.

Lemma pool_mirrors_agreements_witness :
  initial before_start /\
  rtc (agent_step (R := FakeChain) (Wr := FakeChain) flips) before_start settled /\
  exists k l, settled.(known) !! k = Some l /\ l.(provider) ∈ settled.(sys).(pool).(members).
Proof.
  assert (rtc (agent_step (R := FakeChain) (Wr := FakeChain) flips) before_start settled) as Hrun.
  { apply (rtc_l _ _ started); [exact (StepStart flips TheChain TheChain scenario before_start)|].
    apply (rtc_l _ _ offered).
    { apply StepOthers, (chain_does_drift flips). intros f. apply onward_write_as.
      vm_compute. intuition congruence. }
    apply (rtc_l _ _ accepted); [exact (StepTick flips the_agent DiscoveryPoll offered)|].
    apply (rtc_l _ _ served_two).
    { apply StepOthers, (others_do_drift flips). by repeat constructor. }
    apply (rtc_l _ _ settling).
    { apply StepOthers. unfold settling. etrans; [|apply (scripted_drift flips)].
      apply (chain_does_drift flips), onward_advance. }
    apply (rtc_l _ _ settled); [exact (StepTick flips the_agent FlushTick settling)|].
    apply rtc_refl. }
  split; [exact before_start_initial|]. split; [exact Hrun|].
  destruct (pool_mirrors_agreements flips before_start settled before_start_initial Hrun)
    as (_ & Hmem & _).
  assert (is_Some (settled.(known) !! 3)) as [l Hl] by (vm_compute; eauto).
  exists 3, l. split; [exact Hl|]. by destruct (Hmem 3 l Hl) as (_ & Hin & _).
Defined.

(** A start that meets a chain without queries. *)
Definition no_queries : AS FakeWorld := chain_does (fail_queries "down") before_start.

Definition nothing_written (w : FakeWorld) : Prop := w.(fw_chain).(f_transactions) = [].

(** A read of the chain writes nothing. *)
Lemma leaves_on_chain {A} (m : M FakeState A) :
  (forall f, (m f).2.(f_transactions) = f.(f_transactions)) ->
  leaves nothing_written (on_chain flips m).
Proof.
  intros Hm s Hs. unfold nothing_written in *. destruct (on_chain_run flips m s) as [_ ->].
  by rewrite Hm.
Qed.

Lemma refused_start_writes_nothing_witness :
  exists e, (start flips TheChain TheChain scenario no_queries).1 = Err e /\
    nothing_written (start flips TheChain TheChain scenario no_queries).2.(sys).(world).
Proof.
  assert (exists e, (start flips TheChain TheChain scenario no_queries).1 = Err (Chain_ e)) as [e He]
    by (vm_compute; by eexists).
  exists (Chain_ e). split; [exact He|].
  refine (refused_start_writes_nothing flips nothing_written _ _ _ _ _ _ TheChain TheChain scenario
            no_queries (Chain_ e) eq_refl eq_refl He _).
  - by intros s.
  - intros r. by apply leaves_on_chain.
  - intros r q. apply leaves_on_chain. intros f. unfold fake_query.
    destruct (reference f); [|done]. destruct (queries_down f); [done|]. by destruct (at_block q).
  - intros r q. by apply leaves_on_chain.
  - intros w. by apply leaves_on_chain.
  - by intros w.
  - by intros w.
Defined.

(** Three probes pass while the admission waits. *)
Definition admitting : AS FakeWorld :=
  scripted [[OEvent 0 (OnHealth true Probe)];
            [OEvent 0 (OnHealth true Probe); OEvent 0 (OnHealth true Probe)]] accepted.

Lemma admission_extends_only_passed_witness :
  let polls := polls_for scenario.(offer_max_lifetime) in
  let after := (admission the_agent None polls 0 3 admitting).2 in
  AdmissionRun flips the_agent None 0 3 admitting after /\
  ((fun l => l.(agreement).(expires_at)) <$> after.(known) !! 3) =
    Some (1 + blocks scenario.(agreement_life)).
Proof.
  intros polls after. split.
  - apply (admission_extends_only_passed flips the_agent None polls 0 3 admitting); [done | reflexivity].
  - unfold after, polls. vm_compute. reflexivity.
Defined.

Lemma refresh_extends_exactly_witness :
  exists (listing : bool) extended,
    (refresh_batch the_agent accepted.(sys).(pool) accepted.(known) (Some 1)).(refresh_ops).(operations) =
      (if listing then [extend_op 1 scenario.(listing_life)] else []) ++
      ((fun k => extend_op k scenario.(agreement_life)) <$> extended) /\
    forall k, k ∈ extended <-> exists l, accepted.(known) !! k = Some l /\
      refreshable the_agent accepted.(sys).(pool) (Some 1) l.
Proof.
  destruct (refresh_extends_exactly the_agent accepted.(sys).(pool) accepted.(known) (Some 1))
    as (listing & extended & E & _ & _ & Hin & _).
  - intros h [= <-]. vm_compute. intuition congruence.
  - exists listing, extended. split; [exact E | exact Hin].
Defined.

Lemma first_life_told_apart_witness :
  let l := mkLive (mkStored 3 100 1 (1 + blocks scenario.(offer_max_lifetime))
                     (mkAgreement 10 2 7 65534)) 0%nat None false in
  was_extended l scenario.(agreement_life) = false.
Proof.
  intros l. refine (proj1 (proj1 (first_life_told_apart scenario l 1 1 _ _ _ eq_refl) eq_refl)).
  - unfold marketplace_typed. apply (bool_decide_unpack _). by vm_compute.
  - exact scenario_valid.
  - done.
Defined.

Lemma patched_counter_reads_back_witness :
  stored_decode (as_stored 4 100 1 1 900
    (patched_attributes (patch_record 4 (mkCounterRecord 3 10 Closed 2 7 1 (Some 302401)))
       (encode (mkCounterRecord 3 10 Open 0 7 1 None)))) =
    Ok (mkStored 4 100 1 900 (mkCounterRecord 3 10 Closed 2 7 1 (Some 302401))).
Proof.
  refine (patched_counter_reads_back 4 (mkCounterRecord 3 10 Open 0 7 1 None)
            (mkCounterRecord 3 10 Closed 2 7 1 (Some 302401)) 100 1 1 900 _ eq_refl eq_refl _).
  - split_and!; [vm_compute; intuition congruence..|]. intros n [= <-]. vm_compute. intuition congruence.
  - discriminate.
Defined.
