(* ===== verification/Integrity.v ===== *)
(** The integrity checker, [crates/lb/src/integrity.rs]: one round reads
    the reference's finalized block, and a sampled entity where that
    check is on, reads the same of every healthy provider, looks twice at
    what disagrees, and records one verdict per provider.

    A round's asks run at once, sixteen in flight; none of them changes
    an entry, so the model runs them one after another in the order they
    complete in ([completes]), the others' steps in between. *)

From S2P Require Import Prelude External Concrete Pool World Records Reader Writer Chain Config Agent Mirror Reconcile Offers Flush Billing Lifecycle.

#[local] Open Scope Z_scope.

Definition CONCURRENT_READS : nat := 16.
Definition RESPONSE_CAP : Z := 4 * 1024 * 1024.
Definition KEY_PAGE_INTERVAL : Z := from_secs (24 * 3600).

(** * What a look finds *)

Inductive Evidence : Type :=
| EvBlock (reference : BlockFields) (served : option BlockFields)
| EvEntity (key : EntityKey) (reference served : list ArkivEntity)
| EvTooLarge (read : string).

Record Finding : Type := mkFinding {
  looked_at : ptr;
  verdict : Verdict;
  evidence : option Evidence;
}.

Inductive ReadFailure : Type := FailedError | FailedTooLarge.

Record ExpectedEntity : Type := mkExpectedEntity {
  sample : EntityKey;
  rows_expected : result unit (list ArkivEntity);
}.

Record Expected : Type := mkExpected {
  finalized : BlockFields;
  expected_entity : option ExpectedEntity;
}.

Record Answers : Type := mkAnswers {
  answered_by : ptr;
  block_answer : result ReadFailure (option BlockFields);
  rows_answer : option (result ReadFailure (list ArkivEntity));
}.

(** * The evidence as log fields *)

(** [Iterator::position] of the first unequal pair. *)
Fixpoint first_unequal (ours theirs : list EntityKey) : option nat :=
  match ours, theirs with
  | x :: ours, y :: theirs =>
      if Z.eqb x y then S <$> first_unequal ours theirs else Some 0%nat
  | _, _ => None
  end.

Definition decimal_of_nat (n : nat) : string := decimal (Z.of_nat n).

Section evidence_text.
Context `{Alloy} `{Keccak} `{SerdeJson}.

Definition field (name : string) (ours theirs : EntityKey) : list string :=
  if Z.eqb ours theirs then []
  else [(name ++ " reference=" ++ key_hex ours ++ " provider=" ++ key_hex theirs)%string].

Definition transactions_field (ours theirs : list EntityKey) : list string :=
  if bool_decide (ours = theirs) then []
  else
    let first := default (Nat.min (length ours) (length theirs)) (first_unequal ours theirs) in
    [("transactions reference=" ++ decimal_of_nat (length ours) ++ " provider=" ++
      decimal_of_nat (length theirs) ++ " first difference at " ++ decimal_of_nat first)%string].

Definition block_differences (ours theirs : BlockFields) : string :=
  join "; "
    (field "hash" ours.(hash) theirs.(hash) ++
     field "parentHash" ours.(parent_hash) theirs.(parent_hash) ++
     field "stateRoot" ours.(state_root) theirs.(state_root) ++
     field "transactionsRoot" ours.(transactions_root) theirs.(transactions_root) ++
     field "receiptsRoot" ours.(receipts_root) theirs.(receipts_root) ++
     transactions_field ours.(transactions) theirs.(transactions)).

Definition describe_row (row : ArkivEntity) : string :=
  let attributes :=
    (fun a => a.(attr_name) ++ ":" ++ a.(attr_type) ++ "=" ++ value_text a.(attr_value))%string <$>
      List.filter (fun a => negb (bool_decide (a.(attr_name) = PAYLOAD_ATTRIBUTE)))
        row.(ent_attributes) in
  let payload := match entity_payload row with
                 | Some payload => key_hex (keccak256 payload)
                 | None => "none"%string
                 end in
  ("creator " ++ addr_hex row.(ent_creator) ++ " expires " ++ decimal row.(ent_expires_at) ++
   " attributes [" ++ join ", " attributes ++ "] payload hash " ++ payload)%string.

Definition describe (rows : list ArkivEntity) : string :=
  match rows with
  | [] => "no such entity"%string
  | rows => join "; " (describe_row <$> rows)
  end.
End evidence_text.

(** * Keys to sample *)

Record SampleKey : Type := mkSampleKey {
  sample_key : EntityKey;
  sample_created_at : Z;
  sample_expires_at : Z;
}.

Record KeyPage : Type := mkKeyPage { page_keys : list SampleKey; read_at : option Z }.
Definition default_page : KeyPage := mkKeyPage [] None.

Definition exists_at (height : Z) (k : SampleKey) : bool :=
  Z.leb k.(sample_created_at) height && Z.ltb height k.(sample_expires_at).

Definition sample_of (e : ArkivEntity) : SampleKey :=
  mkSampleKey e.(ent_key) e.(ent_created_at) e.(ent_expires_at).

(** * The comparison *)

(** [serde_json]'s equality of values: an object is a map, so its fields
    compare in any order and a repeated field is its last occurrence. *)
Fixpoint canonical (v : Value) : Value :=
  match v with
  | Array items => Array (canonical <$> items)
  | Object fields =>
      Object (sort_by key_leb (map_to_list
        (foldl (fun (m : gmap string Value) f => <[f.1 := f.2]> m) ∅
           ((fun f => (f.1, canonical f.2)) <$> fields))))
  | v => v
  end.

Definition canonical_attribute (a : ArkivAttribute) : ArkivAttribute :=
  mkArkivAttribute a.(attr_name) a.(attr_type) (canonical a.(attr_value)).

Definition name_leb (a a' : ArkivAttribute) : bool := String.leb a.(attr_name) a'.(attr_name).

(** A row as [same_entities] compares it: the attributes sorted by name,
    their values up to JSON equality. *)
Definition sorted_row (e : ArkivEntity) : ArkivEntity :=
  mkArkivEntity e.(ent_key) e.(ent_creator) e.(ent_created_at) e.(ent_updated_at)
    e.(ent_expires_at) (canonical_attribute <$> sort_by name_leb e.(ent_attributes)).

#[export] Instance arkiv_entity_eq_dec : EqDecision ArkivEntity.
Proof. solve_decision. Defined.

Definition same_entities (rows reference : list ArkivEntity) : bool :=
  bool_decide (sorted_row <$> rows = sorted_row <$> reference).

(** [judge]: [probed] is the entry's last height as it is read then. *)
Definition judge_rows (a : Answers) (x : Expected) : Verdict * option Evidence :=
  match x.(expected_entity), a.(rows_answer) with
  | Some entity, Some rows =>
      match rows with
      | Err FailedError => (Unknown, None)
      | Err FailedTooLarge => (Divergence, Some (EvTooLarge "entity"))
      | Ok rows =>
          match entity.(rows_expected) with
          | Err _ => (Unknown, None)
          | Ok reference =>
              if same_entities rows reference then (Match, None)
              else (Divergence, Some (EvEntity entity.(sample) reference rows))
          end
      end
  | _, _ => (Match, None)
  end.

Definition judge (probed : option Z) (a : Answers) (x : Expected) : Verdict * option Evidence :=
  match a.(block_answer) with
  | Err FailedError => (Unknown, None)
  | Err FailedTooLarge => (Divergence, Some (EvTooLarge "block"))
  | Ok None =>
      match probed with
      | Some probed =>
          if Z.leb x.(finalized).(number) probed
          then (Divergence, Some (EvBlock x.(finalized) None)) else (Stale, None)
      | None => (Stale, None)
      end
  | Ok (Some block) =>
      if bool_decide (block <> x.(finalized))
      then (Divergence, Some (EvBlock x.(finalized) (Some block)))
      else judge_rows a x
  end.

Definition read_failure (e : ReadError) : ReadFailure :=
  match e with RTooLarge _ => FailedTooLarge | _ => FailedError end.

(** * The checker *)

(** The page of keys, a mutex of the checker's. *)
Class KeyStore (W : Type) := {
  load_page : W -> KeyPage;
  store_page : KeyPage -> W -> W;
}.

(** In which order the asks of a look complete. *)
Class Completions (W : Type) := { completes : list ptr -> W -> list ptr * W }.

(** [rand::random_range(0..len)]. *)
Class Dice (W : Type) := { roll : nat -> W -> nat * W }.

(** The answers of this code's own primitives: a store is read back, a
    roll is in range, every ask completes once. *)
Class Fair (W : Type) `{KeyStore W} `{Completions W} `{Dice W} : Prop := {
  load_store p w : load_page (store_page p w) = p;
  roll_range n w : (0 < n)%nat -> ((roll n w).1 < n)%nat;
  completes_all l w : (completes l w).1 ≡ₚ l;
}.

(** How a round ends. [Panicked] stands for its two [expect]s. *)
Inductive RoundEnd : Type :=
| NobodyToCheck
| ReferenceUnread
| NoLiveKey
| Judged (height : Z) (counts : list nat)
| Panicked.

Definition verdict_index (v : Verdict) : nat :=
  match v with Match => 0 | Stale => 1 | Divergence => 2 | Unknown => 3 end.

(** Another look's finding in place of the first one of its provider. *)
Fixpoint replace_finding (second : Finding) (fs : list Finding) : option (list Finding) :=
  match fs with
  | [] => None
  | f :: fs =>
      if Nat.eqb f.(looked_at) second.(looked_at) then Some (second :: fs)
      else cons f <$> replace_finding second fs
  end.

Fixpoint replace_findings (seconds fs : list Finding) : option (list Finding) :=
  match seconds with
  | [] => Some fs
  | second :: seconds => fs ← replace_finding second fs; replace_findings seconds fs
  end.

Definition is_divergence (f : Finding) : bool := bool_decide (f.(verdict) = Divergence).
Definition doubtful (fs : list Finding) : list ptr := looked_at <$> List.filter is_divergence fs.

Record IntegrityChecker (R : Type) : Type := mkIntegrityChecker {
  checker_reference : R;
  checker_config : IntegrityConfig;
  attempt_timeout : Z;
  key_page_interval : Z;
  entity_check : bool;
}.
Arguments mkIntegrityChecker {R}.
Arguments checker_reference {R}.
Arguments checker_config {R}.
Arguments attempt_timeout {R}.
Arguments key_page_interval {R}.
Arguments entity_check {R}.

Definition integrity_new {R} (reference : R) (c : IntegrityConfig) (timeout : Z) :
    IntegrityChecker R :=
  mkIntegrityChecker reference c timeout KEY_PAGE_INTERVAL false.
Definition with_entity_check {R} (on : bool) (ck : IntegrityChecker R) : IntegrityChecker R :=
  mkIntegrityChecker ck.(checker_reference) ck.(checker_config) ck.(attempt_timeout)
    ck.(key_page_interval) on.
Definition with_key_page_interval {R} (d : Z) (ck : IntegrityChecker R) : IntegrityChecker R :=
  mkIntegrityChecker ck.(checker_reference) ck.(checker_config) ck.(attempt_timeout)
    d ck.(entity_check).

Section checker.
Context `{Alloy} `{SerdeJson} {W : Type} `{World W} `{Sleep W}.
Context `{KeyStore W} `{Completions W} `{Dice W} (flip_after : Z).
Context {R : Type} `{ChainReader R (Sys W)} (ck : IntegrityChecker R).

Definition get_page : M (Sys W) KeyPage := fun s => (load_page s.(world), s).
Definition set_page (p : KeyPage) : M (Sys W) unit := fun s =>
  (tt, mkSys s.(pool) (store_page p s.(world)) s.(history)).
Definition random_below (n : nat) : M (Sys W) nat := fun s =>
  let '(i, w) := roll n s.(world) in (i, mkSys s.(pool) w s.(history)).
Definition completion_order (l : list ptr) : M (Sys W) (list ptr) := fun s =>
  let '(l, w) := completes l s.(world) in (l, mkSys s.(pool) w s.(history)).

Definition finalized_block : M (Sys W) (option BlockFields) :=
  answer ← block ck.(checker_reference) Finalized;
  mret (match answer with Ok block => block | Err _ => None end).

(** Whether the page is read again: none of its keys is alive any more,
    or it was never read, or long ago. *)
Definition page_due (height : Z) (page : KeyPage) : M (Sys W) bool :=
  if negb (existsb (fun k => Z.ltb height k.(sample_expires_at)) page.(page_keys)) then mret true
  else match page.(read_at) with
       | None => mret true
       | Some at_ => now ← read_clock; mret (Z.leb ck.(key_page_interval) (since now at_))
       end.

Definition load_keys_if_due (height : Z) : M (Sys W) unit :=
  page ← get_page;
  due ← page_due height page;
  if negb due then mret tt
  else
    answer ← query ck.(checker_reference) (mkQuery [CExpiresAfter height] None);
    match answer with
    | Ok page => now ← read_clock; set_page (mkKeyPage (sample_of <$> page.(entities)) (Some now))
    | Err _ => mret tt
    end.

(** The index is in range, so the default is never read. *)
Definition pick_key (height : Z) : M (Sys W) (option EntityKey) :=
  page ← get_page;
  let alive := sample_key <$> List.filter (exists_at height) page.(page_keys) in
  match alive with
  | [] => mret None
  | _ => i ← random_below (length alive); mret (Some (nth i alive ENTITY_KEY_ZERO))
  end.

Definition reference_rows (key : EntityKey) (height : Z) :
    M (Sys W) (result unit (list ArkivEntity)) :=
  answer ← query ck.(checker_reference) (query_at_block height (query_by_key key));
  mret (map_err (fun _ => tt) (entities <$> answer)).

Definition provider_reader (url : Url) : Reader :=
  with_response_cap RESPONSE_CAP (reader_new url None ck.(attempt_timeout)).

Definition ask (r : ptr) (x : Expected) : M (Sys W) Answers :=
  target ← read_entry r url EmptyString;
  let reader := provider_reader target in
  let height := x.(finalized).(number) in
  block ← reader_block flip_after reader (Number_ height);
  rows ← match x.(expected_entity) with
         | None => mret None
         | Some entity =>
             page ← reader_query flip_after reader
                      (query_at_block height (query_by_key entity.(sample)));
             mret (Some (map_err read_failure (entities <$> page)))
         end;
  mret (mkAnswers r (map_err read_failure block) rows).

Definition look_at (r : ptr) (x : Expected) : M (Sys W) Finding :=
  answer ← ask r x;
  probed ← read_entry r last_height None;
  let '(v, e) := judge probed answer x in
  mret (mkFinding r v e).

Fixpoint look_at_each (l : list ptr) (x : Expected) : M (Sys W) (list Finding) :=
  match l with
  | [] => mret []
  | r :: l => f ← look_at r x; fs ← look_at_each l x; mret (f :: fs)
  end.

(** [check]: one look at every provider. *)
Definition look (providers : list ptr) (x : Expected) : M (Sys W) (list Finding) :=
  order ← completion_order providers; look_at_each order x.

Definition confirm (fs : list Finding) (x : Expected) : M (Sys W) (option (list Finding)) :=
  match doubtful fs with
  | [] => mret (Some fs)
  | again =>
      _ ← sleep ck.(checker_config).(confirm_after);
      seconds ← look again x;
      mret (replace_findings seconds fs)
  end.

Fixpoint record_each (fs : list Finding) (height : Z) (counts : list nat) :
    M (Sys W) (option (list nat)) :=
  match fs with
  | [] => mret (Some counts)
  | f :: fs =>
      if is_divergence f && negb (bool_decide (is_Some f.(evidence))) then mret None
      else
        _ ← act flip_after f.(looked_at) (OnVerdict f.(verdict) height);
        record_each fs height (alter S (verdict_index f.(verdict)) counts)
  end.

Definition record_findings (fs : list Finding) (height : Z) : M (Sys W) RoundEnd :=
  counts ← record_each fs height [0; 0; 0; 0]%nat;
  mret (match counts with Some counts => Judged height counts | None => Panicked end).

(** What the round asks everybody, or why it ends without. *)
Definition expected_of (finalized : BlockFields) : M (Sys W) (option Expected) :=
  if negb ck.(entity_check) then mret (Some (mkExpected finalized None))
  else
    _ ← load_keys_if_due finalized.(number);
    key ← pick_key finalized.(number);
    match key with
    | None => mret None
    | Some key =>
        rows ← reference_rows key finalized.(number);
        mret (Some (mkExpected finalized (Some (mkExpectedEntity key rows))))
    end.

Definition judge_providers (providers : list ptr) (x : Expected) : M (Sys W) RoundEnd :=
  findings ← look providers x;
  confirmed ← confirm findings x;
  match confirmed with
  | None => mret Panicked
  | Some findings => record_findings findings x.(finalized).(number)
  end.

Definition round_over (providers : list ptr) : M (Sys W) RoundEnd :=
  match providers with
  | [] => mret NobodyToCheck
  | _ =>
      finalized ← finalized_block;
      match finalized with
      | None => mret ReferenceUnread
      | Some finalized =>
          x ← expected_of finalized;
          match x with
          | None => mret NoLiveKey
          | Some x => judge_providers providers x
          end
      end
  end.

Definition healthy_members (pl : Pool) : list ptr :=
  List.filter (test_entry pl healthy) (snapshot pl).

Definition round : M (Sys W) RoundEnd :=
  providers ← (fun s => (healthy_members s.(pool), s)); round_over providers.

(** The task until its shutdown: the readings of the ready flag at the
    waiting timer, then the rounds its interval fired. A wait the
    shutdown ends checks nobody. *)
Fixpoint rounds (n : nat) : M (Sys W) unit :=
  match n with
  | O => mret tt
  | S n => _ ← let_others_run flip_after; _ ← round; rounds n
  end.

Fixpoint integrity_run (ready : list bool) (n : nat) : M (Sys W) unit :=
  match ready with
  | [] => mret tt
  | r :: ready =>
      _ ← let_others_run flip_after;
      if (r : bool) then rounds n else integrity_run ready n
  end.

(** [IntegrityCheck for IntegrityChecker]: a round over one provider. *)
Definition checker_check : IntegrityCheck W := {| check r := const tt <$> round_over [r] |}.
End checker.

(** * What a verdict says *)

(** Evidence that holds of the answers: it shows the first read that
    disagreed, with both sides' answers as they were. *)
Inductive Shows (probed : option Z) (a : Answers) (x : Expected) : Evidence -> Prop :=
| ShowsBlockTooLarge :
    a.(block_answer) = Err FailedTooLarge -> Shows probed a x (EvTooLarge "block")
| ShowsRefused h :
    a.(block_answer) = Ok None -> probed = Some h -> x.(finalized).(number) <= h ->
    Shows probed a x (EvBlock x.(finalized) None)
| ShowsBlock b :
    a.(block_answer) = Ok (Some b) -> b <> x.(finalized) ->
    Shows probed a x (EvBlock x.(finalized) (Some b))
| ShowsRowsTooLarge entity :
    a.(block_answer) = Ok (Some x.(finalized)) -> x.(expected_entity) = Some entity ->
    a.(rows_answer) = Some (Err FailedTooLarge) -> Shows probed a x (EvTooLarge "entity")
| ShowsRows entity rows reference :
    a.(block_answer) = Ok (Some x.(finalized)) -> x.(expected_entity) = Some entity ->
    a.(rows_answer) = Some (Ok rows) -> entity.(rows_expected) = Ok reference ->
    same_entities rows reference = false ->
    Shows probed a x (EvEntity entity.(sample) reference rows).

(** Every read there was answered and agreed with the reference's. *)
Definition all_agree (a : Answers) (x : Expected) : Prop :=
  a.(block_answer) = Ok (Some x.(finalized)) /\
  forall entity answer, x.(expected_entity) = Some entity -> a.(rows_answer) = Some answer ->
    exists rows reference, answer = Ok rows /\ entity.(rows_expected) = Ok reference /\
      same_entities rows reference = true.

Definition behind (probed : option Z) (a : Answers) (x : Expected) : Prop :=
  a.(block_answer) = Ok None /\ forall h, probed = Some h -> h < x.(finalized).(number).

Lemma judge_evidence probed a x :
  (judge probed a x).1 = Divergence <-> is_Some (judge probed a x).2.
Proof.
  rewrite <- not_eq_None_Some. unfold judge, judge_rows.
  destruct (block_answer a) as [[b|]|[]]; try (split; done).
  - case_bool_decide; [split; done|].
    destruct (expected_entity x) as [en|], (rows_answer a) as [[rows|[]]|]; try (split; done).
    destruct (rows_expected en); [|split; done]. by destruct (same_entities _ _).
  - destruct probed; [|split; done]. by destruct (Z.leb _ _).
Qed.

(** One branch of [judge]: its verdict and its evidence are what they
    say, and no other claim holds. *)
#[local] Ltac judge_case :=
  refine (conj _ (conj _ (conj _ _)));
  [split;
    [intros ?; try done; (split; [done|]; intros ? ? [= <-] [= <-]; by eexists _, _)
    |let Hx := fresh in intros [? Hx]; try congruence; exfalso;
     destruct (Hx _ _ eq_refl eq_refl) as (? & ? & ? & ? & ?); congruence]
  |split;
    [intros ?; try done; (split; [done|]; by intros ? [= <-])
    |let Hx := fresh in intros [? Hx]; try congruence; exfalso; specialize (Hx _ eq_refl); lia]
  |split; [intros ?; try done; by eexists | by intros [? ?]]
  |intros ev; split;
   [intros [= <-]; econstructor; eauto
   |let Hs := fresh in intros Hs; destruct Hs; cbn in *; simplify_eq; solve [congruence | done | lia]]].

(** C24: A verdict says what the answers say. A match: the block is the
    reference's and, where the entity was read on both sides, so are its
    rows. Stale: the provider has no block at the height and its probes
    never reported one. A divergence: with evidence, and the evidence
    shows a read that disagrees, or an answer over the cap; a provider
    that denies a block its own probed head is past is one too. *)
Theorem judge_spec probed a x :
  let '(v, e) := judge probed a x in
  (v = Match <-> all_agree a x) /\
  (v = Stale <-> behind probed a x) /\
  (v = Divergence <-> is_Some e) /\
  (forall ev, e = Some ev <-> Shows probed a x ev).
Proof.
  unfold judge, judge_rows, all_agree, behind.
  destruct a as [r [[b|]|[]] rows]; cbn [block_answer rows_answer].
  - case_bool_decide as Hb; [judge_case|]. subst b.
    destruct (expected_entity x) as [en|] eqn:Ex; [destruct rows as [[rows|[]]|]|]; try judge_case.
    destruct (rows_expected en) as [reference|[]] eqn:Er; [|judge_case].
    destruct (same_entities rows reference) eqn:Es; judge_case.
  - destruct probed as [h|]; [destruct (Z.leb_spec (number (finalized x)) h)|]; judge_case.
  - judge_case.
  - judge_case.
Qed.

(** * When two answers are the same *)

Lemma string_leb_cons c d s t :
  String.leb (String c s) (String d t) = true <->
  (N_of_ascii c < N_of_ascii d)%N \/ (c = d /\ String.leb s t = true).
Proof.
  unfold String.leb. cbn. unfold Ascii.compare.
  assert (c = d <-> N_of_ascii c = N_of_ascii d) as Hcd.
  { split; [by intros -> | intros E]. by rewrite <- (ascii_N_embedding c), E, ascii_N_embedding. }
  destruct (N.compare_spec (N_of_ascii c) (N_of_ascii d)) as [E|E|E]; rewrite Hcd;
    destruct (String.compare s t); intuition (try done; lia).
Qed.

Lemma string_leb_trans x y z :
  String.leb x y = true -> String.leb y z = true -> String.leb x z = true.
Proof.
  revert y z. induction x as [|c x IH]; intros [|d y] [|e z]; try done.
  rewrite !string_leb_cons. intros [H|[-> H]] [K|[-> K]]; [left; lia | by left | by left | right].
  split; [done | by eapply IH].
Qed.

Lemma name_leb_total a a' : name_leb a a' = true \/ name_leb a' a = true.
Proof. apply String.leb_total. Qed.

Lemma name_leb_trans a b c : name_leb a b = true -> name_leb b c = true -> name_leb a c = true.
Proof. apply string_leb_trans. Qed.

(** One entity as two nodes may render it: the same attributes, up to
    JSON equality of their values, in any order. *)
Record same_row (e e' : ArkivEntity) : Prop := {
  same_key : e.(ent_key) = e'.(ent_key);
  same_creator : e.(ent_creator) = e'.(ent_creator);
  same_created : e.(ent_created_at) = e'.(ent_created_at);
  same_updated : e.(ent_updated_at) = e'.(ent_updated_at);
  same_expires : e.(ent_expires_at) = e'.(ent_expires_at);
  same_attributes : canonical_attribute <$> e.(ent_attributes) ≡ₚ
                    canonical_attribute <$> e'.(ent_attributes);
}.

Definition names_distinct (e : ArkivEntity) : Prop := NoDup (attr_name <$> e.(ent_attributes)).

Lemma sorted_canonical l :
  StronglySorted (fun x y => name_leb x y = true) (canonical_attribute <$> sort_by name_leb l).
Proof.
  pose proof (sort_by_sorted name_leb name_leb_total name_leb_trans l) as Hs.
  induction Hs as [|x l' Hs IH Hx]; [constructor|]. cbn. constructor; [done|].
  by apply Forall_fmap.
Qed.

Lemma sorted_row_same e e' : names_distinct e -> sorted_row e = sorted_row e' <-> same_row e e'.
Proof.
  intros Hd. unfold sorted_row. split.
  - intros [= ? ? ? ? ? Ha]. split; try done.
    by rewrite <- (sort_by_perm name_leb e.(ent_attributes)), Ha, sort_by_perm.
  - intros [Hk Hc Hcr Hu Hex Ha]. f_equal; try done.
    eapply (StronglySorted_unique_strong (fun x y => name_leb x y = true));
      [|apply sorted_canonical..|by rewrite !sort_by_perm].
    intros x y Hx Hy L1 L2. rewrite sort_by_perm in Hx. rewrite sort_by_perm, <- Ha in Hy.
    assert (x.(attr_name) = y.(attr_name)) as En by by apply String.leb_antisym.
    unfold names_distinct in Hd.
    assert (attr_name <$> e.(ent_attributes) =
      attr_name <$> (canonical_attribute <$> e.(ent_attributes))) as E.
    { rewrite <- list_fmap_compose. by apply list_fmap_ext. }
    rewrite E in Hd. apply list_elem_of_lookup in Hx as [i Hi], Hy as [j Hj].
    assert (i = j) as ->; [|congruence].
    eapply NoDup_lookup; [exact Hd | |]; rewrite list_lookup_fmap; [by rewrite Hi | by rewrite Hj, En].
Qed.

(** Two answers are the same entities exactly when they carry the
    same rows in the same order, each with the same attributes in any
    order: what a client renders differently is no divergence, and
    nothing else is forgiven. *)
Theorem same_entities_spec rows reference :
  Forall names_distinct rows ->
  same_entities rows reference = true <-> Forall2 same_row rows reference.
Proof.
  intros Hd. unfold same_entities. rewrite bool_decide_eq_true. revert reference.
  induction Hd as [|e rows He Hd IH]; intros [|e' reference]; cbn.
  - split; [constructor | done].
  - split; [done | intros Hf; inversion Hf].
  - split; [done | intros Hf; inversion Hf].
  - split.
    + intros E. apply (f_equal (fun l => (hd_error l, tl l))) in E. cbn in E.
      assert (sorted_row e = sorted_row e' /\ sorted_row <$> rows = sorted_row <$> reference)
        as [E1 E2] by by split; congruence.
      constructor; [by apply sorted_row_same | by apply IH].
    + intros [E1%sorted_row_same E2%IH]%Forall2_cons; [|done]. by rewrite E1, E2.
Qed.

(** * What the evidence names *)

Section differences.
Context `{Alloy}.

Lemma field_nil name x y : field name x y = [] <-> x = y.
Proof. unfold field. destruct (Z.eqb_spec x y); split; done. Qed.

Lemma transactions_field_nil l l' : transactions_field l l' = [] <-> l = l'.
Proof. unfold transactions_field. case_bool_decide; split; done. Qed.

Lemma join_empty l : Forall (fun s => s <> EmptyString) l -> join "; " l = EmptyString <-> l = [].
Proof.
  intros Hl. split; [|by intros ->]. destruct Hl as [|x l Hx Hl]; [done|]. cbn. intros E. exfalso.
  assert (forall y, y <> EmptyString ->
    foldl (fun acc z => (acc ++ "; " ++ z)%string) y l <> EmptyString) as Hf; [|by eapply Hf].
  clear E. induction Hl as [|z l Hz Hl IH]; intros y Hy; [done|]. apply IH. by destruct y.
Qed.

(** The evidence of two blocks names every compared field that
    differs, and only those: it is empty exactly when the blocks agree
    but for their numbers, which it does not compare. *)
Theorem block_differences_complete ours theirs :
  block_differences ours theirs = EmptyString <->
  theirs = mkBlockFields theirs.(number) ours.(hash) ours.(parent_hash) ours.(state_root)
             ours.(transactions_root) ours.(receipts_root) ours.(transactions).
Proof.
  unfold block_differences. rewrite join_empty.
  - rewrite !app_nil, !field_nil, transactions_field_nil. destruct ours, theirs. cbn.
    split; [intros (-> & -> & -> & -> & -> & ->); done | by intros [= -> -> -> -> -> ->]].
  - rewrite !Forall_app. unfold field, transactions_field.
    split_and!; (destruct (Z.eqb _ _) || case_bool_decide); repeat constructor; done.
Qed.
End differences.

(** * The second look's findings *)

Lemma replace_finding_spec f fs :
  f.(looked_at) ∈ looked_at <$> fs -> NoDup (looked_at <$> fs) ->
  exists fs', replace_finding f fs = Some fs' /\ looked_at <$> fs' = looked_at <$> fs /\
    forall g, g ∈ fs' <-> g = f \/ (g ∈ fs /\ g.(looked_at) <> f.(looked_at)).
Proof.
  induction fs as [|g fs IH]; intros Hf Hnd; [by apply elem_of_nil in Hf|].
  apply NoDup_cons in Hnd as [Hg Hnd]. cbn [replace_finding]. cbn in Hf.
  destruct (Nat.eqb_spec g.(looked_at) f.(looked_at)) as [E|Hne].
  - exists (f :: fs). split_and!; [done | cbn; by rewrite E |]. intros k.
    rewrite !elem_of_cons. split; [|naive_solver]. intros [->|Hk]; [by left|]. right.
    split; [by right|]. intros E'. apply Hg. rewrite E, <- E'. by apply list_elem_of_fmap_2.
  - apply elem_of_cons in Hf as [Hf|Hf]; [congruence|].
    destruct (IH Hf Hnd) as (fs' & -> & En & Hin). exists (g :: fs').
    split_and!; [done | cbn; by rewrite En |]. intros k. rewrite !elem_of_cons, Hin. naive_solver.
Qed.

Lemma replace_findings_spec seconds fs :
  (forall f, f ∈ seconds -> f.(looked_at) ∈ looked_at <$> fs) ->
  NoDup (looked_at <$> seconds) -> NoDup (looked_at <$> fs) ->
  exists fs', replace_findings seconds fs = Some fs' /\ looked_at <$> fs' = looked_at <$> fs /\
    forall g, g ∈ fs' <-> g ∈ seconds \/ (g ∈ fs /\ g.(looked_at) ∉ looked_at <$> seconds).
Proof.
  revert fs. induction seconds as [|f seconds IH]; intros fs Hin Hs Hnd; cbn [replace_findings].
  { exists fs. split_and!; [done..|]. intros g. cbn. pose proof (not_elem_of_nil g).
    pose proof (not_elem_of_nil (looked_at g)). tauto. }
  apply NoDup_cons in Hs as [Hf Hs].
  destruct (replace_finding_spec f fs) as (fs1 & -> & E1 & H1); [apply Hin; by left | done |].
  cbn. destruct (IH fs1) as (fs' & E2 & E3 & H2).
  - intros g Hg. rewrite E1. apply Hin. by right.
  - done.
  - by rewrite E1.
  - exists fs'. split_and!; [done | congruence |]. intros g. rewrite H2, H1, !elem_of_cons.
    split; [|naive_solver]. intros [Hg|[[->|[Hg Hne]] Hns]]; [tauto | tauto |]. right.
    split; [done|]. by intros [E|E].
Qed.

Lemma doubtful_elem f fs : f.(verdict) = Divergence -> f ∈ fs -> f.(looked_at) ∈ doubtful fs.
Proof.
  intros Hv Hf. apply list_elem_of_fmap_2, list_elem_of_In, filter_In. split;
    [by apply list_elem_of_In | by apply bool_decide_eq_true].
Qed.

Lemma doubtful_found r fs :
  r ∈ doubtful fs -> exists g, g ∈ fs /\ g.(looked_at) = r /\ g.(verdict) = Divergence.
Proof.
  intros (g & -> & [Hg Hd]%list_elem_of_In%filter_In)%list_elem_of_fmap.
  apply list_elem_of_In in Hg. apply bool_decide_eq_true in Hd. by exists g.
Qed.

Lemma doubtful_sublist fs : doubtful fs `sublist_of` looked_at <$> fs.
Proof.
  apply fmap_sublist. induction fs as [|f fs IH]; cbn; [done|].
  destruct (is_divergence f); [by apply sublist_skip | by apply sublist_cons].
Qed.

(** * A round *)

(** What the checker relies on outside: no exchange changes an entry
    itself, nor takes a key of the chain back. *)
Class CheckerOutside (R W : Type) `{World W} `{Issuer W} `{Sleep W} `{KeyStore W}
    `{Completions W} `{Dice W} (flip_after : Z) `{ChainReader R (Sys W)} : Prop := {
  outside_block (r : R) at_ : calm flip_after (block r at_);
  outside_query (r : R) q : calm flip_after (query r q);
  outside_post q : calm flip_after (post (W := W) flip_after q);
  outside_others : calm flip_after (let_others_run (W := W) flip_after);
  outside_clock : calm flip_after (read_clock (W := W));
  outside_random : calm flip_after (random (W := W));
  outside_sleep d : calm flip_after (sleep (W := W) d);
  outside_store p (w : W) : grows w (store_page p w);
  outside_completes l (w : W) : grows w (completes l w).2;
  outside_roll n (w : W) : grows w (roll n w).2;
}.

Section round.
Context `{Alloy} `{SerdeJson} {W : Type} `{World W} `{Issuer W} `{Sleep W}.
Context `{KeyStore W} `{Completions W} `{Dice W} (flip_after : Z).
Context `{Fair_primitives : !Fair W}.
Context {R : Type} `{ChainReader R (Sys W)}.
Context `{Quiet_outside : !CheckerOutside R W flip_after} (ck : IntegrityChecker R).

Lemma calm_world_only {A} (f : W -> A * W) :
  (forall w, grows w (f w).2) ->
  calm flip_after (fun s : Sys W => let '(a, w) := f s.(world) in (a, mkSys s.(pool) w s.(history))).
Proof.
  intros Hf. split; intros s; specialize (Hf s.(world)); destruct (f s.(world)) as [a w]; [|done].
  exists []. split; [by apply steps_refl | done].
Qed.

Lemma calm_call r method params : calm flip_after (call flip_after r method params).
Proof using Quiet_outside.
  unfold call. apply calm_bind; [apply outside_random|]. intros n.
  apply calm_bind; [apply outside_post|]. intros x. apply calm_ret.
Qed.

Lemma calm_try_call {A} r method params (f : Value -> result ReadError A) :
  calm flip_after (try_m (call flip_after r method params) (fun v => mret (f v))).
Proof using Quiet_outside.
  unfold try_m. apply calm_bind; [apply calm_call|]. intros [v|e]; apply calm_ret.
Qed.

Lemma calm_ask r x : calm flip_after (ask flip_after ck r x).
Proof using Quiet_outside.
  unfold ask. apply calm_bind; [apply calm_read_entry|]. intros target. cbv zeta.
  apply calm_bind; [apply calm_try_call|]. intros b.
  apply calm_bind; [|intros rows; apply calm_ret].
  destruct (expected_entity x); [|apply calm_ret].
  apply calm_bind; [apply calm_try_call | intros page; apply calm_ret].
Qed.

Lemma calm_look_at r x : calm flip_after (look_at flip_after ck r x).
Proof using Quiet_outside.
  unfold look_at. apply calm_bind; [apply calm_ask|]. intros a.
  apply calm_bind; [apply calm_read_entry|]. intros probed. destruct (judge probed a x).
  apply calm_ret.
Qed.

Lemma calm_look l x : calm flip_after (look flip_after ck l x).
Proof using Quiet_outside.
  unfold look. apply calm_bind; [apply (calm_world_only (completes l)), outside_completes|].
  intros order. induction order as [|r order IH]; [apply calm_ret|]. cbn.
  apply calm_bind; [apply calm_look_at|]. intros f. apply calm_bind; [done|].
  intros fs. apply calm_ret.
Qed.

Lemma calm_confirm fs x : calm flip_after (confirm flip_after ck fs x).
Proof using Quiet_outside.
  unfold confirm. destruct (doubtful fs) as [|r l]; [apply calm_ret|].
  apply calm_bind; [apply outside_sleep|]. intros _. apply calm_bind; [apply calm_look|].
  intros seconds. apply calm_ret.
Qed.

Lemma calm_finalized_block : calm flip_after (finalized_block ck).
Proof using Quiet_outside.
  unfold finalized_block. apply calm_bind; [apply outside_block | intros a; apply calm_ret].
Qed.

Lemma calm_get_page : calm flip_after (get_page (W := W)).
Proof. split; [intros s; exists []; split; [by apply steps_refl|done] | by intros s]. Qed.

Lemma calm_set_page p : calm flip_after (set_page (W := W) p).
Proof using Quiet_outside.
  apply (calm_world_only (fun w => (tt, store_page p w))). intros w. apply outside_store.
Qed.

Lemma calm_expected_of fin : calm flip_after (expected_of ck fin).
Proof using Quiet_outside.
  unfold expected_of. destruct (negb _); [apply calm_ret|].
  apply calm_bind; [|intros _; apply calm_bind; [|intros [k|]; [|apply calm_ret]]].
  - unfold load_keys_if_due. apply calm_bind; [apply calm_get_page|]. intros page.
    apply calm_bind.
    + unfold page_due. destruct (negb _); [apply calm_ret|].
      destruct (read_at page); [|apply calm_ret].
      apply calm_bind; [apply outside_clock | intros t; apply calm_ret].
    + intros due. destruct (negb due); [apply calm_ret|].
      apply calm_bind; [apply outside_query|]. intros [p|e]; [|apply calm_ret].
      apply calm_bind; [apply outside_clock | intros t; apply calm_set_page].
  - unfold pick_key. apply calm_bind; [apply calm_get_page|]. intros page.
    destruct (sample_key <$> _) as [|k l]; [apply calm_ret|].
    apply calm_bind; [apply (calm_world_only (roll _)), outside_roll | intros i; apply calm_ret].
  - apply calm_bind; [|intros rows; apply calm_ret].
    unfold reference_rows. apply calm_bind; [apply outside_query | intros a; apply calm_ret].
Qed.

(** One look finds every provider once, and a divergence with its
    evidence. *)
Definition with_evidence (f : Finding) : Prop :=
  is_divergence f = bool_decide (is_Some f.(evidence)).

Lemma look_at_finding r x s :
  let f := (look_at flip_after ck r x s).1 in looked_at f = r /\ with_evidence f.
Proof.
  unfold look_at, mbind, M_bind. destruct (ask flip_after ck r x s) as [a s1].
  unfold read_entry. cbn beta iota zeta.
  generalize (match entry s1.(pool) r with Some p => last_height p | None => None end) as probed.
  intros probed. pose proof (judge_evidence probed a x) as Hd.
  destruct (judge probed a x) as [v e]. split; [done|]. by apply bool_decide_ext.
Qed.

Lemma look_finds l x s :
  let fs := (look flip_after ck l x s).1 in
  looked_at <$> fs ≡ₚ l /\ Forall with_evidence fs.
Proof using Fair_primitives.
  unfold look, mbind, M_bind, completion_order. pose proof (completes_all l s.(world)) as Hl.
  destruct (completes l s.(world)) as [order w]. cbn [fst snd] in *.
  generalize (mkSys s.(pool) w s.(history)) as s1. intros s1. cbv zeta.
  enough (looked_at <$> (look_at_each flip_after ck order x s1).1 = order /\
    Forall with_evidence (look_at_each flip_after ck order x s1).1) as [E Hw].
  { split; [by rewrite E | done]. }
  clear Hl. revert s1. induction order as [|r order IH]; intros s1; [done|]. cbn [look_at_each].
  unfold mbind, M_bind. pose proof (look_at_finding r x s1) as Hf.
  destruct (look_at flip_after ck r x s1) as [f s2]. destruct Hf as [Ef Hf]. cbn [fst] in Ef, Hf.
  destruct (IH s2) as [IH1 IH2].
  destruct (look_at_each flip_after ck order x s2) as [fs s3]. cbn in *.
  split; [by rewrite Ef, IH1 | by constructor].
Qed.

(** What stands after the second look: one finding per provider, and a
    divergence only where both looks diverged. *)
Record settled (first second fs : list Finding) : Prop := {
  settled_all : looked_at <$> fs = looked_at <$> first;
  settled_evidence : Forall with_evidence fs;
  settled_looks f : f ∈ fs ->
    (f ∈ first /\ f.(verdict) <> Divergence) \/
    (f ∈ second /\ exists g, g ∈ first /\ g.(looked_at) = f.(looked_at) /\
                          g.(verdict) = Divergence);
}.

Lemma confirm_settles fs x s :
  NoDup (looked_at <$> fs) -> Forall with_evidence fs ->
  exists fs' s2, (confirm flip_after ck fs x s).1 = Some fs' /\
    settled fs (look flip_after ck (doubtful fs) x s2).1 fs'.
Proof using Fair_primitives.
  intros Hnd Hw. unfold confirm. pose proof (doubtful_sublist fs) as Hsub.
  destruct (doubtful fs) as [|r l] eqn:Ed.
  - exists fs, s. split; [done|]. split; [done..|]. intros f Hf. left. split; [done|].
    intros Hv. pose proof (doubtful_elem f fs Hv Hf) as Hin. rewrite Ed in Hin.
    by apply elem_of_nil in Hin.
  - unfold mbind, M_bind. destruct (sleep _ s) as [[] s2].
    pose proof (look_finds (r :: l) x s2) as [Hl Hw2]. rewrite <- Ed in *.
    destruct (look flip_after ck (doubtful fs) x s2) as [seconds s3] eqn:El. cbn [fst] in *.
    destruct (replace_findings_spec seconds fs) as (fs' & E & En & Hin).
    + intros f Hf. eapply elem_of_sublist; [|exact Hsub]. rewrite <- Hl. by apply list_elem_of_fmap_2.
    + rewrite Hl. by eapply sublist_NoDup.
    + done.
    + exists fs', s2. cbn. split; [done|]. rewrite El. cbn [fst].
      rewrite Forall_forall in Hw, Hw2. split; [done | |].
      * apply Forall_forall. intros f [Hf|[Hf _]]%Hin; auto.
      * intros f [Hf|[Hf Hn]]%Hin.
        -- right. split; [done|]. apply doubtful_found. rewrite <- Hl. by apply list_elem_of_fmap_2.
        -- left. split; [done|]. intros Hv. apply Hn. rewrite Hl. by apply doubtful_elem.
Qed.

Definition verdict_of (height : Z) (f : Finding) : ptr * Event :=
  (f.(looked_at), OnVerdict f.(verdict) height).

Definition tally (counts : list nat) (fs : list Finding) : list nat :=
  foldl (fun c f => alter S (verdict_index f.(verdict)) c) counts fs.

Lemma record_each_writes fs height counts (s : Sys W) :
  Forall with_evidence fs ->
  (record_each flip_after fs height counts s).1 = Some (tally counts fs) /\
  steps flip_after s (record_each flip_after fs height counts s).2
    ((fun f => Mine f.(looked_at) (OnVerdict f.(verdict) height)) <$> fs).
Proof.
  intros Hw. revert counts s. induction Hw as [|f fs Hf Hw IH]; intros counts s; cbn [record_each].
  { split; [done | by apply steps_refl]. }
  unfold with_evidence in Hf. rewrite Hf, andb_negb_r. unfold mbind, M_bind.
  pose proof (act_steps flip_after f.(looked_at) (OnVerdict f.(verdict) height) s) as Ha.
  destruct (act flip_after _ _ s) as [[] s1]. destruct (IH (alter S (verdict_index f.(verdict)) counts) s1)
    as [IH1 IH2]. split; [exact IH1|]. exact (steps_trans _ _ _ _ _ _ Ha IH2).
Qed.

Lemma mine_quiet hs : Forall quiet_step hs -> mine hs = [].
Proof. induction 1 as [|x hs Hx Hs IH]; [done|]. by destruct x. Qed.

Lemma quiet_entry_steps hs : Forall quiet_step hs -> Forall entry_step hs.
Proof. intros Hs. eapply Forall_impl; [exact Hs|]. by intros []. Qed.

Lemma mine_verdicts height fs :
  mine ((fun f => Mine f.(looked_at) (OnVerdict f.(verdict) height)) <$> fs) =
    verdict_of height <$> fs.
Proof. induction fs as [|f fs IH]; [done|]. cbn. by f_equal. Qed.

(** What a round did by the time it ended. *)
Definition round_did (rs : list ptr) (s s' : Sys W) (e : RoundEnd) : Prop :=
  match e with
  | Judged height counts =>
      exists fs hs,
        looked_at <$> fs ≡ₚ rs /\ counts = tally [0; 0; 0; 0]%nat fs /\
        steps flip_after s s' hs /\ Forall entry_step hs /\ mine hs = verdict_of height <$> fs
  | Panicked => False
  | _ => exists hs, steps flip_after s s' hs /\ Forall quiet_step hs
  end.

Lemma judge_providers_did rs x s :
  NoDup rs ->
  round_did rs s (judge_providers flip_after ck rs x s).2 (judge_providers flip_after ck rs x s).1.
Proof using Type*.
  intros Hnd. unfold judge_providers, mbind, M_bind.
  destruct (calm_quiet _ _ (calm_look rs x) s) as (h1 & S1 & Q1).
  pose proof (look_finds rs x s) as [Hl Hw].
  destruct (look flip_after ck rs x s) as [first s1] eqn:E1. cbn [fst snd] in *.
  destruct (calm_quiet _ _ (calm_confirm first x) s1) as (h2 & S2 & Q2).
  destruct (confirm_settles first x s1) as (fs & s2 & Ec & Hset); [by rewrite Hl | done |].
  destruct (confirm flip_after ck first x s1) as [c s3]. cbn [fst snd] in *. subst c.
  unfold record_findings, mbind, M_bind.
  destruct (record_each_writes fs x.(finalized).(number) [0; 0; 0; 0]%nat s3
              (settled_evidence _ _ _ Hset)) as [E4 S4].
  destruct (record_each flip_after fs _ _ s3) as [c s4]. cbn [fst snd] in *. subst c. cbn.
  exists fs, ((h1 ++ h2) ++ ((fun f => Mine f.(looked_at)
    (OnVerdict f.(verdict) x.(finalized).(number))) <$> fs)).
  split_and!; [| done | | |].
  - rewrite (settled_all _ _ _ Hset). exact Hl.
  - eapply steps_trans; [by eapply steps_trans | exact S4].
  - rewrite !Forall_app. split_and!; [by apply quiet_entry_steps.. |]. apply Forall_fmap, Forall_true.
    by intros f.
  - rewrite !mine_app, mine_quiet, mine_quiet, mine_verdicts by done. done.
Qed.

Lemma round_did_later rs s s1 s2 e h1 :
  steps flip_after s s1 h1 -> Forall quiet_step h1 -> round_did rs s1 s2 e -> round_did rs s s2 e.
Proof.
  intros S1 Q1. destruct e as [| | |height counts|]; cbn; try done;
    try (intros (hs & S2 & Q2); exists (h1 ++ hs);
         split; [by eapply steps_trans | by apply Forall_app]).
  intros (fs & hs & Hp & Hc & Hs & He & Hm).
  exists fs, (h1 ++ hs). rewrite mine_app, Hm, mine_quiet by done.
  split_and!; try done; [by eapply steps_trans|]. apply Forall_app.
  split; [by apply quiet_entry_steps | done].
Qed.

Lemma round_over_did rs s :
  NoDup rs ->
  round_did rs s (round_over flip_after ck rs s).2 (round_over flip_after ck rs s).1.
Proof using Type*.
  intros Hnd. unfold round_over. destruct rs as [|r rs]; [by exists []; split; [apply steps_refl|]|].
  unfold mbind, M_bind. destruct (calm_quiet _ _ calm_finalized_block s) as (h1 & S1 & Q1).
  destruct (finalized_block ck s) as [[fin|] s1]; [|by exists h1].
  destruct (calm_quiet _ _ (calm_expected_of fin) s1) as (h2 & S2 & Q2).
  destruct (expected_of ck fin s1) as [x s2]. cbn [fst snd] in *.
  apply (round_did_later _ _ _ _ _ _ S1 Q1).
  destruct x as [x|]; [|by exists h2].
  apply (round_did_later _ _ _ _ _ _ S2 Q2). by apply judge_providers_did.
Qed.

(** ** What a round is, step by step *)

(** A key whose entity exists at a height. *)
Definition alive_at (height : Z) (k : SampleKey) : Prop :=
  k.(sample_created_at) <= height < k.(sample_expires_at).

(** The page of keys is read again when none of its keys lives past the
    height, when it was never read, or when that was long ago; a page that
    cannot be read stays. *)
Inductive keys_due (height : Z) (s : Sys W) : Sys W -> Prop :=
| due_dead :
    (forall k, k ∈ (load_page s.(world)).(page_keys) -> k.(sample_expires_at) <= height) ->
    keys_due height s s
| due_never : (load_page s.(world)).(read_at) = None -> keys_due height s s
| due_long_ago at_ now s1 :
    (exists k, k ∈ (load_page s.(world)).(page_keys) /\ height < k.(sample_expires_at)) ->
    (load_page s.(world)).(read_at) = Some at_ -> read_clock s = (now, s1) ->
    ck.(key_page_interval) <= since now at_ -> keys_due height s s1.

Inductive keys_read (height : Z) (s : Sys W) : Sys W -> Prop :=
| keys_kept at_ now s1 :
    (exists k, k ∈ (load_page s.(world)).(page_keys) /\ height < k.(sample_expires_at)) ->
    (load_page s.(world)).(read_at) = Some at_ -> read_clock s = (now, s1) ->
    since now at_ < ck.(key_page_interval) -> keys_read height s s1
| keys_unread s0 e s1 :
    keys_due height s s0 ->
    query ck.(checker_reference) (mkQuery [CExpiresAfter height] None) s0 = (Err e, s1) ->
    keys_read height s s1
| keys_renewed s0 page s1 now s2 :
    keys_due height s s0 ->
    query ck.(checker_reference) (mkQuery [CExpiresAfter height] None) s0 = (Ok page, s1) ->
    read_clock s1 = (now, s2) ->
    keys_read height s (mkSys s2.(pool) (store_page (mkKeyPage
      ((fun e => mkSampleKey e.(ent_key) e.(ent_created_at) e.(ent_expires_at)) <$> page.(entities))
      (Some now)) s2.(world)) s2.(history)).

(** What everybody is compared with: the finalized block; with the entity
    check, also an entity alive at its height, as the reference has it at
    that block. *)
Inductive expects (fin : BlockFields) (s : Sys W) : option Expected -> Sys W -> Prop :=
| expects_block : ck.(entity_check) = false -> expects fin s (Some (mkExpected fin None)) s
| expects_nothing s1 :
    ck.(entity_check) = true -> keys_read fin.(number) s s1 ->
    (forall k, k ∈ (load_page s1.(world)).(page_keys) -> ~ alive_at fin.(number) k) ->
    expects fin s None s1
| expects_entity s1 k w answer s2 :
    ck.(entity_check) = true -> keys_read fin.(number) s s1 ->
    k ∈ (load_page s1.(world)).(page_keys) -> alive_at fin.(number) k ->
    (exists n, w = (roll n s1.(world)).2) ->
    query ck.(checker_reference) (mkQuery [CKey k.(sample_key)] (Some fin.(number)))
      (mkSys s1.(pool) w s1.(history)) = (answer, s2) ->
    expects fin s (Some (mkExpected fin (Some (mkExpectedEntity k.(sample_key)
      match answer with Ok page => Ok page.(entities) | Err _ => Err tt end)))) s2.

(** A provider is asked at its own address, without the reference's key
    and up to the cap. *)
Definition asked_reader (s : Sys W) (r : ptr) : Reader :=
  mkReader (match entry s.(pool) r with Some p => p.(url) | None => EmptyString end) None
    ck.(attempt_timeout) RESPONSE_CAP.

(** One look at the providers of a list: the block at the finalized
    height, and the sampled entity at that block; each is judged by these
    answers, against the height its probes last reported. *)
Inductive looks (x : Expected) : list ptr -> Sys W -> list Finding -> Sys W -> Prop :=
| looks_none s : looks x [] s [] s
| looks_one r l s b s1 rows s2 v ev fs s3 :
    reader_block flip_after (asked_reader s r) (Number_ x.(finalized).(number)) s = (b, s1) ->
    match x.(expected_entity) with
    | None => rows = None /\ s2 = s1
    | Some entity => exists page,
        reader_query flip_after (asked_reader s r)
          (mkQuery [CKey entity.(sample)] (Some x.(finalized).(number))) s1 = (page, s2) /\
        rows = Some match page with Ok page => Ok page.(entities) | Err e => Err (read_failure e) end
    end ->
    judge (match entry s2.(pool) r with Some p => last_height p | None => None end)
      (mkAnswers r match b with Ok b => Ok b | Err e => Err (read_failure e) end rows) x = (v, ev) ->
    looks x l s2 fs s3 ->
    looks x (r :: l) s (mkFinding r v ev :: fs) s3.

(** All of them are asked, in whatever order they answer. *)
Definition looks_over (x : Expected) (rs : list ptr) (s : Sys W) (fs : list Finding) (s' : Sys W) : Prop :=
  exists order, order ≡ₚ rs /\
    looks x order (mkSys s.(pool) (completes rs s.(world)).2 s.(history)) fs s'.

(** The ones whose first look diverged are looked at again after a wait. *)
Inductive second_look (x : Expected) (first : list Finding) (s : Sys W) : list Finding -> Sys W -> Prop :=
| second_unneeded :
    Forall (fun f => f.(verdict) <> Divergence) first -> second_look x first s [] s
| second_needed again s1 second s2 :
    again = looked_at <$> filter (fun f => f.(verdict) = Divergence) first -> again <> [] ->
    sleep ck.(checker_config).(confirm_after) s = (tt, s1) ->
    looks_over x again s1 second s2 -> second_look x first s second s2.

(** The round, and the state it leaves: each finding recorded on its
    entry, as its verdict at the finalized height. *)
Inductive round_runs (rs : list ptr) (s : Sys W) : RoundEnd -> Sys W -> Prop :=
| runs_nobody : rs = [] -> round_runs rs s NobodyToCheck s
| runs_unread answer s1 :
    rs <> [] -> block ck.(checker_reference) Finalized s = (answer, s1) ->
    (forall b, answer <> Ok (Some b)) -> round_runs rs s ReferenceUnread s1
| runs_no_key fin s1 s2 :
    rs <> [] -> block ck.(checker_reference) Finalized s = (Ok (Some fin), s1) ->
    expects fin s1 None s2 -> round_runs rs s NoLiveKey s2
| runs_judged fin s1 x s2 first s3 second s4 fs :
    rs <> [] -> block ck.(checker_reference) Finalized s = (Ok (Some fin), s1) ->
    expects fin s1 (Some x) s2 -> looks_over x rs s2 first s3 ->
    second_look x first s3 second s4 -> settled first second fs ->
    round_runs rs s (Judged fin.(number) (tally [0; 0; 0; 0]%nat fs))
      (foldl (fun s f => (act flip_after f.(looked_at) (OnVerdict f.(verdict) fin.(number)) s).2) s4 fs).

Lemma keys_due_run height (s : Sys W) :
  let '(due, s1) := page_due ck height (load_page s.(world)) s in
  (if due then keys_due height s s1 else keys_read height s s1).
Proof.
  unfold page_due. destruct (existsb _ _) eqn:Ex; cbn [negb].
  - apply existsb_exists in Ex as (k & Hk%list_elem_of_In & Hlt%Z.ltb_lt).
    destruct (read_at _) as [at_|] eqn:Er; [|by apply due_never].
    unfold mbind, M_bind. destruct (read_clock s) as [now s1] eqn:Ec. cbn.
    destruct (Z.leb_spec (key_page_interval ck) (since now at_)).
    + eapply due_long_ago; eauto.
    + eapply keys_kept; eauto.
  - apply due_dead. intros k Hk. apply Z.nlt_ge. intros Hlt.
    assert (existsb (fun k => Z.ltb height k.(sample_expires_at)) (load_page s.(world)).(page_keys) = true)
      as E; [|congruence].
    apply existsb_exists. exists k. rewrite <- list_elem_of_In, Z.ltb_lt. done.
Qed.

Lemma keys_read_run height (s : Sys W) : keys_read height s (load_keys_if_due ck height s).2.
Proof.
  unfold load_keys_if_due, get_page, mbind, M_bind. pose proof (keys_due_run height s) as Hd.
  destruct (page_due ck height _ s) as [[] s1]; cbn [negb]; [|done].
  destruct (query _ _ s1) as [[page|e] s2] eqn:Eq; [|by eapply keys_unread].
  destruct (read_clock s2) as [now s3] eqn:Ec. by eapply keys_renewed.
Qed.

Lemma pick_key_run height (s : Sys W) :
  let keys := (load_page s.(world)).(page_keys) in
  match pick_key height s with
  | (Some key, s1) => exists k n, k ∈ keys /\ alive_at height k /\ key = k.(sample_key) /\
      s1 = mkSys s.(pool) (roll n s.(world)).2 s.(history)
  | (None, s1) => s1 = s /\ forall k, k ∈ keys -> ~ alive_at height k
  end.
Proof using Fair_primitives.
  unfold pick_key, get_page, random_below, mbind, M_bind. cbv zeta.
  assert (forall k, k ∈ List.filter (exists_at height) (load_page s.(world)).(page_keys) <->
    k ∈ (load_page s.(world)).(page_keys) /\ alive_at height k) as Hin.
  { intros k. rewrite list_elem_of_In, filter_In, <- list_elem_of_In. unfold exists_at, alive_at.
    by rewrite andb_true_iff, Z.leb_le, Z.ltb_lt. }
  destruct (List.filter _ _) as [|k0 l] eqn:Ea; cbn [fmap list_fmap].
  { split; [done|]. intros k Hk Hl. assert (k ∈ []) as Hn by by apply Hin.
    by apply elem_of_nil in Hn. }
  set (n := length (sample_key k0 :: (sample_key <$> l))).
  pose proof (roll_range n s.(world)) as Hi. destruct (roll n s.(world)) as [i w] eqn:Er.
  cbn [fst] in Hi. assert (i < length (k0 :: l))%nat as Hi'.
  { unfold n in Hi. cbn in Hi |- *. rewrite length_fmap in Hi. apply Hi. lia. }
  destruct (lookup_lt_is_Some_2 (k0 :: l) i Hi') as [k Hk]. cbn [mret M_ret].
  assert (nth i (sample_key k0 :: (sample_key <$> l)) ENTITY_KEY_ZERO = k.(sample_key)) as ->.
  { rewrite <- fmap_cons. apply nth_lookup_Some. by rewrite list_lookup_fmap, Hk. }
  apply list_elem_of_lookup_2, Hin in Hk as [Hk Hal]. exists k, n. by rewrite Er.
Qed.

Lemma expects_run fin (s : Sys W) :
  expects fin s (expected_of ck fin s).1 (expected_of ck fin s).2.
Proof using Fair_primitives.
  unfold expected_of. destruct (entity_check ck) eqn:Ee; cbn [negb]; [|by constructor].
  unfold mbind, M_bind. pose proof (keys_read_run fin.(number) s) as Hk.
  destruct (load_keys_if_due _ _ s) as [[] s1]. cbn [snd] in Hk.
  pose proof (pick_key_run fin.(number) s1) as Hp. cbv zeta in Hp.
  destruct (pick_key _ s1) as [[key|] s2]; [|destruct Hp as [-> Hp]; by apply expects_nothing].
  destruct Hp as (k & n & Hin & Hal & -> & ->). unfold reference_rows, mbind, M_bind.
  change (query_at_block fin.(number) (query_by_key k.(sample_key)))
    with (mkQuery [CKey k.(sample_key)] (Some fin.(number))).
  destruct (query _ _ _) as [answer s2] eqn:Eq. cbn [fst snd mret M_ret].
  pose proof (expects_entity fin s s1 k _ answer s2 Ee Hk Hin Hal (ex_intro _ n eq_refl) Eq) as Hx.
  by destruct answer.
Qed.

Lemma looks_run x l (s : Sys W) :
  looks x l s (look_at_each flip_after ck l x s).1 (look_at_each flip_after ck l x s).2.
Proof.
  revert s. induction l as [|r l IH]; intros s; cbn [look_at_each]; [constructor|].
  unfold mbind, M_bind, look_at, ask, mbind, M_bind. cbn [read_entry].
  change (provider_reader ck match entry s.(pool) r with Some p => url p | None => EmptyString end)
    with (asked_reader s r).
  destruct (reader_block _ _ _ s) as [b s1] eqn:Eb.
  match goal with |- context [match ?m s1 with pair _ _ => _ end] => set (rows := m s1) end.
  destruct rows as [rows' s2] eqn:Erows.
  assert (match x.(expected_entity) with
    | None => rows' = None /\ s2 = s1
    | Some entity => exists page,
        reader_query flip_after (asked_reader s r)
          (mkQuery [CKey entity.(sample)] (Some x.(finalized).(number))) s1 = (page, s2) /\
        rows' = Some match page with Ok page => Ok page.(entities) | Err e => Err (read_failure e) end
    end) as Hrows.
  { unfold rows in Erows. destruct (expected_entity x) as [entity|]; [|by injection Erows as <- <-].
    unfold mbind, M_bind in Erows.
    change (query_at_block (number (finalized x)) (query_by_key (sample entity)))
      with (mkQuery [CKey entity.(sample)] (Some x.(finalized).(number))) in Erows.
    destruct (reader_query _ _ _ s1) as [page s3]. injection Erows as <- <-. exists page.
    split; [done|]. by destruct page. }
  cbn [fst snd mret M_ret read_entry].
  replace (map_err read_failure b) with (match b with Ok b => Ok b | Err e => Err (read_failure e) end)
    by (by destruct b).
  destruct (judge _ _ x) as [v ev] eqn:Ej. cbn [fst snd mret M_ret].
  specialize (IH s2). destruct (look_at_each _ _ l x s2) as [fs s3]. cbn [fst snd] in *.
  by eapply looks_one.
Qed.

Lemma looks_over_run x rs (s : Sys W) :
  looks_over x rs s (look flip_after ck rs x s).1 (look flip_after ck rs x s).2.
Proof using Fair_primitives.
  unfold looks_over, look, completion_order, mbind, M_bind.
  pose proof (completes_all rs s.(world)) as Hc. exists (completes rs s.(world)).1. split; [done|].
  destruct (completes rs s.(world)) as [order w]. cbn [fst snd]. apply looks_run.
Qed.

Lemma doubtful_filter fs : doubtful fs = looked_at <$> filter (fun f => f.(verdict) = Divergence) fs.
Proof.
  unfold doubtful. f_equal. induction fs as [|f fs IH]; [done|]. rewrite filter_cons.
  cbn [List.filter]. unfold is_divergence at 1.
  case_decide; [rewrite bool_decide_true | rewrite bool_decide_false]; try done. by rewrite IH.
Qed.

Lemma second_look_run first x (s : Sys W) :
  NoDup (looked_at <$> first) -> Forall with_evidence first ->
  exists fs second, (confirm flip_after ck first x s).1 = Some fs /\ settled first second fs /\
    second_look x first s second (confirm flip_after ck first x s).2.
Proof using Fair_primitives.
  intros Hnd Hw. unfold confirm. pose proof (doubtful_sublist first) as Hsub.
  pose proof (doubtful_filter first) as Edf.
  destruct (doubtful first) as [|r l] eqn:Ed.
  - exists first, []. split; [done|]. split.
    + split; [done..|]. intros f Hf. left. split; [done|]. intros Hv.
      pose proof (doubtful_elem f first Hv Hf) as Hin. rewrite Ed in Hin. by apply elem_of_nil in Hin.
    + apply second_unneeded, Forall_forall. intros f Hf Hv.
      pose proof (doubtful_elem f first Hv Hf) as Hin. rewrite Ed in Hin. by apply elem_of_nil in Hin.
  - unfold mbind, M_bind. destruct (sleep _ s) as [[] s1] eqn:Es. rewrite <- Ed in *.
    pose proof (look_finds (doubtful first) x s1) as [Hl Hw2].
    pose proof (looks_over_run x (doubtful first) s1) as Hlook.
    destruct (look flip_after ck (doubtful first) x s1) as [second s2] eqn:El. cbn [fst snd] in *.
    destruct (replace_findings_spec second first) as (fs & E & En & Hin).
    + intros f Hf. eapply elem_of_sublist; [|exact Hsub]. rewrite <- Hl. by apply list_elem_of_fmap_2.
    + rewrite Hl. by eapply sublist_NoDup.
    + done.
    + exists fs, second. rewrite Forall_forall in Hw, Hw2. split; [done|]. split.
      * split; [done | |].
        -- apply Forall_forall. intros f [Hf|[Hf _]]%Hin; auto.
        -- intros f [Hf|[Hf Hn]]%Hin.
           ++ right. split; [done|]. apply doubtful_found. rewrite <- Hl. by apply list_elem_of_fmap_2.
           ++ left. split; [done|]. intros Hv. apply Hn. rewrite Hl. by apply doubtful_elem.
      * eapply second_needed; [by symmetry | by rewrite Ed | done | done].
Qed.

Lemma record_each_state fs height counts (s : Sys W) :
  Forall with_evidence fs ->
  (record_each flip_after fs height counts s).2 =
    foldl (fun s f => (act flip_after f.(looked_at) (OnVerdict f.(verdict) height) s).2) s fs.
Proof.
  intros Hw. revert counts s. induction Hw as [|f fs Hf Hw IH]; intros counts s; cbn [record_each]; [done|].
  unfold with_evidence in Hf. rewrite Hf, andb_negb_r. unfold mbind, M_bind. cbn [foldl].
  destruct (act flip_after _ _ s) as [[] s1] eqn:Ea. cbn [snd]. apply IH.
Qed.

Lemma round_over_runs rs (s : Sys W) :
  NoDup rs -> round_runs rs s (round_over flip_after ck rs s).1 (round_over flip_after ck rs s).2.
Proof using Type*.
  intros Hnd. unfold round_over. destruct rs as [|r rs]; [by apply runs_nobody|].
  set (all := r :: rs) in *. assert (all <> []) as Hne by done. clearbody all. clear r rs.
  unfold finalized_block, mbind, M_bind.
  destruct (block _ _ s) as [[[fin|]|e] s1] eqn:Eb; cbn [fst snd mret M_ret];
    [|by eapply runs_unread..].
  pose proof (expects_run fin s1) as Hx.
  destruct (expected_of ck fin s1) as [[x|] s2]; cbn [fst snd] in *; [|by eapply runs_no_key].
  unfold judge_providers, mbind, M_bind. pose proof (look_finds all x s2) as [Hl Hw].
  pose proof (looks_over_run x all s2) as Hlook.
  destruct (look flip_after ck all x s2) as [first s3]. cbn [fst snd] in *.
  destruct (second_look_run first x s3) as (fs & second & Ec & Hset & Hsec); [by rewrite Hl | done |].
  destruct (confirm flip_after ck first x s3) as [c s4]. cbn [fst snd] in *. subst c.
  assert (x.(finalized) = fin) as <- by by inversion Hx.
  unfold record_findings, mbind, M_bind.
  destruct (record_each_writes fs x.(finalized).(number) [0; 0; 0; 0]%nat s4
              (settled_evidence _ _ _ Hset)) as [E5 _].
  pose proof (record_each_state fs x.(finalized).(number) [0; 0; 0; 0]%nat s4
              (settled_evidence _ _ _ Hset)) as E6.
  destruct (record_each flip_after fs _ _ s4) as [c s5]. cbn [fst snd mret M_ret] in *. subst c s5.
  by eapply runs_judged.
Qed.

(** C5: A round is what it is said to be: the reference's finalized block is
    read, and without it nobody is asked and nothing recorded; with the
    entity check, an entity alive at its height is sampled, and without
    one nothing is asked either. Every provider is looked at once, at
    that height, and those whose answers diverge a second time after the
    wait; the second finding then stands in the first one's place. Each
    provider gets one verdict, recorded at the finalized height, in the
    state these exchanges left; apart from it the round does nothing to
    an entry. Neither of the two [expect]s can panic. *)
Theorem round_records_verdicts rs s :
  NoDup rs ->
  let '(e, s') := round_over flip_after ck rs s in
  round_runs rs s e s' /\ round_did rs s s' e.
Proof using Type*.
  intros Hnd. pose proof (round_over_runs rs s Hnd) as Hr. pose proof (round_over_did rs s Hnd) as Hd.
  by destruct (round_over flip_after ck rs s).
Qed.

(** The checker is what the agent's admission takes it for. *)
Lemma keeps_round rs : keeps (round_over flip_after ck rs).
Proof using Type*.
  assert (forall {A B} (m : M (Sys W) A) (f : A -> M (Sys W) B),
    keeps m -> (forall a, keeps (f a)) -> keeps (m ≫= f)) as Hbind.
  { intros A B m f Hm Hf s. specialize (Hm s). unfold mbind, M_bind. destruct (m s) as [a s'].
    etrans; [exact Hm | apply Hf]. }
  unfold round_over. destruct rs as [|r rs]; [by intros s|].
  apply Hbind; [apply (calm_keeps _ _ calm_finalized_block)|]. intros [fin|]; [|by intros s].
  apply Hbind; [apply (calm_keeps _ _ (calm_expected_of fin))|]. intros [x|]; [|by intros s].
  apply Hbind; [apply (calm_keeps _ _ (calm_look _ x))|]. intros first.
  apply Hbind; [apply (calm_keeps _ _ (calm_confirm first x))|]. intros [fs|]; [|by intros s].
  apply Hbind; [|by intros c s]. generalize [0; 0; 0; 0]%nat as counts.
  induction fs as [|f fs IH]; intros counts; [by intros s|]. cbn [record_each].
  destruct (_ && _); [by intros s|]. apply Hbind; [by intros s | done].
Qed.

(** The checker keeps the promise the agent's admission relies on:
    one check changes no pool entry but by recording a verdict, and takes
    no key of the chain back. *)
Theorem checker_is_quiet : QuietCheck W (checker_check flip_after ck) flip_after.
Proof using Type*.
  split.
  - intros r s. cbn [check checker_check]. unfold fmap, M_fmap.
    assert (exists hs, steps flip_after s (round_over flip_after ck [r] s).2 hs /\
      Forall entry_step hs) as Hr.
    { pose proof (round_over_did [r] s (NoDup_singleton r)) as Hd.
      destruct (round_over _ _ _ s) as [[| | |height counts|] s']; cbn in *; try done.
      1-3: destruct Hd as (hs & Hs & Hq); exists hs; split; [done | by apply quiet_entry_steps].
      destruct Hd as (_ & hs & _ & _ & Hs & He & _). by exists hs. }
    by destruct (round_over _ _ _ s).
  - intros r s. cbn [check checker_check]. unfold fmap, M_fmap.
    pose proof (keeps_round [r] s). by destruct (round_over _ _ _ s).
Qed.

(** The key a round samples is one on the page whose entity exists
    at the height the round reads at; there is none only when no key on
    the page is such; and every such key is one a roll may pick. *)
Theorem pick_key_alive height (s : Sys W) :
  let alive := List.filter (exists_at height) (load_page s.(world)).(page_keys) in
  match (pick_key height s).1 with
  | Some k => exists sk, sk ∈ alive /\ sk.(sample_key) = k
  | None => alive = []
  end /\
  forall sk, sk ∈ alive -> exists i, (i < length alive)%nat /\
    ((roll (length alive) s.(world)).1 = i -> (pick_key height s).1 = Some sk.(sample_key)).
Proof using Fair_primitives.
  cbv zeta. unfold pick_key, get_page, mbind, M_bind. cbn [fst snd].
  set (alive := List.filter _ _). rewrite <- (length_fmap sample_key alive).
  pose proof (roll_range (length (sample_key <$> alive)) s.(world)) as Hr.
  unfold random_below. split.
  - destruct (sample_key <$> alive) as [|k l] eqn:E; [by apply fmap_nil_inv in E|].
    destruct (roll _ _) as [i w]. cbn [fst snd mret M_ret]. rewrite <- E in *.
    destruct (nth_lookup_or_length (sample_key <$> alive) i ENTITY_KEY_ZERO) as [Hi|Hi];
      [|rewrite E in *; cbn in *; lia].
    rewrite list_lookup_fmap in Hi. destruct (alive !! i) as [sk|] eqn:Ei; [|done].
    injection Hi as Hi. exists sk. split; [by eapply list_elem_of_lookup_2 | done].
  - intros sk (i & Hi)%list_elem_of_lookup. exists i.
    split; [rewrite length_fmap; by eapply lookup_lt_Some|]. intros Hroll.
    assert ((sample_key <$> alive) !! i = Some sk.(sample_key)) as Hk
      by by rewrite list_lookup_fmap, Hi.
    destruct (sample_key <$> alive) as [|k l] eqn:E; [done|].
    destruct (roll _ _) as [j w]. cbn [fst snd mret M_ret] in *. subst j. rewrite <- E in *.
    f_equal. by apply nth_lookup_Some.
Qed.
End round.

(** * Witnesses *)

(** A script with the checker's own primitives, and no other task: asks
    complete in order, a roll is the last index, a sleep only waits. *)
Record Bench : Type := mkBench { script : Script; bench_page : KeyPage }.
Definition set_script (x : Script) (w : Bench) : Bench := mkBench x w.(bench_page).

#[export] Instance bench_world : World Bench := {
  clock w := let '(t, x) := clock w.(script) in (t, set_script x w);
  http_post q w := let '(a, x) := http_post q w.(script) in (a, set_script x w);
  others w := ([], w);
  random_id w := (1, w);
  others_select w := (fun _ => 0, w);
}.
#[export] Instance bench_issuer : Issuer Bench := {
  issued _ _ := True;
  in_order _ := True;
}.
#[export] Instance bench_sleep : Sleep Bench := { sleep _ := let_others_run 1 }.
#[export] Instance bench_keys : KeyStore Bench := {
  load_page := bench_page;
  store_page p w := mkBench w.(script) p;
}.
#[export] Instance bench_completions : Completions Bench := { completes l w := (l, w) }.
#[export] Instance bench_dice : Dice Bench := { roll n w := (Nat.pred n, w) }.
#[export] Instance bench_fair : Fair Bench.
Proof. split; cbn; [done | lia | done]. Qed.

Definition demo_block : BlockFields := mkBlockFields 7 1 2 3 4 5 [6].
Definition demo_other : BlockFields := mkBlockFields 7 1 2 9 4 5 [6].
Definition block_json (x : BlockFields) : Value :=
  Object [("number", Str (hex_u64 x.(number))); ("hash", Str (key_hex x.(hash)));
          ("parentHash", Str (key_hex x.(parent_hash))); ("stateRoot", Str (key_hex x.(state_root)));
          ("transactionsRoot", Str (key_hex x.(transactions_root)));
          ("receiptsRoot", Str (key_hex x.(receipts_root)));
          ("transactions", Array ((fun k => Str (key_hex k)) <$> x.(transactions)))]%string.
Definition block_response (x : BlockFields) : result HttpError HttpResponse :=
  Ok (mkHttpResponse 200 None
        [to_vec (Object [("jsonrpc", Str "2.0"); ("result", block_json x)]%string)] BodyDone).

(** The reference answers; the one provider answers another state root,
    twice. *)
Definition demo_bench : Sys Bench :=
  mkSys (snd (pool_add (provider_new 0 "a" "http://a" Static) empty_pool))
    (mkBench (mkScript [] [block_response demo_block; block_response demo_other;
                           block_response demo_other] []) default_page) [].
Definition demo_checker : IntegrityChecker Reader :=
  integrity_new (reader_new "http://reference" None 5) default_integrity 3.
#[local] Instance demo_reads : ChainReader Reader (Sys Bench) | 0 := reader_chain_reader 1.

#[local] Instance bench_rely : Rely Bench.
Proof. by split. Qed.

#[local] Instance bench_reader_quiet : QuietReader Reader Bench 1 := reader_quiet 1.

#[local] Instance bench_outside : CheckerOutside Reader Bench 1.
Proof.
  assert (forall {A} (m : M (Sys Bench) A), quiet 1 m -> calm 1 m) as Hc.
  { intros A m Hm. by split. }
  split; try (intros; exact I || done); intros; try apply Hc.
  - apply quiet_block.
  - apply quiet_query.
  - apply quiet_post, bench_rely.
  - apply quiet_others, bench_rely.
  - apply quiet_clock.
  - apply quiet_random.
  - apply quiet_others, bench_rely.
Qed.

Lemma round_records_verdicts_witness :
  (round_over 1 demo_checker [0%nat] demo_bench).1 = Judged 7 [0; 0; 1; 0]%nat /\
  exists hs, steps 1 demo_bench (round_over 1 demo_checker [0%nat] demo_bench).2 hs /\
    mine hs = [(0%nat, OnVerdict Divergence 7)].
Proof.
  assert ((round_over 1 demo_checker [0%nat] demo_bench).1 = Judged 7 [0; 0; 1; 0]%nat) as E
    by (by vm_compute).
  split; [exact E|].
  pose proof (round_records_verdicts 1 demo_checker [0%nat] demo_bench (NoDup_singleton _)) as Hr.
  destruct (round_over 1 demo_checker [0%nat] demo_bench) as [e s']. cbn [fst snd] in *. subst e.
  destruct Hr as (_ & fs & hs & Hp & Hc & Hs & _ & Hm).
  exists hs. split; [exact Hs|]. rewrite Hm.
  destruct fs as [|[r v e] [|f fs]]; [by apply Permutation_length in Hp | | by apply Permutation_length in Hp].
  apply Permutation_singleton_r in Hp. injection Hp as ->. destruct v; done.
Defined.

Lemma checker_is_quiet_witness : QuietCheck Bench (checker_check 1 demo_checker) 1.
Proof. exact (checker_is_quiet 1 demo_checker). Defined.

Definition demo_row (attributes : list ArkivAttribute) : ArkivEntity :=
  mkArkivEntity 1 2 3 4 5 attributes.

Lemma same_entities_spec_witness :
  same_entities [demo_row [mkArkivAttribute "a" "str" (Str "x"); mkArkivAttribute "b" "str" (Str "y")]]
    [demo_row [mkArkivAttribute "b" "str" (Str "y"); mkArkivAttribute "a" "str" (Str "x")]] = true.
Proof.
  apply same_entities_spec.
  - repeat constructor; cbn; set_solver.
  - constructor; [|constructor]. split; try done. cbn. apply Permutation_swap.
Defined.

Definition demo_keys : Sys Bench :=
  mkSys empty_pool (mkBench (mkScript [] [] [])
    (mkKeyPage [mkSampleKey 1 0 5; mkSampleKey 2 3 9; mkSampleKey 3 8 20] None)) [].

Lemma pick_key_alive_witness :
  (pick_key 4 demo_keys).1 = Some 2 /\
  exists sk, sk ∈ List.filter (exists_at 4) demo_keys.(world).(bench_page).(page_keys) /\
    sk.(sample_key) = 2.
Proof.
  assert ((pick_key 4 demo_keys).1 = Some 2) as E by (by vm_compute).
  split; [exact E|]. pose proof (proj1 (pick_key_alive 4 demo_keys)) as Hk. rewrite E in Hk.
  exact Hk.
Defined.
