(* ===== verification/Relay.v ===== *)
(** The relay of the test rig, [crates/rig/src/relay.rs]: it stands in
    front of a node and passes requests on, honest or telling one lie.
    Here it is also where the checker and the monitor meet what they are
    there for: a provider that lies about a block or an entity, and one
    that falls behind. *)

From S2P Require Import Prelude External Concrete Pool World Forwarder Records Reader Chain Config Mirror Lifecycle Monitor Recovery Integrity.

#[local] Open Scope Z_scope.

(** Each lie leaves the other reads alone. *)
Inductive Lie : Type := EntityLie | BlockLie | FrozenHeadLie.

(** [str::trim_start]: the white space of Unicode, in UTF-8. *)
Definition white_space : list string :=
  (fun l => String.string_of_list_byte l) <$>
  [[x09]; [x0a]; [x0b]; [x0c]; [x0d]; [x20]; [xc2; x85]; [xc2; xa0]; [xe1; x9a; x80];
   [xe2; x80; x80]; [xe2; x80; x81]; [xe2; x80; x82]; [xe2; x80; x83]; [xe2; x80; x84];
   [xe2; x80; x85]; [xe2; x80; x86]; [xe2; x80; x87]; [xe2; x80; x88]; [xe2; x80; x89];
   [xe2; x80; x8a]; [xe2; x80; xa8]; [xe2; x80; xa9]; [xe2; x80; xaf]; [xe2; x81; x9f];
   [xe3; x80; x80]].
Definition strip_space (s : string) : option string :=
  List.fold_right (fun w r => match strip_prefix w s with Some t => Some t | None => r end)
    None white_space.
(** Each round drops at least one byte, so [length s] rounds are enough. *)
Fixpoint trim_rounds (fuel : nat) (s : string) : string :=
  match fuel with
  | O => s
  | S fuel => match strip_space s with Some t => trim_rounds fuel t | None => s end
  end.
Definition trim_start (s : string) : string := trim_rounds (String.length s) s.

Definition starts_with (pre s : string) : bool := bool_decide (is_Some (strip_prefix pre s)).

(** * The lies

    Each answers whether the answer was altered, and the answer; [None]
    is a panic, which ends the connection without a response. *)

(** One attribute of a row: a payload gets one more byte. *)
Definition alter_attribute (a : Value) : option (bool * Value) :=
  if is_text (index "name" a) "payload" && is_text (index "type" a) "bytes"
  then let payload := default "0x"%string (as_str (index "value" a)) in
       a ← set_index "value" (Str (payload ++ "00")) a; Some (true, a)
  else Some (false, a).

(** The loop over the elements of an array, changed in place. *)
Fixpoint alter_each (f : Value -> option (bool * Value)) (l : list Value) :
    option (bool * list Value) :=
  match l with
  | [] => Some (false, [])
  | x :: l =>
      '(here, x) ← f x;
      '(there, l) ← alter_each f l;
      Some (here || there, x :: l)
  end.

(** [as_array_mut] of the place [key], and the loop over it; [None] where
    the place holds no array. *)
Definition alter_array (key : string) (f : Value -> option (bool * Value)) (v : Value) :
    option (option bool * Value) :=
  '(place, v) ← index_mut key v;
  match place with
  | Array items =>
      '(altered, items) ← alter_each f items;
      v ← set_index key (Array items) v; Some (Some altered, v)
  | _ => Some (None, v)
  end.

Definition alter_row (row : Value) : option (bool * Value) :=
  '(altered, row) ← alter_array "attributes" alter_attribute row;
  Some (default false altered, row).

Definition by_key_query (request : Value) : bool :=
  is_text (index "method" request) "arkiv_query" &&
  match as_str (index_at 0 (index "params" request)) with
  | Some text => starts_with "$key = key(" (trim_start text)
  | None => false
  end.

Definition alter_entities (request answer : Value) : option (bool * Value) :=
  if negb (by_key_query request) then Some (false, answer)
  else
    '(result, answer) ← index_mut "result" answer;
    '(altered, result) ← alter_array "data" alter_row result;
    answer ← set_index "result" result answer;
    Some (default false altered, answer).

(** [split_at(len - 1)]: a panic on no text, and inside a character. *)
Fixpoint split_last (s : string) : option (string * ascii) :=
  match s with
  | EmptyString => None
  | String c EmptyString => Some (EmptyString, c)
  | String c s => '(head, last) ← split_last s; Some (String c head, last)
  end.
Definition other_digit (c : ascii) : ascii := if Ascii.eqb c "0" then "1" else "0".

Definition alter_block (request answer : Value) : option (bool * Value) :=
  if negb (is_text (index "method" request) "eth_getBlockByNumber") then Some (false, answer)
  else match as_str (index "hash" (index "result" answer)) with
       | None => Some (false, answer)
       | Some hash =>
           '(head, last) ← split_last hash;
           if starts_character last then
             let other := Str (head ++ String (other_digit last) "")%string in
             result ← set_index "hash" other (index "result" answer);
             answer ← set_index "result" result answer;
             Some (true, answer)
           else None
       end.

(** The first head seen is kept in [frozen]. *)
Definition freeze_head (request answer : Value) (frozen : option Value) :
    option (bool * Value * option Value) :=
  if negb (is_text (index "method" request) "eth_blockNumber") ||
     bool_decide (index "result" answer = Null)
  then Some (false, answer, frozen)
  else match frozen with
       | Some head => answer ← set_index "result" head answer; Some (true, answer, frozen)
       | None => Some (false, answer, Some (index "result" answer))
       end.

Section relay.
Context `{SerdeJson}.

(** The answer as relayed, and the head kept. A body that is not JSON
    passes, and so does an answer nothing of which was altered. *)
Definition altered (request answer : Bytes) (lie : Lie) (frozen : option Value) :
    option (Bytes * option Value) :=
  match from_slice request, from_slice answer with
  | Some request, Some parsed =>
      '(changed, parsed, frozen) ←
        match lie with
        | EntityLie => '(c, v) ← alter_entities request parsed; Some (c, v, frozen)
        | BlockLie => '(c, v) ← alter_block request parsed; Some (c, v, frozen)
        | FrozenHeadLie => freeze_head request parsed frozen
        end;
      Some ((if (changed : bool) then to_vec parsed else answer), frozen)
  | _, _ => Some (answer, frozen)
  end.

(** What the node behind it answers, and how an error reads. *)
Context (send : HttpRequest -> result HttpError HttpResponse) (error_text : HttpError -> string).

(** Only the body goes on, and no timeout is set. *)
Definition upstream_request (upstream : Url) (body : Bytes) : HttpRequest :=
  mkHttpRequest POST upstream "application/json" None body duration_max.

Definition BAD_GATEWAY : Z := 502.

(** [relay]: the response, or none after a panic, and the head kept. *)
Definition relay (upstream : Url) (body : Bytes) (lie : option Lie) (frozen : option Value) :
    option Response * option Value :=
  match send (upstream_request upstream body) with
  | Err e => (Some (mkResponse BAD_GATEWAY [("content-type", "text/plain; charset=utf-8")]%string
                      (RText (error_text e))), frozen)
  | Ok answer =>
      match answer.(body_end) with
      | BodyBroken _ => (Some (mkResponse BAD_GATEWAY [] (RText EmptyString)), frozen)
      | BodyDone =>
          let bytes := concat answer.(chunks) in
          let passed bytes := mkResponse answer.(status)
            [("content-type", "application/json")]%string (RBytes bytes) in
          match lie with
          | Some lie =>
              if is_success answer.(status)
              then match altered body bytes lie frozen with
                   | Some (bytes, frozen) => (Some (passed bytes), frozen)
                   | None => (None, frozen)
                   end
              else (Some (passed bytes), frozen)
          | None => (Some (passed bytes), frozen)
          end
      end
  end.

(** [serve]: the requests one after another, as the lock orders them. *)
Fixpoint relay_serve (upstream : Url) (lie : option Lie) (bodies : list Bytes)
    (frozen : option Value) : list (option Response) * option Value :=
  match bodies with
  | [] => ([], frozen)
  | body :: bodies =>
      let '(response, frozen) := relay upstream body lie frozen in
      let '(responses, frozen) := relay_serve upstream lie bodies frozen in
      (response :: responses, frozen)
  end.
End relay.

(** Splits a chain of reads that succeeded. *)
Ltac binds H :=
  repeat (let a := fresh "a" in let E := fresh "E" in
          apply bind_Some in H as (a & E & H)).

(** Evaluates the comparisons of field names. *)
Ltac decide_names :=
  repeat match goal with
         | |- context [bool_decide (?x = ?y :> string)] =>
             let r := eval vm_compute in (bool_decide (x = y)) in
             change (bool_decide (x = y)) with r
         end; cbv iota.

(** The fields a struct was read from. *)
Ltac fields_of H :=
  cbn [struct_fields_all struct_fields] in H; apply mapM_Some in H;
  repeat (let y := fresh "f" in let l := fresh "l" in let E := fresh "F" in
          apply Forall2_cons_inv_l in H as (y & l & E & H & ->));
  apply Forall2_nil_inv_l in H as ->.

(** * Lemmas: fields *)

Lemma value_get_elem k fs v : value_get k (Object fs) = Some v -> (k, v) ∈ fs.
Proof.
  cbn. intros (f & Hf & ->)%fmap_Some. apply List.find_some in Hf as [Hin Hk].
  apply bool_decide_eq_true in Hk as <-. apply in_rev, list_elem_of_In in Hin. by destruct f.
Qed.

Lemma find_field_get fs k v : find_field fs k = Some (Some v) -> value_get k (Object fs) = Some v.
Proof.
  unfold find_field. destruct (List.filter _ fs) as [|f [|]] eqn:E; [done| |done]. intros [= <-].
  assert (forall g, g ∈ fs -> g.1 = k -> g = f) as Huniq.
  { intros g Hg Hk. assert (In g [f]) as [->|[]]; [|done].
    rewrite <- E. apply filter_In. split; [by apply list_elem_of_In | by apply bool_decide_eq_true]. }
  assert (f ∈ fs /\ f.1 = k) as [Hf Hfk].
  { assert (In f [f]) as Hin by by left. rewrite <- E in Hin. apply filter_In in Hin as [Hin Hk].
    split; [by apply list_elem_of_In | by apply bool_decide_eq_true in Hk]. }
  destruct (value_get k (Object fs)) as [w|] eqn:Ew.
  - apply value_get_elem in Ew. f_equal. by rewrite <- (Huniq (k, w) Ew eq_refl).
  - exfalso. cbn in Ew. destruct (List.find _ (rev fs)) as [g|] eqn:Ef; [done|].
    eapply List.find_none in Ef; [|by rewrite <- in_rev; apply list_elem_of_In].
    by apply bool_decide_eq_false in Ef.
Qed.

Lemma filter_keyed {A} k (g : string * A -> string * A) l :
  (forall f, (g f).1 = f.1) ->
  List.filter (fun f => bool_decide (f.1 = k)) (g <$> l) =
    g <$> List.filter (fun f => bool_decide (f.1 = k)) l.
Proof.
  intros Hg. induction l as [|f l IH]; cbn; [done|]. rewrite Hg, IH. by case_match.
Qed.

Lemma find_field_set fs k x v :
  find_field fs k = Some (Some v) -> find_field (set_fields k x fs) k = Some (Some x).
Proof.
  intros Hv. unfold set_fields. assert (has_field k fs = true) as ->.
  { apply find_field_get, value_get_elem in Hv. apply existsb_exists. exists (k, v).
    split; [by apply list_elem_of_In | by apply bool_decide_eq_true]. }
  unfold find_field in *. rewrite filter_keyed by (intros f; by case_bool_decide).
  destruct (List.filter _ fs) as [|f [|]] eqn:E; [done| |done]. cbn. rewrite bool_decide_true; [done|].
  assert (In f [f]) as Hin by by left. rewrite <- E in Hin. apply filter_In in Hin as [_ Hk].
  by apply bool_decide_eq_true in Hk.
Qed.

Lemma find_field_set_other fs k k' x :
  k <> k' -> find_field (set_fields k x fs) k' = find_field fs k'.
Proof.
  intros Hne. unfold find_field, set_fields. destruct (has_field k fs).
  - rewrite filter_keyed by (intros f; by case_bool_decide).
    assert ((fun f : string * Value => if bool_decide (f.1 = k) then (f.1, x) else f) <$>
      List.filter (fun f => bool_decide (f.1 = k')) fs =
      List.filter (fun f => bool_decide (f.1 = k')) fs) as ->; [|done].
    induction fs as [|f fs IH]; cbn; [done|]. case_bool_decide as E; [|done]. cbn.
    rewrite IH, bool_decide_false; congruence.
  - rewrite List.filter_app. cbn. rewrite bool_decide_false by done. by rewrite app_nil_r.
Qed.

Lemma struct_fields_set names k x fs l v :
  struct_fields names (Object fs) = Some l -> find_field fs k = Some (Some v) ->
  struct_fields names (Object (set_fields k x fs)) =
    Some (zip_with (fun name y => if bool_decide (name = k) then Some x else y) names l).
Proof.
  cbn. rewrite !mapM_Some. intros Hl Hk. induction Hl as [|name y names l Hy Hl IH]; cbn; [constructor|].
  constructor; [|done]. case_bool_decide as E; [subst; by apply (find_field_set _ _ _ v)|].
  by rewrite find_field_set_other.
Qed.

Lemma index_field fs k v : find_field fs k = Some (Some v) -> index k (Object fs) = v.
Proof. intros Hv. unfold index. by rewrite (find_field_get _ _ _ Hv). Qed.

Lemma plain_set k x v v' :
  plain v = true -> plain x = true -> set_index k x v = Some v' -> plain v' = true.
Proof.
  intros Hv Hx. destruct v as [| | | | |fs]; try done; intros [= <-]; cbn in *; [by rewrite Hx|].
  unfold set_fields. destruct (has_field k fs).
  - apply forallb_forall. intros f (g & <- & Hg)%in_map_iff.
    rewrite forallb_forall in Hv. specialize (Hv g Hg). by case_bool_decide.
  - rewrite forallb_app, Hv. cbn. by rewrite Hx.
Qed.

Lemma plain_index k v : plain v = true -> plain (index k v) = true.
Proof.
  intros Hv. unfold index. destruct (value_get k v) as [x|] eqn:E; [|done].
  destruct v as [| | | | |fs]; try done. apply value_get_elem, list_elem_of_In in E. cbn in *.
  rewrite forallb_forall in Hv. by apply (Hv (k, x)).
Qed.

(** The two places of an RPC response, once its result is replaced. *)
Lemma RpcResponse_set_result fs r x :
  RpcResponse_from_json (Object fs) = Some (mkRpcResponse (Some r) None) -> x <> Null ->
  index "result" (Object fs) = r /\
  RpcResponse_from_json (Object (set_fields "result" x fs)) = Some (mkRpcResponse (Some x) None).
Proof.
  unfold RpcResponse_from_json, struct_fields_all, struct_fields. remember (index "result" (Object fs)) as i eqn:Ei.
  cbn. intros H Hx.
  rewrite find_field_set_other by done.
  destruct (find_field fs "error") as [e|]; cbn in H |- *;
    [|by destruct (find_field fs "result") as [[]|]].
  destruct (find_field fs "result") as [[v|]|] eqn:Ev; cbn in H; [| |done].
  2:{ destruct (optional RpcError_from_json e); cbn in H; congruence. }
  rewrite (find_field_set _ _ _ _ Ev), Ei, (index_field _ _ _ Ev). cbn.
  destruct (optional RpcError_from_json e) as [e'|]; cbn in H |- *; [|by destruct v].
  split; [by destruct v; cbn in H; simplify_eq|].
  assert (e' = None) as -> by by destruct v; cbn in H; simplify_eq. by destruct x.
Qed.

(** * What the load balancer gets through a relay *)

Section through.
Context `{Alloy} `{SerdeJson}.

Definition body_bytes (x : RespBody) : Bytes :=
  match x with RBytes x => x | RText s => b s | RJson v => to_vec v end.

(** A response as it arrives at the other end. *)
Definition received (r : Response) : HttpResponse :=
  mkHttpResponse r.(resp_status) None [body_bytes r.(resp_body)] BodyDone.

(** An exchange with a relay; the head it keeps is the argument. *)
Definition relayed (send : HttpRequest -> result HttpError HttpResponse)
    (error_text : HttpError -> string) (upstream : Url) (lie : option Lie)
    (frozen : option Value) (q : HttpRequest) : result HttpError HttpResponse :=
  match (relay send error_text upstream q.(req_body) lie frozen).1 with
  | Some r => Ok (received r)
  | None => Err false
  end.

(** The body of the read client's request. *)
Definition rpc_body (id : Z) (method : string) (params : Value) : Value :=
  Object [("jsonrpc", Str "2.0"); ("id", from_u64 id); ("method", Str method);
          ("params", params)]%string.

Lemma rpc_body_back id method params :
  is_u64 id -> plain params = true ->
  from_slice (to_vec (rpc_body id method params)) = Some (rpc_body id method params) /\
  index "method" (rpc_body id method params) = Str method /\
  index "params" (rpc_body id method params) = params.
Proof.
  intros [Hid1 Hid2] Hp. split; [|done]. apply from_slice_to_vec. cbn. rewrite Hp.
  by rewrite (proj2 (Z.leb_le _ _) Hid1), (proj2 (Z.leb_le _ _) Hid2).
Qed.

(** A node's answer to a request: complete, a success, a JSON-RPC result. *)
Record answered_with (send : HttpRequest -> result HttpError HttpResponse) (q : HttpRequest)
    (answer : Bytes) (fs : list (string * Value)) (r : Value) : Prop := {
  aw_sent : exists resp, send q = Ok resp /\ resp.(body_end) = BodyDone /\
    is_success resp.(status) = true /\ concat resp.(chunks) = answer;
  aw_json : from_slice answer = Some (Object fs);
  aw_plain : plain (Object fs) = true;
  aw_result : RpcResponse_from_json (Object fs) = Some (mkRpcResponse (Some r) None);
}.

(** What the read client makes of an answer that came through: over its
    cap, or the result the relay let it see. *)
Lemma relayed_answer_read send error_text upstream lie q answer fs r bytes fs' x reader :
  answered_with send (upstream_request upstream q.(req_body)) answer fs r ->
  altered q.(req_body) answer lie None = Some (bytes, None) ->
  from_slice bytes = Some (Object fs') ->
  RpcResponse_from_json (Object fs') = Some (mkRpcResponse (Some x) None) ->
  let a := call_answer reader (relayed send error_text upstream (Some lie) None q) in
  a = Err (RTooLarge reader.(response_cap)) \/ a = Ok x.
Proof.
  intros [(resp & Es & Ee & Est & <-) _ _ _] Halt Hb Hr. cbv zeta.
  unfold relayed, relay. rewrite Es, Ee, Est, Halt. cbn [fst]. unfold call_answer, received.
  cbn [map_err mbind result_bind status resp_status chunks resp_body body_bytes].
  rewrite Est. cbn [negb guard_err].
  unfold read_body. cbn [content_length chunks body_end read_chunks app length].
  destruct (Z.ltb _ _); [by left|]. right.
  cbn [mbind result_bind]. rewrite Hb. cbn [mbind option_bind]. by rewrite Hr.
Qed.

Lemma altered_answer_read send error_text upstream lie q answer fs r x reader :
  answered_with send (upstream_request upstream q.(req_body)) answer fs r ->
  altered q.(req_body) answer lie None =
    Some (to_vec (Object (set_fields "result" x fs)), None) ->
  plain x = true -> x <> Null ->
  let a := call_answer reader (relayed send error_text upstream (Some lie) None q) in
  a = Err (RTooLarge reader.(response_cap)) \/ a = Ok x.
Proof.
  intros Ha Halt Hx Hnull. pose proof (aw_plain _ _ _ _ _ Ha) as Hp.
  eapply relayed_answer_read; [done.. | |].
  - apply from_slice_to_vec. by apply (plain_set "result" x (Object fs)).
  - by apply (RpcResponse_set_result fs r x (aw_result _ _ _ _ _ Ha)).
Qed.

(** ** A lie about a block *)

Context `{Hex : !HexDigits}.

(** The block as the relay passes it on, but for the key its hash
    becomes. *)
Definition with_hash (k : EntityKey) (x : BlockFields) : BlockFields :=
  mkBlockFields x.(number) k x.(parent_hash) x.(state_root) x.(transactions_root)
    x.(receipts_root) x.(transactions).

Lemma BlockFields_set_hash fs x :
  BlockFields_from_json (Object fs) = Some x ->
  key_from_json (index "hash" (Object fs)) = Some x.(hash) /\
  forall v k, key_from_json v = Some k ->
    BlockFields_from_json (Object (set_fields "hash" v fs)) = Some (with_hash k x).
Proof using Type.
  intros Hx. unfold BlockFields_from_json in Hx |- *. apply bind_Some in Hx as (l & Hl & Hx).
  assert (exists h, find_field fs "hash" = Some (Some h) /\ key_from_json h = Some x.(hash)) as (h & Eh & Hh).
  { pose proof Hl as Hl'. fields_of Hl'. binds Hx. injection Hx as <-.
    destruct f0 as [h|]; [|done]. by exists h. }
  split; [by rewrite (index_field _ _ _ Eh)|]. intros v k Hv.
  rewrite (struct_fields_set _ _ v _ _ _ Hl Eh). fields_of Hl. binds Hx. injection Hx as <-.
  cbn [zip_with]. decide_names.
  change (Some ?l ≫= ?g) with (g l). cbv beta iota.
  rewrite E, E1, E2, E3, E4, E5. cbn. by rewrite Hv.
Qed.

Lemma split_last_snoc head c : split_last (head ++ String c "")%string = Some (head, c).
Proof using Type.
  induction head as [|d head IH]; [done|].
  assert (forall s, (String d head ++ s)%string = String d (head ++ s)%string) as -> by done.
  cbn [split_last]. rewrite IH. by destruct head.
Qed.

Lemma digit_starts_character c : is_Some (digit_value 16 c) -> starts_character c = true.
Proof using Type.
  intros Hc. destruct c as [[] [] [] [] [] [] [] []]; try done; by destruct Hc as [? [=]].
Qed.

Lemma other_digit_differs c :
  is_Some (digit_value 16 c) ->
  is_Some (digit_value 16 (other_digit c)) /\
  digit_value 16 (other_digit c) <> digit_value 16 c.
Proof using Type.
  intros Hc. destruct c as [[] [] [] [] [] [] [] []]; try (by destruct Hc as [? [=]]);
    (split; [by eexists | done]).
Qed.

(** A node's block, its hash written as text that ends in a digit. *)
Record block_written (bfs : list (string * Value)) (x : BlockFields) (head : string) (c : ascii) :
    Prop := {
  ba_block : BlockFields_from_json (Object bfs) = Some x;
  ba_hash : index "hash" (Object bfs) = Str (head ++ String c "")%string;
  ba_digit : is_Some (digit_value 16 c);
}.

(** The result the relay puts in the place of a block. *)
Definition lie_about (bfs : list (string * Value)) (head : string) (c : ascii) : Value :=
  Object (set_fields "hash" (Str (head ++ String (other_digit c) "")%string) bfs).

Lemma lie_about_block bfs x head c :
  block_written bfs x head c ->
  exists k, BlockFields_from_json (lie_about bfs head c) = Some (with_hash k x) /\ k <> x.(hash).
Proof using Hex.
  intros [Hb Hh Hc]. destruct (BlockFields_set_hash bfs x Hb) as [Hx Hset]. rewrite Hh in Hx.
  destruct (other_digit_differs c Hc) as [Hd Hne].
  destruct (key_last_digit head c (other_digit c) _ Hx Hd) as (k & Hk & Hkne).
  exists k. split; [by apply Hset | by apply Hkne].
Qed.

Lemma alter_block_lies request fs bfs x head c :
  RpcResponse_from_json (Object fs) = Some (mkRpcResponse (Some (Object bfs)) None) ->
  block_written bfs x head c -> index "method" request = Str "eth_getBlockByNumber" ->
  alter_block request (Object fs) =
    Some (true, Object (set_fields "result" (lie_about bfs head c) fs)).
Proof using Type.
  intros Hr [Hb Hh Hc] Hm.
  destruct (RpcResponse_set_result fs _ (Object bfs) Hr ltac:(done)) as [Ei _].
  unfold alter_block, is_text. rewrite Hm, bool_decide_true by done. cbn [negb].
  rewrite Ei, Hh. cbn [as_str]. rewrite split_last_snoc. cbn [mbind option_bind].
  by rewrite digit_starts_character by done.
Qed.

(** ** A lie about an entity *)

Lemma has_field_set k x fs : has_field k (set_fields k x fs) = true.
Proof using Type.
  unfold set_fields. destruct (has_field k fs) eqn:E; unfold has_field in *.
  - apply existsb_exists in E as (f & Hf & Hk). apply existsb_exists.
    exists (f.1, x). split; [|done]. apply in_map_iff. exists f. by rewrite Hk.
  - rewrite existsb_app. cbn. by rewrite bool_decide_true, orb_true_r.
Qed.

Lemma set_fields_twice k x y fs : set_fields k x (set_fields k y fs) = set_fields k x fs.
Proof using Type.
  unfold set_fields at 1. rewrite has_field_set. unfold set_fields.
  destruct (has_field k fs) eqn:E.
  - rewrite <- list_fmap_compose. apply list_fmap_ext. intros _ f _. cbn.
    by destruct (bool_decide (f.1 = k)) eqn:Ef; cbn; rewrite Ef.
  - rewrite fmap_app. cbn. rewrite bool_decide_true by done. f_equal.
    unfold has_field in E. induction fs as [|f fs IH]; [done|]. cbn in E |- *.
    apply orb_false_iff in E as [-> E]. f_equal. by apply IH.
Qed.

Definition carries_payload (a : ArkivAttribute) : bool :=
  bool_decide (a.(attr_name) = PAYLOAD_ATTRIBUTE) && bool_decide (a.(attr_type) = "bytes"%string).

(** What an attribute, and a row, becomes. *)
Definition lied_attribute (a : ArkivAttribute) : ArkivAttribute :=
  if carries_payload a
  then mkArkivAttribute a.(attr_name) a.(attr_type)
         (Str (default "0x" (as_str a.(attr_value)) ++ "00"))%string
  else a.
Definition lied_row (e : ArkivEntity) : ArkivEntity :=
  mkArkivEntity e.(ent_key) e.(ent_creator) e.(ent_created_at) e.(ent_updated_at)
    e.(ent_expires_at) (lied_attribute <$> e.(ent_attributes)).
Definition row_carries (e : ArkivEntity) : bool := existsb carries_payload e.(ent_attributes).

Lemma alter_attribute_lies fs a :
  plain (Object fs) = true -> ArkivAttribute_from_json (Object fs) = Some a ->
  exists v, alter_attribute (Object fs) = Some (carries_payload a, v) /\
    ArkivAttribute_from_json v = Some (lied_attribute a) /\ plain v = true.
Proof using Type.
  intros Hp Ha. unfold ArkivAttribute_from_json in Ha |- *. apply bind_Some in Ha as (l & Hl & Ha).
  pose proof Hl as Hset. fields_of Hl. binds Ha. injection Ha as <-.
  destruct f as [[]|], f0 as [[]|]; try done. injection E as ->. injection E0 as ->. subst f1.
  assert (alter_attribute (Object fs) = if carries_payload (mkArkivAttribute a0 a1 a2)
    then Some (true, Object (set_fields "value" (Str (default "0x" (as_str a2) ++ "00")%string) fs))
    else Some (false, Object fs)) as ->.
  { unfold alter_attribute, is_text, carries_payload. cbn [attr_name attr_type].
    rewrite (index_field _ _ _ F), (index_field _ _ _ F0), (index_field _ _ _ F1).
    repeat case_bool_decide; simplify_eq; done. }
  unfold lied_attribute. destruct (carries_payload _); eexists; (split; [done|]).
  - split; [|by apply (plain_set "value" (Str (default "0x" (as_str a2) ++ "00")%string) (Object fs))].
    rewrite (struct_fields_set _ _ _ _ _ _ Hset F1). done.
  - split; [by rewrite Hset | done].
Qed.

(** A loop whose step is known on every element. *)
Lemma alter_each_lies {A} (f : Value -> option (bool * Value)) (from : Value -> option A)
    (hit : A -> bool) (lied : A -> A) (ok : Value -> Prop) items l :
  (forall v a, ok v -> from v = Some a ->
    exists v', f v = Some (hit a, v') /\ from v' = Some (lied a) /\ plain v' = true) ->
  Forall ok items -> mapM from items = Some l ->
  exists items', alter_each f items = Some (existsb hit l, items') /\
    mapM from items' = Some (lied <$> l) /\ plain (Array items') = true.
Proof using Type.
  intros Hf Hok Hl. apply mapM_Some in Hl.
  induction Hl as [|v a items l Hv Hl IH]; [by exists []|].
  apply Forall_cons in Hok as [Hokv Hok]. destruct (Hf v a Hokv Hv) as (v' & Ef & Efrom & Hp).
  destruct (IH Hok) as (items' & Ei & Em & Hps). exists (v' :: items').
  cbn [alter_each existsb]. rewrite Ef. cbn. rewrite Ei. cbn. split; [done|].
  cbn in Hps |- *. rewrite Hp, Hps, Efrom. cbn. by rewrite Em.
Qed.

(** The place the loop runs over, as it was read and as it is left. *)
Lemma alter_array_field key f fs items :
  find_field fs key = Some (Some (Array items)) ->
  alter_array key f (Object fs) =
    ('(hit, items) ← alter_each f items;
     Some (Some hit, Object (set_fields key (Array items) fs))).
Proof using Type.
  intros Hf. unfold alter_array, index_mut. rewrite (index_field _ _ _ Hf). cbn.
  destruct (alter_each f items) as [[hit items']|]; [|done]. cbn. by rewrite set_fields_twice.
Qed.

(** A row, and an answer to a query, as a node writes them: objects, the
    attributes and the rows in arrays. *)
Definition written_attribute (v : Value) : Prop := plain v = true /\ is_object v = true.
Definition written_row (v : Value) : Prop :=
  plain v = true /\ exists fs items, v = Object fs /\
    find_field fs "attributes" = Some (Some (Array items)) /\ Forall written_attribute items.
Record written_answer (qfs : list (string * Value)) (page : QueryResult) : Prop := {
  wa_plain : plain (Object qfs) = true;
  wa_page : QueryResult_from_json (Object qfs) = Some page;
  wa_data : exists rows, find_field qfs "data" = Some (Some (Array rows)) /\ Forall written_row rows;
}.

Lemma alter_row_lies v e :
  written_row v -> ArkivEntity_from_json v = Some e ->
  exists v', alter_row v = Some (row_carries e, v') /\
    ArkivEntity_from_json v' = Some (lied_row e) /\ plain v' = true.
Proof using Type.
  intros (Hp & fs & items & -> & Hi & Hw) He. unfold alter_row. rewrite (alter_array_field _ _ _ _ Hi).
  unfold ArkivEntity_from_json in He |- *. apply bind_Some in He as (l & Hl & He).
  pose proof Hl as Hset. fields_of Hl. binds He. injection He as <-.
  rewrite Hi in F4. injection F4 as <-. cbn [list_from_json] in E4.
  destruct (alter_each_lies alter_attribute ArkivAttribute_from_json carries_payload lied_attribute
    written_attribute items a4) as (items' & -> & Hm & Hp'); [|done..|].
  { intros w x [Hwp Ho] Hx. destruct w as [| | | | |wfs]; try done. by apply alter_attribute_lies. }
  cbn [mbind option_bind]. eexists. split; [done|]. split.
  - rewrite (struct_fields_set _ _ (Array items') _ _ _ Hset Hi). cbn [zip_with]. decide_names.
    change (Some ?l ≫= ?g) with (g l). cbv beta iota. rewrite E, E0, E1, E2, E3. cbn.
    by rewrite Hm.
  - by apply (plain_set "attributes" (Array items') (Object fs)).
Qed.

(** The page as the relay passes it on. *)
Definition lied_page (page : QueryResult) : QueryResult :=
  mkQueryResult (lied_row <$> page.(data)) page.(cursor_) page.(block_number_).

Lemma alter_entities_lies request fs qfs page :
  RpcResponse_from_json (Object fs) = Some (mkRpcResponse (Some (Object qfs)) None) ->
  plain (Object fs) = true -> written_answer qfs page -> by_key_query request = true ->
  exists result, alter_entities request (Object fs) =
      Some (existsb row_carries page.(data), Object (set_fields "result" result fs)) /\
    QueryResult_from_json result = Some (lied_page page) /\ plain result = true.
Proof using Type.
  intros Hr _ [Hp Hq (rows & Hd & Hw)] Hkey.
  destruct (RpcResponse_set_result fs _ (Object qfs) Hr ltac:(done)) as [Ei _].
  unfold alter_entities. rewrite Hkey. cbn [negb]. unfold index_mut at 1. rewrite Ei.
  cbn [set_index mbind option_bind]. rewrite (alter_array_field _ _ _ _ Hd).
  unfold QueryResult_from_json in Hq |- *. apply bind_Some in Hq as (l & Hl & Hq).
  pose proof Hl as Hset. fields_of Hl. binds Hq. injection Hq as <-.
  rewrite Hd in F. injection F as <-. cbn [list_from_json] in E. subst f1.
  destruct (alter_each_lies alter_row ArkivEntity_from_json row_carries lied_row
    written_row rows a) as (rows' & -> & Hm & Hp'); [apply alter_row_lies | done..|].
  cbn [mbind option_bind default set_index]. rewrite set_fields_twice. eexists. split; [done|]. split.
  - rewrite (struct_fields_set _ _ (Array rows') _ _ _ Hset Hd). cbn [zip_with]. decide_names.
    change (Some ?l ≫= ?g) with (g l). cbv beta iota. cbn [list_from_json]. rewrite Hm. cbn.
    by rewrite E0.
  - by apply (plain_set "data" (Array rows') (Object qfs)).
Qed.

(** How much payload text a row carries. *)
Definition payload_text (a : ArkivAttribute) : nat :=
  if carries_payload a
  then match a.(attr_value) with Str s => S (String.length s) | _ => 0%nat end
  else 0%nat.
Definition row_text (l : list ArkivAttribute) : nat := sum_list_with payload_text l.

Lemma payload_text_canonical a : payload_text (canonical_attribute a) = payload_text a.
Proof using Type.
  unfold payload_text. change (carries_payload (canonical_attribute a)) with (carries_payload a).
  destruct a as [n t []]; try done.
Qed.

Lemma payload_text_lied a :
  (payload_text a <= payload_text (lied_attribute a))%nat /\
  (carries_payload a = true -> (payload_text a < payload_text (lied_attribute a))%nat).
Proof using Type.
  unfold lied_attribute. destruct (carries_payload a) eqn:E; [|done].
  unfold payload_text at 2 4. unfold carries_payload at 1 2. cbn [attr_name attr_type].
  fold (carries_payload a). rewrite E. unfold payload_text. rewrite E. cbn [attr_value].
  destruct (attr_value a); cbn; try lia. rewrite string_length_app. cbn. lia.
Qed.

Lemma row_text_sorted e : row_text (ent_attributes (sorted_row e)) = row_text (ent_attributes e).
Proof using Type.
  unfold sorted_row, row_text. cbn [ent_attributes].
  transitivity (sum_list_with payload_text (sort_by name_leb (ent_attributes e))).
  - induction (sort_by name_leb (ent_attributes e)) as [|a l IH]; cbn; [done|].
    by rewrite payload_text_canonical, IH.
  - apply sum_list_with_Permutation_proper, sort_by_perm.
Qed.

Lemma row_text_lied e :
  row_carries e = true -> (row_text (ent_attributes e) < row_text (ent_attributes (lied_row e)))%nat.
Proof using Type.
  assert (forall l, (row_text l <= row_text (lied_attribute <$> l))%nat) as Hle.
  { induction l as [|a l IH]; cbn; [done|]. pose proof (proj1 (payload_text_lied a)). unfold row_text in *. lia. }
  unfold row_carries, lied_row. cbn [ent_attributes].
  induction (ent_attributes e) as [|a l IH]; cbn; [done|]. pose proof (payload_text_lied a) as [? Hlt].
  intros [Ha|Hl]%orb_true_iff; [specialize (Hlt Ha); specialize (Hle l); unfold row_text in *; lia|].
  specialize (IH Hl). unfold row_text in *. lia.
Qed.

(** The rows with their payloads lied about are not the same rows. *)
Lemma lied_rows_differ rows :
  existsb row_carries rows = true -> same_entities (lied_row <$> rows) rows = false.
Proof using Type.
  intros (e & He & Hc)%existsb_exists. unfold same_entities. apply bool_decide_eq_false_2. intros E.
  apply list_elem_of_In, list_elem_of_lookup in He as [i Hi].
  apply (f_equal (lookup i)) in E. rewrite !list_lookup_fmap, Hi in E. apply (inj Some) in E.
  apply (f_equal (fun e => row_text (ent_attributes e))) in E.
  rewrite !row_text_sorted in E. pose proof (row_text_lied e Hc). lia.
Qed.
End through.


(** * A provider every look at which diverges *)

Section caught.
Context `{Alloy} `{SerdeJson} {W : Type} `{World W} `{Issuer W} `{Sleep W}.
Context `{KeyStore W} `{Completions W} `{Dice W} (flip_after : Z).
Context `{Fair_primitives : !Fair W}.
Context {R : Type} `{ChainReader R (Sys W)}.
Context `{Quiet_outside : !CheckerOutside R W flip_after} (ck : IntegrityChecker R).
Context (r : ptr) (u : Url).

(** The entry is in the store, where the agent put it. *)
Definition placed (s : Sys W) : Prop :=
  pool_wf s.(pool) /\ exists p, entry s.(pool) r = Some p /\ provider_wf p /\ p.(url) = u.

Lemma calm_placed {A} (m : M (Sys W) A) s : calm flip_after m -> placed s -> placed (m s).2.
Proof.
  intros [Hq _] (Hwf & p & Hp & Hpwf & Hu). destruct (Hq s) as (hs & Hs & Hall).
  destruct (quiet_steps_ident flip_after _ _ hs Hs Hall) as [_ Hwf'].
  split; [by apply Hwf'|]. eexists. split; [by eapply steps_run|].
  split; [by apply run_wf|]. by destruct (run_place flip_after (events_on r hs) p) as (-> & _).
Qed.

Context (x : Expected).
Context (Hdiverges : forall s, placed s -> (look_at flip_after ck r x s).1.(verdict) = Divergence).

Definition on_r (f : Finding) : Prop := f.(looked_at) = r -> f.(verdict) = Divergence.

Lemma look_on_r l s : placed s -> Forall on_r (look flip_after ck l x s).1.
Proof using Type*.
  intros Hs. unfold look, mbind, M_bind.
  pose proof (calm_placed (completion_order l) s
    (calm_world_only flip_after (completes l) (outside_completes l)) Hs) as Hs1.
  destruct (completion_order l s) as [order s1]. cbn [fst snd] in Hs1.
  clear Hs. revert s1 Hs1. induction order as [|r' order IH]; intros s1 Hs1; [constructor|].
  cbn [look_at_each]. unfold mbind, M_bind.
  pose proof (calm_placed _ s1 (calm_look_at flip_after ck r' x) Hs1) as Hs2.
  pose proof (look_at_finding flip_after ck r' x s1) as [El _].
  assert (on_r (look_at flip_after ck r' x s1).1) as Hf.
  { intros E. rewrite E in El. subst r'. by apply Hdiverges. }
  destruct (look_at flip_after ck r' x s1) as [f s2]. specialize (IH s2 Hs2). cbn [fst snd] in *.
  destruct (look_at_each flip_after ck order x s2) as [fs s3]. by constructor.
Qed.

Lemma confirm_on_r fs s fs' :
  placed s -> Forall on_r fs -> NoDup (looked_at <$> fs) -> Forall with_evidence fs ->
  (confirm flip_after ck fs x s).1 = Some fs' -> Forall on_r fs' /\ looked_at <$> fs' = looked_at <$> fs.
Proof using Type*.
  intros Hs Hfs Hnd Hw. unfold confirm. pose proof (doubtful_sublist fs) as Hsub.
  destruct (doubtful fs) as [|r' l] eqn:Ed; [by intros [= <-]|].
  unfold mbind, M_bind.
  pose proof (calm_placed _ s (outside_sleep ck.(checker_config).(confirm_after)) Hs) as Hs1.
  destruct (sleep _ s) as [[] s1]. cbn [snd] in Hs1.
  pose proof (look_on_r (r' :: l) s1 Hs1) as Hsec.
  pose proof (look_finds flip_after ck (r' :: l) x s1) as [Hl _].
  destruct (look flip_after ck (r' :: l) x s1) as [seconds s2]. cbn [fst snd mret M_ret] in *.
  rewrite <- Ed in *. intros E.
  destruct (replace_findings_spec seconds fs) as (fs2 & E' & En & Hin);
    [|rewrite Hl; by eapply sublist_NoDup | done |].
  { intros f Hf. eapply elem_of_sublist; [|exact Hsub]. rewrite <- Hl. by apply list_elem_of_fmap_2. }
  rewrite E in E'. injection E' as ->. split; [|done]. rewrite Forall_forall in Hfs, Hsec |- *.
  intros f [Hf|[Hf _]]%Hin; auto.
Qed.

Lemma events_on_verdicts fs height :
  NoDup (looked_at <$> fs) -> r ∈ looked_at <$> fs -> Forall on_r fs ->
  events_on r ((fun f => Mine f.(looked_at) (OnVerdict f.(verdict) height)) <$> fs) =
    [OnVerdict Divergence height].
Proof using Type.
  clear Hdiverges. induction fs as [|f fs IH]; cbn; [by intros _ ?%elem_of_nil|].
  rewrite NoDup_cons, Forall_cons, elem_of_cons. intros [Hf Hnd] Hr [Hon Hfs].
  destruct (decide (looked_at f = r)) as [E|E]; cbn.
  - rewrite (Hon E). f_equal. clear -E Hf. rewrite E in Hf. clear E f.
    induction fs as [|f fs IH]; [done|]. cbn in *. rewrite not_elem_of_cons in Hf.
    destruct Hf as [Hne Hf]. rewrite decide_False by congruence. by apply IH.
  - apply IH; [done| |done]. by destruct Hr as [->|Hr].
Qed.

(** It is out of rotation once the round is over, and what it answered is
    the last word on it. *)
Lemma diverging_is_taken_out rs s :
  placed s -> NoDup rs -> r ∈ rs ->
  let '(e, s') := judge_providers flip_after ck rs x s in
  (exists counts, e = Judged x.(finalized).(number) counts) /\
  exists p, entry s'.(pool) r = Some p /\ serving_wrong_data p = true /\ eligible p = false /\
    last_verdict p = Some (Divergence, x.(finalized).(number)).
Proof using Type*.
  intros Hs Hnd Hr. unfold judge_providers, mbind, M_bind.
  pose proof (calm_placed _ s (calm_look flip_after ck rs x) Hs) as Hs1.
  pose proof (look_finds flip_after ck rs x s) as [Hl Hw]. pose proof (look_on_r rs s Hs) as Hon.
  destruct (look flip_after ck rs x s) as [first s1]. cbn [fst snd] in *.
  pose proof (calm_placed _ s1 (calm_confirm flip_after ck first x) Hs1) as Hs2.
  assert (NoDup (looked_at <$> first)) as Hnd1 by by rewrite Hl.
  destruct (confirm_settles flip_after ck first x s1 Hnd1 Hw) as (fs & t & Ec & Hset).
  destruct (confirm_on_r first s1 fs Hs1 Hon Hnd1 Hw Ec) as [Hon' Hl'].
  destruct (confirm flip_after ck first x s1) as [c s2]. cbn [fst snd] in *. subst c.
  unfold record_findings, mbind, M_bind.
  destruct (record_each_writes flip_after fs x.(finalized).(number) [0; 0; 0; 0]%nat s2
              (settled_evidence _ _ _ Hset)) as [E4 S4].
  destruct (record_each flip_after fs _ _ s2) as [c s3]. cbn [fst snd mret M_ret] in *. subst c.
  split; [by eexists|]. destruct Hs2 as (Hwf & p & Hp & Hpwf & _).
  eexists. split; [by eapply steps_run|].
  rewrite events_on_verdicts; [|by rewrite Hl' |by rewrite Hl', Hl | done].
  change (Pool.run flip_after [?e] p) with (apply_event flip_after e p).
  destruct (apply_event_view flip_after (OnVerdict Divergence (number (finalized x))) p Hpwf)
    as (Hwf' & _ & Hwrong). cbn [wrong_after] in Hwrong. split_and!; [done| |].
  - rewrite eligible_gates by apply Hwf'. rewrite Hwrong. by destruct (healthy _).
  - reflexivity.
Qed.
End caught.

(** * A lying relay in front of a provider *)

Section liar.
Context `{Alloy} `{SerdeJson} `{Hex : !HexDigits} {W : Type} `{World W} `{Issuer W} `{Sleep W}.
Context `{KeyStore W} `{Completions W} `{Dice W} (flip_after : Z).
Context `{Fair_primitives : !Fair W}.
Context {R : Type} `{ChainReader R (Sys W)}.
Context `{Quiet_outside : !CheckerOutside R W flip_after} (ck : IntegrityChecker R).

(** The provider's URL leads to the relay, and the relay to a node. *)
Context (r : ptr) (u upstream : Url) (lie : Lie).
Context (send : HttpRequest -> result HttpError HttpResponse) (error_text : HttpError -> string).
Context (Hrelay : forall q w, q.(req_url) = u ->
  (http_post q w).1 = relayed send error_text upstream (Some lie) None q).
Context (Hid : forall w : W, is_u64 (random_id w).1).

(** The node answers the call with the result [v]. *)
Definition node_answers (method : string) (params : Value) (ok : Value -> Prop) : Prop :=
  forall id, is_u64 id -> exists answer fs v,
    answered_with send (upstream_request upstream (to_vec (rpc_body id method params))) answer fs v /\
    ok v.

Definition block_params (height : Z) : Value := Array [param (Number_ height); Bool false].
Definition rows_params (height : Z) (key : EntityKey) : Value :=
  let q := query_at_block height (query_by_key key) in
  Array [Str (query_text q); query_options q].

(** It has the block, as the reference has it. *)
Definition serves_block (x : BlockFields) : Prop :=
  node_answers "eth_getBlockByNumber" (block_params x.(number))
    (fun v => exists bfs head c, v = Object bfs /\ block_written bfs x head c).

(** It has the entity: the rows of the reference, one with a payload. *)
Definition serves_rows (height : Z) (key : EntityKey) (reference : list ArkivEntity) : Prop :=
  node_answers "arkiv_query" (rows_params height key)
    (fun v => exists qfs page, v = Object qfs /\ written_answer qfs page /\
       is_Some (parse_u64 page.(block_number_)) /\
       same_entities page.(data) reference = true /\ existsb row_carries page.(data) = true).

Lemma call_through reader method params s :
  reader.(reader_url) = u ->
  exists id q, is_u64 id /\ q.(req_body) = to_vec (rpc_body id method params) /\
    (call flip_after reader method params s).1 =
      call_answer reader (relayed send error_text upstream (Some lie) None q).
Proof using Hrelay Hid.
  intros Hu. unfold call, random, mbind, M_bind. specialize (Hid s.(world)).
  destruct (random_id s.(world)) as [id w]. cbn [fst snd] in *.
  exists id, (mkHttpRequest POST reader.(reader_url) "application/json" reader.(reader_key)
                (to_vec (rpc_body id method params)) reader.(reader_timeout)).
  split; [done|]. split; [done|]. unfold post.
  match goal with |- context [http_post ?q ?v] =>
    pose proof (Hrelay q v Hu) as E; destruct (http_post q v) as [a w'] end.
  cbn [fst] in E. subst a. by destruct (let_others_run _ _).
Qed.

(** A read the provider answers over its cap is a divergence; so the two
    outcomes of a read through the relay. *)
Definition reads_as {A} (a : result ReadFailure A) (ok : A -> Prop) : Prop :=
  a = Err FailedTooLarge \/ exists v, a = Ok v /\ ok v.

(** What the relay lets through of a node's answer. *)
Lemma node_answer_read method params ok reader s (ok' : Value -> Prop) :
  reader.(reader_url) = u -> plain params = true -> node_answers method params ok ->
  (forall id answer fs v, let request := rpc_body id method params in
    from_slice (to_vec request) = Some request -> index "method" request = Str method ->
    index "params" request = params ->
    answered_with send (upstream_request upstream (to_vec request)) answer fs v -> ok v ->
    exists v', ok' v' /\ plain v' = true /\ v' <> Null /\
      (altered (to_vec request) answer lie None =
         Some (to_vec (Object (set_fields "result" v' fs)), None) \/
       altered (to_vec request) answer lie None = Some (answer, None) /\ v' = v)) ->
  let a := (call flip_after reader method params s).1 in
  a = Err (RTooLarge reader.(response_cap)) \/ exists v', a = Ok v' /\ v' <> Null /\ ok' v'.
Proof using Hrelay Hid.
  intros Hu Hp Hn Hok. destruct (call_through reader method params s Hu) as (id & q & Hq & Hb & ->).
  destruct (Hn id Hq) as (answer & fs & v & Ha & Hv).
  destruct (rpc_body_back id method params Hq Hp) as (Eb & Em & Ep).
  destruct (Hok id answer fs v Eb Em Ep Ha Hv) as (v' & Hv' & Hpl & Hnull & [E|[E ->]]);
    rewrite <- Hb in E, Ha.
  - destruct (altered_answer_read send error_text upstream lie q answer fs v v' reader Ha E Hpl Hnull)
      as [->| ->]; [by left | right; by exists v'].
  - destruct (relayed_answer_read send error_text upstream lie q answer fs v answer fs v reader Ha E
      (aw_json _ _ _ _ _ Ha) (aw_result _ _ _ _ _ Ha)) as [->| ->]; [by left | right; by exists v].
Qed.

Lemma altered_parsed request answer fs v :
  from_slice (to_vec request) = Some request ->
  answered_with send (upstream_request upstream (to_vec request)) answer fs v ->
  altered (to_vec request) answer lie None =
    '(changed, parsed, frozen) ←
      match lie with
      | EntityLie => '(c, v) ← alter_entities request (Object fs); Some (c, v, None)
      | BlockLie => '(c, v) ← alter_block request (Object fs); Some (c, v, None)
      | FrozenHeadLie => freeze_head request (Object fs) None
      end;
    Some ((if (changed : bool) then to_vec parsed else answer), frozen).
Proof using Type. intros Eb Ha. unfold altered. by rewrite Eb, (aw_json _ _ _ _ _ Ha). Qed.

(** ** The two reads of a look *)

Definition block_told (b x : BlockFields) : Prop :=
  match lie with BlockLie => b <> x | _ => b = x end.

Lemma block_read reader x s :
  reader.(reader_url) = u -> serves_block x ->
  let a := (reader_block flip_after reader (Number_ x.(number)) s).1 in
  a = Err (RTooLarge reader.(response_cap)) \/ exists b, a = Ok (Some b) /\ block_told b x.
Proof using Hrelay Hid Hex.
  intros Hu Hx. unfold reader_block.
  opose proof (node_answer_read "eth_getBlockByNumber" (block_params (number x)) _ reader s
    (fun v => exists b, BlockFields_from_json v = Some b /\ block_told b x) Hu eq_refl Hx _) as Hread.
  { intros id answer fs v request Eb Em _ Ha (bfs & head & c & -> & Hbl).
    pose proof (aw_plain _ _ _ _ _ Ha) as Hp. pose proof (aw_result _ _ _ _ _ Ha) as Hr.
    assert (plain (Object bfs) = true) as Hpb.
    { rewrite <- (proj1 (RpcResponse_set_result fs _ (Bool true) Hr ltac:(done))). by apply plain_index. }
    pose proof (altered_parsed request answer fs _ Eb Ha) as ->. unfold block_told.
    destruct lie; [| |].
    - exists (Object bfs). split; [exists x; split; [apply Hbl | done]|]. do 2 (split; [done|]).
      right. split; [|done]. unfold alter_entities, by_key_query, is_text. by rewrite Em.
    - destruct (lie_about_block bfs x head c Hbl) as (k & Hk & Hne).
      exists (lie_about bfs head c). split.
      { exists (with_hash k x). split; [done|]. intros E. apply Hne. by rewrite <- E. }
      split; [by apply (plain_set "hash" (Str (head ++ String (other_digit c) "")%string) (Object bfs))|].
      split; [done|]. left. by rewrite (alter_block_lies request fs bfs x head c Hr Hbl Em).
    - exists (Object bfs). split; [exists x; split; [apply Hbl | done]|]. do 2 (split; [done|]).
      right. split; [|done]. unfold freeze_head, is_text. by rewrite Em. }
  unfold try_m, mbind, M_bind. fold (block_params (number x)).
  destruct (call flip_after reader _ _ s) as [a s']. cbn [fst] in Hread.
  destruct Hread as [->|(v & -> & Hnull & b & Hb & Hbx)]; [by left|].
  right. exists b. split; [|done]. cbn. rewrite Hb. by destruct v.
Qed.

Lemma rows_query height key id :
  by_key_query (rpc_body id "arkiv_query" (rows_params height key)) = true.
Proof using Type.
  unfold by_key_query. assert (as_str (index_at 0 (index "params" (rpc_body id "arkiv_query"
    (rows_params height key)))) = Some ("$key = key(" ++ key_hex key ++ ")")%string) as ->;
    [|done]. done.
Qed.

(** What a relay that lies about entities lets through of the rows. *)
Lemma rows_read reader height key reference s :
  lie = EntityLie -> reader.(reader_url) = u -> serves_rows height key reference ->
  let a := (reader_query flip_after reader (query_at_block height (query_by_key key)) s).1 in
  a = Err (RTooLarge reader.(response_cap)) \/
  exists page, a = Ok page /\ same_entities page.(entities) reference = false.
Proof using Hrelay Hid.
  intros Hlie Hu Hx. unfold reader_query.
  opose proof (node_answer_read "arkiv_query" (rows_params height key) _ reader s
    (fun v => exists page, QueryResult_from_json v = Some page /\
       is_Some (parse_u64 page.(block_number_)) /\ same_entities page.(data) reference = false)
    Hu eq_refl Hx _) as Hread.
  { intros id answer fs v request Eb Em _ Ha (qfs & page & -> & Hw & Hn & Hsame & Hc).
    pose proof (altered_parsed request answer fs _ Eb Ha) as ->. rewrite Hlie.
    destruct (alter_entities_lies request fs qfs page (aw_result _ _ _ _ _ Ha) (aw_plain _ _ _ _ _ Ha)
      Hw (rows_query height key id)) as (v & -> & Hv & Hpv).
    exists v. split; [exists (lied_page page); split; [done|]; split; [done|]|].
    - pose proof (lied_rows_differ page.(data) Hc) as Hd. unfold same_entities in *.
      apply bool_decide_eq_true in Hsame. by rewrite Hsame in Hd.
    - split; [done|]. split; [by intros -> |]. left. by rewrite Hc. }
  unfold try_m, mbind, M_bind. fold (rows_params height key).
  destruct (call flip_after reader _ _ s) as [a s']. cbn [fst] in Hread.
  destruct Hread as [->|(v & -> & Hnull & page & Hp & [n Hn] & Hd)]; [by left|].
  right. cbn. rewrite Hp. cbn. unfold quantity_or. rewrite Hn. by eexists.
Qed.

(** ** Every look at the provider diverges *)

Lemma look_answers x s :
  placed r u s -> exists probed a s', (look_at flip_after ck r x s).1.(verdict) = (judge probed a x).1 /\
    let reader := provider_reader ck u in
    let height := x.(finalized).(number) in
    a.(block_answer) = map_err read_failure (reader_block flip_after reader (Number_ height) s).1 /\
    a.(rows_answer) = (fun entity => map_err read_failure (entities <$>
      (reader_query flip_after reader (query_at_block height (query_by_key entity.(sample))) s').1))
      <$> x.(expected_entity).
Proof using Type.
  intros (_ & p & Hp & _ & Hu). unfold look_at, ask, read_entry, mbind, M_bind. rewrite Hp, Hu.
  cbn beta iota zeta. set (reader := provider_reader ck u). set (height := number (finalized x)).
  destruct (reader_block flip_after reader (Number_ height) s) as [b s1].
  destruct (expected_entity x) as [entity|] eqn:Ex.
  - destruct (reader_query flip_after reader _ s1) as [page s2] eqn:Eq. cbn [mret M_ret].
    match goal with |- context [judge ?probed ?a x] => exists probed, a, s1;
      destruct (judge probed a x) as [v e] end.
    split; [done|]. split; [done|]. cbn. by rewrite Eq.
  - cbn [mret M_ret].
    match goal with |- context [judge ?probed ?a x] => exists probed, a, s1;
      destruct (judge probed a x) as [v e] end. done.
Qed.

Lemma block_liar_diverges x s :
  lie = BlockLie -> serves_block x.(finalized) -> placed r u s ->
  (look_at flip_after ck r x s).1.(verdict) = Divergence.
Proof using Hrelay Hid Hex.
  intros Hlie Hb Hs. destruct (look_answers x s Hs) as (probed & a & s' & -> & Ea & _).
  destruct (block_read (provider_reader ck u) x.(finalized) s eq_refl Hb) as [E|(b & E & Hbx)];
    rewrite E in Ea; unfold judge; rewrite Ea; cbn; [done|].
  unfold block_told in Hbx. rewrite Hlie in Hbx. by rewrite bool_decide_true.
Qed.

Lemma entity_liar_diverges x key reference s :
  lie = EntityLie -> x.(expected_entity) = Some (mkExpectedEntity key (Ok reference)) ->
  serves_block x.(finalized) -> serves_rows x.(finalized).(number) key reference -> placed r u s ->
  (look_at flip_after ck r x s).1.(verdict) = Divergence.
Proof using Hrelay Hid Hex.
  intros Hlie Hx Hb Hr Hs. destruct (look_answers x s Hs) as (probed & a & s' & -> & Ea & Er).
  rewrite Hx in Er. cbn [fmap option_fmap option_map sample] in Er.
  destruct (block_read (provider_reader ck u) x.(finalized) s eq_refl Hb) as [E|(b & E & Hbx)];
    rewrite E in Ea; unfold judge; rewrite Ea; cbn [map_err read_failure]; [done|].
  unfold block_told in Hbx. rewrite Hlie in Hbx. subst b. rewrite bool_decide_false by auto.
  unfold judge_rows. rewrite Hx, Er.
  destruct (rows_read (provider_reader ck u) x.(finalized).(number) key reference s' Hlie eq_refl Hr)
    as [E'|(page & E' & Hd)]; rewrite E'; cbn; [done|]. by rewrite Hd.
Qed.

Lemma expected_of_block b s x : (expected_of ck b s).1 = Some x -> x.(finalized) = b.
Proof using Type.
  unfold expected_of. destruct (negb _); [by intros [= <-]|]. unfold mbind, M_bind.
  destruct (load_keys_if_due _ _ _) as [u0 s1]. destruct (pick_key _ _) as [[k|] s2]; [|done].
  destruct (reference_rows _ _ _ _) as [rows s3]. by intros [= <-].
Qed.

Lemma block_liar_out rs s :
  lie = BlockLie ->
  (forall s x, (finalized_block ck s).1 = Some x -> serves_block x) ->
  placed r u s -> NoDup rs -> r ∈ rs ->
  let '(e, s') := round_over flip_after ck rs s in
  match e with
  | Judged height _ => exists p, entry s'.(pool) r = Some p /\ serving_wrong_data p = true /\
      eligible p = false /\ last_verdict p = Some (Divergence, height)
  | Panicked => False
  | _ => True
  end.
Proof using Type*.
  intros Hlie Hblocks Hs Hnd Hr. unfold round_over. destruct rs as [|r0 rs']; [done|].
  remember (r0 :: rs') as rs eqn:Ers. clear Ers. unfold mbind at 1, M_bind at 1.
  pose proof (calm_placed flip_after r u _ s (calm_finalized_block flip_after ck) Hs) as Hs1.
  specialize (Hblocks s). destruct (finalized_block ck s) as [[b|] s1]; [|done].
  specialize (Hblocks b eq_refl). cbn [fst snd] in Hs1. unfold mbind, M_bind.
  pose proof (calm_placed flip_after r u _ s1 (calm_expected_of flip_after ck b) Hs1) as Hs2.
  pose proof (expected_of_block b s1) as Hx.
  destruct (expected_of ck b s1) as [[x|] s2]; [|done]. cbn [fst snd] in Hs2, Hx.
  specialize (Hx x eq_refl). rewrite <- Hx in Hblocks.
  pose proof (diverging_is_taken_out flip_after ck r u x
    (fun s Hs => block_liar_diverges x s Hlie Hblocks Hs) rs s2 Hs2 Hnd Hr) as Hout.
  destruct (judge_providers flip_after ck rs x s2) as [e s3]. by destruct Hout as [[counts ->] Hout].
Qed.

(** A provider that lies about blocks does not stay in rotation. Its
    node has every block the reference finalizes, the relay in front of
    it answers [eth_getBlockByNumber] with another hash, and the rest as
    the node does: a round over it that judges anybody ends with the
    provider serving wrong data and not eligible, its last verdict a
    divergence at the height judged. *)
Theorem block_liar_is_taken_out rs s :
  lie = BlockLie ->
  (forall s x, (finalized_block ck s).1 = Some x -> serves_block x) ->
  placed r u s -> NoDup rs -> r ∈ rs ->
  let '(e, s') := round_over flip_after ck rs s in
  match e with
  | Judged height _ => exists p, entry s'.(pool) r = Some p /\ serving_wrong_data p = true /\
      eligible p = false /\ last_verdict p = Some (Divergence, height)
  | Panicked => False
  | _ => True
  end.
Proof using Type*. apply block_liar_out. Qed.

(** Nor does one that lies about entities. The round reads a sampled
    entity, which the reference answers with the rows [reference]; the
    node behind the relay answers the same, one row with a payload, and
    the relay adds a byte to it: once the round is over the provider is
    serving wrong data and not eligible. *)
Theorem entity_liar_is_taken_out x key reference rs s :
  lie = EntityLie -> x.(expected_entity) = Some (mkExpectedEntity key (Ok reference)) ->
  serves_block x.(finalized) -> serves_rows x.(finalized).(number) key reference ->
  placed r u s -> NoDup rs -> r ∈ rs ->
  let '(e, s') := judge_providers flip_after ck rs x s in
  (exists counts, e = Judged x.(finalized).(number) counts) /\
  exists p, entry s'.(pool) r = Some p /\ serving_wrong_data p = true /\ eligible p = false /\
    last_verdict p = Some (Divergence, x.(finalized).(number)).
Proof using Type*.
  intros Hlie Hx Hb Hr Hs Hnd Hin.
  exact (diverging_is_taken_out flip_after ck r u x
    (fun s Hs => entity_liar_diverges x key reference s Hlie Hx Hb Hr Hs) rs s Hs Hnd Hin).
Qed.
End liar.

(** * What a lie leaves alone *)

Definition lied_method (lie : Lie) : string :=
  match lie with
  | EntityLie => "arkiv_query"
  | BlockLie => "eth_getBlockByNumber"
  | FrozenHeadLie => "eth_blockNumber"
  end.

(** A relay tells no lie but its own: a request for another method,
    a batch, a body that is not JSON is answered as an honest relay
    answers it, byte for byte, and the head kept stays what it was. So
    the probes of a provider that lies about blocks or entities see its
    node. *)
Theorem relay_tells_only_its_lie `{SerdeJson} send error_text upstream body lie frozen :
  (forall request, from_slice body = Some request -> index "method" request <> Str (lied_method lie)) ->
  relay send error_text upstream body (Some lie) frozen =
    relay send error_text upstream body None frozen.
Proof.
  intros Hm. unfold relay. destruct (send _) as [answer|e]; [|done].
  destruct (body_end answer); [|done]. destruct (is_success (status answer)); [|done].
  assert (altered body (concat (chunks answer)) lie frozen = Some (concat (chunks answer), frozen)) as ->;
    [|done].
  unfold altered. destruct (from_slice body) as [request|]; [|done]. specialize (Hm request eq_refl).
  destruct (from_slice (concat (chunks answer))) as [parsed|]; [|done].
  destruct lie; cbn [lied_method] in Hm;
    [unfold alter_entities, by_key_query | unfold alter_block | unfold freeze_head];
    unfold is_text; rewrite (bool_decide_eq_false_2 _ Hm); done.
Qed.

(** * A head that stays behind *)

Section frozen.
Context `{SerdeJson}.

(** The head kept, in place of whatever the node answers. *)
Lemma frozen_answer send error_text upstream body head request answer fs v :
  from_slice body = Some request -> index "method" request = Str "eth_blockNumber" ->
  answered_with send (upstream_request upstream body) answer fs v -> v <> Null ->
  relay send error_text upstream body (Some FrozenHeadLie) (Some head) =
    (Some (mkResponse (status (default (mkHttpResponse 0 None [] BodyDone)
                                 (result_ok (send (upstream_request upstream body)))))
             [("content-type", "application/json")]%string
             (RBytes (to_vec (Object (set_fields "result" head fs))))), Some head).
Proof.
  intros Eb Em [(resp & Es & Ee & Est & <-) Ej _ Er] Hv. unfold relay. rewrite Es, Ee, Est.
  unfold altered. rewrite Eb, Ej. cbn [mbind option_bind]. unfold freeze_head, is_text.
  destruct (RpcResponse_set_result fs v (Bool true) Er ltac:(done)) as [-> _].
  by rewrite Em, bool_decide_true, bool_decide_false by done.
Qed.

(** What a probe makes of it. *)
Lemma frozen_probe send error_text upstream head request q answer fs v :
  from_slice q.(req_body) = Some request -> index "method" request = Str "eth_blockNumber" ->
  answered_with send (upstream_request upstream q.(req_body)) answer fs v -> v <> Null ->
  plain head = true -> head <> Null ->
  Z.of_nat (length (to_vec (Object (set_fields "result" head fs)))) <= PROBE_RESPONSE_CAP ->
  probe_answer (relayed send error_text upstream (Some FrozenHeadLie) (Some head) q) = hex_quantity head.
Proof.
  intros Eb Em Ha Hv Hp Hh Hlen. unfold relayed.
  rewrite (frozen_answer send error_text upstream _ head request answer fs v Eb Em Ha Hv).
  destruct Ha as [(resp & -> & _ & Est & _) _ Hpl Hr]. cbn [fst result_ok default]. unfold received.
  cbn [probe_answer status chunks body_end resp_status resp_body body_bytes from_option Datatypes.id].
  rewrite Est.
  cbn [probe_body app length]. rewrite Z.add_0_l, (proj2 (Z.ltb_ge _ _)) by done. cbn [mbind option_bind].
  rewrite from_slice_to_vec by by apply (plain_set "result" head (Object fs)). cbn [mbind option_bind].
  destruct (RpcResponse_set_result fs v head Hr Hh) as [_ Hr'].
  assert (value_get "result" (Object (set_fields "result" head fs)) = Some head) as ->; [|done].
  assert (exists w, find_field fs "result" = Some (Some w)) as [w Hw].
  { revert Hr. unfold RpcResponse_from_json, struct_fields_all, struct_fields. cbn.
    destruct (find_field fs "result") as [[w|]|]; [by exists w | |done].
    destruct (find_field fs "error") as [e|]; [|done]. cbn.
    destruct (optional RpcError_from_json e); cbn; congruence. }
  by apply find_field_get, (find_field_set _ _ _ w).
Qed.

(** What the first answer to a probe leaves kept: the head it told. *)
Lemma frozen_first send error_text upstream body request answer fs v :
  from_slice body = Some request -> index "method" request = Str "eth_blockNumber" ->
  answered_with send (upstream_request upstream body) answer fs v -> v <> Null ->
  (relay send error_text upstream body (Some FrozenHeadLie) None).2 = Some v /\ plain v = true.
Proof.
  intros Eb Em [(resp & Es & Ee & Est & <-) Ej Hpl Er] Hv.
  destruct (RpcResponse_set_result fs v (Bool true) Er ltac:(done)) as [E _]. split.
  - unfold relay. rewrite Es, Ee, Est. unfold altered. rewrite Eb, Ej. cbn [mbind option_bind].
    unfold freeze_head, is_text. rewrite E, Em, bool_decide_true, bool_decide_false by done. done.
  - rewrite <- E. by apply plain_index.
Qed.

(** The probe of another quantity sees the node. *)
Lemma frozen_passes send error_text upstream kept request q answer fs v :
  from_slice q.(req_body) = Some request -> index "method" request = Str "eth_chainId" ->
  answered_with send (upstream_request upstream q.(req_body)) answer fs v -> v <> Null ->
  Z.of_nat (length answer) <= PROBE_RESPONSE_CAP ->
  probe_answer (relayed send error_text upstream (Some FrozenHeadLie) kept q) = hex_quantity v.
Proof.
  intros Eb Em [(resp & Es & Ee & Est & <-) Ej Hpl Er] Hv Hlen.
  assert (value_get "result" (Object fs) = Some v) as Hget.
  { destruct (RpcResponse_set_result fs v (Bool true) Er ltac:(done)) as [E _]. revert E.
    unfold index. destruct (value_get "result" (Object fs)); cbn; congruence. }
  assert (altered q.(req_body) (concat resp.(chunks)) FrozenHeadLie kept = Some (concat resp.(chunks), kept))
    as Epass.
  { unfold altered. rewrite Eb, Ej. cbn [mbind option_bind].
    unfold freeze_head, is_text. by rewrite Em, bool_decide_false. }
  unfold relayed, relay. rewrite Es, Ee, Est, Epass. unfold received. cbn [fst]. cbn [probe_answer status chunks body_end resp_status resp_body body_bytes].
  rewrite Est. cbn [probe_body app length]. rewrite Z.add_0_l, (proj2 (Z.ltb_ge _ _)) by done.
  cbn [mbind option_bind]. rewrite Ej. cbn [mbind option_bind]. by rewrite Hget.
Qed.
End frozen.

(** C30: A provider whose relay keeps answering the first head it saw goes
    out for lag. Through the relay the first answer of its node to a probe
    leaves [head] kept; the reference is read, and ahead of that head by
    more than the tolerance; whatever height the node itself answers
    later, and with the chain id the configuration names when it names
    one, the provider is still a member after [flip_after] sweeps in which
    only its probes judge it, but neither healthy nor eligible, and the
    reason shown is lag. *)
Theorem frozen_head_goes_out `{SerdeJson} {W} `{World W} {R} `{ChainReader R (Sys W)}
    (m : Monitor R) r u i0 T first send error_text upstream request answer fs head stuck n l (s : Sys W) :
  let kept := (relay first error_text upstream (quoted block_number_probe)
                 (Some FrozenHeadLie) None).2 in
  from_slice (quoted block_number_probe) = Some request ->
  index "method" request = Str "eth_blockNumber" ->
  answered_with first (upstream_request upstream (quoted block_number_probe)) answer fs head ->
  hex_quantity head = Some stuck ->
  (forall q w, q.(req_url) = u ->
     (http_post q w).1 = relayed (send w) error_text upstream (Some FrozenHeadLie) kept q) ->
  (forall w : W, exists answer fs v,
     answered_with (send w) (upstream_request upstream (quoted block_number_probe)) answer fs v /\
     v <> Null /\ Z.of_nat (length (to_vec (Object (set_fields "result" head fs)))) <= PROBE_RESPONSE_CAP) ->
  (forall id, m.(monitor_config).(health_chain_id) = Some id -> exists asked,
     from_slice (quoted chain_id_probe) = Some asked /\ index "method" asked = Str "eth_chainId" /\
     forall w : W, exists answer fs v,
       answered_with (send w) (upstream_request upstream (quoted chain_id_probe)) answer fs v /\
       hex_quantity v = Some id /\ Z.of_nat (length answer) <= PROBE_RESPONSE_CAP) ->
  1 <= m.(monitor_config).(flip_after) <= i64_max ->
  m.(monitor_config).(flip_after) <= Z.of_nat n ->
  undisturbed r i0 T false (eq Lag) ->
  reference_at m r i0 T false (eq Lag)
    (fun ref => exists x, ref = Some x /\
       sat_add_u64 stuck m.(monitor_config).(lag_tolerance_blocks) < x) l ->
  member_of r u i0 T (checkable m) s.(pool) ->
  let s' := (Monitor.run m n l s).2 in
  kept = Some head /\ r ∈ s'.(pool).(members) /\
  exists p, entry s'.(pool) r = Some p /\ healthy p = false /\ eligible p = false /\
    ineligibility_reason p = Some "lag"%string.
Proof.
  intros kept Eb Em Ha Hh Hrelay Hlater Hid Hf Hn Hu Hr Hs.
  assert (head <> Null) as Hnull by by intros ->.
  destruct (frozen_first first error_text upstream _ request answer fs head Eb Em Ha Hnull) as [Ek Hp].
  fold kept in Ek. split; [exact Ek|]. rewrite Ek in Hrelay.
  apply (provider_behind_goes_out m r u i0 T stuck n l s Hf Hn Hu); [|done..]. split.
  - intros q w Hq Hb. exists stuck. split; [|lia]. rewrite (Hrelay q w Hq), <- Hh.
    destruct (Hlater w) as (answer' & fs' & v' & Ha' & Hv' & Hlen). rewrite <- Hb in Eb, Ha'.
    by eapply frozen_probe.
  - intros q w id Eid Hq Hb. destruct (Hid id Eid) as (asked & Ea & Ema & Hw).
    destruct (Hw w) as (answer' & fs' & v' & Ha' & Hv' & Hlen). rewrite (Hrelay q w Hq), <- Hv'.
    rewrite <- Hb in Ea, Ha'. eapply frozen_passes; try done. by intros ->.
Qed.

(** * Witnesses *)

(** A node with one block and one entity, at whatever it is asked. *)
Definition sampled_json (payload : string) : Value :=
  Object [("key", Str (key_hex 9)); ("creator", Str (addr_hex 2)); ("createdAt", Str "0x3");
          ("updatedAt", Str "0x3"); ("expiresAt", Str "0x20");
          ("attributes", Array [Object [("name", Str PAYLOAD_ATTRIBUTE); ("type", Str "bytes");
                                        ("value", Str payload)]])]%string.
Definition sampled_rows : list ArkivEntity :=
  [mkArkivEntity 9 2 3 3 32 [mkArkivAttribute PAYLOAD_ATTRIBUTE "bytes" (Str "0xabcd")]].
Definition demo_result (method : string) : Value :=
  if bool_decide (method = "eth_getBlockByNumber"%string) then block_json demo_block
  else Object [("data", Array [sampled_json "0xabcd"]); ("blockNumber", Str "0x7")]%string.
Definition demo_node (q : HttpRequest) : result HttpError HttpResponse :=
  match from_slice q.(req_body) with
  | Some request =>
      let result := demo_result (default EmptyString (as_str (index "method" request))) in
      Ok (mkHttpResponse 200 None
            [to_vec (Object [("jsonrpc", Str "2.0"); ("result", result)]%string)] BodyDone)
  | None => Err false
  end.
Definition demo_error (_ : HttpError) : string := EmptyString.

(** A row without attributes is not left as it is: looking for them puts
    a [null] there, and the answer is no longer one the reader reads. *)
Example bare_row_is_written_to :
  let bare := Object [("key", Str (key_hex 8)); ("creator", Str (addr_hex 2)); ("createdAt", Str "0x3");
                      ("updatedAt", Str "0x3"); ("expiresAt", Str "0x20")]%string in
  let page := Object [("data", Array [bare; sampled_json "0xabcd"]); ("blockNumber", Str "0x7")]%string in
  let request := rpc_body 1 "arkiv_query" (rows_params 7 8) in
  is_Some (QueryResult_from_json page) /\
  exists page', alter_entities request (Object [("result", page)]%string) =
      Some (true, Object [("result", page')]%string) /\ QueryResult_from_json page' = None.
Proof.
  split; [eexists; vm_compute; reflexivity|].
  eexists. split; [vm_compute; reflexivity | vm_compute; reflexivity].
Qed.

(** The provider ["http://a"] is the relay with its lie; everything else
    is the node. *)
Record Deceived (lie : Lie) : Type := mkDeceived { deceived_page : KeyPage }.
Arguments mkDeceived {lie}.
Arguments deceived_page {lie}.

Section deceived.
Context (lie : Lie).

#[export] Instance deceived_world : World (Deceived lie) := {
  clock w := (0, w);
  http_post q w :=
    (if bool_decide (q.(req_url) = "http://a"%string)
     then relayed demo_node demo_error "http://node" (Some lie) None q else demo_node q, w);
  others w := ([], w);
  random_id w := (1, w);
  others_select w := (fun _ => 0, w);
}.
#[export] Instance deceived_issuer : Issuer (Deceived lie) := {
  issued _ _ := True;
  in_order _ := True;
}.
#[export] Instance deceived_sleep : Sleep (Deceived lie) := { sleep _ := let_others_run 1 }.
#[export] Instance deceived_keys : KeyStore (Deceived lie) := {
  load_page := deceived_page;
  store_page p _ := mkDeceived p;
}.
#[export] Instance deceived_completions : Completions (Deceived lie) := { completes l w := (l, w) }.
#[export] Instance deceived_dice : Dice (Deceived lie) := { roll n w := (Nat.pred n, w) }.
#[export] Instance deceived_fair : Fair (Deceived lie).
Proof. split; cbn; [done | lia | done]. Qed.
#[export] Instance deceived_rely : Rely (Deceived lie).
Proof. by split. Qed.
#[export] Instance deceived_reads : ChainReader Reader (Sys (Deceived lie)) | 0 := reader_chain_reader 1.
#[export] Instance deceived_reader_quiet : QuietReader Reader (Deceived lie) 1 := reader_quiet 1.

#[export] Instance deceived_outside : CheckerOutside Reader (Deceived lie) 1.
Proof.
  assert (forall {A} (m : M (Sys (Deceived lie)) A), quiet 1 m -> calm 1 m) as Hc.
  { intros A m Hm. by split. }
  split; try (intros; exact I || done); intros; try apply Hc.
  - apply quiet_block.
  - apply quiet_query.
  - apply quiet_post, deceived_rely.
  - apply quiet_others, deceived_rely.
  - apply quiet_clock.
  - apply quiet_random.
  - apply quiet_others, deceived_rely.
Qed.

Definition deceived_start : Sys (Deceived lie) :=
  mkSys (snd (pool_add (provider_new 0 "a" "http://a" Static) empty_pool)) (mkDeceived default_page) [].

Lemma deceived_placed : placed 0%nat "http://a" deceived_start.
Proof.
  split; [apply pool_add_wf, empty_pool_wf|]. eexists. split; [by vm_compute|].
  split; [apply provider_new_wf | done].
Qed.

(** Where the provider's reads go. *)
Lemma deceived_relays q (w : Deceived lie) :
  q.(req_url) = "http://a"%string ->
  (http_post q w).1 = relayed demo_node demo_error "http://node" (Some lie) None q.
Proof. intros Hq. cbn. by rewrite bool_decide_true. Qed.

Lemma deceived_ids (w : Deceived lie) : is_u64 (random_id w).1.
Proof. cbn [random_id deceived_world fst]. unfold is_u64, u64_max. lia. Qed.

Lemma demo_node_answers method params :
  plain params = true -> method = "eth_getBlockByNumber"%string \/ method = "arkiv_query"%string ->
  node_answers "http://node" demo_node method params (fun v => v = demo_result method).
Proof.
  intros Hp Hm id Hid. destruct (rpc_body_back id method params Hid Hp) as (Eb & Em & _).
  assert (plain (demo_result method) = true) as Hpl by by destruct Hm as [-> | ->].
  set (fs := [("jsonrpc", Str "2.0"); ("result", demo_result method)]%string).
  exists (to_vec (Object fs)), fs, (demo_result method). split; [|done]. split.
  - exists (mkHttpResponse 200 None [to_vec (Object fs)] BodyDone). split.
    { unfold demo_node, upstream_request. cbn [req_body]. by rewrite Eb, Em. }
    split_and!; [done.. | apply app_nil_r].
  - apply from_slice_to_vec. cbn. by rewrite Hpl.
  - cbn. by rewrite Hpl.
  - by destruct Hm as [-> | ->].
Qed.

Lemma node_answers_impl send upstream method params (P Q : Value -> Prop) :
  (forall v, P v -> Q v) -> node_answers upstream send method params P ->
  node_answers upstream send method params Q.
Proof.
  intros Hpq Hp id Hid. destruct (Hp id Hid) as (answer & fs & v & Ha & Hv). eauto 6.
Qed.

Lemma demo_serves_block : serves_block "http://node" demo_node demo_block.
Proof.
  eapply node_answers_impl; [|apply demo_node_answers; [done | by left]]. intros v ->.
  eexists _, (default EmptyString (fst <$> split_last (key_hex 1))), "1"%char.
  split; [by vm_compute|]. split; [by vm_compute.. | by eexists].
Qed.

Lemma demo_serves_rows : serves_rows "http://node" demo_node 7 9 sampled_rows.
Proof.
  eapply node_answers_impl; [|apply demo_node_answers; [done | by right]]. intros v ->.
  eexists _, (mkQueryResult sampled_rows None (Str "0x7")). split; [by vm_compute|].
  split_and!; [|by vm_compute; eexists | by vm_compute..]. split; [by vm_compute..|].
  eexists. split; [by vm_compute|]. constructor; [|constructor]. split; [by vm_compute|].
  eexists _, _. split_and!; [by vm_compute | by vm_compute |]. by repeat constructor.
Qed.
End deceived.

(** The chain probe of a provider that lies about blocks. *)
Definition demo_chain_request : Bytes :=
  to_vec (Object [("id", from_u64 0); ("method", Str "eth_chainId"); ("params", Array [])]%string).
Lemma relay_tells_only_its_lie_witness :
  relay demo_node demo_error "http://node" demo_chain_request (Some BlockLie) None =
    relay demo_node demo_error "http://node" demo_chain_request None None.
Proof.
  apply relay_tells_only_its_lie. intros request Hr.
  assert (request = Object [("id", from_u64 0); ("method", Str "eth_chainId"); ("params", Array [])]%string)
    as -> by (vm_compute in Hr; by injection Hr as <-). vm_compute. congruence.
Defined.

Lemma block_liar_is_taken_out_witness :
  let '(e, s') := round_over 1 demo_checker [0%nat] (deceived_start BlockLie) in
  (exists counts, e = Judged 7 counts) /\
  exists p, entry s'.(pool) 0%nat = Some p /\ serving_wrong_data p = true /\ eligible p = false.
Proof.
  assert (exists counts, (round_over 1 demo_checker [0%nat] (deceived_start BlockLie)).1 =
    Judged 7 counts) as [counts Ec] by (eexists; vm_compute; reflexivity).
  pose proof (block_liar_is_taken_out 1 demo_checker 0%nat "http://a" "http://node" BlockLie
    demo_node demo_error (deceived_relays BlockLie) (deceived_ids BlockLie) [0%nat]
    (deceived_start BlockLie) eq_refl) as Hout.
  destruct (round_over _ _ _ _) as [e s']. cbn [fst] in Ec. subst e. split; [by eexists|].
  destruct Hout as (p & Hp & Hw & He & _).
  - intros s x Hx. assert (x = demo_block) as ->; [|apply demo_serves_block].
    destruct s as [pl [page] h]. vm_compute in Hx. injection Hx as <-. by vm_compute.
  - apply deceived_placed.
  - apply NoDup_singleton.
  - by left.
  - by exists p.
Defined.

(** The round has sampled the entity. *)
Definition demo_expected : Expected :=
  mkExpected demo_block (Some (mkExpectedEntity 9 (Ok sampled_rows))).

Lemma entity_liar_is_taken_out_witness :
  let s' := (judge_providers 1 demo_checker [0%nat] demo_expected (deceived_start EntityLie)).2 in
  exists p, entry s'.(pool) 0%nat = Some p /\ serving_wrong_data p = true /\ eligible p = false.
Proof.
  pose proof (entity_liar_is_taken_out 1 demo_checker 0%nat "http://a" "http://node" EntityLie
    demo_node demo_error (deceived_relays EntityLie) (deceived_ids EntityLie) demo_expected 9
    sampled_rows [0%nat] (deceived_start EntityLie) eq_refl eq_refl demo_serves_block
    demo_serves_rows (deceived_placed EntityLie) (NoDup_singleton _)
    (list_elem_of_here _ _)) as Hout.
  destruct (judge_providers _ _ _ _ _) as [e s'].
  destruct Hout as (_ & p & Hp & Hw & He & _). by exists p.
Defined.

(** The probes' own texts, read as JSON. *)
Definition probe_json (method : string) : Value :=
  Object [("jsonrpc", Str "2.0"); ("id", from_u64 0); ("method", Str method);
          ("params", Array [])]%string.
#[local] Instance probing_serde : SerdeJson.
Proof.
  refine {|
    to_vec := @to_vec concrete_serde_json;
    from_slice x := if bool_decide (x = quoted block_number_probe) then Some (probe_json "eth_blockNumber")
                    else if bool_decide (x = quoted chain_id_probe) then Some (probe_json "eth_chainId")
                    else @from_slice concrete_serde_json x;
    from_slice_error := @from_slice_error concrete_serde_json;
    value_text := @value_text concrete_serde_json;
    from_value_error := @from_value_error concrete_serde_json;
  |}.
  intros v Hv. rewrite !bool_decide_false; [by apply (@from_slice_to_vec concrete_serde_json)|..];
    intros E; cbn in E; injection E as _ E; by destruct (countable.encode (value_tree v)).
Defined.

(** A node of chain 7 whose relay has seen it at height 10, and that is at
    60 now; the reference is at 60. *)
Definition told (x : string) : list (string * Value) :=
  [("jsonrpc", Str "2.0"); ("result", Str x)]%string.
Definition at_height (x : string) : HttpRequest -> result HttpError HttpResponse := fun q =>
  Ok (mkHttpResponse 200 None
        [to_vec (Object (told (if bool_decide (q.(req_body) = quoted chain_id_probe) then "0x7" else x)))]
        BodyDone).
Definition kept_head : option Value :=
  (relay (at_height "0xa") demo_error "http://node" (quoted block_number_probe) (Some FrozenHeadLie) None).2.
Record Stuck : Type := mkStuck {}.
#[local] Instance stuck_world : World Stuck := {
  clock w := (7, w);
  http_post q w :=
    (relayed (at_height "0x3c") demo_error "http://node" (Some FrozenHeadLie) kept_head q, w);
  others w := ([], w);
  random_id w := (1, w);
  others_select w := (fun _ => 0, w);
}.
#[local] Instance stuck_reader : ChainReader Told (Sys Stuck) := {
  block_number x := mret (Ok x.(told_height));
  block _ _ := mret (Ok None);
  balance _ _ := mret (Ok 0);
  query _ _ := mret (Ok (mkPage [] false 0));
  count _ _ := mret (Ok 0);
}.
Definition demo_stuck : Sys Stuck :=
  mkSys (update 0%nat (apply_event 1 (OnHealth true Probe))
           (snd (pool_add (provider_new 0 "a" "http://a" Static) empty_pool))) mkStuck [].
Definition chain_seven : Health :=
  let c := default_health in
  mkHealth c.(probe_interval) c.(probe_timeout) c.(flip_after) c.(max_probe_backoff)
    c.(ref_height_interval) c.(chainid_check_interval) (Some 7) c.(lag_tolerance_blocks)
    c.(disable_probing).

Lemma at_height_answers height body x :
  (if bool_decide (body = quoted chain_id_probe) then "0x7"%string else height) = x ->
  RpcResponse_from_json (Object (told x)) = Some (mkRpcResponse (Some (Str x)) None) ->
  answered_with (at_height height) (upstream_request "http://node" body)
    (to_vec (Object (told x))) (told x) (Str x).
Proof.
  intros Ex Er. split; [|by apply from_slice_to_vec | done | done].
  eexists. split; [reflexivity|]. cbn [upstream_request req_body]. rewrite Ex.
  split_and!; [done..|]. apply app_nil_r.
Qed.

Lemma frozen_head_goes_out_witness :
  let l := mkLoop (mkReferenceHeight (Some 60) (Some 0)) None 0 false in
  exists p, entry (Monitor.run (mkMonitor chain_seven (Some (mkTold 60))) 3 l demo_stuck).2.(pool) 0%nat
    = Some p /\ eligible p = false /\ ineligibility_reason p = Some "lag"%string.
Proof.
  set (m := mkMonitor chain_seven (Some (mkTold 60))). intros l.
  assert (undisturbed (W := Stuck) 0%nat "a" 7 false (eq Lag)) as Hu.
  { split; [intros w; cbn; lia | intros w; constructor]. }
  assert (reference_at (W := Stuck) m 0%nat "a" 7 false (eq Lag)
    (fun ref => exists x, ref = Some x /\
       sat_add_u64 10 m.(monitor_config).(lag_tolerance_blocks) < x) l) as Hr.
  { split; [exists 60; split; [done|]; cbn; machine_unfold; lia|]. intros reader [= <-].
    split; [apply does_ret|]. intros s. exists 60. split; [done|]. cbn. machine_unfold. lia. }
  assert (member_of 0%nat "http://a" "a" 7 (checkable m) demo_stuck.(pool)) as Hs.
  { split; [apply update_wf, pool_add_wf, empty_pool_wf | by left |].
    eexists. split; [by vm_compute|]. split_and!; [by vm_compute | constructor; by vm_compute | by vm_compute.. |].
    right. right. by vm_compute. }
  assert (1 <= m.(monitor_config).(flip_after) <= i64_max) as Hf by (cbn; unfold i64_max; lia).
  assert (m.(monitor_config).(flip_after) <= Z.of_nat 3) as H3 by (cbn; lia).
  assert (from_slice (quoted block_number_probe) = Some (probe_json "eth_blockNumber")) as Hj by (by vm_compute).
  assert (from_slice (quoted chain_id_probe) = Some (probe_json "eth_chainId")) as Hc by (by vm_compute).
  assert (Z.of_nat (length (to_vec (Object (set_fields "result" (Str "0xa") (told "0x3c"))))) <= PROBE_RESPONSE_CAP)
    as Hl by (vm_compute; congruence).
  assert (Z.of_nat (length (to_vec (Object (told "0x7")))) <= PROBE_RESPONSE_CAP)
    as Hl7 by (vm_compute; congruence).
  pose proof (at_height_answers "0xa" (quoted block_number_probe) "0xa" ltac:(by vm_compute) eq_refl) as Ha.
  pose proof (at_height_answers "0x3c" (quoted block_number_probe) "0x3c" ltac:(by vm_compute) eq_refl) as Hb.
  pose proof (at_height_answers "0x3c" (quoted chain_id_probe) "0x7" ltac:(by vm_compute) eq_refl) as Hd.
  assert (forall w : Stuck, exists answer fs v,
    answered_with (at_height "0x3c") (upstream_request "http://node" (quoted block_number_probe)) answer fs v /\
    v <> Null /\
    Z.of_nat (length (to_vec (Object (set_fields "result" (Str "0xa") fs)))) <= PROBE_RESPONSE_CAP) as Hlater.
  { intros w. exists (to_vec (Object (told "0x3c"))), (told "0x3c"), (Str "0x3c").
    split; [exact Hb|]. split; [discriminate | exact Hl]. }
  assert (forall id, m.(monitor_config).(health_chain_id) = Some id -> exists asked,
    from_slice (quoted chain_id_probe) = Some asked /\ index "method" asked = Str "eth_chainId" /\
    forall w : Stuck, exists answer fs v,
      answered_with (at_height "0x3c") (upstream_request "http://node" (quoted chain_id_probe)) answer fs v /\
      hex_quantity v = Some id /\ Z.of_nat (length answer) <= PROBE_RESPONSE_CAP) as Hid.
  { intros id [= <-]. exists (probe_json "eth_chainId"). split; [exact Hc|]. split; [reflexivity|].
    intros w. exists (to_vec (Object (told "0x7"))), (told "0x7"), (Str "0x7").
    split; [exact Hd|]. split; [reflexivity | exact Hl7]. }
  pose proof (frozen_head_goes_out m 0%nat "http://a" "a" 7 (at_height "0xa") (fun _ => at_height "0x3c")
    demo_error "http://node" (probe_json "eth_blockNumber") (to_vec (Object (told "0xa"))) (told "0xa")
    (Str "0xa") 10 3 l demo_stuck Hj eq_refl Ha eq_refl (fun q w _ => eq_refl) Hlater Hid Hf H3 Hu Hr Hs)
    as Hout.
  destruct Hout as (_ & _ & p & Hp & _ & He & Hw). exists p. exact (conj Hp (conj He Hw)).
Defined.
