(* ===== verification/Load.v ===== *)
(** The load generator of the test rig, [crates/rig/src/load.rs]:
    workers that send reads and count how each was answered, the windows
    their outcomes are collected in, and the lines that report them.

    The lines print floating-point numbers; they are computed here in
    binary64, as [Floats.SpecFloat] specifies it. *)

From Stdlib Require Import SpecFloat.
From S2P Require Import Prelude External Concrete Denylist Jsonrpc Pool World Forwarder Records Config Proxy Monitor Relay.

#[local] Open Scope Z_scope.

(** * Binary64 and its text *)

Definition f64_of (n : Z) : spec_float := binary_normalize 53 1024 n 0 false.
Definition f64_add : spec_float -> spec_float -> spec_float := SFadd 53 1024.
Definition f64_mul : spec_float -> spec_float -> spec_float := SFmul 53 1024.
Definition f64_div : spec_float -> spec_float -> spec_float := SFdiv 53 1024.

(** [Duration::as_secs_f64]. *)
Definition as_secs_f64 (d : Z) : spec_float :=
  f64_add (f64_of (d / NANOS)) (f64_div (f64_of (d mod NANOS)) (f64_of NANOS)).

(** [n / 2 ^ e], to the nearest, a tie to the even one. *)
Definition nearest_even (n e : Z) : Z :=
  let q := Z.shiftr n e in
  let rest := n - Z.shiftl q e in
  match Z.compare (2 * rest) (Z.shiftl 1 e) with
  | Lt => q
  | Gt => q + 1
  | Eq => if Z.even q then q else q + 1
  end.

Fixpoint pad_zeros (n : nat) (s : string) : string :=
  match n with O => s | S n => if Nat.leb (S n) (String.length s) then s else String "0" (pad_zeros n s) end.

(** [format!("{:.k$}")]. *)
Definition float_text (k : nat) (x : spec_float) : string :=
  match x with
  | S754_nan => "NaN"
  | S754_infinity s => if s then "-inf" else "inf"
  | S754_zero s => (if s then "-" else "") ++ "0" ++ (if k is O then "" else "." ++ pad_zeros k "")
  | S754_finite s m e =>
      let scaled := Z.pos m * 10 ^ Z.of_nat k in
      let n := if Z.leb 0 e then Z.shiftl scaled e else nearest_even scaled (- e) in
      let whole := n / 10 ^ Z.of_nat k in
      let rest := n mod 10 ^ Z.of_nat k in
      (if s then "-" else "") ++ decimal whole ++
        (if k is O then "" else "." ++ pad_zeros k (decimal rest))
  end%string.

Example float_texts :
  float_text 1 (as_secs_f64 (from_secs 10)) = "10.0"%string /\
  float_text 1 (as_secs_f64 1250000000) = "1.2"%string /\
  float_text 0 (f64_div (f64_of 1000) (as_secs_f64 (from_secs 3))) = "333"%string /\
  float_text 1 (f64_mul (as_secs_f64 1234567) (f64_of 1000)) = "1.2"%string /\
  float_text 0 (f64_div (f64_of 5) (as_secs_f64 0)) = "inf"%string /\
  float_text 2 (f64_div (f64_of 1) (f64_of 20)) = "0.05"%string.
Proof. by vm_compute. Qed.

(** * What the workers ask *)

Definition METHODS : list string :=
  ["eth_blockNumber"; "eth_chainId"; "eth_gasPrice"; "net_version"]%string.
Definition ALL_ENTITIES : string := "$expiresAt > u64(0)".

Inductive Requests : Type := Cheap | Query (filter : string).

(** The body of the worker's [turn]th request; the index is in range. *)
Definition request_body (r : Requests) (turn : nat) : Value :=
  match r with
  | Cheap =>
      Object [("jsonrpc", Str "2.0"); ("id", from_u64 1);
              ("method", Str (nth (turn mod length METHODS) METHODS EmptyString));
              ("params", Array [])]%string
  | Query filter =>
      Object [("jsonrpc", Str "2.0"); ("id", from_u64 1); ("method", Str "arkiv_query");
              ("params", Array [Str filter;
                 Object [("select", Object [("key", Bool true); ("attributes", Bool true)]);
                         ("limit", Str "0x64")]])]%string
  end.

(** * Outcomes *)

Record Failure : Type := mkFailure { failure_kind : string; failure_reason : string }.

(** The [BTreeMap] of failures iterates in the order of its keys. *)
Record LoadStats : Type := mkLoadStats {
  load_sent : Z;
  load_ok : Z;
  load_failed : Z;
  load_failures : gmap string (Z * string);
  load_latencies : list Z;
}.
Definition default_load_stats : LoadStats := mkLoadStats 0 0 0 ∅ [].

(** [entry(kind).or_insert((0, reason)).0 += count]. *)
Definition add_failures (kind : string) (count : Z) (reason : string)
    (m : gmap string (Z * string)) : gmap string (Z * string) :=
  let '(n, first) := default (0, reason) (m !! kind) in <[kind := (add_u64 n count, first)]> m.

Definition stats_record (outcome : result Failure Z) (st : LoadStats) : LoadStats :=
  let sent := add_u64 st.(load_sent) 1 in
  match outcome with
  | Ok latency =>
      mkLoadStats sent (add_u64 st.(load_ok) 1) st.(load_failed) st.(load_failures) (st.(load_latencies) ++ [latency])
  | Err failure =>
      mkLoadStats sent st.(load_ok) (add_u64 st.(load_failed) 1)
        (add_failures failure.(failure_kind) 1 failure.(failure_reason) st.(load_failures)) st.(load_latencies)
  end.

Definition stats_merge (st other : LoadStats) : LoadStats :=
  mkLoadStats (add_u64 st.(load_sent) other.(load_sent)) (add_u64 st.(load_ok) other.(load_ok))
    (add_u64 st.(load_failed) other.(load_failed))
    (foldl (fun m f => add_failures f.1 f.2.1 f.2.2 m) st.(load_failures)
       (sort_by key_leb (map_to_list other.(load_failures))))
    (st.(load_latencies) ++ other.(load_latencies)).

(** * The lines *)

Definition ms (d : Z) : string :=
  (float_text 1 (f64_mul (as_secs_f64 d) (f64_of 1000)) ++ " ms")%string.
Definition rate (st : LoadStats) (elapsed : Z) : string :=
  float_text 0 (f64_div (f64_of st.(load_sent)) (as_secs_f64 elapsed)).

(** [iter().sum::<Duration>()]: a panic past what a [Duration] holds. *)
Definition sum_durations (l : list Z) : option Z :=
  foldl (fun acc d => acc ← acc; if Z.leb (acc + d) duration_max then Some (acc + d) else None)
    (Some 0) l.

(** [Duration / u32]: a panic by zero. *)
Definition div_u32 (d n : Z) : option Z :=
  let n := n mod (u32_max + 1) in if Z.eqb n 0 then None else Some (d / n).

Definition sorted (l : list Z) : list Z := sort_by Z.leb l.

(** [None] is a panic. *)
Definition summary (st : LoadStats) (elapsed : Z) : option string :=
  let line := (decimal st.(load_sent) ++ " requests in " ++ float_text 1 (as_secs_f64 elapsed) ++ "s (" ++
               rate st elapsed ++ "/s), " ++ decimal st.(load_ok) ++ " ok, " ++ decimal st.(load_failed) ++
               " failed")%string in
  match st.(load_latencies) with
  | [] => Some line
  | _ =>
      let l := sorted st.(load_latencies) in
      total ← sum_durations l;
      avg ← div_u32 total (Z.of_nat (length l));
      p50 ← l !! (length l / 2)%nat;
      p99 ← l !! (length l * 99 / 100)%nat;
      Some (line ++ "; latency avg " ++ ms avg ++ ", p50 " ++ ms p50 ++ ", p99 " ++ ms p99)%string
  end.

(** [format!("{:<n}")], for text of one byte a character. *)
Definition pad_right (n : nat) (s : string) : string :=
  (s ++ String.string_of_list_ascii (replicate (n - String.length s) " "%char))%string.

Definition table_row (st : LoadStats) (elapsed : Z) : string :=
  let l := sorted st.(load_latencies) in
  let at_ fraction := match l !! (length l * fraction / 100)%nat with
                      | Some d => ms d
                      | None => "-"%string
                      end in
  (pad_right 11 (rate st elapsed) ++ " " ++ pad_right 8 (at_ 50%nat) ++ " " ++
   pad_right 8 (at_ 99%nat) ++ " " ++ decimal st.(load_failed))%string.

(** * One request *)

(** [reqwest::Error], as far as this code looks at it. *)
Record ClientError : Type := mkClientError {
  is_timeout : bool;
  is_connect : bool;
  client_error_text : string;
}.

(** What the texts of the failures take from outside: a status with its
    reason phrase, and the errors of a body that broke off or does not
    parse. *)
Class ClientTexts := {
  status_text : Z -> string;
  broken_text : bool -> string;
  bad_json_text : Bytes -> string;
}.

(** [str::get(..n)]. *)
Definition str_get_to (n : nat) (s : string) : option string :=
  let cut := String.substring 0 n s in
  if Nat.eqb (String.length s) n then Some s
  else if Nat.ltb (String.length s) n then None
  else match String.get n s with
       | Some c => if starts_character c then Some cut else None
       | None => None
       end.

Section one_request.
Context `{SerdeJson} `{UrlLib} `{ClientTexts}.

Definition method_of (body : Value) : string :=
  default "?"%string (as_str (index "method" body)).

(** What an exchange is counted as; an [ok] one has yet to be timed. *)
Definition classify (body : Value) (sent : result ClientError HttpResponse) : result Failure unit :=
  let method := method_of body in
  match sent with
  | Err error =>
      let kind := if error.(is_timeout) then "timeout"
                  else if error.(is_connect) then "connect" else "transport" in
      Err (mkFailure kind (method ++ ": " ++ error.(client_error_text)))
  | Ok response =>
      if negb (is_success response.(status)) then
        let body := match response.(body_end) with
                    | BodyDone => decode_text (concat response.(chunks))
                    | BodyBroken _ => EmptyString
                    end in
        let body := default body (str_get_to 200 body) in
        Err (mkFailure ("HTTP " ++ decimal response.(status))
               (method ++ ": HTTP " ++ status_text response.(status) ++ ": " ++ body))
      else
        match response.(body_end) with
        | BodyBroken true => Err (mkFailure "timeout" (method ++ ": " ++ broken_text true))
        | BodyBroken false => Err (mkFailure "bad body" (method ++ ": bad body: " ++ broken_text false))
        | BodyDone =>
            match from_slice (concat response.(chunks)) with
            | None => Err (mkFailure "bad body"
                             (method ++ ": bad body: " ++ bad_json_text (concat response.(chunks))))
            | Some body =>
                match value_get "result" body with
                | None =>
                    let error := index "error" body in
                    let coded := ("rpc error " ++ value_text (index "code" error))%string in
                    let kind := match as_str (index "message" error) with
                                | Some message => if starts_with "lb: " message then message else coded
                                | None => coded
                                end in
                    Err (mkFailure kind (method ++ ": " ++ value_text body))
                | Some _ => Ok tt
                end
            end
        end
  end%string.

(** ** A worker, and the run *)

(** The machine a worker runs on: its clock, the stop flag, the target. *)
Class LoadHost (W : Type) := {
  load_now : W -> Z * W;
  load_stop : W -> bool * W;
  load_send : HttpRequest -> W -> result ClientError HttpResponse * W;
}.

Context {W : Type} `{LoadHost W}.

Definition CLIENT_TIMEOUT : Z := from_secs 35.

Definition load_request (target : Url) (body : Value) : HttpRequest :=
  mkHttpRequest POST target "application/json" None (to_vec body) CLIENT_TIMEOUT.

Definition one_request (target : Url) (body : Value) : M W (result Failure Z) :=
  started ← load_now;
  sent ← load_send (load_request target body);
  match classify body sent with
  | Err failure => mret (Err failure)
  | Ok _ => now ← load_now; mret (Ok (since now started))
  end.

(** The loop of a worker; the fuel bounds its rounds, the deadline ends
    them. The receiver outlives every worker, so a send never fails. *)
Fixpoint worker (fuel : nat) (target : Url) (r : Requests) (deadline : Z) (turn : nat) :
    M W (option (list (result Failure Z))) :=
  match fuel with
  | O => mret None
  | S fuel =>
      now ← load_now;
      if negb (Z.ltb now deadline) then mret (Some [])
      else
        stop ← load_stop;
        if (stop : bool) then mret (Some [])
        else
          outcome ← one_request target (request_body r turn);
          rest ← worker fuel target r deadline (S turn);
          mret (cons outcome <$> rest)
  end.
End one_request.

(** What reaches the collector, in order: a worker's outcome, or the end
    of a window, with the time it took. *)
Inductive Arrival : Type := Arrived (o : result Failure Z) | WindowEnds (elapsed : Z).

(** The loop of [run]: the totals, and the windows' lines; [None] is a
    line's panic. *)
Fixpoint collect_outcomes (arrivals : list Arrival) (total window : LoadStats) :
    option (LoadStats * list string) :=
  match arrivals with
  | [] => Some (stats_merge total window, [])
  | Arrived o :: arrivals => collect_outcomes arrivals total (stats_record o window)
  | WindowEnds elapsed :: arrivals =>
      line ← summary window elapsed;
      '(total, lines) ← collect_outcomes arrivals (stats_merge total window) default_load_stats;
      Some (total, line :: lines)
  end.
Definition run_load (arrivals : list Arrival) : option (LoadStats * list string) :=
  collect_outcomes arrivals default_load_stats default_load_stats.

(** * Lemmas: windows *)

(** All outcomes recorded in one place. *)
Definition recorded (l : list (result Failure Z)) : LoadStats :=
  foldl (fun st o => stats_record o st) default_load_stats l.

Definition outcomes_of (arrivals : list Arrival) : list (result Failure Z) :=
  omap (fun a => match a with Arrived o => Some o | WindowEnds _ => None end) arrivals.

Lemma recorded_snoc l o : recorded (l ++ [o]) = stats_record o (recorded l).
Proof. unfold recorded. by rewrite foldl_snoc. Qed.

Lemma add_u64_assoc a b c : add_u64 (add_u64 a b) c = add_u64 a (add_u64 b c).
Proof.
  unfold add_u64. rewrite Z.add_mod_idemp_l, Z.add_mod_idemp_r by (unfold u64_max; lia).
  by rewrite Z.add_assoc.
Qed.
Lemma add_u64_0 a : is_u64 a -> add_u64 a 0 = a.
Proof. intros [? ?]. unfold add_u64. rewrite Z.add_0_r. apply Z.mod_small. lia. Qed.

(** What a merge makes of one kind of failure. *)
Definition merged_failure (x y : option (Z * string)) : option (Z * string) :=
  match x, y with
  | Some (n, first), Some (c, _) => Some (add_u64 n c, first)
  | None, Some (c, first) => Some (add_u64 0 c, first)
  | x, None => x
  end.

Lemma add_failures_lookup k c r m k' :
  add_failures k c r m !! k' =
    if decide (k = k') then merged_failure (m !! k') (Some (c, r)) else m !! k'.
Proof.
  unfold add_failures. destruct (m !! k) as [[n first]|] eqn:E; cbn [default from_option Datatypes.id];
    rewrite lookup_insert; case_decide as Hk; subst; by rewrite ?E.
Qed.

Lemma add_all_lookup (l : list (string * (Z * string))) m k :
  NoDup l.*1 ->
  foldl (fun m f => add_failures f.1 f.2.1 f.2.2 m) m l !! k =
    merged_failure (m !! k) ((list_to_map l : gmap _ _) !! k).
Proof.
  revert m. induction l as [|[k' [c r]] l IH]; intros m Hnd.
  { cbn [foldl]. rewrite list_to_map_nil, lookup_empty. by destruct (m !! k) as [[]|]. }
  cbn in Hnd. apply NoDup_cons in Hnd as [Hk' Hnd]. cbn [foldl fst snd].
  rewrite IH by done. rewrite add_failures_lookup, list_to_map_cons.
  rewrite lookup_insert. case_decide as Hk; [subst|done].
  rewrite (not_elem_of_list_to_map_1 l k Hk'). by destruct (m !! k) as [[]|].
Qed.

Lemma merge_failures_lookup m m' k :
  foldl (fun m f => add_failures f.1 f.2.1 f.2.2 m) m (sort_by key_leb (map_to_list m')) !! k =
    merged_failure (m !! k) (m' !! k).
Proof.
  assert (NoDup (sort_by key_leb (map_to_list m')).*1) as Hnd.
  { rewrite sort_by_perm. apply NoDup_fst_map_to_list. }
  rewrite add_all_lookup by done. f_equal.
  rewrite (list_to_map_proper _ (map_to_list m')) by (done || apply sort_by_perm).
  by rewrite list_to_map_to_list.
Qed.

(** Recording after a merge is merging after the record. *)
Lemma merge_record st other o :
  stats_merge st (stats_record o other) = stats_record o (stats_merge st other).
Proof.
  unfold stats_merge, stats_record. destruct o as [d|[kind reason]];
    cbn [load_sent load_ok load_failed load_failures load_latencies failure_kind failure_reason];
    rewrite !add_u64_assoc; f_equal; [by rewrite (assoc_L (++))|].
  apply map_eq. intros k. rewrite merge_failures_lookup, !add_failures_lookup, merge_failures_lookup.
  case_decide; [|done].
  destruct (load_failures st !! k) as [[n r]|], (load_failures other !! k) as [[n' r']|]; cbn; try done;
    by rewrite add_u64_assoc.
Qed.

Record counted_right (st : LoadStats) : Prop := {
  cr_sent : is_u64 st.(load_sent);
  cr_ok : is_u64 st.(load_ok);
  cr_failed : is_u64 st.(load_failed);
}.

Lemma recorded_right l : counted_right (recorded l).
Proof.
  induction l as [|o l IH] using rev_ind; [split; unfold is_u64, u64_max; cbn; lia|].
  rewrite recorded_snoc. destruct IH, o as [d|f]; split; cbn; try done; apply add_u64_range.
Qed.

Lemma merge_default st : counted_right st -> stats_merge st default_load_stats = st.
Proof.
  intros [H1 H2 H3]. unfold stats_merge. destruct st as [a b' c m l]. cbn in *.
  rewrite !add_u64_0 by done. rewrite app_nil_r. done.
Qed.

Lemma merge_recorded l1 l2 : stats_merge (recorded l1) (recorded l2) = recorded (l1 ++ l2).
Proof.
  induction l2 as [|o l2 IH] using rev_ind.
  - rewrite app_nil_r. apply merge_default, recorded_right.
  - by rewrite (assoc_L (++)), !recorded_snoc, merge_record, IH.
Qed.

Lemma collect_recorded arrivals l1 l2 st lines :
  collect_outcomes arrivals (recorded l1) (recorded l2) = Some (st, lines) ->
  st = recorded (l1 ++ l2 ++ outcomes_of arrivals).
Proof.
  revert l1 l2 lines. induction arrivals as [|[o|elapsed] arrivals IH]; intros l1 l2 lines; cbn.
  - intros [= <- _]. by rewrite app_nil_r, merge_recorded.
  - rewrite <- recorded_snoc. intros E%IH. by rewrite <- (assoc_L (++)) in E.
  - destruct (summary _ _) as [line|]; [|done]. cbn. rewrite merge_recorded.
    change default_load_stats with (recorded []).
    destruct (collect_outcomes _ _ _) as [[st' lines']|] eqn:E; [|done]. cbn. intros [= <- _].
    apply IH in E. by rewrite E, <- (assoc_L (++)).
Qed.

(** ** What is counted *)

Definition ok_latencies (l : list (result Failure Z)) : list Z :=
  omap (fun o => match o with Ok d => Some d | Err _ => None end) l.
Definition failed_ones (l : list (result Failure Z)) : list Failure :=
  omap (fun o => match o with Ok _ => None | Err f => Some f end) l.
Definition of_kind (k : string) (fs : list Failure) : list Failure :=
  List.filter (fun f => bool_decide (f.(failure_kind) = k)) fs.

(** The count of a kind, and its first reason. *)
Definition told_of (fs : list Failure) : option (Z * string) :=
  match fs with [] => None | f :: _ => Some (Z.of_nat (length fs), f.(failure_reason)) end.

Lemma outcomes_split l : length l = (length (ok_latencies l) + length (failed_ones l))%nat.
Proof.
  unfold ok_latencies, failed_ones.
  induction l as [|[d|f] l IH]; [done|cbn [omap list_omap length]; rewrite IH; cbn; lia..].
Qed.

Lemma told_of_snoc fs f :
  Z.of_nat (length fs) < u64_max ->
  merged_failure (told_of fs) (Some (1, f.(failure_reason))) = told_of (fs ++ [f]).
Proof.
  intros Hl. destruct fs as [|g fs]; [done|]. cbn [told_of app merged_failure].
  rewrite add_u64_small by lia. cbn [length]. rewrite length_app. cbn [length].
  do 2 f_equal. lia.
Qed.

Lemma recorded_spec l :
  Z.of_nat (length l) <= u64_max ->
  let st := recorded l in
  st.(load_sent) = Z.of_nat (length l) /\
  st.(load_ok) = Z.of_nat (length (ok_latencies l)) /\
  st.(load_failed) = Z.of_nat (length (failed_ones l)) /\
  st.(load_latencies) = ok_latencies l /\
  forall k, st.(load_failures) !! k = told_of (of_kind k (failed_ones l)).
Proof.
  cbv zeta. induction l as [|o l IH] using rev_ind; intros Hl; [done|].
  rewrite length_app in Hl. cbn in Hl. destruct IH as (H1 & H2 & H3 & H4 & H5); [lia|].
  pose proof (outcomes_split l) as Hs. rewrite recorded_snoc.
  unfold ok_latencies, failed_ones in *. rewrite !omap_app, length_app. cbn [length].
  destruct o as [d|f]; cbn -[add_u64 add_failures];
    rewrite ?app_nil_r, ?length_app, ?H1, ?H2, ?H3, ?H4; cbn [length];
    rewrite ?add_u64_small by lia; split_and!; try done; try lia.
  intros k. rewrite add_failures_lookup, H5. unfold of_kind. rewrite List.filter_app. cbn.
  case_decide as Hk; [rewrite bool_decide_true by done | rewrite bool_decide_false, app_nil_r by done; done].
  apply told_of_snoc. pose proof (filter_length_le (fun g => bool_decide (failure_kind g = k))
    (omap (fun o => match o with Ok _ => None | Err f => Some f end) l)). lia.
Qed.

(** ** Lines *)

Fixpoint total_of (l : list Z) : Z := match l with [] => 0 | d :: l => d + total_of l end.

Lemma total_of_perm l l' : l ≡ₚ l' -> total_of l = total_of l'.
Proof. induction 1; cbn in *; lia. Qed.

Lemma sum_durations_total l :
  Forall (Z.le 0) l -> total_of l <= duration_max -> sum_durations l = Some (total_of l).
Proof.
  intros Hl Ht. unfold sum_durations.
  assert (forall acc, 0 <= acc -> acc + total_of l <= duration_max ->
    foldl (fun acc d => acc ← acc; if Z.leb (acc + d) duration_max then Some (acc + d) else None)
      (Some acc) l = Some (acc + total_of l)) as Hacc; [|apply (Hacc 0); lia].
  clear Ht. induction Hl as [|d l Hd Hl IH]; intros acc Ha Ht; cbn in *; [f_equal; lia|].
  assert (0 <= total_of l) as Hpos.
  { clear -Hl. induction Hl; cbn; lia. }
  rewrite (proj2 (Z.leb_le _ _)) by lia. rewrite IH by lia. f_equal. lia.
Qed.

Lemma fraction_in_range {A} (l : list A) k :
  (k < 100)%nat -> l <> [] -> (length l * k / 100 < length l)%nat.
Proof.
  intros Hk Hl. apply Nat.Div0.div_lt_upper_bound. destruct l; [done|]. cbn [length]. nia.
Qed.

Lemma summary_line st elapsed :
  Z.of_nat (length st.(load_latencies)) <= u32_max -> Forall (Z.le 0) st.(load_latencies) ->
  total_of st.(load_latencies) <= duration_max -> is_Some (summary st elapsed).
Proof.
  intros Hn Hpos Ht. unfold summary. destruct (load_latencies st) as [|d l] eqn:E; [by eexists|].
  rewrite <- E in *. cbv zeta.
  assert (sorted (load_latencies st) ≡ₚ load_latencies st) as Hp by apply sort_by_perm.
  rewrite sum_durations_total; [|by rewrite Hp | by rewrite (total_of_perm _ _ Hp)].
  cbn [mbind option_bind]. unfold div_u32. rewrite (Permutation_length Hp).
  rewrite Z.mod_small by lia.
  assert (length (load_latencies st) <> 0%nat) as H0 by (rewrite E; done).
  destruct (Z.eqb_spec (Z.of_nat (length (load_latencies st))) 0); [lia|].
  cbn [mbind option_bind]. assert (sorted (load_latencies st) <> []) as Hne.
  { intros Es. apply Permutation_length in Hp. rewrite Es in Hp. cbn in Hp. lia. }
  destruct (lookup_lt_is_Some_2 (sorted (load_latencies st)) (length (load_latencies st) / 2)) as [p50 ->].
  { rewrite (Permutation_length Hp). apply Nat.div_lt; lia. }
  cbn [mbind option_bind].
  destruct (lookup_lt_is_Some_2 (sorted (load_latencies st)) (length (load_latencies st) * 99 / 100)) as [p99 ->].
  { rewrite <- (Permutation_length Hp). by apply fraction_in_range; [lia|]. }
  by eexists.
Qed.

(** * Theorems *)

(** Nothing is lost to the windows. *)
Definition ticks (arrivals : list Arrival) : nat :=
  length (omap (fun a => match a with Arrived _ => None | WindowEnds e => Some e end) arrivals).

Lemma collect_total arrivals l1 l2 :
  let l := l1 ++ l2 ++ outcomes_of arrivals in
  Z.of_nat (length l) <= u32_max -> Forall (Z.le 0) (ok_latencies l) ->
  total_of (ok_latencies l) <= duration_max ->
  exists st lines, collect_outcomes arrivals (recorded l1) (recorded l2) = Some (st, lines) /\
    length lines = ticks arrivals.
Proof.
  revert l1 l2. induction arrivals as [|[o|elapsed] arrivals IH]; intros l1 l2; cbv zeta; cbn [collect_outcomes].
  - intros _ _ _. by eexists _, [].
  - intros Hn Hp Ht. rewrite <- recorded_snoc.
    apply IH; by rewrite <- !(assoc_L (++)).
  - change (outcomes_of (WindowEnds elapsed :: arrivals)) with (outcomes_of arrivals).
    intros Hn Hp Ht.
    assert (forall l l', total_of (l ++ l') = total_of l + total_of l') as Happ.
    { clear. induction l as [|d l IH]; intros l'; cbn; [done|]. rewrite IH. lia. }
    assert (forall l, Forall (Z.le 0) l -> 0 <= total_of l) as Hpos.
    { clear. induction 1; cbn; lia. }
    pose proof Hn as Hn'. rewrite !length_app in Hn'.
    assert (ok_latencies (l1 ++ l2 ++ outcomes_of arrivals) =
      ok_latencies l1 ++ ok_latencies l2 ++ ok_latencies (outcomes_of arrivals)) as E
      by (unfold ok_latencies; by rewrite !omap_app).
    pose proof Hp as Hp'. rewrite E, !Forall_app in Hp'. destruct Hp' as (Hp1 & Hp2 & Hp3).
    pose proof Ht as Ht'. rewrite E, !Happ in Ht'. pose proof (Hpos _ Hp1). pose proof (Hpos _ Hp3).
    destruct (recorded_spec l2) as (_ & _ & _ & El & _); [unfold u32_max, u64_max in *; lia|].
    pose proof (outcomes_split l2) as Hs2.
    destruct (summary_line (recorded l2) elapsed) as [line ->]; [rewrite El; lia | by rewrite El | rewrite El; lia|].
    cbn [mbind option_bind]. rewrite merge_recorded. change default_load_stats with (recorded []).
    destruct (IH (l1 ++ l2) []) as (st & lines & -> & Hlen); [by rewrite <- !(assoc_L (++))..|].
    cbn. eexists _, _. split; [done|]. cbn. by rewrite Hlen.
Qed.

(** C29: However the run is cut into windows, its totals are the workers'
    outcomes counted once each: as many sent as arrived, each either ok,
    with its latency kept in order, or failed, under its kind, with the
    count of that kind and the first reason seen. No line panics, and
    every window has one, as long as the outcomes fit a [u32] and their
    latencies a [Duration]. *)
Theorem windows_lose_nothing arrivals :
  let l := outcomes_of arrivals in
  Z.of_nat (length l) <= u32_max -> Forall (Z.le 0) (ok_latencies l) ->
  total_of (ok_latencies l) <= duration_max ->
  exists st lines, run_load arrivals = Some (st, lines) /\ length lines = ticks arrivals /\
    st.(load_sent) = Z.of_nat (length l) /\ st.(load_sent) = st.(load_ok) + st.(load_failed) /\
    st.(load_latencies) = ok_latencies l /\
    st.(load_ok) = Z.of_nat (length (ok_latencies l)) /\
    forall k, st.(load_failures) !! k = told_of (of_kind k (failed_ones l)).
Proof.
  cbv zeta. intros Hn Hp Ht. destruct (collect_total arrivals [] [] Hn Hp Ht) as (st & lines & E & Hlen).
  exists st, lines. split; [exact E|]. split; [done|].
  apply (collect_recorded arrivals [] []) in E as ->. cbn [app].
  destruct (recorded_spec (outcomes_of arrivals)) as (H1 & H2 & H3 & H4 & H5); [unfold u32_max, u64_max in *; lia|].
  pose proof (outcomes_split (outcomes_of arrivals)). split_and!; try done. lia.
Qed.

Lemma filter_all (f : Z -> bool) l : (forall x, x ∈ l -> f x = true) -> List.filter f l = l.
Proof.
  intros Hf. induction l as [|x l IH]; cbn; [done|]. rewrite Hf by by left.
  f_equal. apply IH. intros y Hy. apply Hf. by right.
Qed.
Lemma filter_none (f : Z -> bool) l : (forall x, x ∈ l -> f x = false) -> List.filter f l = [].
Proof.
  intros Hf. induction l as [|x l IH]; cbn; [done|]. rewrite Hf by by left.
  apply IH. intros y Hy. apply Hf. by right.
Qed.

(** The percentile a line shows is a latency of the run; more than that
    share of the latencies are no longer than it, and no more than that
    share are shorter. *)
Lemma percentile_spec l k :
  (k < 100)%nat -> l <> [] ->
  exists d, sorted l !! (length l * k / 100)%nat = Some d /\ d ∈ l /\
    (length l * k < 100 * length (List.filter (fun x => Z.leb x d) l))%nat /\
    (100 * length (List.filter (fun x => Z.ltb x d) l) <= length l * k)%nat.
Proof.
  intros Hk Hl. pose proof (sort_by_perm Z.leb l) as Hp. fold (sorted l) in Hp.
  pose proof (fraction_in_range l k Hk Hl) as Hi. set (i := (length l * k / 100)%nat) in *.
  destruct (lookup_lt_is_Some_2 (sorted l) i) as [d Hd]; [by rewrite (Permutation_length Hp)|].
  exists d. split; [done|]. split; [rewrite <- Hp; by eapply list_elem_of_lookup_2|].
  assert (forall f : Z -> bool, length (List.filter f l) = length (List.filter f (sorted l))) as Hlen.
  { intros f. clear -Hp. induction Hp; cbn; try done; repeat case_match; cbn; congruence. }
  assert (StronglySorted (fun x y => Z.leb x y = true) (sorted l)) as Hs.
  { apply sort_by_sorted; intros; lia. }
  rewrite !Hlen. clear Hlen. apply list_elem_of_split_length in Hd as (l1 & l2 & E & Ei).
  rewrite E in Hs |- *. rewrite StronglySorted_app in Hs. destruct Hs as (H12 & _ & Hs2).
  apply StronglySorted_inv in Hs2 as [_ Hd2].
  assert (length l = (length l1 + S (length l2))%nat) as Hn.
  { rewrite <- (Permutation_length Hp), E, length_app. done. }
  rewrite !List.filter_app, !length_app. cbn [List.filter]. rewrite Z.leb_refl, Z.ltb_irrefl. cbn [length].
  rewrite (filter_all (fun x => Z.leb x d) l1), (filter_none (fun x => Z.ltb x d) l2).
  - pose proof (filter_length_le (fun x => Z.ltb x d) l1). pose proof (Nat.div_mod_eq (length l * k) 100).
    pose proof (Nat.mod_upper_bound (length l * k) 100). cbn [length]. subst i. lia.
  - rewrite Forall_forall in Hd2. intros x Hx. apply Hd2 in Hx. lia.
  - intros x Hx. apply (H12 x d Hx). by left.
Qed.

(** ** What the load balancer's own answers are counted as *)

Section lb.
Context `{SerdeJson} `{UrlLib} `{ClientTexts}.

Lemma classify_status body r :
  is_success r.(resp_status) = false ->
  exists reason, classify body (Ok (received r)) =
    Err (mkFailure ("HTTP " ++ decimal r.(resp_status))%string reason).
Proof.
  intros Hs. unfold classify, received. cbn [status]. rewrite Hs. cbn [negb]. by eexists.
Qed.

(** An error of the load balancer's own is counted by its status, and
    only a denial, the one it answers with a success, by its message:
    [lb: ] and what it refused. *)
Theorem lb_errors_counted body code_status code message request :
  plain (extract_id request) = true -> i64_min <= code <= i64_max ->
  exists reason, classify body (Ok (received (error code_status code message request))) =
    Err (mkFailure (if is_success code_status then ("lb: " ++ message)%string
                    else ("HTTP " ++ decimal code_status)%string) reason).
Proof.
  intros Hp Hc. destruct (is_success code_status) eqn:Es; [|by apply classify_status].
  unfold classify, received, error. cbn [status chunks body_end resp_status resp_body body_bytes].
  rewrite Es. cbn [negb concat]. rewrite app_nil_r, from_slice_to_vec.
  - unfold error_response. cbn. by eexists.
  - unfold error_response, json_int. cbn. rewrite Hp. unfold i64_min, i64_max in *.
    destruct (Z.leb_spec 0 code); cbn; unfold u64_max, i64_min; lia.
Qed.

Context {W : Type} `{World W} (st : ProxyState).

(** The requests of one worker, answered by the router one after another
    while the other tasks run. *)
Fixpoint through_the_lb (bodies : list Value) : M (Sys W) (list (result Failure unit)) :=
  match bodies with
  | [] => mret []
  | body :: bodies =>
      response ← router st "/" "POST" (Ok (to_vec body));
      rest ← through_the_lb bodies;
      mret (classify body (Ok (received response)) :: rest)
  end.

Lemma forwarded_once body (s : Sys W) :
  check_request (Ok (to_vec body)) = Ok (to_vec body) ->
  let '(response, s') := router st "/" "POST" (Ok (to_vec body)) s in
  exists hs, steps st.(state_flip_after) s s' hs /\
    (count_if is_served (mine hs) <= 1)%nat /\
    (is_ok (classify body (Ok (received response))) = true -> count_if is_served (mine hs) = 1%nat).
Proof.
  intros Hc. unfold router. rewrite !bool_decide_true by done. unfold handle. rewrite Hc.
  pose proof (forward_accounted st (to_vec body) s) as Hf.
  destruct (forward_with_failover st (to_vec body) s) as [response s'].
  destruct Hf as (hs & l & e & charges & Hs & _ & _ & _ & _ & Hch & Em & He & Hresp).
  exists hs. split; [done|]. rewrite Em, (charges_served st l charges e Hch He).
  split; [destruct e; lia|]. destruct e; [done| | |]; intros Hok.
  all: assert (is_success response.(resp_status) = false) as Hn
    by (cbn in Hresp; repeat destruct Hresp as [Hresp|Hresp]; destruct Hresp as [-> _]; done).
  all: by destruct (classify_status body response Hn) as [reason E]; rewrite E in Hok.
Qed.

(** C27: What a run counts as [ok] is what the providers are credited for:
    of allowed requests, sent one after another, no more are [ok] than
    calls are credited, and no call is credited twice; when none failed,
    the calls credited are exactly the requests sent. *)
Theorem ok_requests_are_billed bodies (s : Sys W) :
  Forall (fun body => check_request (Ok (to_vec body)) = Ok (to_vec body)) bodies ->
  let '(outcomes, s') := through_the_lb bodies s in
  exists hs, steps st.(state_flip_after) s s' hs /\ length outcomes = length bodies /\
    (length (List.filter is_ok outcomes) <= count_if is_served (mine hs) <= length bodies)%nat /\
    (Forall (fun o => is_ok o = true) outcomes -> count_if is_served (mine hs) = length bodies).
Proof.
  intros Hb. revert s. induction Hb as [|body bodies Hc Hb IH]; intros s; cbn [through_the_lb].
  { exists []. split; [by apply steps_refl|]. split; [done|]. split; [cbn; lia | done]. }
  unfold mbind, M_bind. pose proof (forwarded_once body s Hc) as Hone.
  destruct (router st "/" "POST" _ s) as [response s1]. destruct Hone as (h1 & S1 & L1 & E1).
  specialize (IH s1). destruct (through_the_lb bodies s1) as [outcomes s2].
  destruct IH as (h2 & S2 & Hlen & Hle & Hall). cbn [mret M_ret].
  exists (h1 ++ h2). split; [by eapply steps_trans|]. cbn [length List.filter].
  assert (count_if is_served (mine (h1 ++ h2)) =
    (count_if is_served (mine h1) + count_if is_served (mine h2))%nat) as ->.
  { unfold count_if. by rewrite mine_app, List.filter_app, length_app. }
  split; [by rewrite Hlen|]. split.
  - destruct (is_ok (classify body _)); cbn [length]; [specialize (E1 eq_refl)|]; lia.
  - intros [Ho Hos]%Forall_cons. rewrite (E1 Ho), (Hall Hos). lia.
Qed.
End lb.

(** ** A worker comes to its end

    Each round takes some time, if only a nanosecond, so the deadline is
    reached: as many rounds as there are nanoseconds left are enough, and
    fewer when the stop comes first. *)
Section worker_ends.
Context `{SerdeJson} `{UrlLib} `{ClientTexts} {W : Type} `{LoadHost W}.
Context (target : Url) (r : Requests) (deadline : Z).
Context (Htakes_time : forall (w : W) body,
  let w' := (one_request target body (load_stop (load_now w).2).2).2 in
  (load_now w).1 < (load_now w').1).

Theorem worker_ends fuel turn (w : W) :
  (Z.to_nat (deadline - (load_now w).1) < fuel)%nat ->
  exists outcomes, (worker fuel target r deadline turn w).1 = Some outcomes /\
    (length outcomes < fuel)%nat /\
    (deadline <= (load_now w).1 -> outcomes = []).
Proof using Htakes_time.
  revert turn w. induction fuel as [|fuel IH]; intros turn w Hf; cbn [worker].
  - lia.
  - unfold mbind, M_bind. specialize (Htakes_time w (request_body r turn)).
    destruct (load_now w) as [now w1]. cbn [fst snd] in *.
    destruct (Z.ltb_spec now deadline) as [Hd|Hd]; cbn [negb].
    2:{ exists []. split; [done|]. split; [cbn; lia | done]. }
    destruct (load_stop w1) as [[] w2]; cbn [fst snd] in *.
    { exists []. split; [done|]. split; [cbn; lia | done]. }
    destruct (one_request target _ w2) as [o w3]. cbn [fst snd] in *.
    destruct (IH (S turn) w3) as (os & E & Hl & _); [lia|].
    destruct (worker fuel target r deadline (S turn) w3) as [rest w4]. cbn [fst] in E. subst rest.
    exists (o :: os). split; [done|]. split; [cbn; lia | lia].
Qed.
End worker_ends.

(** * Witnesses *)

#[local] Instance demo_texts : ClientTexts := {
  status_text := decimal;
  broken_text _ := EmptyString;
  bad_json_text _ := EmptyString;
}.

(** Two windows, and a failure of each of two kinds. *)
Definition demo_arrivals : list Arrival :=
  [Arrived (Ok 5); Arrived (Err (mkFailure "timeout" "first")); WindowEnds (from_secs 10);
   Arrived (Err (mkFailure "timeout" "second")); Arrived (Ok 7)].

Lemma windows_lose_nothing_witness :
  exists st lines, run_load demo_arrivals = Some (st, lines) /\ length lines = 1%nat /\
    st.(load_sent) = 4 /\ st.(load_latencies) = [5; 7] /\
    st.(load_failures) !! "timeout"%string = Some (2, "first"%string).
Proof.
  destruct (windows_lose_nothing demo_arrivals) as (st & lines & E & Hl & H1 & _ & H2 & _ & H3).
  - cbn. unfold u32_max. lia.
  - repeat constructor; lia.
  - cbn. unfold duration_max, u64_max, NANOS. lia.
  - exists st, lines. split; [exact E|]. split; [exact Hl|]. split; [exact H1|]. split; [exact H2|].
    rewrite H3. reflexivity.
Defined.

Lemma lb_errors_counted_witness :
  exists reason, classify Null (Ok (received (error 503 NO_HEALTHY_PROVIDER "no healthy provider" []))) =
    Err (mkFailure "HTTP 503" reason).
Proof. exact (lb_errors_counted Null 503 NO_HEALTHY_PROVIDER "no healthy provider" [] eq_refl
  ltac:(unfold i64_min, i64_max, NO_HEALTHY_PROVIDER; lia)). Defined.

(** The message the comment on the statistics names is never a kind: the
    load balancer answers it with a 503. *)
Example no_healthy_provider_is_http_503 :
  match classify Null (Ok (received (error 503 NO_HEALTHY_PROVIDER "no healthy provider" []))) with
  | Err f => f.(failure_kind) = "HTTP 503"%string
  | Ok _ => False
  end.
Proof. by vm_compute. Qed.

(** A [null] result is [ok], and so is any success status. *)
Example null_result_is_ok :
  classify Null (Ok (mkHttpResponse 204 None [to_vec (Object [("result", Null)]%string)] BodyDone)) = Ok tt.
Proof. by vm_compute. Qed.

(** Two reads through the proxy, over a node that answers both. *)
Definition demo_reads : list Value := [request_body Cheap 0; request_body Cheap 1].
Definition demo_state : ProxyState :=
  mkProxyState (mkForwarder 10000) Config.default_proxy 3.
Definition demo_lb : Sys Script :=
  mkSys (update 0%nat (apply_event 1 (OnHealth true Probe))
           (snd (pool_add (provider_new 0 "a" "http://a" Static) empty_pool)))
    (mkScript [0; 0; 0; 0; 0; 0; 0; 0] [Ok Monitor.demo_probe_answer; Ok Monitor.demo_probe_answer] []) [].

Lemma ok_requests_are_billed_witness :
  exists hs, steps 3 demo_lb (through_the_lb demo_state demo_reads demo_lb).2 hs /\
    count_if is_served (mine hs) = 2%nat.
Proof.
  pose proof (ok_requests_are_billed demo_state demo_reads demo_lb
    ltac:(repeat constructor; by vm_compute)) as Hb.
  assert ((through_the_lb demo_state demo_reads demo_lb).1 = [Ok tt; Ok tt]) as E by (by vm_compute).
  destruct (through_the_lb demo_state demo_reads demo_lb) as [outcomes s']. cbn [fst] in E. subst outcomes.
  destruct Hb as (hs & Hs & _ & _ & Hall). exists hs. split; [exact Hs|].
  apply Hall. by repeat constructor.
Defined.

(** A machine where every reading of the clock is a nanosecond later. *)
#[local] Instance ticking_host : LoadHost Z := {
  load_now w := (w, w + 1);
  load_stop w := (false, w);
  load_send _ w := (Err (mkClientError false true "refused"), w);
}.

Lemma worker_ends_witness :
  exists outcomes, (worker 12 "http://a" Cheap 10 0 0).1 = Some outcomes /\ (length outcomes < 12)%nat.
Proof.
  destruct (worker_ends "http://a" Cheap 10) with (fuel := 12%nat) (turn := 0%nat) (w := 0)
    as (outcomes & E & Hl & _).
  - intros w body. unfold one_request, mbind, M_bind. cbn. lia.
  - cbn. lia.
  - exists outcomes. exact (conj E Hl).
Defined.
