(* ===== verification/Admin.v ===== *)
(** The admin listener, [crates/lb/src/admin.rs]: the tunnel server's
    admission callback, the health answer, one request to one node, the
    view of every entry and the hourly report.

    What axum does before a handler runs - splitting the path, reading the
    body within its limit, decoding the query - arrives as its result. *)

From S2P Require Import Prelude External Concrete Denylist Jsonrpc Pool World Forwarder Records Reader Writer Chain Config Admission Stats Agent Mirror Reconcile Offers Flush Billing Lifecycle Proxy.

#[local] Open Scope Z_scope.

(** * Who holds the live agreements ([trait Agreements]) *)

Class Agreements (S : Type) := {
  book_agreement : EntityKey -> S -> option (Stored Agreement);
  (** The steps that follow an admission, up to its first await. *)
  book_admitted : Stored Agreement -> M S unit;
}.

(** * The callback's body *)

Record FrpsRequest : Type := mkFrpsRequest { frps_op : string; content : Value }.
Record Metas : Type := mkMetas { meta_agreement : option string; meta_token : option string }.
Record LoginContent : Type := mkLoginContent { login_metas : Metas; client_address : string }.
Record UserInfo : Type := mkUserInfo { user_metas : Metas }.
Record NewProxyContent : Type := mkNewProxyContent {
  user : UserInfo;
  frps_proxy_name : string;
  frps_remote_port : Z;
}.

(** [#[serde(default)]]: a missing field is the default. *)
Definition defaulted {A} (f : Value -> option A) (d : A) (v : option Value) : option A :=
  match v with None => Some d | Some v => f v end.

Definition default_metas : Metas := mkMetas None None.

Definition FrpsRequest_from_json (v : Value) : option FrpsRequest :=
  fs ← struct_fields ["op"; "content"]%string v;
  match fs with
  | [o; c] => o ← required as_str o; Some (mkFrpsRequest o (default Null c))
  | _ => None
  end.

Definition Metas_from_json (v : Value) : option Metas :=
  fs ← struct_fields_all ["agreement"; "token"]%string v;
  match fs with
  | [a; t] => a ← optional as_str a; t ← optional as_str t; Some (mkMetas a t)
  | _ => None
  end.

Definition LoginContent_from_json (v : Value) : option LoginContent :=
  fs ← struct_fields ["metas"; "client_address"]%string v;
  match fs with
  | [m; c] => m ← defaulted Metas_from_json default_metas m;
              c ← defaulted as_str EmptyString c; Some (mkLoginContent m c)
  | _ => None
  end.

Definition UserInfo_from_json (v : Value) : option UserInfo :=
  fs ← struct_fields ["metas"]%string v;
  match fs with
  | [m] => m ← defaulted Metas_from_json default_metas m; Some (mkUserInfo m)
  | _ => None
  end.

Definition NewProxyContent_from_json (v : Value) : option NewProxyContent :=
  fs ← struct_fields ["user"; "proxy_name"; "remote_port"]%string v;
  match fs with
  | [u; n; p] => u ← defaulted UserInfo_from_json (mkUserInfo default_metas) u;
                 n ← defaulted as_str EmptyString n;
                 p ← defaulted (uint u16_max) 0 p; Some (mkNewProxyContent u n p)
  | _ => None
  end.

(** * Responses *)

Definition json_response (status : Z) (v : Value) : Response :=
  mkResponse status [("content-type", "application/json")]%string (RJson v).
Definition unchange : Response := json_response 200 (Object [("unchange", Bool true)]%string).
Definition reject (reason : string) : Response :=
  json_response 200 (Object [("reject", Bool true); ("reject_reason", Str reason)]%string).

(** * The view of an entry *)

Record NodeView : Type := mkNodeView {
  view_id : string;
  view_source : string;
  view_url : string;
  view_agreement_id : option string;
  view_eligible : bool;
  view_ineligibility_reason : option string;
  view_chain_verified : bool;
  view_health_streak : Z;
  view_last_height : option Z;
  view_served_period : Z;
  view_served_total : Z;
  view_transport_failures : Z;
  view_last_probe_ms : option Z;
  view_integrity_verdict : option string;
  view_integrity_height : option Z;
}.

Definition node_view `{Alloy} (p : Provider) : NodeView :=
  let '(source, agreement) :=
    match p.(source) with
    | Static => ("static"%string, None)
    | Marketplace _ agreement _ => ("marketplace"%string, Some (key_hex agreement))
    end in
  mkNodeView p.(id) source p.(url) agreement (eligible p) (ineligibility_reason p)
    p.(chain_verified) p.(health_streak) (last_height p) p.(served) p.(served_total)
    p.(transport_failures) (read_last_probe_ms p)
    ((fun v => verdict_as_str v.1) <$> last_verdict p) (snd <$> last_verdict p).

Definition opt_json {A} (f : A -> Value) (x : option A) : Value :=
  match x with Some x => f x | None => Null end.

Definition NodeView_to_json (n : NodeView) : Value :=
  Object [("id", Str n.(view_id)); ("source", Str n.(view_source)); ("url", Str n.(view_url));
          ("agreement_id", opt_json Str n.(view_agreement_id));
          ("eligible", Bool n.(view_eligible));
          ("ineligibility_reason", opt_json Str n.(view_ineligibility_reason));
          ("chain_verified", Bool n.(view_chain_verified));
          ("health_streak", json_int n.(view_health_streak));
          ("last_height", opt_json from_u64 n.(view_last_height));
          ("served_period", from_u64 n.(view_served_period));
          ("served_total", from_u64 n.(view_served_total));
          ("transport_failures", from_u64 n.(view_transport_failures));
          ("last_probe_ms", opt_json from_u64 n.(view_last_probe_ms));
          ("integrity_verdict", opt_json Str n.(view_integrity_verdict));
          ("integrity_height", opt_json from_u64 n.(view_integrity_height))]%string.

(** * The report's JSON: [partial] only where it is set. *)

Definition partial_json (x : bool) : list (string * Value) :=
  if x then [("partial", Bool true)]%string else [].

Definition ProviderRow_to_json (r : ProviderRow) : Value :=
  Object ([("hour", Str r.(row_hour)); ("served", from_u64 r.(row_served));
           ("transport_failures", from_u64 r.(row_failures))]%string ++ partial_json r.(row_partial)).

Definition ProviderReport_to_json (r : ProviderReport) : Value :=
  Object [("id", Str r.(report_id)); ("agreement_id", opt_json Str r.(report_agreement));
          ("buckets", Array (ProviderRow_to_json <$> r.(report_buckets)))]%string.

Definition LbRow_to_json (r : LbRow) : Value :=
  Object ([("hour", Str r.(lb_hour)); ("no_healthy_provider", from_u64 r.(lb_no_healthy));
           ("timed_out", from_u64 r.(lb_timed_out));
           ("no_provider_answered", from_u64 r.(lb_unanswered))]%string ++ partial_json r.(lb_partial)).

Definition Report_to_json (r : Report) : Value :=
  Object [("lb", opt_json Str r.(report_lb)); ("generated_at", Str r.(generated_at));
          ("bucket", Str r.(report_bucket)); ("since", Str r.(report_since));
          ("providers", Array (ProviderReport_to_json <$> r.(report_providers)));
          ("lb_outcomes", Array (LbRow_to_json <$> r.(report_outcomes)))]%string.

(** * The handlers *)

(** The text axum answers a body with that does not parse. *)
Class AxumJson := { json_rejection_text : Bytes -> string }.

Record AdminState : Type := mkAdminState {
  admin_forwarder : Forwarder;
  admin_attempt_timeout : Z;
  admin_lb_address : option string;
}.

(** What a handler reads of the state it shares, at its request: the
    ready flag, the rings, and the wall clock. *)
Record Readings : Type := mkReadings { ready_flag : bool; stats_now : Stats; unix_now : Z }.

Definition no_provider_reason `{DebugText} (i : string) : string :=
  ("no provider " ++ debug_text i)%string.

Section admin.
Context `{Alloy} `{SerdeJson} `{DebugText} `{Signatures} `{AxumJson} `{Humantime}.

(** The op, the client's metadata, and the name the log has for it; an op
    the route was not configured for is [None]. *)
Definition parse_callback (q : FrpsRequest) : result string (option (Op * Metas * string)) :=
  if bool_decide (q.(frps_op) = "Login"%string) then
    login ← ok_or (from_value_error "LoginContent" q.(content)) (LoginContent_from_json q.(content));
    Ok (Some (Login, login.(login_metas), login.(client_address)))
  else if bool_decide (q.(frps_op) = "NewProxy"%string) then
    proxy ← ok_or (from_value_error "NewProxyContent" q.(content))
              (NewProxyContent_from_json q.(content));
    Ok (Some (NewProxy proxy.(frps_remote_port) proxy.(frps_proxy_name),
              proxy.(user).(user_metas), proxy.(frps_proxy_name)))
  else Ok None.

Definition read_callback (body : result string Bytes) : result string FrpsRequest :=
  body ← body; ok_or (json_rejection_text body) (from_slice body ≫= FrpsRequest_from_json).

(** [POST /admission]. Only a proxy's registration starts the steps that
    follow, not the login before it. *)
Definition admission_route {S : Type} `{Book : Agreements S} (body : result string Bytes) : M S Response :=
  match read_callback body ≫= parse_callback with
  | Err text => mret (text_response 400 [] text)
  | Ok None => mret unchange
  | Ok (Some (op, metas, _)) =>
      decision ← (fun s => (admission_decision (fun k => book_agreement k s) op
                              metas.(meta_agreement) metas.(meta_token), s));
      match decision with
      | Err rejection => mret (reject (rejection_text rejection))
      | Ok stored =>
          _ ← match op with NewProxy _ _ => book_admitted stored | Login => mret tt end;
          mret unchange
      end
  end.

(** [GET /health]. *)
Definition health_route (now : Readings) : Response :=
  json_response 200 (Object [("status", Str "ok"); ("ready", Bool now.(ready_flag))]%string).

(** [GET /stats]. *)
Definition stats_route (st : AdminState) (now : Readings) (from : option string) : Response :=
  match (match from with None => Some 0 | Some text => parse_iso text end) with
  | None => text_response 400 []
              ("since must be an hour's start as YYYY-MM-DDTHH:MM:SSZ" ++ newline)
  | Some from =>
      json_response 200 (Report_to_json
        (stats_report from now.(unix_now) st.(admin_lb_address) now.(stats_now)))
  end.

(** [GET /nodes]: every member, in the pool's order. *)
Definition node_views (pl : Pool) : list NodeView :=
  omap (fun r => node_view <$> entry pl r) (snapshot pl).
Definition nodes (pl : Pool) : Response :=
  json_response 200 (Array (NodeView_to_json <$> node_views pl)).

Section forward.
Context {W : Type} `{World W} (flip_after : Z) (st : AdminState).

(** [POST /node/{id}]: one attempt, eligibility ignored. *)
Definition forward_to_node (i : string) (body : result BytesRejection Bytes) : M (Sys W) Response :=
  provider ← (fun s => (pool_get s.(pool) i, s));
  match provider with
  | None => mret (json_response 404 (Object [("error", Str (no_provider_reason i))]%string))
  | Some r =>
      match check_request body with
      | Err refusal => mret refusal
      | Ok body =>
          target ← read_entry r url EmptyString;
          outcome ← attempt flip_after st.(admin_forwarder) target body st.(admin_attempt_timeout);
          mret match outcome with
               | Answer response => response
               | NoAnswer | TimedOut =>
                   json_response 502 (Object [("error", Str "provider did not answer")]%string)
               | TooLarge => error 502 RESPONSE_TOO_LARGE "response too large" body
               end
      end
  end.
End forward.
End admin.

(** * The router *)

(** The segments of the path and what axum's extractors made of the rest;
    a route takes what it declares. *)
Record AdminRequest : Type := mkAdminRequest {
  admin_method : string;
  segments : list string;
  since_param : result Response (option string);
  callback_body : result string Bytes;
  rpc_body : result BytesRejection Bytes;
}.

Definition no_route : Response := mkResponse 404 [] (RText EmptyString).
Definition wrong_method (allow : string) : Response :=
  mkResponse 405 [("allow", allow)]%string (RText EmptyString).

(** The paths the router mounts, [{id}] any segment. *)
Inductive Route : Type := HealthRoute | NodesRoute | StatsRoute | NodeRoute (i : string) | AdmissionRoute.

Definition route_of (segments : list string) : option Route :=
  match segments with
  | [x] =>
      if bool_decide (x = "health"%string) then Some HealthRoute
      else if bool_decide (x = "nodes"%string) then Some NodesRoute
      else if bool_decide (x = "stats"%string) then Some StatsRoute
      else if bool_decide (x = "admission"%string) then Some AdmissionRoute
      else None
  | [x; i] => if bool_decide (x = "node"%string) then Some (NodeRoute i) else None
  | _ => None
  end.

(** [get] answers a HEAD too. *)
Definition is_get (method : string) : bool :=
  bool_decide (method = "GET"%string) || bool_decide (method = "HEAD"%string).

Section router.
Context `{Alloy} `{SerdeJson} `{DebugText} `{Signatures} `{AxumJson} `{Humantime} `{UrlLib} `{HashOrder}.
Context {W : Type} `{World W} `{Memory W} (flip_after : Z).
Context {R Wr : Type} `{ChainReader R (Sys W)} `{ChainWriter Wr (Sys W)}.

(** The agent as the holder of the agreements. *)
Definition agent_book (ag : Agent R Wr) : Agreements (AS W) := {|
  book_agreement k s := stored_agreement s.(known) k;
  book_admitted stored := _ ← admitted flip_after ag stored.(key); mret tt;
|}.

(** The admission route exists only with the marketplace. *)
Definition admin_router (st : AdminState) (marketplace : option (Agent R Wr)) (now : Readings)
    (q : AdminRequest) : M (AS W) Response :=
  let get (m : M (AS W) Response) :=
    if is_get q.(admin_method) then m else mret (wrong_method "GET,HEAD") in
  let post_ (m : M (AS W) Response) :=
    if bool_decide (q.(admin_method) = "POST"%string) then m else mret (wrong_method "POST") in
  match route_of q.(segments) with
  | Some HealthRoute => get (mret (health_route now))
  | Some NodesRoute => get (fun s => (nodes s.(sys).(pool), s))
  | Some StatsRoute =>
      get (mret match q.(since_param) with Ok from => stats_route st now from | Err r => r end)
  | Some (NodeRoute i) => post_ (awaits (forward_to_node flip_after st i q.(rpc_body)))
  | Some AdmissionRoute =>
      match marketplace with
      | Some ag => post_ (admission_route (Book := agent_book ag) q.(callback_body))
      | None => mret no_route
      end
  | None => mret no_route
  end.
End router.

(** * Theorems *)

Section callback.
Context `{Alloy} `{SerdeJson} `{DebugText} `{Signatures} `{AxumJson} `{UrlLib} `{HashOrder}.
Context {W : Type} `{World W} `{Issuer W} (flip_after : Z).
Context {R Wr : Type} (ag : Agent R Wr).

Lemma admitted_steps k l (s : AS W) :
  s.(known) !! k = Some l ->
  exists t, steps flip_after s.(sys) (admitted flip_after ag k s).2.(sys)
    [Mine l.(provider) (OnScheduleProbeNow t)].
Proof.
  intros Hk. unfold admitted, get_known, mbind, M_bind. cbn [fst snd]. rewrite Hk.
  unfold on_sys. pose proof (read_clock_steps flip_after s.(sys)) as Hc.
  destruct (read_clock s.(sys)) as [t y]. exists t. cbn [fst snd sys] in *.
  pose proof (act_steps flip_after l.(provider) (OnScheduleProbeNow t) y) as Ha.
  destruct (act _ _ _ y) as [[] y']. cbn [snd] in *.
  pose proof (steps_trans _ _ _ _ _ _ Hc Ha) as Hs. by destruct (_ || _).
Qed.

(** C19: A tunnel the callback lets through is the tunnel of the pool
    entry it will feed. When a proxy's registration is answered
    [unchange], the provider that signed its token has a live agreement
    whose member of the pool carries that provider's id and exactly the
    port that was asked for, under the one name of that port, and that
    member's probe is due at once. Any other answer leaves everything as
    it was, and so does a login. *)
Theorem admitted_tunnel_feeds_its_member body (s : AS W) :
  agent_inv s ->
  let '(answer, s') := admission_route (Book := agent_book flip_after ag) body s in
  (answer <> unchange -> s' = s) /\
  forall op metas who,
    read_callback body ≫= parse_callback = Ok (Some (op, metas, who)) -> answer = unchange ->
    match op with
    | Login => s' = s
    | NewProxy port name =>
        exists k sig l p t,
          metas.(meta_agreement) ≫= key_parse = Some k /\
          metas.(meta_token) ≫= signature_parse = Some sig /\
          recover_address_from_msg sig (token_message k) = Some l.(agreement).(record).(ag_provider) /\
          s.(known) !! k = Some l /\ l.(provider) ∈ s.(sys).(pool).(members) /\
          entry s.(sys).(pool) l.(provider) = Some p /\
          p.(id) = marketplace_id l.(agreement).(record).(ag_provider) /\
          p.(source) = Marketplace l.(agreement).(record).(ag_provider) k port /\
          name = proxy_name port /\
          steps flip_after s.(sys) s'.(sys) [Mine l.(provider) (OnScheduleProbeNow t)]
    end.
Proof.
  intros Hinv. unfold admission_route.
  destruct (read_callback body ≫= parse_callback) as [[[[op metas] who]|]|text]; [|done..].
  unfold mbind, M_bind, mret, M_ret.
  destruct (admission_decision _ _ _ _) as [stored|rejection] eqn:Ed; [|done].
  apply admission_decision_Ok in Ed as (k & sig & Ek & Esig & Est & Erec & Hop).
  cbn [book_agreement agent_book] in Est. unfold stored_agreement in Est.
  apply fmap_Some in Est as (l & Hl & ->). destruct op as [|port name]; cbn.
  { split; [done|]. by intros ? ? ? [= <- <- <-]. }
  destruct (mi_key _ _ _ Hinv k l Hl) as [El _]. rewrite El.
  destruct (admitted_steps k l s Hl) as [t Ht]. unfold mbind, M_bind.
  destruct (admitted flip_after ag k s) as [spawned s']. cbn [fst snd] in *.
  split; [done|]. intros ? ? ? [= <- <- <-] _. destruct (Hop port name eq_refl) as [Ep En].
  destruct (mi_member _ _ _ Hinv k l Hl) as [Hm Hid]. unfold ident in Hid.
  apply fmap_Some in Hid as (p & Hp & [= Eid Esrc]). exists k, sig, l, p, t.
  rewrite Ep. split_and!; try done; congruence.
Qed.
End callback.

Section diagnostics.
Context `{SerdeJson} `{DebugText} {W : Type} `{World W} (flip_after : Z) (st : AdminState).

(** Asking one node is a diagnostic: it changes no entry and counts no
    outcome, whatever the node answers. It sends at most one request: to
    the entry of that name, with the body as it came, and only when the
    public endpoint would have let the body through. *)
Theorem asking_a_node_changes_nothing i body (s : Sys W) :
  exists hs, steps flip_after s (forward_to_node flip_after st i body s).2 hs /\
    mine hs = [] /\ counted hs = [] /\
    match pool_get s.(pool) i, check_request body with
    | Some r, Ok x => sent hs = [mkHttpRequest POST
        (match entry s.(pool) r with Some p => p.(url) | None => EmptyString end)
        "application/json" None x st.(admin_attempt_timeout)]
    | _, _ => hs = []
    end.
Proof.
  unfold forward_to_node, mbind, M_bind. cbn [fst snd].
  destruct (pool_get s.(pool) i) as [r|]; [|by exists []; split; [apply steps_refl|]].
  destruct (check_request body) as [x|refusal]; [|by exists []; split; [apply steps_refl|]].
  unfold read_entry, attempt, mbind, M_bind. cbn [fst snd].
  set (q := mkHttpRequest _ _ _ _ _ _). destruct (post_steps flip_after q s) as [os Hs].
  destruct (post flip_after q s) as [a s']. exists (Sent q :: (Theirs <$> os)).
  split; [exact Hs|]. change (Sent q :: (Theirs <$> os)) with ([Sent q] ++ (Theirs <$> os)).
  autorewrite with lb. done.
Qed.
End diagnostics.

(** * Witnesses *)

#[local] Instance demo_issuer : Issuer Script := { issued _ _ := True; in_order _ := True }.
#[local] Instance demo_signatures : Signatures := {|
  Signature := Address * string;
  signature_parse s := Some (10, s);
  recover_address_from_msg s m := if bool_decide (s.2 = m) then Some s.1 else None;
|}.
#[local] Instance demo_debug : DebugText := { debug_text s := s }.
#[local] Instance demo_axum : AxumJson := { json_rejection_text _ := "not a callback"%string }.
#[local] Instance demo_order : HashOrder := {|
  iter A := map_to_list; iter_perm A m := reflexivity _;
|}.

Definition demo_member : Provider :=
  provider_new 0 (marketplace_id 10) "http://127.0.0.1:20000" (Marketplace 10 7 20000).
Definition demo_market : AS Script :=
  mkAS (mkSys (snd (pool_add demo_member empty_pool)) (mkScript [5] [] []) [])
    {[7 := mkLive (mkStored 7 1 2 3 demo_agreement) 0%nat None false]}.

Lemma demo_market_inv : agent_inv demo_market.
Proof.
  assert (forall k l, demo_market.(known) !! k = Some l ->
    k = 7 /\ l = mkLive (mkStored 7 1 2 3 demo_agreement) 0%nat None false) as Hk.
  { intros k l Hl. unfold demo_market in Hl. cbn [known] in Hl.
    by apply (lookup_singleton_Some (M := gmap Z)) in Hl as [<- <-]. }
  assert (forall r, r ∈ demo_market.(sys).(pool).(members) -> r = 0%nat) as Hr.
  { intros r. cbn. set_solver. }
  constructor.
  - constructor.
    + intros r [p Hp]. cbn in *. unfold alloc in Hp. cbn in Hp. apply lookup_insert_Some in Hp as [[<- _]|[_ Hp]];
        [lia | by rewrite lookup_empty in Hp].
    + repeat constructor. by eexists.
    + repeat constructor. set_solver.
  - done.
  - by intros k l [-> ->]%Hk.
  - intros k l [-> ->]%Hk. by vm_compute.
  - intros k l [-> ->]%Hk. split; [cbn; set_solver | by vm_compute].
  - intros k1 k2 l1 l2 [-> _]%Hk [-> _]%Hk _. done.
  - intros r i a k p ->%Hr [= <- <- <- <-]. by eexists.
  - intros r i a ->%Hr [=].
Qed.

Definition demo_callback : Bytes :=
  to_vec (Object [("op", Str "NewProxy");
    ("content", Object [("user", Object [("metas", Object [("agreement", Str (key_hex 7));
                                                           ("token", Str (token_message 7))])]);
                        ("proxy_name", Str "node-rpc-20000"); ("remote_port", from_u64 20000)])])%string.

Definition demo_agent : Agent Reader Reader :=
  mkAgent (reader_new "http://r" None 1) (reader_new "http://r" None 1)
    demo_marketplace
    (mkIdentity 1 1) 0 0.

Lemma admitted_tunnel_feeds_its_member_witness :
  let '(answer, s') := admission_route (Book := agent_book 3 demo_agent) (Ok demo_callback) demo_market in
  answer = unchange /\
  exists p t, entry demo_market.(sys).(pool) 0%nat = Some p /\ p.(source) = Marketplace 10 7 20000 /\
    steps 3 demo_market.(sys) s'.(sys) [Mine 0%nat (OnScheduleProbeNow t)].
Proof.
  pose proof (admitted_tunnel_feeds_its_member 3 demo_agent (Ok demo_callback) demo_market
    demo_market_inv) as Ht.
  assert (read_callback (Ok demo_callback) ≫= parse_callback =
    Ok (Some (NewProxy 20000 "node-rpc-20000",
              mkMetas (Some (key_hex 7)) (Some (token_message 7)), "node-rpc-20000"%string))) as Eq
    by (by vm_compute).
  assert ((admission_route (Book := agent_book 3 demo_agent) (Ok demo_callback) demo_market).1 =
    unchange) as Ea by (by vm_compute).
  destruct (admission_route _ _) as [answer s']. cbn [fst] in Ea. destruct Ht as [_ Ht].
  split; [exact Ea|].
  destruct (Ht _ _ _ Eq Ea) as (k & sig & l & p & t & Ek & _ & _ & Hl & _ & Hp & _ & Hs & _ & Hst).
  cbn [meta_agreement] in Ek. change (Some (key_hex 7) ≫= key_parse) with (key_parse (key_hex 7)) in Ek.
  rewrite key_parse_hex in Ek by (vm_compute; intuition congruence). injection Ek as <-.
  unfold demo_market in Hl. cbn [known] in Hl.
  apply (lookup_singleton_Some (M := gmap Z)) in Hl as [_ <-]. by exists p, t.
Defined.
