(* ===== verification/Guarantee.v ===== *)
(** Rely and guarantee. The agent's theorems rely on the other tasks
    leaving membership and the settlements' counters alone ([Rely]); here
    is that those tasks do. Whatever they are answered, and whatever runs
    in between, the proxy, the monitor, the integrity checker and the
    admin's side door take no step of their own that [benign] rules out,
    so any interleaving of them is one the agent's theorems speak of. *)

From S2P Require Import Prelude External Concrete Denylist Jsonrpc Pool World Forwarder Records Reader Writer Chain Config Admission Agent Mirror Lifecycle Proxy Monitor Integrity Stats Admin.

#[local] Open Scope Z_scope.

(** A task's own step, as the others see it. *)
Definition as_other (x : Step) : option OtherStep :=
  match x with
  | Mine r e => Some (OEvent r e)
  | Counted k => Some (OOutcome k)
  | Added p => Some (OAdd p)
  | Removed i => Some (ORemove i)
  | Theirs _ | Sent _ => None
  end.

(** What a task guarantees: nothing it does is ruled out by the rely. *)
Definition own_benign (x : Step) : Prop := from_option benign True (as_other x).

Definition keeps_rely {W A} (flip_after : Z) (m : M (Sys W) A) : Prop :=
  forall s, exists hs, steps flip_after s (m s).2 hs /\ Forall benign (omap as_other hs).

Lemma own_benign_seen hs : Forall own_benign hs -> Forall benign (omap as_other hs).
Proof.
  induction 1 as [|x hs Hx Hhs IH]; [constructor|]. cbn. unfold own_benign in Hx.
  destruct (as_other x); [by constructor | done].
Qed.

Lemma keeps_rely_does {W A} flip_after (m : M (Sys W) A) :
  does flip_after own_benign m -> keeps_rely flip_after m.
Proof. intros Hm s. destruct (Hm s) as (hs & Hs & Hb). exists hs. split; [done | by apply own_benign_seen]. Qed.

(** * The calls of the tasks *)

Section calls.
Context `{Alloy} `{SerdeJson} {W : Type} `{World W} (flip_after : Z).
Abbreviation does := (does flip_after own_benign) (only parsing).

Lemma theirs_any (w : W) : Forall (fun o => own_benign (Theirs o)) (others w).1.
Proof. by apply Forall_true. Qed.

Lemma does_world_only {A} (f : W -> A * W) :
  does (fun s : Sys W => let '(a, w) := f s.(world) in (a, mkSys s.(pool) w s.(history))).
Proof. apply does_nothing. intros s. destruct (f s.(world)) as [a w]. by apply steps_refl. Qed.

Lemma does_any_post q : does (post (W:=W) flip_after q).
Proof. apply does_post; [apply theirs_any | done]. Qed.
Lemma does_any_others : does (let_others_run (W:=W) flip_after).
Proof. apply does_others, theirs_any. Qed.
Lemma does_select : does (select (W:=W)).
Proof. apply does_nothing, select_steps. Qed.
Lemma does_count k : does (count_outcome (W:=W) k).
Proof. intros s. exists [Counted k]. split; [apply count_outcome_steps | by repeat constructor]. Qed.
Lemma does_snapshot {A} (f : Sys W -> A) : does (fun s : Sys W => (f s, s)).
Proof. apply does_nothing. intros s. by apply steps_refl. Qed.

(** One entry's own events, but those of the agent. *)
Lemma does_benign_act r e : benign (OEvent r e) -> does (act (W:=W) flip_after r e).
Proof. intros Hb. by apply does_act. Qed.

Lemma does_call reader method params : does (call flip_after reader method params).
Proof. apply does_bind; [apply does_random|]. intros n. apply does_bind; [apply does_any_post | intros ?; apply does_ret]. Qed.
End calls.

(** Goes through a computation, call by call. *)
Ltac task :=
  repeat first
    [ progress intros
    | match goal with H : context [does _ _ _] |- _ => apply H end
    | apply does_any_post | apply does_any_others | apply does_select | apply does_count
    | apply does_snapshot | apply does_call | apply does_clock | apply does_random | apply does_entry
    | apply does_ret | apply does_benign_act; exact I
    | apply does_try | apply does_bind | apply does_fmap | case_match ].

(** * The tasks *)

Section tasks.
Context `{Alloy} `{SerdeJson} {W : Type} `{World W}.

Lemma proxy_does st path method body :
  does st.(state_flip_after) own_benign (router st path method body).
Proof.
  unfold router, handle, forward_with_failover.
  assert (forall n deadline x, does st.(state_flip_after) own_benign (try_providers st n deadline x)) as Htry.
  { induction n as [|n IH]; intros deadline x; cbn [try_providers]; unfold attempt, tick_unless; task. }
  task.
Qed.

Lemma side_door_does `{DebugText} flip_after st i body :
  does flip_after own_benign (forward_to_node (W:=W) flip_after st i body).
Proof. unfold forward_to_node, attempt. task. Qed.

Lemma monitor_does {R} `{ChainReader R (Sys W)} (m : Monitor R) n l :
  (forall reader, m.(monitor_reference) = Some reader ->
     does m.(monitor_config).(flip_after) own_benign (block_number reader)) ->
  does m.(monitor_config).(flip_after) own_benign (Monitor.run m n l).
Proof.
  intros Href.
  assert (forall target body, does m.(monitor_config).(flip_after) own_benign (monitor_query m target body))
    as Hquery by (intros; unfold monitor_query; task).
  assert (forall r ref chain_round now,
    does m.(monitor_config).(flip_after) own_benign (probe_one m r ref chain_round now)) as Hone.
  { intros. unfold probe_one, chain_cleared, verify_chain, probe, reschedule_unanswered, query_chain_id,
      query_block_number, entry_url. task. }
  assert (forall xs ref chain_round now,
    does m.(monitor_config).(flip_after) own_benign (probe_each m xs ref chain_round now)) as Heach.
  { induction xs as [|r xs IH]; intros; cbn [probe_each]; task. }
  assert (forall rh, does m.(monitor_config).(flip_after) own_benign (refresh_reference_height m rh)) as Hrefresh.
  { intros rh. unfold refresh_reference_height. destruct (monitor_reference m) as [reader|] eqn:E; task.
    done. }
  revert l. induction n as [|n IH]; intros l; cbn [Monitor.run]; [task|].
  apply does_bind; [|intros; apply IH]. unfold tick, chain_round_due, probe_all, snapshot. task.
Qed.
End tasks.

Section checker.
Context `{Alloy} `{SerdeJson} {W : Type} `{World W} `{Sleep W}.
Context `{KeyStore W} `{Completions W} `{Dice W} (flip_after : Z).
#[local] Instance http_reader : ChainReader Reader (Sys W) := reader_chain_reader flip_after.
Context (Hsleep : forall d, does flip_after own_benign (sleep (W := W) d)).

Lemma reads_do {A} r method params (f : Value -> result ReadError A) :
  does flip_after own_benign (try_m (call flip_after r method params) (fun v => mret (f v))).
Proof using Type. task. Qed.

Lemma pages_do p : does flip_after own_benign (set_page (W := W) p).
Proof using Type. apply (does_world_only flip_after (fun w => (tt, store_page p w))). Qed.

Lemma dice_do n : does flip_after own_benign (random_below (W := W) n).
Proof using Type. apply (does_world_only flip_after (roll n)). Qed.

Lemma order_does l : does flip_after own_benign (completion_order (W := W) l).
Proof using Type. apply (does_world_only flip_after (completes l)). Qed.

Lemma look_does (ck : IntegrityChecker Reader) l x : does flip_after own_benign (look flip_after ck l x).
Proof using Type.
  unfold look. apply does_bind; [apply order_does|]. intros order.
  induction order as [|r order IH]; cbn [look_at_each]; [apply does_ret|].
  unfold look_at, ask, reader_block, reader_query. task.
Qed.

Lemma record_does fs height counts : does flip_after own_benign (record_each (W := W) flip_after fs height counts).
Proof using Type. revert counts. induction fs as [|f fs IH]; intros counts; cbn [record_each]; task. Qed.

Lemma round_does (ck : IntegrityChecker Reader) : does flip_after own_benign (round flip_after ck).
Proof using Hsleep.
  assert (forall fin, does flip_after own_benign (expected_of ck fin)) as Hexpected.
  { intros fin. unfold expected_of, load_keys_if_due, page_due, pick_key, reference_rows, get_page.
    cbn [query http_reader reader_chain_reader]. unfold reader_query.
    pose proof pages_do. pose proof dice_do. task. }
  unfold round, round_over, finalized_block, judge_providers, confirm, record_findings.
  cbn [block http_reader reader_chain_reader]. unfold reader_block.
  pose proof look_does. pose proof record_does. task.
Qed.

Lemma checker_does (ck : IntegrityChecker Reader) ready n : does flip_after own_benign (integrity_run flip_after ck ready n).
Proof using Hsleep.
  assert (forall k, does flip_after own_benign (rounds flip_after ck k)) as Hrounds.
  { induction k as [|k IH]; cbn [rounds]; pose proof (round_does ck); task. }
  induction ready as [|r ready IH]; cbn [integrity_run]; task.
Qed.
End checker.

(** * The guarantee *)

(** C14: Whatever the proxy answers a caller, the admin's side door relays
    to a node, the monitor probes in any number of rounds and the
    integrity checker judges, over any world and any interleaving with
    others: no step of their own brings a member in or takes one out, seeds
    a settled counter or subtracts from one. That is the rely the agent's
    and the settlements' theorems are stated under, discharged by the code
    of the other tasks instead of assumed of it. *)
Theorem other_tasks_keep_the_rely `{Alloy} `{SerdeJson} `{DebugText} {W} `{World W} `{Sleep W}
    `{KeyStore W} `{Completions W} `{Dice W} (flips : Z)
    (Hsleep : forall d, does flips own_benign (sleep (W := W) d)) :
  let reads := reader_chain_reader (W := W) flips in
  (forall st path method body, st.(state_flip_after) = flips ->
     keeps_rely (W := W) flips (router st path method body)) /\
  (forall st i body, keeps_rely (W := W) flips (forward_to_node flips st i body)) /\
  (forall (m : Monitor Reader) n l, m.(monitor_config).(flip_after) = flips ->
     keeps_rely flips (Monitor.run m n l)) /\
  (forall (ck : IntegrityChecker Reader) ready n,
     keeps_rely flips (integrity_run flips ck ready n)).
Proof.
  intros reads. split_and!.
  - intros st path method body <-. apply keeps_rely_does, proxy_does.
  - intros st i body. apply keeps_rely_does, side_door_does.
  - intros m n l <-. apply keeps_rely_does, monitor_does. intros reader _.
    unfold reads. cbn. unfold reader_block_number. task.
  - intros ck ready n. apply keeps_rely_does, checker_does, Hsleep.
Qed.

#[local] Instance demo_debug : DebugText := { debug_text s := s }.
#[local] Instance demo_reads : ChainReader Reader (Sys Bench) | 0 := reader_chain_reader 1.

Definition bench_up : Sys Bench :=
  mkSys (update 0%nat (apply_event 1 (OnHealth true Probe)) demo_bench.(pool)) demo_bench.(world) [].

(** The checker judges the one provider a liar, which the rely allows. *)
Lemma other_tasks_keep_the_rely_witness :
  let s' := (integrity_run 1 demo_checker [false; true] 1 bench_up).2 in
  mine s'.(history) = [(0%nat, OnVerdict Divergence 7)] /\
  exists hs, steps 1 bench_up s' hs /\ Forall benign (omap as_other hs).
Proof.
  split; [by vm_compute|].
  apply (other_tasks_keep_the_rely (W := Bench) 1). intros d. apply (does_any_others 1).
Defined.
