(* ===== verification/Service.v ===== *)
(** The boot, [crates/lb/src/service.rs]: what is refused before anything
    binds, in which order the parts come up, and which tasks run then. *)

From S2P Require Import Prelude External Concrete Denylist Jsonrpc Pool World Forwarder Records Reader Writer Chain Config Admission Stats Agent Mirror Reconcile Offers Flush Billing Lifecycle FakeChain Proxy Monitor Integrity Admin.

#[local] Open Scope Z_scope.

Definition AGENT_READ_TIMEOUT : Z := from_secs 30.

Abbreviation SocketAddr := (Z * Z)%type (only parsing).

(** [NoChainClients] is the [expect] of [start_with]. *)
Inductive ServiceError : Type :=
| Bind (addr : SocketAddr) (source : string)
| BadProvider (e : InvalidUrl)
| BadUrl (what url : string)
| MarketplaceNeedsReference
| IntegrityNeedsReference
| Marketplace_ (e : Lifecycle.StartError)
| ChainMismatch (configured actual : Z)
| NoChainClients.

(** The sockets and the one file the boot reads. *)
Class Sockets (W : Type) := {
  tcp_bind : SocketAddr -> M (Sys W) (result string unit);
  local_addr : SocketAddr -> M (Sys W) (result string SocketAddr);
}.
Class StatsFile (W : Type) := { read_file : string -> M (Sys W) FileRead }.

(** The tasks that run, each with what it was given. *)
Inductive Task (R Wr : Type) : Type :=
| ServePublic (st : ProxyState)
| ServeAdmin (st : AdminState) (marketplace : option (Agent R Wr))
| RunAgent (ag : Agent R Wr) (checker : option (IntegrityChecker Reader))
| RunChecker (ck : IntegrityChecker Reader)
| RunStats (period : Z) (file : string)
| RunMonitor (m : Monitor Reader).
Arguments ServePublic {R Wr}.
Arguments ServeAdmin {R Wr}.
Arguments RunAgent {R Wr}.
Arguments RunChecker {R Wr}.
Arguments RunStats {R Wr}.
Arguments RunMonitor {R Wr}.

Record Service (R Wr : Type) : Type := mkService {
  public_addr : SocketAddr;
  admin_addr : SocketAddr;
  boot_stats : Stats;
  tasks : list (Task R Wr);
}.
Arguments mkService {R Wr}.
Arguments public_addr {R Wr}.
Arguments admin_addr {R Wr}.
Arguments boot_stats {R Wr}.
Arguments tasks {R Wr}.

(** The boot's state: the agent's, the addresses it tried to bind, and the
    ones it did bind. *)
Record Boot (W : Type) : Type := mkBoot {
  booting : AS W;
  touched : list SocketAddr;
  bound : list SocketAddr;
}.
Arguments mkBoot {W}.
Arguments booting {W}.
Arguments touched {W}.
Arguments bound {W}.

Definition parse_url `{UrlLib} (what url : string) : result ServiceError Url :=
  ok_or (BadUrl what url) (url_parse url).

Section boot.
Context `{Alloy} `{SerdeJson} `{UrlLib} `{HashOrder}.
Context {W : Type} `{World W} `{Memory W} `{Loopback W} `{Sockets W} `{StatsFile W}.
Context {R Wr : Type} `{ChainReader R (Sys W)} `{ChainWriter Wr (Sys W)}.

Definition on_boot {A} (m : M (AS W) A) : M (Boot W) A := fun s =>
  let '(a, x) := m s.(booting) in (a, mkBoot x s.(touched) s.(bound)).

Definition set_pool (pl : Pool) : M (AS W) unit := fun s =>
  (tt, mkAS (mkSys pl s.(sys).(world) s.(sys).(history)) s.(known)).

Definition bind (addr : SocketAddr) : M (Boot W) (result ServiceError unit) := fun s =>
  let '(answer, x) := awaits (tcp_bind addr) s.(booting) in
  (map_err (Bind addr) answer,
   mkBoot x (s.(touched) ++ [addr])
     match answer with Ok _ => s.(bound) ++ [addr] | Err _ => s.(bound) end).

Definition bound_addr (addr : SocketAddr) : M (Boot W) (result ServiceError SocketAddr) :=
  answer ← on_boot (on_sys (local_addr addr)); mret (map_err (Bind addr) answer).

Definition config_pairs (c : Config) : list (string * string) :=
  (fun p => (p.(provider_id), p.(provider_url))) <$> c.(providers).

(** The checker, over its own reader on the reference. *)
Definition make_checker (c : Config) : result ServiceError (option (IntegrityChecker Reader)) :=
  match c.(Config.integrity), c.(Config.reference) with
  | Some i, Some url =>
      u ← parse_url "reference url" url;
      let timeout := c.(Config.proxy).(Config.attempt_timeout) in
      Ok (Some (integrity_new (reader_new u c.(reference_key) timeout) i timeout))
  | _, _ => Ok None
  end.

(** The agent, started, on the chain the configuration names. *)
Definition make_agent (c : Config) (chain : option (R * Wr)) :
    M (AS W) (result ServiceError (option (Agent R Wr))) :=
  match c.(Config.marketplace) with
  | None => mret (Ok None)
  | Some m =>
      match chain with
      | None => mret (Err NoChainClients)
      | Some (rd, wr) =>
          started ← Lifecycle.start c.(health).(flip_after) rd wr m;
          mret (match started with
                | Err e => Err (Marketplace_ e)
                | Ok ag =>
                    let actual := ag.(agent_identity).(chain_id) in
                    match c.(health).(health_chain_id) with
                    | Some configured =>
                        if Z.eqb configured actual then Ok (Some ag)
                        else Err (ChainMismatch configured actual)
                    | None => Ok (Some ag)
                    end
                end)
      end
  end.

(** The monitor, when probing is on; its reader on the reference. *)
Definition make_monitor (c : Config) : result ServiceError (option (Monitor Reader)) :=
  if c.(health).(disable_probing) then Ok None
  else match c.(Config.reference) with
       | Some url =>
           u ← parse_url "reference url" url;
           Ok (Some (mkMonitor c.(health)
                       (Some (reader_new u c.(reference_key) c.(health).(probe_timeout)))))
       | None => Ok (Some (mkMonitor c.(health) None))
       end.

Definition option_task {A} (f : A -> Task R Wr) (x : option A) : list (Task R Wr) :=
  match x with Some x => [f x] | None => [] end.

Definition service_tasks (c : Config) (agent : option (Agent R Wr))
    (checker : option (IntegrityChecker Reader)) (monitor : option (Monitor Reader)) :
    list (Task R Wr) :=
  let forwarder := mkForwarder c.(Config.proxy).(Config.max_response_size) in
  [ServePublic (mkProxyState forwarder c.(Config.proxy) c.(health).(flip_after));
   ServeAdmin (mkAdminState forwarder c.(Config.proxy).(Config.attempt_timeout)
                 ((fun ag => addr_hex ag.(agent_identity).(address)) <$> agent)) agent] ++
  option_task (fun ag => RunAgent ag checker) agent ++ option_task RunChecker checker ++
  [RunStats (default (from_secs HOUR) c.(Config.stats).(period)) c.(Config.stats).(file)] ++
  option_task RunMonitor monitor.

(** [start_with], once the pool is there. The monitor's reader is made
    last, after the other tasks run. *)
Definition start_parts (c : Config) (chain : option (R * Wr)) :
    M (Boot W) (result ServiceError (Service R Wr)) :=
  checker <?- mret (make_checker c);
  agent <?- on_boot (make_agent c chain);
  _ <?- bind c.(listen).(public);
  _ <?- bind c.(listen).(admin);
  public_at <?- bound_addr c.(listen).(public);
  admin_at <?- bound_addr c.(listen).(admin);
  rings ← on_boot (on_sys (read_file c.(Config.stats).(file)));
  mret (monitor ← make_monitor c;
        Ok (mkService public_at admin_at (stats_load rings)
              (service_tasks c agent checker monitor))).

Definition start_with (c : Config) (chain : option (R * Wr)) :
    M (Boot W) (result ServiceError (Service R Wr)) :=
  if bool_decide (is_Some c.(Config.integrity)) && negb (bool_decide (is_Some c.(Config.reference)))
  then mret (Err IntegrityNeedsReference)
  else
    now ← on_boot (on_sys read_clock);
    match pool_new now (config_pairs c) with
    | Err e => mret (Err (BadProvider e))
    | Ok pl => _ ← on_boot (set_pool pl); start_parts c chain
    end.
End boot.

(** [start]: the real chain clients, when the marketplace is configured. *)
Definition chain_clients `{UrlLib} (c : Config) : result ServiceError (option (Reader * Writer)) :=
  match c.(Config.marketplace) with
  | None => Ok None
  | Some m =>
      url ← ok_or MarketplaceNeedsReference c.(Config.reference);
      reference_url ← parse_url "reference url" url;
      writer_url ← parse_url "marketplace.writer_url" m.(writer_url);
      Ok (Some (reader_new reference_url c.(reference_key) AGENT_READ_TIMEOUT, mkWriter writer_url))
  end.

(** [start]: the service over them. *)
Definition start `{Alloy} `{SerdeJson} `{UrlLib} `{HashOrder} {W : Type} `{World W} `{Memory W}
    `{Loopback W} `{Sockets W} `{StatsFile W} (c : Config) :
    M (Boot W) (result ServiceError (Service Reader Writer)) :=
  match chain_clients c with
  | Err e => mret (Err e)
  | Ok chain =>
      let reads := reader_chain_reader c.(health).(flip_after) in
      let writes := writer_chain_writer c.(health).(flip_after) in
      start_with c chain
  end.

(** * What a started service is *)

Section booted.
Context `{Alloy} `{SerdeJson} `{UrlLib} `{HashOrder}.
Context {W : Type} `{World W} `{Memory W} `{Loopback W} `{Sockets W} `{StatsFile W}.
Context {R Wr : Type} `{ChainReader R (Sys W)} `{ChainWriter Wr (Sys W)} (c : Config).

(** A reader on the reference: at its address, with its key. *)
Definition on_reference (timeout : Z) (rd : Reader) : Prop :=
  exists url u, c.(Config.reference) = Some url /\ url_parse url = Some u /\
    rd = reader_new u c.(reference_key) timeout.

(** The checker compares with the reference; the monitor does where there
    is one. *)
Definition checker_fits (k : IntegrityChecker Reader) : Prop :=
  c.(Config.integrity) = Some k.(checker_config) /\
  k.(Integrity.attempt_timeout) = c.(Config.proxy).(Config.attempt_timeout) /\
  on_reference c.(Config.proxy).(Config.attempt_timeout) k.(checker_reference).
Definition monitor_fits (m : Monitor Reader) : Prop :=
  m.(monitor_config) = c.(health) /\
  match m.(monitor_reference) with
  | Some rd => on_reference c.(health).(probe_timeout) rd
  | None => c.(Config.reference) = None
  end.

(** Each part runs once, exactly where the configuration has it, with what
    the configuration gives it; and they are the same parts everywhere:
    one agent behind the admission route and in its task, one checker in
    its task and at admissions, an agent over the chain clients it was
    given and only on the chain the configuration names. *)
Record wired (chain : option (R * Wr)) (sv : Service R Wr) : Prop := {
  wired_once : NoDup sv.(tasks);
  wired_public st : ServePublic st ∈ sv.(tasks) <->
    st = mkProxyState (mkForwarder c.(Config.proxy).(Config.max_response_size)) c.(Config.proxy)
           c.(health).(flip_after);
  wired_admin_serves : exists st m, ServeAdmin st m ∈ sv.(tasks);
  wired_admin st m : ServeAdmin st m ∈ sv.(tasks) ->
    st = mkAdminState (mkForwarder c.(Config.proxy).(Config.max_response_size))
           c.(Config.proxy).(Config.attempt_timeout)
           ((fun ag => addr_hex ag.(agent_identity).(address)) <$> m) /\
    forall ag, (exists ck, RunAgent ag ck ∈ sv.(tasks)) <-> m = Some ag;
  wired_stats p f : RunStats p f ∈ sv.(tasks) <->
    p = default (from_secs HOUR) c.(Config.stats).(period) /\ f = c.(Config.stats).(file);
  wired_agent : (exists ag ck, RunAgent ag ck ∈ sv.(tasks)) <-> is_Some c.(Config.marketplace);
  wired_handles ag ck : RunAgent ag ck ∈ sv.(tasks) ->
    chain = Some (ag.(reader), ag.(writer)) /\ c.(Config.marketplace) = Some ag.(agent_config);
  wired_chain ag ck i : RunAgent ag ck ∈ sv.(tasks) -> c.(health).(health_chain_id) = Some i ->
    ag.(agent_identity).(chain_id) = i;
  wired_checker : (exists k, RunChecker k ∈ sv.(tasks)) <-> is_Some c.(Config.integrity);
  wired_checks k : RunChecker k ∈ sv.(tasks) -> checker_fits k;
  wired_admission ag ck k : RunAgent ag ck ∈ sv.(tasks) ->
    RunChecker k ∈ sv.(tasks) <-> ck = Some k;
  wired_monitor : (exists m, RunMonitor m ∈ sv.(tasks)) <-> c.(health).(disable_probing) = false;
  wired_probes m : RunMonitor m ∈ sv.(tasks) -> monitor_fits m;
}.

Definition agent_fits (chain : option (R * Wr)) (a : option (Agent R Wr)) : Prop :=
  (is_Some a <-> is_Some c.(Config.marketplace)) /\
  forall ag, a = Some ag ->
    chain = Some (ag.(reader), ag.(writer)) /\ c.(Config.marketplace) = Some ag.(agent_config) /\
    forall i, c.(health).(health_chain_id) = Some i -> ag.(agent_identity).(chain_id) = i.

Lemma elem_of_option_task {A} (f : A -> Task R Wr) o x :
  x ∈ option_task f o <-> exists y, o = Some y /\ x = f y.
Proof.
  destruct o as [y|]; cbn; [rewrite list_elem_of_singleton | rewrite elem_of_nil].
  - split; [by intros ->; exists y | by intros (? & [= <-] & ->)].
  - split; [done | by intros (? & ? & _)].
Qed.

Section tasks.
Context (agent : option (Agent R Wr)) (checker : option (IntegrityChecker Reader))
  (monitor : option (Monitor Reader)).
Abbreviation all := (service_tasks c agent checker monitor) (only parsing).

(** Which task is which. *)
#[local] Ltac task_cases :=
  unfold service_tasks; cbv zeta; cbn [app];
  repeat (rewrite ?elem_of_cons, ?elem_of_app, ?elem_of_option_task, ?elem_of_nil).

Lemma agent_in ag ck : RunAgent ag ck ∈ all <-> agent = Some ag /\ ck = checker.
Proof. task_cases. naive_solver. Qed.
Lemma checker_in k : RunChecker k ∈ all <-> checker = Some k.
Proof. task_cases. naive_solver. Qed.
Lemma monitor_in m : RunMonitor m ∈ all <-> monitor = Some m.
Proof. task_cases. naive_solver. Qed.
Lemma admin_in st m : ServeAdmin st m ∈ all <->
  m = agent /\ st = mkAdminState (mkForwarder c.(Config.proxy).(Config.max_response_size))
    c.(Config.proxy).(Config.attempt_timeout) ((fun ag => addr_hex ag.(agent_identity).(address)) <$> agent).
Proof. task_cases. naive_solver. Qed.
Lemma public_in st : ServePublic st ∈ all <->
  st = mkProxyState (mkForwarder c.(Config.proxy).(Config.max_response_size)) c.(Config.proxy)
         c.(health).(flip_after).
Proof. task_cases. naive_solver. Qed.
Lemma stats_in p f : RunStats p f ∈ all <->
  p = default (from_secs HOUR) c.(Config.stats).(period) /\ f = c.(Config.stats).(file).
Proof. task_cases. naive_solver. Qed.
Lemma tasks_once : NoDup all.
Proof.
  unfold service_tasks. destruct agent, checker, monitor; cbn;
    repeat (apply NoDup_cons; split; [rewrite ?elem_of_cons, elem_of_nil; naive_solver|]); constructor.
Qed.
End tasks.

Lemma service_tasks_wired p q rings chain agent checker monitor :
  agent_fits chain agent ->
  (is_Some checker <-> is_Some c.(Config.integrity)) -> (forall k, checker = Some k -> checker_fits k) ->
  (is_Some monitor <-> c.(health).(disable_probing) = false) ->
  (forall m, monitor = Some m -> monitor_fits m) ->
  wired chain (mkService p q rings (service_tasks c agent checker monitor)).
Proof.
  intros [Ha Hc] Hk Hkf Hm Hmf.
  split; cbn [tasks].
  - apply tasks_once.
  - intros st. apply public_in.
  - eexists _, _. by apply admin_in.
  - intros st m [-> ->]%admin_in. split; [done|]. intros ag.
    split; [by intros (ck & [-> _]%agent_in)|]. intros Eag. exists checker. by apply agent_in.
  - intros p' f. apply stats_in.
  - rewrite <- Ha. split; [intros (ag & ck & [-> _]%agent_in); by eexists|].
    intros [ag Eag]. exists ag, checker. by apply agent_in.
  - intros ag ck [Eag _]%agent_in. by destruct (Hc ag Eag) as (? & ? & _).
  - intros ag ck i [Eag _]%agent_in. by apply Hc.
  - rewrite <- Hk. split; [intros (k & ->%checker_in); by eexists|].
    intros [k Ek]. exists k. by apply checker_in.
  - intros k Ek%checker_in. by apply Hkf.
  - intros ag ck k [_ ->]%agent_in. by rewrite checker_in.
  - rewrite <- Hm. split; [intros (m & ->%monitor_in); by eexists|].
    intros [m Em]. exists m. by apply monitor_in.
  - intros m Em%monitor_in. by apply Hmf.
Qed.

(** A start that answers an agent answers one over its own handles. *)
Lemma start_handles rd wr m s ag :
  (Lifecycle.start (W := W) c.(health).(flip_after) rd wr m s).1 = Ok ag ->
  ag.(reader) = rd /\ ag.(writer) = wr /\ ag.(agent_config) = m.
Proof.
  unfold Lifecycle.start, mbind, M_bind.
  destruct (awaits (identity wr) s) as [[who|x] s0]; [|done].
  destruct (reconcile_agreements _ s0) as [[head|[x|kind n]] s1]; try done.
  destruct (reconcile_counters _ _ head s1) as [[counters|[x|kind n]] s2]; try done.
  destruct (awaits (block_number rd) s2) as [[head'|x] s3]; [|done].
  destruct (ensure_listing rd wr m _ head' s3) as [[[k e]|x] s4]; [|done]. cbn. by intros [= <-].
Qed.

Lemma make_agent_fits chain s a : (make_agent c chain s).1 = Ok a -> agent_fits chain a.
Proof.
  unfold make_agent, agent_fits, mbind, M_bind. destruct (Config.marketplace c) as [m|] eqn:Em.
  2:{ intros [= <-]. split; [by split; intros [? ?] | done]. }
  destruct chain as [[rd wr]|]; [|done]. pose proof (start_handles rd wr m s) as Hh.
  destruct (Lifecycle.start _ _ _ _ s) as [[ag|e] s1]; [|done].
  destruct (Hh ag eq_refl) as (<- & <- & <-). cbn.
  destruct (health_chain_id (health c)) as [i|]; cbn.
  - destruct (Z.eqb_spec i (chain_id (agent_identity ag))); cbn; [|done]. intros [= <-].
    split; [by split; eexists|]. intros ? [= <-]. split_and!; [done..|]. by intros ? [= <-].
  - intros [= <-]. split; [by split; eexists|]. intros ? [= <-]. by split_and!.
Qed.

(** ** A boot, step by step *)

Context (chain : option (R * Wr)) (J I : AS W -> Prop) (K : option (Agent R Wr) -> AS W -> Prop).
Context (t b : list SocketAddr).
Context (I_pool : forall s pl, J s -> pool_new (on_sys read_clock s).1 (config_pairs c) = Ok pl ->
  I (set_pool pl (on_sys read_clock s).2).2).
Context (K_agent : triple I (make_agent c chain)
  (fun r s => match r with Ok a => K a s | Err _ => True end)).
Context (K_bind : forall a at_, triple (K a) (awaits (tcp_bind at_)) (fun _ => K a)).
Context (K_local : forall a at_, triple (K a) (on_sys (local_addr at_)) (fun _ => K a)).
Context (K_file : forall a f, triple (K a) (on_sys (read_file f)) (fun _ => K a)).

Definition is_bind (e : ServiceError) : Prop := exists a m, e = Bind a m.

(** Both binds succeeded, one after the other. *)
Definition both_bound : Prop := exists x1 x2 x3,
  awaits (tcp_bind c.(listen).(public)) x1 = (Ok tt, x2) /\
  awaits (tcp_bind c.(listen).(admin)) x2 = (Ok tt, x3).

Definition outcome_of (r : result ServiceError (Service R Wr)) (s : Boot W) : Prop :=
  match r with
  | Err e => (s.(touched) = t /\ s.(bound) = b) \/ is_bind e \/ make_monitor c = Err e
  | Ok sv => wired chain sv /\
      (exists a, (forall ag ck, RunAgent ag ck ∈ sv.(tasks) -> a = Some ag) /\ K a s.(booting)) /\
      s.(touched) = t ++ [c.(listen).(public); c.(listen).(admin)] /\
      s.(bound) = b ++ [c.(listen).(public); c.(listen).(admin)] /\ both_bound
  end.

(** Where a boot stands between two of its steps. *)
Definition stands (P : AS W -> Prop) (l l' : list SocketAddr) (s : Boot W) : Prop :=
  P s.(booting) /\ s.(touched) = l /\ s.(bound) = l'.

Lemma try_at {S E A B} (m : M S (result E A)) (f : A -> M S (result E B))
    (Q : result E B -> S -> Prop) s :
  (forall e, (m s).1 = Err e -> Q (Err e) (m s).2) ->
  (forall a, (m s).1 = Ok a -> Q (f a (m s).2).1 (f a (m s).2).2) ->
  Q (try_m m f s).1 (try_m m f s).2.
Proof. unfold try_m, mbind, M_bind. destruct (m s) as [[a|e] s']; naive_solver. Qed.

Lemma triple_on_boot {A} (m : M (AS W) A) (P : AS W -> Prop) (Q : A -> AS W -> Prop) l l' :
  triple P m Q -> triple (stands P l l') (on_boot m) (fun a => stands (Q a) l l').
Proof.
  intros Hm s (Hs & Hl). specialize (Hm _ Hs). unfold on_boot.
  by destruct (m s.(booting)) as [a x].
Qed.

Lemma bind_is_bind addr s e : (bind (W := W) addr s).1 = Err e -> exists m, e = Bind addr m.
Proof using Type.
  unfold bind. destruct (awaits _ _) as [[u|m] x]; cbn; [done|]. intros [= <-]. by exists m.
Qed.

Lemma bound_is_bind addr s e : (bound_addr (W := W) addr s).1 = Err e -> exists m, e = Bind addr m.
Proof using Type.
  unfold bound_addr, mbind, M_bind. destruct (on_boot _ s) as [[a|m] x]; cbn; [done|].
  intros [= <-]. by exists m.
Qed.

Lemma bind_keeps a (P : AS W -> Prop) addr l l' :
  (forall x, P x -> K a x) ->
  triple (stands P l l') (bind addr)
    (fun r s => match r with
                | Ok _ => stands (fun x => K a x /\ exists y, P y /\ awaits (tcp_bind addr) y = (Ok tt, x))
                            (l ++ [addr]) (l' ++ [addr]) s
                | Err e => is_bind e
                end).
Proof using K_bind.
  intros HP s (Hs & Hl & Hl'). unfold bind. pose proof (K_bind a addr _ (HP _ Hs)) as Hk.
  destruct (awaits _ _) as [[[]|m] x] eqn:E; cbn in *; [|by eexists _, _].
  split; [|by rewrite Hl, Hl']. split; [done|]. by exists s.(booting).
Qed.

Lemma bound_addr_keeps a (Q : Prop) addr l l' :
  triple (stands (fun x => K a x /\ Q) l l') (bound_addr addr)
    (fun r s => match r with Ok _ => stands (fun x => K a x /\ Q) l l' s | Err e => is_bind e end).
Proof using K_local.
  intros s (Hs & Hl). unfold bound_addr, mbind, M_bind, on_boot.
  pose proof (K_local a addr s.(booting) (proj1 Hs)) as Hk.
  destruct (on_sys (local_addr addr) s.(booting)) as [[x|m] y]; cbn in *; [|by eexists _, _].
  split; [|done]. split; [done | apply Hs].
Qed.

Lemma make_checker_fits k :
  bool_decide (is_Some c.(Config.integrity)) && negb (bool_decide (is_Some c.(Config.reference))) = false ->
  make_checker c = Ok k -> is_Some k <-> is_Some c.(Config.integrity).
Proof using Type.
  unfold make_checker. destruct (Config.integrity c), (Config.reference c); try done.
  - intros _. cbn. destruct (parse_url _ _); cbn; [intros [= <-] | done]. split; by eexists.
  - intros _ [= <-]. by split; intros [? ?].
  - intros _ [= <-]. by split; intros [? ?].
Qed.

Lemma parse_url_Ok what url u : parse_url what url = Ok u -> url_parse url = Some u.
Proof using Type. unfold parse_url. by intros ?%ok_or_Ok. Qed.

Lemma make_checker_reads k : make_checker c = Ok (Some k) -> checker_fits k.
Proof using Type.
  unfold make_checker, checker_fits, on_reference.
  destruct (Config.integrity c) as [i|], (Config.reference c) as [url|]; try done.
  destruct (parse_url _ url) as [u|] eqn:Eu; cbn; [|done]. intros [= <-]. split_and!; [done..|].
  exists url, u. split_and!; [done | by eapply parse_url_Ok | done].
Qed.

Lemma make_monitor_reads m : make_monitor c = Ok (Some m) -> monitor_fits m.
Proof using Type.
  unfold make_monitor, monitor_fits, on_reference. destruct (disable_probing (health c)); [done|].
  destruct (Config.reference c) as [url|]; cbn; [|by intros [= <-]].
  destruct (parse_url _ url) as [u|] eqn:Eu; cbn; [|done]. intros [= <-]. split; [done|]. cbn.
  exists url, u. split_and!; [done | by eapply parse_url_Ok | done].
Qed.

Lemma make_monitor_fits m :
  make_monitor c = Ok m -> is_Some m <-> c.(health).(disable_probing) = false.
Proof using Type.
  unfold make_monitor. destruct (disable_probing (health c)).
  - intros [= <-]. by split; [intros [? ?]|].
  - destruct (Config.reference c); cbn; [destruct (parse_url _ _); cbn; [|done]|];
      intros [= <-]; by split; [|eexists].
Qed.

Lemma start_parts_outcome :
  bool_decide (is_Some c.(Config.integrity)) && negb (bool_decide (is_Some c.(Config.reference))) = false ->
  triple (stands I t b) (start_parts c chain) outcome_of.
Proof using Type*.
  intros Hg s Hs. unfold start_parts.
  apply try_at; cbn [mret M_ret fst snd]; [by intros e _; left; apply Hs|]. intros checker Ec.
  pose proof (make_checker_fits checker Hg Ec) as Hck.
  pose proof (triple_on_boot _ _ _ t b K_agent s Hs) as Ha.
  assert ((on_boot (make_agent c chain) s).1 = (make_agent c chain s.(booting)).1) as E
    by (unfold on_boot; by destruct (make_agent c chain s.(booting))).
  apply try_at; [by intros e _; left; apply Ha|]. intros agent Eag. rewrite Eag in Ha. rewrite E in Eag.
  pose proof (make_agent_fits chain s.(booting) agent Eag) as Hfit.
  revert Ha. generalize (on_boot (make_agent c chain) s).2. clear E Eag.
  change (triple (stands (K agent) t b) (_ <?- bind c.(listen).(public);
    _ <?- bind c.(listen).(admin);
    public_at <?- bound_addr c.(listen).(public);
    admin_at <?- bound_addr c.(listen).(admin);
    rings ← on_boot (on_sys (read_file c.(Config.stats).(file)));
    mret (monitor ← make_monitor c;
          Ok (mkService public_at admin_at (stats_load rings)
                (service_tasks c agent checker monitor)))) outcome_of).
  eapply triple_try; [by apply (bind_keeps agent (K agent)) | | by intros e s2 He; right; left]. intros u1.
  eapply triple_try; [apply (bind_keeps agent); by intros x [? _] | | by intros e s2 He; right; left].
  intros u2. cbv beta.
  assert (forall (m : M (Boot W) (result ServiceError (Service R Wr))) (l l' : list SocketAddr) (P : AS W -> Prop),
    (forall x, P x -> K agent x /\ both_bound) ->
    triple (stands (fun x => K agent x /\ both_bound) l l') m outcome_of ->
    triple (stands P l l') m outcome_of) as Hpure.
  { intros m l l' P HP Hm s1 (Hs1 & Hl). apply Hm. split; [by apply HP | done]. }
  eapply Hpure.
  { intros x (HK & y & (_ & z & _ & E1) & E2). split; [done|]. by exists z, y, x. }
  eapply triple_try; [apply (bound_addr_keeps agent) | | by intros e s2 He; right; left]. intros p.
  eapply triple_try; [apply (bound_addr_keeps agent) | | by intros e s2 He; right; left]. intros q.
  eapply triple_bind; [apply (triple_on_boot _ _ (fun _ x => K agent x /\ both_bound))|].
  { intros x [HK HQ]. exact (conj (K_file agent _ x HK) HQ). }
  intros rings s2 ((HK & HQ) & Ht & Hb).
  cbn. destruct (make_monitor c) as [monitor|e] eqn:Em; cbn; [|by right; right].
  split_and!; [| | by rewrite Ht, <- (assoc_L (++)) | by rewrite Hb, <- (assoc_L (++)) | done].
  - apply service_tasks_wired; [done | done | | by apply make_monitor_fits |].
    + intros k ->. by apply make_checker_reads.
    + intros m ->. by apply make_monitor_reads.
  - exists agent. split; [by intros ag ck [-> _]%agent_in | done].
Qed.

Lemma start_with_outcome : triple (stands J t b) (start_with c chain) outcome_of.
Proof using Type*.
  intros s (HJ & Ht & Hb). unfold start_with.
  destruct (bool_decide (is_Some (Config.integrity c)) && _) eqn:Eg; [by left|].
  assert (forall x : AS W, on_boot (on_sys read_clock) s =
    ((on_sys read_clock s.(booting)).1, mkBoot (on_sys read_clock s.(booting)).2 s.(touched) s.(bound))) as E.
  { intros _. unfold on_boot. by destruct (on_sys _ _). }
  unfold mbind, M_bind. rewrite (E s.(booting)). clear E.
  pose proof (I_pool s.(booting)) as Hp.
  destruct (pool_new (on_sys read_clock (booting s)).1 (config_pairs c)) as [pl|e]; [|by left].
  specialize (Hp pl HJ eq_refl). apply start_parts_outcome; [done|]. done.
Qed.
End booted.

(** * Theorems *)

Section refusals.
Context `{Alloy} `{SerdeJson} `{UrlLib} `{HashOrder}.
Context {W : Type} `{World W} `{Memory W} `{Loopback W} `{Sockets W} `{StatsFile W}.

(** A start that is refused for anything but its own addresses has
    touched no port: every check of the configuration, every read of the
    chain and the listing's write come before the first bind. What is
    left for after is the reference's URL, where only the monitor uses
    it: one that parses is not refused. *)
Theorem refused_before_it_binds {R Wr : Type} `{ChainReader R (Sys W)} `{ChainWriter Wr (Sys W)}
    c (chain : option (R * Wr)) (s : Boot W) e :
  (forall url, c.(Config.reference) = Some url -> is_Some (url_parse url)) ->
  (start_with c chain s).1 = Err e -> ~ is_bind e ->
  (start_with c chain s).2.(touched) = s.(touched) /\ (start_with c chain s).2.(bound) = s.(bound).
Proof using Type*.
  intros Hurl He Hb.
  assert (outcome_of c chain (fun _ _ => True) s.(touched) s.(bound) (start_with c chain s).1
    (start_with c chain s).2) as Ho.
  { apply (start_with_outcome c chain (fun _ => True) (fun _ => True) (fun _ _ => True)); try done.
    by intros x _; destruct (make_agent c chain x) as [[]]. }
  rewrite He in Ho. destruct Ho as [Ho|[Ho|Ho]]; [done|done|]. exfalso.
  unfold make_monitor in Ho. destruct (disable_probing (health c)); [done|].
  destruct (Config.reference c) as [url|] eqn:Er; [|done].
  destruct (Hurl url eq_refl) as [u Hu]. unfold parse_url in Ho. by rewrite Hu in Ho.
Qed.

Lemma parts_have_clients {R Wr : Type} `{ChainReader R (Sys W)} `{ChainWriter Wr (Sys W)}
    c (chain : option (R * Wr)) (s : Boot W) :
  (is_Some c.(Config.marketplace) -> is_Some chain) ->
  (start_with c chain s).1 <> Err NoChainClients.
Proof using Type*.
  intros Hc. unfold start_with. destruct (bool_decide _ && _); [done|].
  unfold mbind at 1, M_bind at 1. destruct (on_boot _ s) as [now s1].
  destruct (pool_new _ _) as [pl|e]; [|done]. unfold mbind at 1, M_bind at 1.
  destruct (on_boot (set_pool pl) s1) as [[] s2]. unfold start_parts.
  assert (make_checker c <> Err NoChainClients) as Hck.
  { unfold make_checker, parse_url. destruct (Config.integrity c), (Config.reference c); try done.
    cbn. by destruct (url_parse _). }
  assert (make_monitor c <> Err NoChainClients) as Hm.
  { unfold make_monitor, parse_url. destruct (disable_probing _), (Config.reference c); try done.
    cbn. by destruct (url_parse _). }
  apply (try_at _ _ (fun r _ => r <> Err NoChainClients)).
  { intros e He E. injection E as ->. exact (Hck He). }
  intros checker _. apply (try_at _ _ (fun r _ => r <> Err NoChainClients)).
  { intros e He E. injection E as ->. revert He. unfold on_boot.
    destruct (make_agent c chain _) as [a x] eqn:Ea. cbn. intros ->.
    unfold make_agent, mbind, M_bind in Ea. destruct (Config.marketplace c) as [m|]; [|done].
    destruct Hc as [[rd wr] ->]; [by eexists|]. destruct (Lifecycle.start _ _ _ _ _) as [[ag|?] ?];
      [|done]. destruct (health_chain_id _); [|done]. by destruct (Z.eqb _ _). }
  intros agent _.
  do 2 (apply (try_at _ _ (fun r _ => r <> Err NoChainClients));
        [intros e (m & ->)%bind_is_bind; done|]; intros ? _).
  do 2 (apply (try_at _ _ (fun r _ => r <> Err NoChainClients));
        [intros e (m & ->)%bound_is_bind; done|]; intros ? _).
  unfold mbind at 1, M_bind at 1. destruct (on_boot _ _) as [rings s3]. cbn.
  destruct (make_monitor c); cbn; [done|]. intros E. injection E as ->. done.
Qed.

(** The service with the real clients never meets its [expect]: where
    the marketplace is configured, [start] has made the chain clients or
    refused. *)
Theorem start_has_its_clients c (s : Boot W) : (start c s).1 <> Err NoChainClients.
Proof using Type*.
  unfold start. destruct (chain_clients c) as [chain|e] eqn:Ec.
  - cbv zeta. apply parts_have_clients. intros [m Em]. unfold chain_clients, parse_url in Ec.
    rewrite Em in Ec. destruct (Config.reference c) as [url|]; cbn in Ec; [|done].
    destruct (url_parse url); cbn in Ec; [|done]. destruct (url_parse _); cbn in Ec; [|done].
    injection Ec as <-. by eexists.
  - unfold chain_clients, parse_url in Ec. intros E. cbn in E. injection E as ->. revert Ec.
    destruct (Config.marketplace c) as [m|]; [|done].
    destruct (Config.reference c) as [url|]; cbn; [|done].
    destruct (url_parse url); cbn; [|done]. by destruct (url_parse _).
Qed.
End refusals.

(** What the boot relies on outside: binding and reading a file change no
    entry. *)
Class BootOutside (W : Type) `{World W} `{Issuer W} `{Sockets W} `{StatsFile W} (flip_after : Z) :
    Prop := {
  calm_bind addr : calm flip_after (tcp_bind (W := W) addr);
  calm_local_addr addr : calm flip_after (local_addr (W := W) addr);
  calm_read_file f : calm flip_after (read_file (W := W) f);
}.

Lemma pool_push_all_static `{Alloy} `{UrlLib} now l pl pl' :
  pool_wf pl ->
  (forall r, r ∈ pl.(members) -> exists i, ident pl r = Some (i, Static) /\
     forall a, i <> marketplace_id a) ->
  Forall (fun p => forall a, p.1 <> marketplace_id a) l ->
  pool_push_all now l pl = Ok pl' ->
  pool_wf pl' /\
  (forall r, r ∈ pl'.(members) -> exists i, ident pl' r = Some (i, Static) /\
     forall a, i <> marketplace_id a).
Proof.
  intros Hwf Hst Hl. revert pl Hwf Hst. induction Hl as [|[i u] l Hi Hl IH]; intros pl Hwf Hst.
  { by intros [= <-]. }
  cbn [pool_push_all]. unfold from_config. destruct (url_parse u) as [v|]; [|done].
  intros Hp. refine (IH (snd (pool_add (provider_new now i v Static) pl)) _ _ Hp); [by apply pool_add_wf|]. intros r Hr.
  change (r ∈ pl.(members) ++ [pl.(next_ptr)]) in Hr. rewrite ident_add.
  destruct (decide _) as [E|Hne]; [by exists i|]. apply Hst.
  apply elem_of_app in Hr as [Hr|Hr%list_elem_of_singleton]; [done | congruence].
Qed.

Section started.
Context `{Alloy} `{SerdeJson} `{UrlLib} `{HashOrder}.
Context {W : Type} `{World W} `{Issuer W} `{Memory W} `{Loopback W} `{Sleep W}.
Context `{Sockets W} `{StatsFile W} (c : Config).
Abbreviation flips := (c.(health).(flip_after)) (only parsing).
Context `{Quiet_memory : !QuietMemory W} `{Quiet_loopback : !QuietLoopback W flips}.
Context `{Quiet_sleep : !QuietSleep W flips} `{Quiet_boot : !BootOutside W flips}.
Context {R Wr : Type} `{ChainReader R (Sys W)} `{ChainWriter Wr (Sys W)}.
Context `{Chain_laws : !Chain R Wr W flips}.

(** C20: A service that runs is in order from its first moment. Every part
    runs once, exactly where the configuration has it - the two listeners'
    servers and the stats task always - with what the configuration gives
    it, and with the same agent and the same checker everywhere they are
    used; the agent over the clients it was given, only on the chain the
    configuration names. Both listeners are bound, in order, each bind
    having succeeded. The agent's memory holds what the chain showed of
    its own agreements, and the pool mirrors that memory, where no
    configured provider is named like a marketplace one. *)
Theorem started_service_is_in_order chain (s : Boot W) sv :
  s.(booting).(known) = ∅ -> in_order s.(booting).(sys).(world) ->
  (forall p a, p ∈ c.(providers) -> p.(provider_id) <> marketplace_id a) ->
  (start_with (R := R) (Wr := Wr) c chain s).1 = Ok sv ->
  let s' := (start_with c chain s).2 in
  wired c chain sv /\ agent_inv s'.(booting) /\
  (forall ag ck, RunAgent ag ck ∈ sv.(tasks) -> remembers ag s'.(booting).(known)) /\
  s'.(touched) = s.(touched) ++ [c.(listen).(public); c.(listen).(admin)] /\
  s'.(bound) = s.(bound) ++ [c.(listen).(public); c.(listen).(admin)] /\ both_bound (W := W) c.
Proof using Type*.
  intros Hk Hord Hids Hok s'.
  set (K := fun (a : option (Agent R Wr)) (x : AS W) =>
    agent_inv x /\ forall ag, a = Some ag -> remembers ag x.(known)).
  assert (forall a A (m : M (AS W) A), drifts flips m -> triple (K a) m (fun _ => K a)) as Hdrift.
  { intros a A m Hm x [Hi Hr]. split; [by eapply (keeps_inv_drifts flips)|].
    intros ag E. eapply remembers_same; [by eapply drift_agreements, Hm | by apply Hr]. }
  assert (outcome_of c chain K s.(touched) s.(bound) (start_with c chain s).1 s') as Ho.
  { apply (start_with_outcome c chain
      (fun x => x.(known) = ∅ /\ in_order x.(sys).(world)) agent_inv K); [..|done].
    - intros x pl [Ek Eo] Hp. apply initial_inv. unfold pool_new in Hp.
      eapply pool_push_all_static in Hp as [Hwf Hst];
        [|apply empty_pool_wf | by intros r Hr%elem_of_nil|].
      2:{ apply Forall_fmap, Forall_forall. intros p Hp' a. exact (Hids p a Hp'). }
      unfold on_sys in *. pose proof (proj2 (calm_keeps _ _ calm_clock x.(sys))) as Hg.
      destruct (read_clock x.(sys)) as [n y]. split; cbn in *; auto.
    - intros x Hx. unfold make_agent. destruct (Config.marketplace c) as [m|]; [|by split].
      destruct chain as [[rd wr]|]; [|done]. unfold mbind, M_bind.
      pose proof (keeps_inv_start flips rd wr m x Hx) as Hi.
      pose proof (fun ag => start_remembers flips rd wr m x ag Hx) as Hrem.
      destruct (Lifecycle.start _ rd wr m x) as [[ag|e] x1]; [|done]. cbn [fst snd] in *.
      destruct (Hrem ag eq_refl) as (_ & _ & _ & Hr).
      assert (K (Some ag) x1) as HK by (split; [done | by intros ? [= <-]]).
      destruct (health_chain_id (health c)) as [i|]; cbn; [|done]. by destruct (Z.eqb _ _).
    - intros a at_. apply Hdrift, drifts_awaits, calm_bind.
    - intros a at_. apply Hdrift, drifts_on_sys, calm_local_addr.
    - intros a f. apply Hdrift, drifts_on_sys, calm_read_file. }
  rewrite Hok in Ho. destruct Ho as (Hw & (a & Ha & Hi & Hr) & Ht & Hb & Hbb). split_and!; try done.
  intros ag ck Hin%Ha. by apply Hr.
Qed.
End started.

(** * Witnesses, on the tests' chain *)

#[local] Instance some_keccak : Keccak := {| keccak256 x := Z.of_nat (length x) |}.
#[local] Instance list_order : HashOrder := {| iter A m := map_to_list m; iter_perm A m := reflexivity _ |}.
#[local] Instance the_reader : ChainReader FakeChain (Sys FakeWorld) := fake_reader 3.
#[local] Instance the_writer : ChainWriter FakeChain (Sys FakeWorld) := fake_writer 3.
#[local] Instance the_loopback : Loopback FakeWorld := fake_loopback 3.
#[local] Instance the_sleep : Sleep FakeWorld := fake_sleep 3.
#[local] Instance the_chain : Chain FakeChain FakeChain FakeWorld 3 := fake_chain 3.
#[local] Instance the_quiet_loopback : QuietLoopback FakeWorld 3 := fake_quiet_loopback 3.
#[local] Instance the_quiet_sleep : QuietSleep FakeWorld 3 := fake_quiet_sleep 3.

(** A machine with one port taken, and no stats file. *)
Definition taken : SocketAddr := (0, 80).
#[local] Instance demo_sockets : Sockets FakeWorld := {
  tcp_bind a := mret (if bool_decide (a = taken) then Err "in use"%string else Ok tt);
  local_addr a := mret (Ok a);
}.
#[local] Instance demo_files : StatsFile FakeWorld := { read_file _ := mret FileNotFound }.
#[local] Instance demo_boot_outside : BootOutside FakeWorld 3.
Proof. split; intros; apply calm_ret. Qed.

(** The marketplace and one configured provider, on chain [i]. *)
Definition boot_config (i : option Z) (l : Listen) : Config :=
  mkConfig l
    (mkHealth default_health.(probe_interval) default_health.(probe_timeout) 3
       default_health.(max_probe_backoff) default_health.(ref_height_interval)
       default_health.(chainid_check_interval) i 30 false)
    default_proxy (Some demo_marketplace) None Config.default_stats
    [mkProviderConfig "a" "http://a"] None None.
Definition boot_start : Boot FakeWorld :=
  mkBoot (mkAS (mkSys empty_pool (mkFakeWorld (fake_new 100 42) 0 [] [] []) []) ∅) [] [].
Definition boot_chain : option (FakeChain * FakeChain) := Some (TheChain, TheChain).

(** A chain the configuration does not name is refused, but only after
    the listing is written there. *)
Example mismatch_after_the_listing :
  let '(r, s) := start_with (boot_config (Some 43) default_listen) boot_chain boot_start in
  r = Err (ChainMismatch 43 42) /\ s.(touched) = [] /\
  length s.(booting).(sys).(world).(fw_chain).(f_entities) = 1%nat.
Proof. vm_compute. done. Qed.

Lemma refused_before_it_binds_witness :
  (start_with (boot_config (Some 43) default_listen) boot_chain boot_start).2.(touched) = [].
Proof.
  assert ((start_with (boot_config (Some 43) default_listen) boot_chain boot_start).1 =
    Err (ChainMismatch 43 42)) as E by (vm_compute; reflexivity).
  exact (proj1 (refused_before_it_binds (boot_config (Some 43) default_listen) boot_chain boot_start
    (ChainMismatch 43 42) ltac:(done) E ltac:(by intros (? & ? & ?)))).
Defined.

Lemma started_service_is_in_order_witness :
  exists sv, (start_with (boot_config (Some 42) default_listen) boot_chain boot_start).1 = Ok sv /\
    wired (boot_config (Some 42) default_listen) boot_chain sv /\
    length sv.(tasks) = 5%nat.
Proof.
  destruct (start_with (boot_config (Some 42) default_listen) boot_chain boot_start).1 as [sv|e] eqn:E;
    [|by vm_compute in E].
  exists sv. split; [done|]. split.
  - eapply (started_service_is_in_order (boot_config (Some 42) default_listen) boot_chain boot_start sv);
      [done | | | exact E].
    + constructor; cbn; [vm_compute; intuition congruence | done | constructor].
    + intros p a Hp%list_elem_of_singleton E'. subst p. apply (f_equal String.length) in E'.
      revert E'. unfold marketplace_id. rewrite addr_hex_length. by vm_compute.
  - vm_compute in E. injection E as <-. done.
Defined.

(** An address in lowercase hex is a handle a configured provider may
    have. *)
Example address_is_a_handle : is_handle (marketplace_id 48879) = true.
Proof. vm_compute. done. Qed.
