(* ===== verification/Entry.v ===== *)
(** The binary, [crates/lb/src/main.rs]: the arguments, the file and the
    environment a run is told by, and the service it then starts. *)

From S2P Require Import Prelude External Concrete Denylist Jsonrpc Pool World Forwarder Records Reader Writer Chain Config Admission Stats Agent Mirror Reconcile Offers Flush Billing Lifecycle FakeChain Proxy Monitor Integrity Admin Service.

#[local] Open Scope Z_scope.

(** What [fail] prints, before it exits with code 1. *)
Inductive MainError : Type :=
| ConfigFailed (e : ConfigError)
| StartFailed (e : ServiceError).

(** [std::env::args().nth(1)], the first being the program's name. *)
Definition config_path (args : list string) : string := default "config.toml"%string (args !! 1%nat).

(** An empty variable counts as unset. *)
Definition env_setting (env : string -> option string) (name : string) : option string :=
  match env name with
  | Some x => if bool_decide (x = EmptyString) then None else Some x
  | None => None
  end.

(** The reference comes from the environment alone. *)
Definition from_environment (env : string -> option string) (c : Config) : Config :=
  mkConfig c.(listen) c.(health) c.(Config.proxy) c.(Config.marketplace) c.(Config.integrity)
    c.(Config.stats) c.(providers) (env_setting env "ARKIV_RPC_URL") (env_setting env "ARKIV_API_KEY").

Definition main `{Alloy} `{SerdeJson} `{UrlLib} `{HashOrder} {W : Type} `{World W} `{Memory W}
    `{Loopback W} `{Sockets W} `{StatsFile W} (read_to_string : string -> option string)
    (toml : string -> option Config) (env : string -> option string) (args : list string) :
    M (Boot W) (result MainError (Service Reader Writer)) :=
  match Config.load read_to_string toml (config_path args) with
  | Err e => mret (Err (ConfigFailed e))
  | Ok config =>
      service ← Service.start (from_environment env config);
      mret (map_err StartFailed service)
  end.

(** * Theorems *)

Section run.
Context `{Alloy} `{SerdeJson} `{UrlLib} `{HashOrder}.
Context {W : Type} `{World W} `{Memory W} `{Loopback W} `{Sockets W} `{StatsFile W}.
Context (read_to_string : string -> option string) (toml : string -> option Config).

Lemma load_spec path c :
  Config.load read_to_string toml path = Ok c <->
  exists text, read_to_string path = Some text /\ toml text = Some c /\ validate c = Ok tt.
Proof.
  unfold Config.load, parse. destruct (read_to_string path) as [text|];
    [|split; [intros E; discriminate E | naive_solver]].
  cbn [ok_or mbind result_bind].
  assert (forall x : result ConfigError unit, match toml text with
      | Some c' => (x ≫= fun _ => Ok c') = Ok c <-> c' = c /\ x = Ok tt
      | None => True end) as Hx.
  { intros x. destruct (toml text), x as [[]|e]; cbn; naive_solver. }
  destruct (toml text) as [c'|] eqn:Et; [|split; [intros E; discriminate E | naive_solver]].
  specialize (Hx (validate c')). cbn [ok_or mbind result_bind].
  split; [intros (-> & Hv)%Hx; by exists text|]. intros (t & [= <-] & Et' & Hv). apply Hx.
  rewrite Et in Et'. by injection Et' as ->.
Qed.

Context (env : string -> option string).

(** The chain clients of a run: a reader on the reference, a writer on
    the sidecar, where the marketplace is configured. *)
Definition real_clients (c : Config) (chain : option (Reader * Writer)) : Prop :=
  match c.(Config.marketplace) with
  | Some m => exists rd w, chain = Some (rd, mkWriter w) /\ on_reference c AGENT_READ_TIMEOUT rd /\
      url_parse m.(writer_url) = Some w
  | None => chain = None
  end.

Lemma chain_clients_real c chain : chain_clients c = Ok chain -> real_clients c chain.
Proof.
  unfold chain_clients, real_clients. destruct (Config.marketplace c) as [m|]; [|by intros [= <-]].
  unfold on_reference. destruct (Config.reference c) as [url|]; cbn; [|done].
  destruct (parse_url _ url) as [u|] eqn:Eu; cbn; [|done].
  destruct (parse_url _ (writer_url m)) as [w|] eqn:Ew; cbn; [|done]. intros [= <-].
  apply parse_url_Ok in Eu, Ew. eexists _, w. split; [done|]. split; [|done]. by exists url, u.
Qed.

Lemma start_outcome c (s : Boot W) :
  match (Service.start c s).1 with
  | Ok sv => exists chain, real_clients c chain /\ wired c chain sv /\
      (Service.start c s).2.(bound) = s.(bound) ++ [c.(listen).(public); c.(listen).(admin)] /\
      both_bound (W := W) c
  | Err e => ((Service.start c s).2.(touched) = s.(touched) /\
              (Service.start c s).2.(bound) = s.(bound)) \/ is_bind e \/ make_monitor c = Err e
  end.
Proof.
  unfold Service.start. destruct (chain_clients c) as [chain|e] eqn:Ec; [|by left].
  cbv zeta. set (rd := reader_chain_reader _). set (wr := writer_chain_writer _).
  assert (outcome_of c chain (fun _ _ => True) s.(touched) s.(bound) (start_with c chain s).1
    (start_with c chain s).2) as Ho.
  { apply (start_with_outcome c chain (fun _ => True) (fun _ => True) (fun _ _ => True)); try done.
    by intros x _; destruct (make_agent c chain x) as [[]]. }
  unfold outcome_of in Ho. destruct (start_with c chain s).1; [|done].
  destruct Ho as (Hw & _ & _ & Hb & Hbb). exists chain. split; [by apply chain_clients_real | done].
Qed.

(** The configuration a run has: the file's, with the reference and its
    key from the environment, where an empty variable is none. *)
Record told (c c' : Config) : Prop := {
  told_listen : c'.(listen) = c.(listen);
  told_health : c'.(health) = c.(health);
  told_proxy : c'.(Config.proxy) = c.(Config.proxy);
  told_marketplace : c'.(Config.marketplace) = c.(Config.marketplace);
  told_integrity : c'.(Config.integrity) = c.(Config.integrity);
  told_stats : c'.(Config.stats) = c.(Config.stats);
  told_providers : c'.(providers) = c.(providers);
  told_reference u : c'.(Config.reference) = Some u <->
    env "ARKIV_RPC_URL"%string = Some u /\ u <> EmptyString;
  told_key k : c'.(reference_key) = Some k <-> env "ARKIV_API_KEY"%string = Some k /\ k <> EmptyString;
}.

Lemma environment_told c : told c (from_environment env c).
Proof using Type.
  clear read_to_string toml.
  assert (forall name x, env_setting env name = Some x <-> env name = Some x /\ x <> EmptyString) as He.
  { intros name x. unfold env_setting. destruct (env name) as [v|]; [|naive_solver].
    case_bool_decide; naive_solver. }
  split; try done; intros x; apply He.
Qed.

(** C18: A run that serves serves what it was told, and only what was
    checked. The file named by the first argument, or config.toml, was
    there, parsed, and validated; the reference and its key are the
    environment's, an empty variable counting as none. Each part runs
    exactly where that configuration has it: the agent's reader, the
    checker's and the monitor's are on that reference with that key, the
    agent's writer on the sidecar configured; and the two addresses it
    names are bound, each bind having succeeded. Anything else fails
    before a port was touched, but for an address that cannot be bound or
    a reference URL only the monitor uses. *)
Theorem run_serves_what_was_checked args (s : Boot W) :
  let r := main read_to_string toml env args s in
  match r.1 with
  | Ok sv => exists text c c' chain,
      read_to_string (default "config.toml"%string (args !! 1%nat)) = Some text /\
      toml text = Some c /\ validate c = Ok tt /\ 2 <= c.(health).(flip_after) /\
      told c c' /\ real_clients c' chain /\ wired c' chain sv /\
      r.2.(bound) = s.(bound) ++ [c.(listen).(public); c.(listen).(admin)] /\
      both_bound (W := W) c
  | Err (ConfigFailed e) => r.2 = s /\ Config.load read_to_string toml (config_path args) = Err e
  | Err (StartFailed e) => (r.2.(touched) = s.(touched) /\ r.2.(bound) = s.(bound)) \/ is_bind e \/
      exists u, env "ARKIV_RPC_URL"%string = Some u /\ url_parse u = None
  end.
Proof.
  intros r. unfold r, main. clear r.
  destruct (Config.load read_to_string toml (config_path args)) as [c|e] eqn:El; [|done].
  apply load_spec in El as (text & Hf & Hp & Hv).
  pose proof (start_outcome (from_environment env c) s) as Ho.
  unfold mbind, M_bind. destruct (Service.start _ s) as [[sv|e] s']; cbn in Ho |- *.
  - destruct Ho as (chain & Hr & Hw & Hb & Hbb). exists text, c, (from_environment env c), chain.
    split_and!; try done; [|apply environment_told].
    revert Hv. unfold validate. rewrite !then_Ok, !guard_Ok, Z.ltb_ge. tauto.
  - destruct Ho as [Ho|[Ho|Ho]]; [by left | by right; left | right; right].
    revert Ho. unfold make_monitor, parse_url, from_environment, env_setting. cbn.
    destruct (disable_probing _); [done|]. destruct (env _) as [u|]; [|done].
    case_bool_decide; [done|]. destruct (url_parse u) eqn:Eu; [done|]. intros _. by exists u.
Qed.
End run.

(** * At concrete inputs *)

#[local] Instance list_order : HashOrder := {| iter A m := map_to_list m; iter_perm A m := reflexivity _ |}.
#[local] Instance the_loopback : Loopback FakeWorld := fake_loopback 3.
#[local] Instance free_sockets : Sockets FakeWorld := {
  tcp_bind _ := mret (Ok tt);
  local_addr a := mret (Ok a);
}.
#[local] Instance no_files : StatsFile FakeWorld := { read_file _ := mret FileNotFound }.

(** Only one file there is, and it configures the marketplace. *)
Definition one_file (path : string) : option string :=
  if bool_decide (path = "lb.toml"%string) then Some "the text"%string else None.
Definition its_toml (_ : string) : option Config := Some demo_config.

(** An empty ARKIV_RPC_URL is no reference, which the checker needs; the
    reference the parsed configuration carried is gone. *)
Example empty_variable_is_unset :
  let env x := if bool_decide (x = "ARKIV_RPC_URL"%string) then Some EmptyString else None in
  (main one_file its_toml env ["arkiv-lb"; "lb.toml"]%string boot_start).1 =
    Err (StartFailed MarketplaceNeedsReference).
Proof. vm_compute. done. Qed.

(** Without an argument it is config.toml that is read. *)
Example no_argument_reads_config_toml :
  main one_file its_toml (fun _ => None) ["arkiv-lb"]%string boot_start =
    (Err (ConfigFailed (CRead "config.toml")), boot_start).
Proof. vm_compute. done. Qed.

Definition boot_without_market (c : Config) : Config :=
  mkConfig c.(listen) c.(health) c.(Config.proxy) None None c.(Config.stats) c.(providers) None None.

(** With the configured providers only, a run serves. *)
Example a_run_serves :
  match (main one_file (fun _ => Some (boot_without_market demo_config)) (fun _ => None)
           ["arkiv-lb"; "lb.toml"]%string boot_start).1 with
  | Ok sv => length sv.(tasks) = 4%nat
  | Err _ => False
  end.
Proof. vm_compute. done. Qed.
