(* ===== verification/Shutdown.v ===== *)
(** The end of a run, [crates/lb/src/service.rs] from [shutdown_signal] on:
    what asks the process to stop, how each task comes to see it, and
    [Service::shutdown], which waits for all of them.

    A task is modelled by where it stands between two of its awaits; what
    it does there is the model of its own file. The tasks run concurrently:
    a run is any sequence of their steps. A task may panic anywhere, which
    ends it alone. An admission is a task of its own that nobody joins: the
    admission route detaches it ([marketplace/agent.rs], [admitted]), and
    only the end of the runtime, after [main] returned, stops it. *)

From S2P Require Import Prelude External Concrete Jsonrpc Pool World Forwarder Records Reader Writer Chain Config Stats Agent Proxy Monitor Integrity Admin Service.

#[local] Open Scope Z_scope.

(** * The signal *)

(** The two futures, by when they resolve (nanoseconds from the call, or
    never): Ctrl-C, which may resolve to an error; and SIGTERM, whose
    handler may not install. *)
Record Signals : Type := mkSignals {
  ctrl_c : option (Z * result string unit);
  terminate : result string (option Z);
}.

(** Both async blocks end after they logged an error. *)
Definition ctrl_c_arm (s : Signals) : option Z := fst <$> s.(ctrl_c).
Definition terminate_arm (s : Signals) : option Z :=
  match s.(terminate) with Ok received => received | Err _ => Some 0 end.

(** [tokio::select!] of the two: the first to resolve. *)
Definition earliest (a b : option Z) : option Z :=
  match a, b with
  | Some a, Some b => Some (Z.min a b)
  | Some a, None => Some a
  | None, b => b
  end.
Definition shutdown_signal (s : Signals) : option Z := earliest (ctrl_c_arm s) (terminate_arm s).

(** * The tasks *)

(** [serve]'s listener: requests in flight, while it accepts and once it
    only drains. A loop: at its [select!], in an arm's handler with so
    many awaits left, in its shutdown arm. Over: it returned, or it
    panicked - in its shutdown arm or before. *)
Inductive Life : Type :=
| Serves (in_flight : nat)
| Drains (in_flight : nat)
| Waits
| Works (left : nat)
| Stops (left : nat)
| Ended
| Panicked (stopping : bool).
#[export] Instance life_eq_dec : EqDecision Life.
Proof. solve_decision. Defined.

Definition over (l : Life) : bool := match l with Ended | Panicked _ => true | _ => false end.

(** A step takes up new work, or starts the last flush (so many awaits
    each), or goes on with what there is, or is a panic. *)
Inductive Kind : Type := Takes (awaits : nat) | Flushes (awaits : nat) | Goes | Breaks.

Section tasks.
Context {R Wr : Type}.

Definition serves_requests (t : Task R Wr) : bool :=
  match t with ServePublic _ | ServeAdmin _ _ => true | _ => false end.
(** The admission route is there with an agent behind it. *)
Definition admits (t : Task R Wr) : bool :=
  match t with ServeAdmin _ (Some _) => true | _ => false end.
(** Only the agent's shutdown arm awaits: its flush. *)
Definition flushes_last (t : Task R Wr) : bool :=
  match t with RunAgent _ _ => true | _ => false end.

Definition born (t : Task R Wr) : Life := if serves_requests t then Serves 0 else Waits.

(** [serve], with axum's graceful shutdown, and the loops' [select!]s:
    where the shutdown arm is ready and another arm too, either is taken. *)
Inductive task_step (asked : bool) (t : Task R Wr) : Life -> Kind -> Life -> Prop :=
| Accept n : serves_requests t = true -> task_step asked t (Serves n) (Takes 0) (Serves (S n))
| Answer n : task_step asked t (Serves (S n)) Goes (Serves n)
| Notice n : asked = true -> task_step asked t (Serves n) Goes (Drains n)
| Drain n : task_step asked t (Drains (S n)) Goes (Drains n)
| Drained : task_step asked t (Drains 0) Goes Ended
| ListenerFails n : task_step asked t (Serves n) Goes Ended
| ArmFires n : task_step asked t Waits (Takes n) (Works n)
| Work n : task_step asked t (Works (S n)) Goes (Works n)
| Worked : task_step asked t (Works 0) Goes Waits
| Flush n : asked = true -> flushes_last t = true -> task_step asked t Waits (Flushes n) (Stops n)
| Flushing n : task_step asked t (Stops (S n)) Goes (Stops n)
| Flushed : task_step asked t (Stops 0) Goes Ended
| Leave : asked = true -> flushes_last t = false -> task_step asked t Waits Goes Ended
| Panics l : over l = false ->
    task_step asked t l Breaks (Panicked match l with Stops _ => true | _ => false end).

(** * The process *)

(** The watch channel's value, where each task stands, how many of them
    [Service::shutdown] has joined, the awaits left of each admission, and
    whether the runtime is there: it ends after [main] returned. *)
Record Process : Type := mkProcess {
  asked : bool;
  lives : list Life;
  joined : nat;
  admissions : list nat;
  runtime : bool;
}.

Definition as_started (ts : list (Task R Wr)) : Process := mkProcess false (born <$> ts) 0 [] true.

(** [shutdown] has returned. *)
Definition returned (ts : list (Task R Wr)) (p : Process) : Prop :=
  p.(asked) = true /\ p.(joined) = length ts.

(** [Service::shutdown]: it sends, then awaits the tasks in their order,
    whether they returned or panicked. An admission begins in a request
    the admin listener has in flight, goes on by itself, and ends or
    panics; [main] returns once [shutdown] did, and what is detached then
    is dropped with the runtime. *)
Inductive step (ts : list (Task R Wr)) : Process -> Kind -> Process -> Prop :=
| StepTask p i t l k l' :
    ts !! i = Some t -> p.(lives) !! i = Some l -> task_step p.(asked) t l k l' -> p.(runtime) = true ->
    step ts p k (mkProcess p.(asked) (<[i := l']> p.(lives)) p.(joined) p.(admissions) true)
| StepSend p : p.(asked) = false -> p.(runtime) = true ->
    step ts p Goes (mkProcess true p.(lives) p.(joined) p.(admissions) true)
| StepJoin p l :
    p.(asked) = true -> p.(lives) !! p.(joined) = Some l -> over l = true -> p.(runtime) = true ->
    step ts p Goes (mkProcess p.(asked) p.(lives) (S p.(joined)) p.(admissions) true)
| StepAdmits p i t n m :
    ts !! i = Some t -> admits t = true ->
    p.(lives) !! i = Some (Serves (S n)) \/ p.(lives) !! i = Some (Drains (S n)) -> p.(runtime) = true ->
    step ts p (Takes m) (mkProcess p.(asked) p.(lives) p.(joined) (p.(admissions) ++ [m]) true)
| StepAdmission p a1 n a2 :
    p.(admissions) = a1 ++ S n :: a2 -> p.(runtime) = true ->
    step ts p Goes (mkProcess p.(asked) p.(lives) p.(joined) (a1 ++ n :: a2) true)
| StepAdmitted p a1 n a2 :
    p.(admissions) = a1 ++ n :: a2 -> p.(runtime) = true ->
    step ts p Goes (mkProcess p.(asked) p.(lives) p.(joined) (a1 ++ a2) true)
| StepExit p : returned ts p -> p.(runtime) = true ->
    step ts p Goes (mkProcess p.(asked) p.(lives) p.(joined) [] false).

Inductive steps (ts : list (Task R Wr)) : Process -> list Kind -> Process -> Prop :=
| StepsNone p : steps ts p [] p
| StepsMore p k p' ks p'' : step ts p k p' -> steps ts p' ks p'' -> steps ts p (k :: ks) p''.

(** ** The steps left *)

Definition life_weight (l : Life) : nat :=
  match l with
  | Serves n => n + 2
  | Drains n => n + 1
  | Waits => 2
  | Works n => n + 3
  | Stops n => n + 1
  | Ended | Panicked _ => 0
  end.
Definition weight (ts : list (Task R Wr)) (p : Process) : nat :=
  list_sum (life_weight <$> p.(lives)) + (length ts - p.(joined)) + (if p.(asked) then 0 else 1) +
  list_sum (S <$> p.(admissions)) + (if p.(runtime) then 1 else 0).
(** What a step adds to the steps that are left. *)
Definition cost (k : Kind) : nat := match k with Takes n | Flushes n => n + 2 | Goes | Breaks => 0 end.
Definition carries_on (k : Kind) : bool := match k with Flushes _ | Goes => true | _ => false end.
Definition is_flush (k : Kind) : bool := match k with Flushes _ => true | _ => false end.
Definition flushes (ks : list Kind) : nat := length (List.filter is_flush ks).
End tasks.

(** * Lemmas *)

Lemma list_sum_insert (l : list nat) i x y :
  l !! i = Some x -> (list_sum (<[i := y]> l) + x = list_sum l + y)%nat.
Proof.
  revert i. induction l as [|z l IH]; intros [|i] Hi; [done|done| |].
  - injection Hi as ->. change ((y + list_sum l) + x = (x + list_sum l) + y)%nat. lia.
  - specialize (IH i Hi). change ((z + list_sum (<[i := y]> l)) + x = (z + list_sum l) + y)%nat. lia.
Qed.

Lemma list_sum_cons x l : list_sum (x :: l) = (x + list_sum l)%nat.
Proof. done. Qed.

Section stops.
Context {R Wr : Type}.
Implicit Types (t : Task R Wr) (ts : list (Task R Wr)).

(** Where a task may stand. *)
Definition fits (asked : bool) (t : Task R Wr) (l : Life) : Prop :=
  match l with
  | Serves _ => serves_requests t = true
  | Drains _ => serves_requests t = true /\ asked = true
  | Waits | Works _ => serves_requests t = false
  | Stops _ | Panicked true => flushes_last t = true /\ asked = true
  | Ended => serves_requests t = true \/ asked = true
  | Panicked false => True
  end.
(** Whether its last flush began. *)
Definition flushed (t : Task R Wr) (l : Life) : nat :=
  if flushes_last t then match l with Stops _ | Ended | Panicked true => 1 | _ => 0 end else 0.

Record inv ts (p : Process) (n : nat) : Prop := {
  inv_fits : Forall2 (fits p.(asked)) ts p.(lives);
  inv_joined : Forall (fun l => over l = true) (take p.(joined) p.(lives));
  inv_le : (p.(joined) <= length ts)%nat;
  inv_unasked : p.(asked) = false -> p.(joined) = 0%nat;
  inv_flushed : n = list_sum (zip_with flushed ts p.(lives));
  inv_runtime : p.(runtime) = false -> returned ts p /\ p.(admissions) = [];
}.

Lemma loop_not_server t : flushes_last t = true -> serves_requests t = false.
Proof. by destruct t. Qed.

Lemma inv_started ts : inv ts (as_started ts) 0.
Proof.
  split; cbn; [| by rewrite take_0 | lia | done | | done].
  - apply Forall2_fmap_r, Forall_Forall2_diag, Forall_true. intros t. unfold born.
    destruct (serves_requests t) eqn:E; cbn; by rewrite E.
  - induction ts as [|t ts IH]; [done|].
    change (0 = flushed t (born t) + list_sum (zip_with flushed ts (born <$> ts)))%nat.
    rewrite <- IH. by destruct t.
Qed.

Lemma task_step_fits a t l k l' :
  fits a t l -> task_step a t l k l' ->
  fits a t l' /\ (flushed t l' = flushed t l + if is_flush k then 1 else 0)%nat /\ over l = false.
Proof.
  intros Hf Hs. pose proof (loop_not_server t) as Hl. unfold flushed.
  destruct Hs as [| | | | | | | | | | | | |l Hl']; try (cbn in *; destruct (flushes_last t) eqn:E;
    try specialize (Hl eq_refl); intuition congruence).
  split; [by destruct l|]. split; [|done].
  destruct l; cbn in *; try done; destruct (flushes_last t); done.
Qed.

Lemma task_step_weight {a t l k l'} :
  task_step a t l k l' -> (S (life_weight l') <= life_weight l + cost k)%nat.
Proof. intros [| | | | | | | | | | | | |l'' Ho]; cbn; try lia. destruct l''; try done; cbn; lia. Qed.

(** A step of the process leaves the tasks alone, or is one of theirs. *)
Lemma inv_step ts p n k p' : inv ts p n -> step ts p k p' -> inv ts p' (n + length (List.filter is_flush [k])).
Proof.
  intros [Hf Hj Hle Hu Hn Hr] Hs. pose proof (Forall2_length _ _ _ Hf) as Hlen.
  destruct Hs as [p i t l k l' Ht Hl Hs Hrt|p Ha Hrt|p l Ha He Ho Hrt| | | |p Hret Hrt]; cbn in *.
  - pose proof (Forall2_lookup_lr _ _ _ _ _ _ Hf Ht Hl) as Hfl.
    apply (task_step_fits _ _ _ _ _ Hfl) in Hs as (Hf' & Hn' & Hne).
    split; cbn; [| | done | done | | done].
    + rewrite <- (list_insert_id ts i t Ht). by apply Forall2_insert.
    + rewrite take_insert_ge; [done|]. apply Nat.nlt_ge. intros Hlt.
      rewrite Forall_lookup in Hj. specialize (Hj i l). rewrite lookup_take_lt in Hj by lia.
      rewrite (Hj Hl) in Hne. done.
    + rewrite <- (list_insert_id ts i t Ht) at 1.
      assert (zip_with flushed ts p.(lives) !! i = Some (flushed t l)) as Hz
        by (rewrite lookup_zip_with, Ht; cbn; by rewrite Hl).
      rewrite <- insert_zip_with. pose proof (list_sum_insert _ i _ (flushed t l') Hz).
      destruct (is_flush k); cbn; lia.
  - split; cbn; [| done | done | done | lia | done].
    eapply Forall2_impl; [exact Hf|]. intros t l. rewrite Ha. destruct l as [| | | | | |[]]; cbn; naive_solver.
  - assert (p.(joined) < length ts)%nat by (rewrite Hlen; by eapply lookup_lt_Some).
    split; cbn; [done | | lia | by rewrite Ha | lia | done].
    rewrite (take_S_r _ _ _ He). apply Forall_app. by repeat constructor.
  - split; cbn; try done; lia.
  - split; cbn; try done; lia.
  - split; cbn; try done; lia.
  - split; cbn; try done; lia.
Qed.

Lemma flushes_cons k ks : flushes (k :: ks) = (length (List.filter is_flush [k]) + flushes ks)%nat.
Proof. unfold flushes. cbn. by destruct (is_flush k). Qed.

Lemma inv_steps ts p n ks p' : inv ts p n -> steps ts p ks p' -> inv ts p' (n + flushes ks).
Proof.
  intros Hi Hs. revert n Hi. induction Hs as [p|p k p' ks p'' Hk Hs IH]; intros n Hi.
  - by rewrite Nat.add_0_r.
  - rewrite flushes_cons, Nat.add_assoc. by apply IH, (inv_step ts p n k p').
Qed.

Lemma step_weight ts p n k p' : inv ts p n -> step ts p k p' -> (S (weight ts p') <= weight ts p + cost k)%nat.
Proof.
  intros Hi Hs. unfold weight. destruct Hs as [p i t l k l' Ht Hl Hs Hrt|p Ha Hrt|p l Ha He Ho Hrt
    |p i t n' m Ht Ha Hl Hrt|p a1 n' a2 Ea Hrt|p a1 n' a2 Ea Hrt|p Hret Hrt];
    cbn [lives asked joined admissions runtime cost]; rewrite Hrt.
  - apply task_step_weight in Hs. rewrite list_fmap_insert.
    assert ((life_weight <$> p.(lives)) !! i = Some (life_weight l)) as Hw
      by by rewrite list_lookup_fmap, Hl.
    pose proof (list_sum_insert _ i _ (life_weight l') Hw). lia.
  - rewrite Ha. lia.
  - assert (p.(joined) < length ts)%nat; [|lia].
    rewrite (Forall2_length _ _ _ (inv_fits _ _ _ Hi)). by eapply lookup_lt_Some.
  - rewrite fmap_app, list_sum_app. cbn. lia.
  - rewrite Ea, !fmap_app, !fmap_cons, !list_sum_app, !list_sum_cons. lia.
  - rewrite Ea, !fmap_app, fmap_cons, !list_sum_app, list_sum_cons. lia.
  - cbn. lia.
Qed.

Lemma steps_weight ts p n ks p' :
  inv ts p n -> steps ts p ks p' -> (length ks <= weight ts p + list_sum (cost <$> ks))%nat.
Proof.
  intros Hi Hs. revert n Hi. induction Hs as [p|p k p' ks p'' Hk Hs IH]; intros n Hi; [cbn; lia|].
  specialize (IH _ (inv_step _ _ _ _ _ Hi Hk)). pose proof (step_weight _ _ _ _ _ Hi Hk).
  change (S (length ks) <= weight ts p + (cost k + list_sum (cost <$> ks)))%nat. lia.
Qed.

(** Once asked, a task that is not over can go on without new work. *)
Lemma task_goes_on t l :
  fits true t l -> over l = false -> exists k l', task_step true t l k l' /\ carries_on k = true.
Proof.
  intros Hf Hl. destruct (decide (l = Waits /\ flushes_last t = true)) as [[-> E]|Hn].
  { exists (Flushes 0), (Stops 0). split; [by apply Flush | done]. }
  exists Goes. destruct l as [n|[|n]| |[|n]|[|n]| |]; try done; eexists; (split; [|done]);
    try by constructor. apply Leave; [done|]. apply not_true_is_false. naive_solver.
Qed.

Lemma goes_on ts p n :
  inv ts p n -> p.(asked) = true -> ~ returned ts p ->
  exists k p', step ts p k p' /\ carries_on k = true.
Proof.
  intros Hi Ha Hr. assert (p.(runtime) = true) as Hrt.
  { destruct (runtime p) eqn:E; [done|]. by destruct (inv_runtime _ _ _ Hi E). }
  destruct p as [a ls j ad rt]. cbn in *. subst a rt.
  pose proof (inv_fits _ _ _ Hi) as Hf. pose proof (inv_le _ _ _ Hi) as Hle. cbn in *.
  assert (j < length ts)%nat as Hj by (destruct (decide (j = length ts)) as [->|]; [by destruct Hr | lia]).
  destruct (lookup_lt_is_Some_2 ts j Hj) as [t Ht].
  destruct (Forall2_lookup_l _ _ _ _ _ Hf Ht) as (l & Hl & Hfl).
  destruct (over l) eqn:E.
  - exists Goes. eexists. split; [by apply (StepJoin ts (mkProcess true ls j ad true) l) | done].
  - destruct (task_goes_on t l Hfl E) as (k & l' & Hs & Hk). exists k. eexists.
    split; [by apply (StepTask ts (mkProcess true ls j ad true) j t l k l') | done].
Qed.

Lemma returned_all_over ts p n i l :
  inv ts p n -> returned ts p -> p.(lives) !! i = Some l -> over l = true.
Proof.
  intros Hi [_ Hr] Hl. pose proof (inv_joined _ _ _ Hi) as Hj.
  pose proof (Forall2_length _ _ _ (inv_fits _ _ _ Hi)) as Hlen. rewrite Hr, take_ge in Hj by lia.
  rewrite Forall_lookup in Hj. by eapply Hj.
Qed.

(** Once [shutdown] returned no step is a task's, or new work. *)
Lemma returned_step ts p n k p' :
  inv ts p n -> returned ts p -> step ts p k p' ->
  k = Goes /\ p.(runtime) = true /\ p'.(lives) = p.(lives) /\ returned ts p' /\
  ((p'.(runtime) = false /\ p'.(admissions) = []) \/
   (list_sum (S <$> p'.(admissions)) < list_sum (S <$> p.(admissions)))%nat).
Proof.
  intros Hi Hr Hs. pose proof (fun i l => returned_all_over ts p n i l Hi Hr) as Ho. destruct Hr as [Ha Hj].
  destruct Hs as [p i t l k l' Ht Hl Hs Hrt|p Ha' Hrt|p l _ He _ Hrt
    |p i t n' m Ht Had Hl Hrt|p a1 n' a2 Ea Hrt|p a1 n' a2 Ea Hrt|p Hret Hrt].
  - apply Ho in Hl. destruct Hs as [| | | | | | | | | | | | |l Ho']; cbn in Hl; congruence.
  - congruence.
  - apply lookup_lt_Some in He. pose proof (Forall2_length _ _ _ (inv_fits _ _ _ Hi)). lia.
  - destruct Hl as [Hl|Hl]; by apply Ho in Hl.
  - do 4 (split; [done|]). right. cbn [admissions].
    rewrite Ea, !fmap_app, !fmap_cons, !list_sum_app, !list_sum_cons. lia.
  - do 4 (split; [done|]). right. cbn [admissions].
    rewrite Ea, !fmap_app, fmap_cons, !list_sum_app, list_sum_cons. lia.
  - do 4 (split; [done|]). by left.
Qed.

Lemma unasked_loops_run ts p n i t :
  inv ts p n -> p.(asked) = false -> ts !! i = Some t -> serves_requests t = false ->
  exists l, p.(lives) !! i = Some l /\ (l = Waits \/ (exists m, l = Works m) \/ l = Panicked false).
Proof.
  intros Hi Ha Ht Hs. destruct (Forall2_lookup_l _ _ _ _ _ (inv_fits _ _ _ Hi) Ht) as (l & Hl & Hf).
  exists l. split; [done|]. rewrite Ha in Hf. destruct l as [| | | | | |[]]; cbn in Hf; naive_solver congruence.
Qed.

(** At most one flush is begun for a task that flushes; one for such a
    task that ended. *)
Lemma flushed_bound ts ls :
  (list_sum (zip_with flushed ts ls) <= length (List.filter flushes_last ts))%nat.
Proof.
  revert ls. induction ts as [|t ts IH]; intros ls; [done|]. destruct ls as [|l ls]; [cbn; lia|].
  change (flushed t l + list_sum (zip_with flushed ts ls) <=
    length (if flushes_last t then t :: List.filter flushes_last ts else List.filter flushes_last ts))%nat.
  specialize (IH ls). unfold flushed at 1.
  destruct (flushes_last t); cbn [length]; [|lia]. destruct l as [| | | | | |[]]; lia.
Qed.

Lemma flushed_ended ts ls i t :
  ts !! i = Some t -> ls !! i = Some Ended -> flushes_last t = true ->
  (1 <= list_sum (zip_with flushed ts ls))%nat.
Proof.
  intros Ht Hl Hf. assert (zip_with flushed ts ls !! i = Some 1%nat) as Hz.
  { rewrite lookup_zip_with, Ht. cbn. rewrite Hl. cbn. unfold flushed. by rewrite Hf. }
  pose proof (list_sum_insert _ i 1%nat 0%nat Hz). lia.
Qed.
End stops.

(** * Theorems *)

Lemma agent_flushes {R Wr} c agent checker monitor :
  length (List.filter flushes_last (service_tasks (R := R) (Wr := Wr) c agent checker monitor)) =
    match agent with Some _ => 1%nat | None => 0%nat end.
Proof. by destruct agent, checker, monitor. Qed.


(** Where both handlers install, the process stops when it is asked to;
    where SIGTERM's does not, or Ctrl-C's fails at once, it stops at once. *)
Theorem signals_that_stop s :
  (forall t r, s.(ctrl_c) = Some (t, r) -> 0 <= t) ->
  (forall t, s.(terminate) = Ok (Some t) -> 0 <= t) ->
  (forall m, s.(terminate) = Err m -> shutdown_signal s = Some 0) /\
  (forall m, s.(ctrl_c) = Some (0, Err m) -> shutdown_signal s = Some 0) /\
  (forall received, s.(terminate) = Ok received ->
     shutdown_signal s = earliest (fst <$> s.(ctrl_c)) received).
Proof.
  destruct s as [[[t r]|] [[u|]|m]]; intros Hc Ht; unfold shutdown_signal; cbn in *;
    try specialize (Hc _ _ eq_refl); try specialize (Ht _ eq_refl);
    split_and!; intros ? [=]; subst; try done; f_equal; lia.
Qed.

(** * At concrete inputs *)

(** One step of a task, in a run of concrete steps. *)
Tactic Notation "goes" constr(i) uconstr(rule) :=
  eapply StepsMore; [eapply (StepTask _ _ i); [done | done | by apply rule | done]|]; cbn.
Ltac asks := eapply StepsMore; [by apply StepSend|]; cbn.
Ltac joins := eapply StepsMore; [by eapply StepJoin|]; cbn.

Section draining.
Context {R Wr : Type} (c : Config) (ag : Agent R Wr) (checker : option (IntegrityChecker Reader))
  (monitor : option (Monitor Reader)).
Abbreviation all := (service_tasks c (Some ag) checker monitor) (only parsing).

(** A request that is in flight when the stop comes can be answered after
    the agent's last flush, which then has not counted it. *)
Lemma answered_after_the_last_flush :
  exists ks p, steps all (as_started all) ks p /\ p.(lives) !! 2%nat = Some Ended /\
    p.(lives) !! 0%nat = Some (Drains 1).
Proof.
  exists [Takes 0; Goes; Goes; Flushes 0; Goes]. eexists. split.
  - goes 0%nat Accept. asks. goes 0%nat Notice. goes 2%nat Flush. goes 2%nat Flushed. apply StepsNone.
  - by destruct checker, monitor.
Qed.
End draining.

Definition demo_tasks : list (Task Reader Reader) := service_tasks demo_config (Some demo_agent) None None.
Definition demo_born : Process := mkProcess false [Serves 0; Serves 0; Waits; Waits] 0 [] true.

(** [shutdown] does not wait for an admission: one that began before the
    stop may be in its extend when [shutdown] returns, and is dropped
    with the runtime. *)
Lemma admission_outlives_shutdown :
  exists ks p, steps demo_tasks (as_started demo_tasks) ks p /\ returned demo_tasks p /\
    p.(admissions) = [5%nat] /\
    exists p', step demo_tasks p Goes p' /\ p'.(runtime) = false /\ p'.(admissions) = [].
Proof.
  exists [Takes 0; Takes 5; Goes; Goes; Goes; Goes; Goes; Goes; Flushes 0; Goes; Goes; Goes; Goes; Goes; Goes].
  eexists. assert (forall A B C : Prop, A -> B -> C -> A /\ B /\ C) as Hc by tauto.
  apply Hc; clear Hc.
  - change (as_started demo_tasks) with demo_born. unfold demo_born.
    goes 1%nat Accept. eapply StepsMore; [by eapply (StepAdmits _ _ 1%nat); [| |left|]|]; cbn.
    goes 1%nat Answer. asks. goes 0%nat Notice. goes 0%nat Drained. goes 1%nat Notice. goes 1%nat Drained.
    goes 2%nat Flush. goes 2%nat Flushed. goes 3%nat Leave. joins. joins. joins. joins. apply StepsNone.
  - done.
  - split; [done|]. eexists. split; [by apply StepExit | done].
Qed.

