(* ===== verification/Rig.v ===== *)
(** The test rig around the load balancer, [crates/rig/src/main.rs],
    [fleet.rs] and [provider.rs]: its command line, the fleet it starts
    and the configuration it renders for it, what it reads in the admin
    answers, and the admission callbacks it posts in the tunnel server's
    place. The processes and containers are in Machine, Handles and
    Scripts; what they answer is an argument here.

    [usage] and a failed assertion end the rig: both are [None] here. *)

From S2P Require Import Prelude External Concrete Denylist Jsonrpc Pool World Forwarder Records Reader Chain Config Admission Agent Mirror Lifecycle Proxy Monitor Recovery Integrity Relay Load Admin.

#[local] Open Scope Z_scope.

Definition BASE_PORT : Z := 18650.
Definition NODES : nat := 3.
Definition LB_PUBLIC : string := "127.0.0.1:18700".
Definition LB_ADMIN : string := "127.0.0.1:18701".
Definition WRITER_PORT : Z := 18702.
Definition READY_TIMEOUT : Z := from_secs 120.

(** * Text *)

Definition strip_suffix (suffix s : string) : option string :=
  let n := (String.length s - String.length suffix)%nat in
  if Nat.leb (String.length suffix) (String.length s) &&
     bool_decide (String.substring n (String.length suffix) s = suffix)
  then Some (String.substring 0 n s) else None.
Definition strip_space_end (s : string) : option string :=
  List.fold_right (fun w r => match strip_suffix w s with Some t => Some t | None => r end)
    None white_space.
Fixpoint trim_end_rounds (fuel : nat) (s : string) : string :=
  match fuel with
  | O => s
  | S fuel => match strip_space_end s with Some t => trim_end_rounds fuel t | None => s end
  end.
(** [str::trim]. *)
Definition trim (s : string) : string :=
  let s := trim_start s in trim_end_rounds (String.length s) s.

(** [str::split] on a character: at least one part. *)
Fixpoint split_on (c : ascii) (s : string) : list string :=
  match s with
  | EmptyString => [EmptyString]
  | String d s =>
      if Ascii.eqb d c then EmptyString :: split_on c s
      else match split_on c s with
           | x :: l => String d x :: l
           | [] => [String d EmptyString]
           end
  end.

(** [str::parse] to a [usize] and a [u64]. *)
Definition parse_number (s : string) : option Z := from_str_radix u64_max 10 s.

(** * The scenarios *)

Inductive Scenario : Type :=
| Boot
| Distribution
| DenylistScenario
| ForwardToNode
| KillRecover
| Liar (lie : Lie) (check : string)
| FrozenHead
| ReferenceDown
| OfferAccepted.

Definition SCENARIOS : list string :=
  ["boot"; "distribution"; "denylist"; "forward-to-node"; "kill-recover"; "wrong-entity";
   "wrong-block"; "frozen-head"; "reference-down"; "offer-accepted"]%string.
Definition NOT_IN_ALL : list string := ["wrong-entity"]%string.

(** [None] is the [unreachable!]. *)
Definition scenario (name : string) : option Scenario :=
  match name with
  | "boot" => Some Boot
  | "denylist" => Some DenylistScenario
  | "distribution" => Some Distribution
  | "forward-to-node" => Some ForwardToNode
  | "kill-recover" => Some KillRecover
  | "wrong-entity" => Some (Liar EntityLie "entity")
  | "wrong-block" => Some (Liar BlockLie "block")
  | "frozen-head" => Some FrozenHead
  | "reference-down" => Some ReferenceDown
  | "offer-accepted" => Some OfferAccepted
  | _ => None
  end%string.

(** [all]: each scenario in its turn, or the line that says it is not. *)
Definition all : list (string + Scenario) :=
  (fun name => if bool_decide (name ∈ NOT_IN_ALL) then inl name
               else match scenario name with Some s => inr s | None => inl name end) <$> SCENARIOS.

(** * The command line *)

Record LoadArgs : Type := mkLoadArgs {
  load_target : option string;
  load_query : bool;
  load_filter : string;
  concurrency_steps : list Z;
  load_duration : Z;
}.
Definition default_load_args : LoadArgs := mkLoadArgs None false ALL_ENTITIES [4] (from_secs 10).

(** The flags [load] knows. *)
Inductive LoadFlag : Type := FlagTarget | FlagRequests | FlagQuery | FlagConcurrency | FlagDuration.
Definition load_flag_named (flag : string) : option LoadFlag :=
  match flag with
  | "--target" => Some FlagTarget
  | "--requests" => Some FlagRequests
  | "--query" => Some FlagQuery
  | "--concurrency" => Some FlagConcurrency
  | "--duration" => Some FlagDuration
  | _ => None
  end%string.

Definition load_flag (flag value : string) (a : LoadArgs) : option LoadArgs :=
  flag ← load_flag_named flag;
  match flag with
  | FlagTarget =>
      Some (mkLoadArgs (Some value) a.(load_query) a.(load_filter) a.(concurrency_steps) a.(load_duration))
  | FlagRequests =>
      query ← match value with "cheap" => Some false | "query" => Some true | _ => None end%string;
      Some (mkLoadArgs a.(load_target) query a.(load_filter) a.(concurrency_steps) a.(load_duration))
  | FlagQuery =>
      Some (mkLoadArgs a.(load_target) a.(load_query) value a.(concurrency_steps) a.(load_duration))
  | FlagConcurrency =>
      steps ← mapM (fun n => parse_number (trim n)) (split_on "," value);
      Some (mkLoadArgs a.(load_target) a.(load_query) a.(load_filter) steps a.(load_duration))
  | FlagDuration =>
      n ← parse_number value;
      Some (mkLoadArgs a.(load_target) a.(load_query) a.(load_filter) a.(concurrency_steps) (from_secs n))
  end.

(** The flags with their values, in order; a flag without one is the
    usage text. *)
Fixpoint with_flags {A} (flag : string -> string -> A -> option A) (args : list string) (a : A) :
    option A :=
  match args with
  | [] => Some a
  | name :: value :: args => a ← flag name value a; with_flags flag args a
  | [_] => None
  end.

Record LoadRun : Type := mkLoadRun {
  run_target : string;
  run_requests : Requests;
  run_steps : list Z;
  run_duration : Z;
}.

Definition load_command (args : list string) : option LoadRun :=
  a ← with_flags load_flag args default_load_args;
  target ← a.(load_target);
  Some (mkLoadRun target (if a.(load_query) then Query a.(load_filter) else Cheap)
          a.(concurrency_steps) a.(load_duration)).

(** One step of the load, done: its workers, its totals, the time it
    took, and whether the stop flag was set by then. *)
Record LoadStep : Type := mkLoadStep {
  step_workers : Z;
  step_stats : LoadStats;
  step_elapsed : Z;
  step_stopped : bool;
}.

Definition report (st : LoadStats) (elapsed : Z) : option (list string) :=
  line ← summary st elapsed;
  Some ((("rig: " ++ line) ::
    ((fun f => "rig: failed: " ++ f.1 ++ ": " ++ decimal f.2.1 ++ ", first: " ++ f.2.2) <$>
       sort_by key_leb (map_to_list st.(load_failures))))%string).

(** The steps as they are run, until the flag is set; the exit code of
    the command, where zero is the ordinary end. *)
Fixpoint load_exit (steps : list LoadStep) (rows : list LoadStats) : Z :=
  match steps with
  | [] => if existsb (fun st => Z.ltb 0 st.(load_failed)) rows then 1 else 0
  | step :: steps =>
      if step.(step_stopped) then 130 else load_exit steps (rows ++ [step.(step_stats)])
  end.

Definition load_table (steps : list LoadStep) : list string :=
  if Nat.ltb 1 (length steps)
  then "rig: workers  requests/s  p50      p99      failed"%string ::
    ((fun s => "rig: " ++ pad_right 8 (decimal s.(step_workers)) ++ " " ++
               table_row s.(step_stats) s.(step_elapsed))%string <$> steps)
  else [].

Section command_line.
(** [SocketAddr::from_str] has no model here: what it reads is an
    argument. *)
Context `{UrlLib} {SocketAddr : Type} (parse_addr : string -> option SocketAddr).

Record RelayArgs : Type := mkRelayArgs {
  listen : option SocketAddr;
  upstream : option Url;
  told_lie : option Lie;
}.

Definition lie_named (name : string) : option Lie :=
  match name with
  | "entity" => Some EntityLie
  | "block" => Some BlockLie
  | "frozen-head" => Some FrozenHeadLie
  | _ => None
  end%string.

Definition relay_flag (flag value : string) (a : RelayArgs) : option RelayArgs :=
  match flag with
  | "--listen" => addr ← parse_addr value; Some (mkRelayArgs (Some addr) a.(upstream) a.(told_lie))
  | "--upstream" => url ← url_parse value; Some (mkRelayArgs a.(listen) (Some url) a.(told_lie))
  | "--lie" => lie ← lie_named value; Some (mkRelayArgs a.(listen) a.(upstream) (Some lie))
  | _ => None
  end%string.

Definition relay_command (args : list string) : option (SocketAddr * Url * option Lie) :=
  a ← with_flags relay_flag args (mkRelayArgs None None None);
  addr ← a.(listen);
  url ← a.(upstream);
  Some (addr, url, a.(told_lie)).

(** What [main] starts, by the arguments after the program's name. *)
Inductive Invocation : Type :=
| RunAll
| RunLoad (run : LoadRun)
| RunRelay (addr : SocketAddr) (upstream : Url) (lie : option Lie)
| RunScenario (s : Scenario)
| Usage
| Unreachable.

Definition main (args : list string) : Invocation :=
  match args with
  | "all" :: _ => RunAll
  | "load" :: args => match load_command args with Some run => RunLoad run | None => Usage end
  | "relay" :: args =>
      match relay_command args with Some (addr, url, lie) => RunRelay addr url lie | None => Usage end
  | name :: _ =>
      if bool_decide (name ∈ SCENARIOS)
      then match scenario name with Some s => RunScenario s | None => Unreachable end
      else Usage
  | [] => Usage
  end%string.
End command_line.

(** * The fleet *)

Record Node : Type := mkNode {
  node_id : string;
  node_url : string;
  node_script : string;
  node_port : Z;
}.

(** The [i]th node of a fleet: the ports are consecutive, on a [u16]. *)
Definition node_at (root : string) (base_port : Z) (i : nat) : Node :=
  let port := (base_port + Z.of_nat i mod (u16_max + 1)) mod (u16_max + 1) in
  mkNode ("rig-node-" ++ decimal (Z.of_nat i)) ("http://127.0.0.1:" ++ decimal port)
    (root ++ "/scripts/dev-node.sh") port.

(** The script's answer, read as a number. *)
Definition chain_id (output : string) : option Z := parse_number (trim output).

Definition quote : string := String (ascii_of_N 34) EmptyString.
Definition quoted_text (s : string) : string := (quote ++ s ++ quote)%string.
Definition line (s : string) : string := (s ++ newline)%string.

Definition provider_table (p : string * string) : string :=
  (newline ++ line "[[providers]]" ++ line ("id = " ++ quoted_text p.1) ++
   line ("url = " ++ quoted_text p.2))%string.

Definition config_head (chain_id : Z) (health : string) : string :=
  (line "# Rendered by the rig — do not edit." ++ line "[listen]" ++
   line ("public = " ++ quoted_text LB_PUBLIC) ++ line ("admin = " ++ quoted_text LB_ADMIN) ++
   newline ++ line "[health]" ++ line ("chain_id = " ++ decimal chain_id) ++ health)%string.

Definition concat_text (l : list string) : string := foldr String.append EmptyString l.

(** What is written to [target/rig/config.toml]. *)
Definition render_config (fleet : list Node) (chain_id : Z) : string :=
  (config_head chain_id EmptyString ++
   concat_text ((fun n => provider_table (n.(node_id), n.(node_url))) <$> fleet))%string.

Definition render_marketplace_config (providers : list (string * string)) (chain_id : Z)
    (writer_url health marketplace rest : string) : string :=
  (config_head chain_id (line health) ++ line "[marketplace]" ++
   line ("writer_url = " ++ quoted_text writer_url) ++
   line ("wei_per_call = " ++ quoted_text "1000000000000000") ++
   line ("tunnel_server = " ++ quoted_text "127.0.0.1:7000") ++
   line marketplace ++ rest ++ concat_text (provider_table <$> providers))%string.

(** * Reading the admin answers *)

(** The row of a provider; [None] where the answer is no array or has no
    such row, which ends the scenario. *)
Definition provider (nodes : Value) (id : string) : option Value :=
  match nodes with
  | Array rows => List.find (fun row => is_text (index "id" row) id) rows
  | _ => None
  end.

Definition served_counts (fleet : list Node) (nodes : Value) : option (list Z) :=
  mapM (fun n => row ← provider nodes n.(node_id); as_u64 (index "served_total" row)) fleet.

(** * The tunnel server's part *)

Definition metas (agreement token : string) : Value :=
  Object [("agreement", Str agreement); ("token", Str token)]%string.

Definition CLIENT_ADDRESS : string := "203.0.113.5:53502".

Definition login_body (agreement token : string) : Value :=
  Object [("version", Str "0.61.1"); ("os", Str "linux"); ("arch", Str "amd64");
          ("metas", metas agreement token); ("client_spec", Object []);
          ("pool_count", from_u64 1); ("client_address", Str CLIENT_ADDRESS)]%string.

Definition new_proxy_body (agreement token : string) (port : Z) : Value :=
  Object [("user", Object [("user", Str ""); ("metas", metas agreement token); ("run_id", Str "rig")]);
          ("proxy_name", Str (proxy_name port)); ("proxy_type", Str "tcp");
          ("remote_port", from_u64 port)]%string.

(** [admission]: the callback as it is posted. *)
Definition admission (op : string) (content : Value) : Value :=
  Object [("version", Str "0.1.0"); ("op", Str op); ("content", content)]%string.

(** * The provider tooling's files *)

Definition PROVIDER_ADDRESS : string := "0x70997970c51812dc3a010c7d01b50e0d17dc79c8".

(** The settings [start-tunnel] wrote, from the lines of the file; the
    last of a repeated name is kept. *)
Definition tunnel_settings (lines : list string) : gmap string string :=
  foldl (fun m f => <[f.1 := f.2]> m) ∅ (omap (split_once "=") lines).

(** The last byte of a token, flipped between its two values: [None] is
    the panic on any other. *)
Definition flip_recovery (token : string) : option string :=
  let n := (String.length token - 2)%nat in
  if Nat.ltb (String.length token) 2 then None
  else
    last ← match String.substring n 2 token with
           | "1b" => Some "1c"
           | "1c" => Some "1b"
           | _ => None
           end%string;
    Some (String.substring 0 n token ++ last)%string.

(** * Theorems *)

(** ** The command line *)

(** Every scenario that is listed is dispatched, and no two are the same
    run; [all] runs each of them but those it says it leaves out. *)
Lemma every_scenario_dispatched :
  NoDup SCENARIOS /\ NoDup (scenario <$> SCENARIOS) /\
  Forall (fun name => is_Some (scenario name)) SCENARIOS /\
  omap (fun x => match x with inr s => Some s | inl _ => None end) all =
    omap scenario (List.filter (fun name => negb (bool_decide (name ∈ NOT_IN_ALL))) SCENARIOS).
Proof.
  split; [by apply (bool_decide_unpack _); vm_compute|].
  split; [|split; [repeat constructor; by eexists | by vm_compute]].
  cbn. repeat (apply NoDup_cons; split; [set_solver|]). apply NoDup_nil_2.
Qed.

(** [main] never reaches the [unreachable!]. *)
Lemma main_is_reachable `{UrlLib} {A} (parse_addr : string -> option A) args :
  main parse_addr args <> Unreachable.
Proof.
  pose proof (proj1 (proj2 (proj2 every_scenario_dispatched))) as Hall.
  assert (forall name, (if bool_decide (name ∈ SCENARIOS)
    then match scenario name with Some s => RunScenario s | None => Unreachable end
    else Usage) <> Unreachable :> @Invocation A) as Hname.
  { intros name. case_bool_decide as Hin; [|done]. rewrite Forall_forall in Hall.
    by destruct (Hall name Hin) as [s ->]. }
  unfold main. destruct args as [|name args]; [done|].
  assert (match load_command args with Some run => RunLoad run | None => Usage end <> Unreachable :> @Invocation A)
    by by destruct (load_command args).
  assert (match relay_command parse_addr args with
          | Some (addr, url, lie) => RunRelay addr url lie | None => Usage end <> Unreachable :> @Invocation A)
    by by destruct (relay_command parse_addr args) as [[[? ?] ?]|].
  specialize (Hname name). repeat case_match; done.
Qed.

Lemma load_flags_commute f1 v1 f2 v2 a :
  load_flag_named f1 <> load_flag_named f2 ->
  (a ← load_flag f1 v1 a; load_flag f2 v2 a) = (a ← load_flag f2 v2 a; load_flag f1 v1 a).
Proof.
  intros Hne. unfold load_flag.
  destruct (load_flag_named f1) as [[]|], (load_flag_named f2) as [[]|]; try done; cbn [mbind option_bind];
    repeat (first [case_match | match goal with |- context [?x ≫= _] =>
                       lazymatch x with _ ≫= _ => fail | _ => destruct x end end];
            cbn [mbind option_bind]; try done).
Qed.

(** The arguments, flag by flag. *)
Fixpoint flat (args : list (string * string)) : list string :=
  match args with [] => [] | (flag, value) :: args => flag :: value :: flat args end.

Lemma with_flags_app {A} (flag : string -> string -> A -> option A) xs args a :
  with_flags flag (flat xs ++ args) a =
    (a ← with_flags flag (flat xs) a; with_flags flag args a).
Proof.
  revert a. induction xs as [|[f v] xs IH]; intros a; [done|].
  cbn [flat app with_flags]. destruct (flag f v a) as [a'|]; [|done].
  cbn [mbind option_bind]. apply IH.
Qed.

(** The flags of [load] may come in any order: two that are not the
    same flag change places without changing the run, so the filter of
    [--query] counts before and after [--requests query] alike. *)
Theorem flag_order_is_free xs f1 v1 f2 v2 args :
  load_flag_named f1 <> load_flag_named f2 ->
  load_command (flat xs ++ [f1; v1; f2; v2] ++ args) =
    load_command (flat xs ++ [f2; v2; f1; v1] ++ args).
Proof.
  intros Hne. unfold load_command. rewrite !with_flags_app.
  destruct (with_flags load_flag (flat xs) default_load_args) as [a|]; [|done]. cbn [mbind option_bind app with_flags].
  pose proof (load_flags_commute f1 v1 f2 v2 a Hne) as E. cbn [mbind option_bind] in E.
  destruct (load_flag f1 v1 a) as [a1|], (load_flag f2 v2 a) as [a2|]; cbn in E |- *;
    first [by rewrite E | by rewrite <- E | done].
Qed.

(** The exit code tells the three ends apart. *)
Lemma load_exit_spec steps rows :
  (load_exit steps rows = 130 <-> existsb step_stopped steps = true) /\
  (load_exit steps rows = 0 <->
     Forall (fun s => step_stopped s = false) steps /\
     Forall (fun st => st.(load_failed) <= 0) (rows ++ (step_stats <$> steps))).
Proof.
  revert rows. induction steps as [|s steps IH]; intros rows; cbn [load_exit existsb].
  - rewrite app_nil_r. destruct (existsb _ rows) eqn:E.
    + apply existsb_exists in E as (st & Hin & Hf). split; [done|]. split; [done|].
      intros [_ Hall]. rewrite Forall_forall in Hall. apply list_elem_of_In, Hall in Hin. lia.
    + split; [done|]. split; [|done]. intros _. split; [constructor|]. apply Forall_forall.
      intros st Hin. apply list_elem_of_In in Hin.
      destruct (Z.ltb 0 (load_failed st)) eqn:Ef; [|lia].
      assert (existsb (fun st => Z.ltb 0 st.(load_failed)) rows = true) by (apply existsb_exists; eauto).
      congruence.
  - rewrite Forall_cons. destruct (step_stopped s); cbn [orb fmap list_fmap].
    + split; [done|]. split; [done|]. by intros [[? _] _].
    + destruct (IH (rows ++ [step_stats s])) as [H1 H2]. rewrite H1, H2, <- (assoc_L (++)). cbn. naive_solver.
Qed.

(** ** The fleet *)

Lemma fleet_start_spec root count base :
  0 <= base -> base + Z.of_nat count <= u16_max + 1 ->
  length ((node_at root base <$> seq 0 count)) = count /\
  NoDup (node_id <$> (node_at root base <$> seq 0 count)) /\ NoDup (node_url <$> (node_at root base <$> seq 0 count)) /\
  forall i n, (node_at root base <$> seq 0 count) !! i = Some n -> n.(node_port) = base + Z.of_nat i.
Proof.
  intros Hb Hc. unfold node_at.
  assert (forall i : nat, (i < count)%nat ->
    (base + Z.of_nat i mod (u16_max + 1)) mod (u16_max + 1) = base + Z.of_nat i) as Hport.
  { intros i Hi. rewrite (Z.mod_small (Z.of_nat i)), Z.mod_small; lia. }
  split; [by rewrite length_fmap, length_seq|]. rewrite <- !list_fmap_compose.
  assert (forall f : nat -> string, (forall i j, (i < count)%nat -> (j < count)%nat -> f i = f j -> i = j) ->
    NoDup (f <$> seq 0 count)) as Hnd.
  { intros f Hf. apply NoDup_fmap_2_strong; [|apply NoDup_ListNoDup, List.seq_NoDup].
    intros i j Hi%elem_of_seq Hj%elem_of_seq. apply Hf; lia. }
  split; [|split].
  - apply Hnd. intros i j _ _ E. cbn in E. injection E as E. apply decimal_inj in E; lia.
  - apply Hnd. intros i j Hi Hj E. cbn -[Z.modulo] in E. injection E as E.
    rewrite !Hport in E by done. apply decimal_inj in E; lia.
  - intros i n Hn. rewrite list_lookup_fmap in Hn. apply fmap_Some in Hn as (k & Hk & ->).
    apply lookup_seq in Hk as [-> Hk]. cbn -[Z.modulo]. by rewrite Hport.
Qed.

(** ** The rows of [/nodes] *)

Section rows.
Context `{Alloy}.

(** The row of an id is the view of the member the pool finds by it. *)
Lemma row_of_member pl i r p :
  pool_get pl i = Some r -> entry pl r = Some p ->
  provider (Array (NodeView_to_json <$> node_views pl)) i = Some (NodeView_to_json (node_view p)).
Proof.
  unfold pool_get, node_views, snapshot, provider. generalize pl.(members). intros l Hg Hp.
  assert (forall q, is_text (index "id" (NodeView_to_json (node_view q))) i = bool_decide (q.(id) = i)) as Hid.
  { intros q. unfold node_view. destruct (source q); cbn; unfold is_text;
      by apply bool_decide_ext; split; [intros [= ->] | intros ->]. }
  induction l as [|x l IH]; [done|]. cbn [List.find omap list_omap] in Hg |- *.
  change (has_id pl i x) with (test_entry pl (fun p => bool_decide (p.(id) = i)) x) in Hg.
  unfold test_entry in Hg. destruct (entry pl x) as [q|] eqn:Ex; [|by apply IH].
  cbn [fmap option_fmap option_map list_fmap List.find]. rewrite Hid.
  destruct (bool_decide (id q = i)); [|by apply IH]. injection Hg as ->. congruence.
Qed.

(** What the scenarios look at in a row. *)
Lemma row_fields p :
  let row := NodeView_to_json (node_view p) in
  index "eligible" row = Bool (eligible p) /\
  index "integrity_verdict" row = opt_json Str ((fun v => verdict_as_str v.1) <$> last_verdict p) /\
  index "integrity_height" row = opt_json from_u64 (snd <$> last_verdict p) /\
  index "ineligibility_reason" row = opt_json Str (ineligibility_reason p) /\
  index "served_total" row = from_u64 p.(served_total).
Proof. unfold node_view. by destruct (source p). Qed.
End rows.

(** C15: The scenario of the lying provider ends as it asserts. Behind the
    liar's id stands a relay that lies about blocks in front of a node
    that has every block the reference finalizes: once a round over it
    has judged anybody, its row in [/nodes] says that it is not eligible
    and that its verdict is a divergence, at the height judged, and, if
    its probes are well, [integrity] as the reason. *)
Theorem wrong_block_scenario `{Alloy} `{SerdeJson} `{!HexDigits} {W} `{World W} `{Issuer W} `{Sleep W}
    `{KeyStore W} `{Completions W} `{Dice W} flip_after `{!Fair W} {R} `{ChainReader R (Sys W)}
    `{!CheckerOutside R W flip_after} (ck : IntegrityChecker R) r u upstream send error_text rs i (s : Sys W) :
  (forall q w, q.(req_url) = u ->
     (http_post q w).1 = relayed send error_text upstream (Some BlockLie) None q) ->
  (forall w : W, is_u64 (random_id w).1) ->
  (forall s x, (finalized_block ck s).1 = Some x -> serves_block upstream send x) ->
  placed r u s -> NoDup rs -> r ∈ rs ->
  let '(e, s') := round_over flip_after ck rs s in
  pool_get s'.(pool) i = Some r ->
  forall height counts, e = Judged height counts ->
  exists row, provider (Array (NodeView_to_json <$> node_views s'.(pool))) i = Some row /\
    index "eligible" row = Bool false /\ index "integrity_verdict" row = Str "divergence" /\
    index "integrity_height" row = from_u64 height /\
    (forall p, entry s'.(pool) r = Some p -> healthy p = true ->
       index "ineligibility_reason" row = Str "integrity").
Proof.
  intros Hrelay Hid Hblocks Hs Hnd Hr.
  pose proof (block_liar_out flip_after ck r u upstream BlockLie send error_text Hrelay Hid rs s
    eq_refl Hblocks Hs Hnd Hr) as Hout.
  destruct (round_over flip_after ck rs s) as [e s']. intros Hg height counts ->.
  destruct Hout as (p & Hp & Hw & He & Hv). exists (NodeView_to_json (node_view p)).
  destruct (row_fields p) as (-> & -> & -> & -> & _).
  split; [by eapply row_of_member|]. rewrite He, Hv. do 3 (split; [done|]).
  intros p' Hp' Hh. assert (p' = p) as -> by congruence.
  unfold ineligibility_reason. by rewrite He, Hh.
Qed.

(** ** The tunnel's callbacks *)

Section callbacks.
Context `{Alloy} `{SerdeJson} `{DebugText} `{Signatures} `{AxumJson}.

Lemma login_read agreement token :
  read_callback (Ok (to_vec (admission "Login" (login_body agreement token)))) ≫= parse_callback =
    Ok (Some (Login, mkMetas (Some agreement) (Some token), CLIENT_ADDRESS)).
Proof. unfold read_callback. cbn [mbind result_bind]. by rewrite from_slice_to_vec. Qed.

Lemma new_proxy_read agreement token port :
  0 <= port <= u16_max ->
  read_callback (Ok (to_vec (admission "NewProxy" (new_proxy_body agreement token port)))) ≫= parse_callback =
    Ok (Some (NewProxy port (proxy_name port), mkMetas (Some agreement) (Some token), proxy_name port)).
Proof.
  intros [Hp Hq]. unfold read_callback. cbn [mbind result_bind]. rewrite from_slice_to_vec.
  - assert (NewProxyContent_from_json (new_proxy_body agreement token port) =
      Some (mkNewProxyContent (mkUserInfo (mkMetas (Some agreement) (Some token))) (proxy_name port) port))
      as Ec.
    { transitivity (p ← uint u16_max (from_u64 port);
        Some (mkNewProxyContent (mkUserInfo (mkMetas (Some agreement) (Some token))) (proxy_name port) p));
        [done|]. unfold uint. cbn [from_u64 as_u64 mbind option_bind].
      by rewrite (proj2 (Z.leb_le _ _) Hq). }
    transitivity (proxy ← ok_or (from_value_error "NewProxyContent" (new_proxy_body agreement token port))
                    (NewProxyContent_from_json (new_proxy_body agreement token port));
      Ok (Some (NewProxy proxy.(frps_remote_port) proxy.(frps_proxy_name),
                proxy.(user).(user_metas), proxy.(frps_proxy_name)))); [done|].
    by rewrite Ec.
  - cbn. rewrite (proj2 (Z.leb_le _ _) Hp). apply andb_true_iff. split; [|done].
    rewrite (proj2 (Z.leb_le _ _)); [done|]. unfold u16_max, u64_max in *. lia.
Qed.

Context {S : Type} `{Book : Agreements S}.

Definition posted (op : string) (content : Value) : M S Response :=
  admission_route (Ok (to_vec (admission op content))).

(** What the route answers to a callback it understood. *)
Lemma posted_answer op content name ms who s :
  read_callback (Ok (to_vec (admission op content))) ≫= parse_callback = Ok (Some (name, ms, who)) ->
  (posted op content s).1 =
    match admission_decision (fun k => book_agreement k s) name ms.(meta_agreement) ms.(meta_token) with
    | Ok _ => unchange
    | Err rejection => reject (rejection_text rejection)
    end.
Proof.
  intros E. unfold posted, admission_route. rewrite E. unfold mbind, M_bind, mret, M_ret.
  destruct (admission_decision _ _ _ _) as [stored|e]; [|done].
  destruct name; [done|]. by destruct (book_admitted stored s).
Qed.

(** C28: The token the provider's tooling signed opens one tunnel, and no
    other. When the registration the rig posts in the tunnel server's
    place is admitted, so is the login with the same token; the same
    token for another port is rejected with the port the agreement
    assigns; and another signer's token is rejected as such. *)
Theorem token_opens_one_tunnel agreement token port s :
  0 <= port <= u16_max ->
  (posted "NewProxy" (new_proxy_body agreement token port) s).1 = unchange ->
  (posted "Login" (login_body agreement token) s).1 = unchange /\
  (forall port', 0 <= port' <= u16_max -> port' <> port ->
     (posted "NewProxy" (new_proxy_body agreement token port') s).1 =
       reject (rejection_text (WrongPort port' port))) /\
  exists k provider, key_parse agreement = Some k /\
    forall token' sig' x, signature_parse token' = Some sig' ->
      recover_address_from_msg sig' (token_message k) = Some x -> x <> provider ->
      (posted "NewProxy" (new_proxy_body agreement token' port) s).1 = reject (rejection_text WrongSigner).
Proof.
  intros Hport Hun. rewrite (posted_answer _ _ _ _ _ _ (new_proxy_read agreement token port Hport)) in Hun.
  cbn [meta_agreement meta_token] in Hun.
  destruct (admission_decision _ _ _ _) as [stored|e] eqn:Ed; [|done].
  apply admission_decision_Ok in Ed as (k & sig & Hk & Hsig & Hst & Hrec & Hname). cbn in Hk, Hsig.
  destruct (Hname port (proxy_name port) eq_refl) as [Hassigned _].
  assert (forall op token' sig', signature_parse token' = Some sig' ->
    admission_decision (fun k => book_agreement k s) op (Some agreement) (Some token') =
      (_ ← decide_admission op (mkToken k sig') (Some stored); Ok stored)) as Hd.
  { intros op token' sig' Hs'. unfold admission_decision, token_parse. cbn. rewrite Hk, Hs'. cbn.
    rewrite Hst. done. }
  split; [|split].
  - rewrite (posted_answer _ _ _ _ _ _ (login_read agreement token)). cbn [meta_agreement meta_token].
    rewrite (Hd Login token sig Hsig). unfold decide_admission. cbn. rewrite Hrec. cbn. by rewrite Z.eqb_refl.
  - intros port' Hport' Hne.
    rewrite (posted_answer _ _ _ _ _ _ (new_proxy_read agreement token port' Hport')).
    cbn [meta_agreement meta_token]. rewrite (Hd _ token sig Hsig). unfold decide_admission.
    cbn -[proxy_name]. rewrite Hrec. cbn -[proxy_name]. rewrite Z.eqb_refl. cbn -[proxy_name].
    rewrite <- Hassigned. by rewrite (proj2 (Z.eqb_neq _ _) Hne).
  - exists k, stored.(record).(ag_provider). split; [done|]. intros token' sig' x Hs' Hx Hne.
    rewrite (posted_answer _ _ _ _ _ _ (new_proxy_read agreement token' port Hport)).
    cbn [meta_agreement meta_token]. rewrite (Hd _ token' sig' Hs'). unfold decide_admission.
    cbn -[proxy_name]. rewrite Hx. cbn -[proxy_name]. by rewrite (proj2 (Z.eqb_neq _ _) Hne).
Qed.
End callbacks.

(** * Witnesses *)

(** The filter before the flag that asks for it, and after. *)
Lemma flag_order_is_free_witness :
  load_command ["--target"; "http://a"; "--query"; "f"; "--requests"; "query"]%string =
    load_command ["--target"; "http://a"; "--requests"; "query"; "--query"; "f"]%string /\
  load_command ["--target"; "http://a"; "--query"; "f"; "--requests"; "query"]%string =
    Some (mkLoadRun "http://a" (Query "f") [4] (from_secs 10)).
Proof.
  split; [|by vm_compute].
  exact (flag_order_is_free [("--target", "http://a")]%string "--query" "f" "--requests" "query" []
    ltac:(vm_compute; congruence)).
Defined.

Lemma wrong_block_scenario_witness :
  let '(_, s') := round_over 1 demo_checker [0%nat] (deceived_start BlockLie) in
  exists row, provider (Array (NodeView_to_json <$> node_views s'.(pool))) "a" = Some row /\
    index "eligible" row = Bool false /\ index "integrity_verdict" row = Str "divergence".
Proof.
  assert (exists counts, (round_over 1 demo_checker [0%nat] (deceived_start BlockLie)).1 =
    Judged 7 counts) as [counts Ec] by (eexists; vm_compute; reflexivity).
  assert (pool_get (round_over 1 demo_checker [0%nat] (deceived_start BlockLie)).2.(pool) "a" = Some 0%nat)
    as Eg by (vm_compute; reflexivity).
  pose proof (wrong_block_scenario 1 demo_checker 0%nat "http://a" "http://node" demo_node demo_error
    [0%nat] "a" (deceived_start BlockLie) (deceived_relays BlockLie) (deceived_ids BlockLie)) as Hout.
  destruct (round_over _ _ _ _) as [e s']. cbn [fst snd] in Ec, Eg. subst e.
  destruct (Hout ltac:(intros s x Hx; destruct s as [pl [page] h]; vm_compute in Hx;
                       injection Hx as <-; apply demo_serves_block)
    (deceived_placed BlockLie) (NoDup_singleton _) (list_elem_of_here _ _) Eg 7 counts eq_refl)
    as (row & Hrow & He & Hv & _).
  exists row. exact (conj Hrow (conj He Hv)).
Defined.

(** One agreement, and signatures that name their signer. *)
#[local] Instance demo_book : Agreements unit := {
  book_agreement k _ := if Z.eqb k 7 then Some (mkStored 7 1 2 3 demo_agreement) else None;
  book_admitted _ := mret tt;
}.
#[local] Instance rig_signatures : Signatures := {|
  Signature := Address;
  signature_parse s := Some (if bool_decide (s = "good"%string) then 10 else 11);
  recover_address_from_msg x _ := Some x;
|}.
#[local] Instance rig_debug : DebugText := { debug_text s := s }.
#[local] Instance rig_axum : AxumJson := { json_rejection_text _ := EmptyString }.

Lemma token_opens_one_tunnel_witness :
  (posted "Login" (login_body (key_hex 7) "good") tt).1 = unchange /\
  (posted "NewProxy" (new_proxy_body (key_hex 7) "good" 20001) tt).1 =
    reject "port 20001 requested, agreement assigns 20000".
Proof.
  destruct (token_opens_one_tunnel (key_hex 7) "good" 20000 tt) as (Hlogin & Hport & _).
  - unfold u16_max. lia.
  - vm_compute. reflexivity.
  - split; [exact Hlogin|]. exact (Hport 20001 ltac:(unfold u16_max; lia) ltac:(lia)).
Defined.
