(* ===== verification/Machine.v ===== *)
(** The machine the test rig's scenarios run on ([crates/rig/src/]): what a
    scenario asks of it, what the answered calls start, tell to go and see
    gone, how a scenario may end, and what it holds while it runs -
    containers, processes, the rig's own servers - which Rust drops when
    the scenario ends, however it ends. *)

From S2P Require Import Prelude External World Load Relay Rig.

#[local] Open Scope Z_scope.

(** * What is asked of the machine *)

(** A [Command]: its environment sets or removes a variable, its output
    goes to a log file or to the caller. *)
Record Cmd : Type := mkCmd {
  program : string;
  cmd_args : list string;
  cmd_dir : option string;
  cmd_env : list (string * option string);
  cmd_input : option string;
  cmd_log : option string;
}.

(** [process::Output]. *)
Record Output : Type := mkOutput { exit_success : bool; stdout : Bytes; stderr : Bytes }.

(** What a task of the rig's own serves. *)
Inductive Server : Type :=
| RelayServer (addr upstream : string) (lie : option Lie)
| BeaconServer (addr : string).

(** A child process, by the handle its owner has of it. *)
Inductive Child : Type := LbChild (n : nat) | WriterChild (n : nat).

#[export] Instance child_eq_dec : EqDecision Child.
Proof. solve_decision. Defined.

(** Each call of the operating system, of the network and of tokio, by
    what it answers. A child process and a task are named by the rig's
    handle; [None] is an error, [false] one as well. [CtrlC] says whether
    Ctrl-C has come, [CtrlCYet] whether it comes while nothing else does. *)
Inductive Ask : Type -> Type :=
| Now : Ask Z
| CtrlC : Ask bool
| CtrlCYet : Ask bool
| SleepFor (d : Z) : Ask unit
| RunCommand (c : Cmd) : Ask (option Output)
| SpawnChild (child : Child) (c : Cmd) : Ask (option Z)
| TryWait (child : Child) : Ask bool
| KillChild (child : Child) : Ask unit
| WaitChild (child : Child) : Ask unit
| OwnDirectory : Ask (option string)
| WorkspaceRoot : Ask (option string)
| EnvVar (name : string) : Ask (option string)
| Exists (path : string) : Ask bool
| CreateDirAll (path : string) : Ask bool
| CreateFile (path : string) : Ask bool
| WriteFile (path : string) (content : Bytes) : Ask bool
| ReadFile (path : string) : Ask (option string)
| RemoveFile (path : string) : Ask unit
| Bind (addr : string) : Ask (option string)
| SpawnTask (task : nat) (server : Server) : Ask unit
| AbortTask (task : nat) : Ask unit
| TaskFinished (task : nat) : Ask bool
| WaitTask (task : nat) : Ask unit
| Http (request : HttpRequest) : Ask (result ClientError HttpResponse)
| PlainGet (url : string) : Ask (result ClientError HttpResponse)
| StartLoad (load : nat) (target : string) (requests : Requests) (workers duration : Z) : Ask unit
| JoinLoad (load : nat) : Ask (list (result Failure Z)).

(** A load answers the outcomes of its requests, in the order they arrive.
    [None] is a call that never answers: a program that runs on, a
    server that says nothing. *)
Class Machine (W : Type) := { perform : forall A, Ask A -> W -> option (A * W) }.
Arguments perform {W _ A} _ _.

(** The calls that wait on another program or task with no deadline of
    their own: [status] and [output] of a command, the [wait] for a child,
    the [await] of a task, and [reqwest::get], whose client has no
    timeout. Every other call returns by itself. *)
Definition waits_on_others {A} (q : Ask A) : bool :=
  match q with
  | RunCommand _ | WaitChild _ | WaitTask _ | PlainGet _ => true
  | _ => false
  end.

(** * What the calls start, tell and see gone *)

(** What runs because the rig started it. *)
Inductive Thing : Type :=
| Container (node : string)
| Process (child : Child)
| Task (task : nat).

#[export] Instance thing_eq_dec : EqDecision Thing.
Proof. solve_decision. Defined.

(** A thing comes up, is told to go, or is seen to be gone. *)
Inductive Act : Type := Up (x : Thing) | Told (x : Thing) | Gone (x : Thing).

#[export] Instance act_eq_dec : EqDecision Act.
Proof. solve_decision. Defined.

(** The container a command of [dev-node.sh] is about. *)
Definition env_of (c : Cmd) (name : string) : option string :=
  List.find (fun v => bool_decide (v.1 = name)) c.(cmd_env) ≫= snd.
Definition container_of (verb : string) (c : Cmd) : option Thing :=
  if bool_decide (c.(cmd_args) = [verb]) then Container <$> env_of c "DEV_NODE_NAME" else None.

(** What an answered call says of what runs. A start that fails may have
    launched the container; a stop is known to have stopped it when the
    script says so. An aborted task is only told; a child is gone when it
    has been waited for. *)
Definition effect {A} (q : Ask A) : A -> list Act :=
  match q in Ask A return A -> list Act with
  | RunCommand c => fun answer =>
      match container_of "start" c with Some x => [Up x] | None => [] end ++
      match container_of "stop" c with
      | Some x =>
          Told x :: match answer with Some o => if o.(exit_success) then [Gone x] else [] | None => [] end
      | None => []
      end
  | SpawnChild child _ => fun pid => match pid with Some _ => [Up (Process child)] | None => [] end
  | TryWait child => fun gone => if gone then [Gone (Process child)] else []
  | KillChild child => fun _ => [Told (Process child)]
  | WaitChild child => fun _ => [Gone (Process child)]
  | SpawnTask task _ => fun _ => [Up (Task task)]
  | AbortTask task => fun _ => [Told (Task task)]
  | TaskFinished task => fun finished => if finished then [Gone (Task task)] else []
  | WaitTask task => fun _ => [Gone (Task task)]
  | _ => fun _ => []
  end.

(** A call that was answered, and its answer. *)
Inductive Call : Type := Called (A : Type) (q : Ask A) (answer : A).
Arguments Called {A} q answer.

Definition call_effect (c : Call) : list Act := match c with Called q answer => effect q answer end.
(** What the calls did, in their order. *)
Definition acts_of (calls : list Call) : list Act := calls ≫= call_effect.
Arguments acts_of : simpl never.

Definition without (x : Thing) (l : list Thing) : list Thing :=
  List.filter (fun y => negb (bool_decide (y = x))) l.

(** What runs after the acts: what came up and was not seen gone since. *)
Definition run_act (l : list Thing) (a : Act) : list Thing :=
  match a with Up x => x :: l | Told _ => l | Gone x => without x l end.
Definition running (acts : list Act) : list Thing := foldl run_act [] acts.

(** What was told to go, and did not come up again since. *)
Definition tell_act (l : list Thing) (a : Act) : list Thing :=
  match a with Up x => without x l | Told x => x :: l | Gone _ => l end.
Definition told (acts : list Act) : list Thing := foldl tell_act [] acts.

(** The values with a [Drop]. *)
Inductive Owned : Type :=
| ONode (n : Node)
| OFleet (ns : list Node)
| OLb (child : nat) (pid : Z)
| OServers (tasks : list nat)
| ORelay (task : nat)
| OWriter (child : nat) (key_file : string).

(** A panic and a Ctrl-C both leave through the drops; [Hung] is a run
    that stays at a call that never answers, [Unfinished] is the model's
    fuel. *)
Inductive Ending (A : Type) : Type :=
| Ended (a : A)
| Panicked
| Cancelled
| Hung
| Unfinished.
Arguments Ended {A} a.
Arguments Panicked {A}.
Arguments Cancelled {A}.
Arguments Hung {A}.
Arguments Unfinished {A}.

(** The variables that own something, the last declared first, and the
    calls that were answered, in their order. *)
Record Host (W : Type) : Type := mkHost {
  machine : W;
  held : list (nat * Owned);
  calls : list Call;
  next_handle : nat;
}.
Arguments mkHost {W}.
Arguments machine {W}.
Arguments held {W}.
Arguments calls {W}.
Arguments next_handle {W}.

Definition Script (W A : Type) : Type := Host W -> Ending A * Host W.

#[export] Instance script_ret W : MRet (Script W) := fun _ a s => (Ended a, s).
#[export] Instance script_bind W : MBind (Script W) := fun _ _ f m s =>
  match m s with
  | (Ended a, s) => f a s
  | (Panicked, s) => (Panicked, s)
  | (Cancelled, s) => (Cancelled, s)
  | (Hung, s) => (Hung, s)
  | (Unfinished, s) => (Unfinished, s)
  end.

Section scripts.
Context {W : Type} `{Machine W}.

(** A call, answered: the machine goes on, and the call is recorded. *)
Definition answered {A} (q : Ask A) (a : A) (w : W) (s : Host W) : Host W :=
  mkHost w s.(held) (s.(calls) ++ [Called q a]) s.(next_handle).

Definition ask {A} (q : Ask A) : Script W A := fun s =>
  match perform q s.(machine) with
  | Some (a, w) => (Ended a, answered q a w s)
  | None => (Hung, s)
  end.

Definition panic {A} : Script W A := fun s => (Panicked, s).
Definition cancelled {A} : Script W A := fun s => (Cancelled, s).
Definition unfinished {A} : Script W A := fun s => (Unfinished, s).
Definition assert_ (b : bool) : Script W unit := if b then mret tt else panic.
(** [expect] and [unwrap_or_else(panic)]. *)
Definition expect {A} (x : option A) : Script W A :=
  match x with Some a => mret a | None => panic end.

(** An [await]: Ctrl-C may have come by its end, and cancels the run. *)
Definition await_point : Script W unit :=
  came ← ask CtrlC; if (came : bool) then cancelled else mret tt.
(** What never answers is waited for until Ctrl-C, if it comes. *)
Definition await {A} (q : Ask A) : Script W A := fun s =>
  match perform q s.(machine) with
  | Some (a, w) => (_ ← await_point; mret a) (answered q a w s)
  | None => (came ← ask CtrlCYet; if (came : bool) then cancelled else fun _ => (Hung, s)) s
  end.

(** ** Handles and what is held *)

Definition new_handle : Script W nat := fun s =>
  (Ended s.(next_handle), mkHost s.(machine) s.(held) s.(calls) (S s.(next_handle))).

Definition set_held (l : list (nat * Owned)) : Script W unit := fun s =>
  (Ended tt, mkHost s.(machine) l s.(calls) s.(next_handle)).

(** A variable is bound to a value with a [Drop]; the variable's slot. *)
Definition hold (slot : nat) (o : Owned) : Script W unit := fun s =>
  set_held ((slot, o) :: s.(held)) s.
Definition own (o : Owned) : Script W nat :=
  slot ← new_handle; _ ← hold slot o; mret slot.
(** The value of the variable changes in place. *)
Definition reown (slot : nat) (o : Owned) : Script W unit := fun s =>
  set_held ((fun h => if Nat.eqb h.1 slot then (slot, o) else h) <$> s.(held)) s.
(** The value is moved out of the variable. *)
Definition disown (slot : nat) : Script W unit := fun s =>
  set_held (List.filter (fun h => negb (Nat.eqb h.1 slot)) s.(held)) s.
Definition owned_at (slot : nat) : Script W (option Owned) := fun s =>
  (Ended (snd <$> List.find (fun h => Nat.eqb h.1 slot) s.(held)), s).
End scripts.
