(* ===== verification/Handles.v ===== *)
(** What a scenario of the test rig holds and waits for, as the rig's own
    types make it: the fleet of dev nodes ([crates/rig/src/fleet.rs]), the
    LB process, the rig's servers and relays ([main.rs]), the writer
    sidecar ([writer.rs]) and the provider tooling ([provider.rs]) - how
    each is started, waited for, stopped and dropped. *)

From S2P Require Import Prelude External World Load Relay Rig Machine.

#[local] Open Scope Z_scope.

(** * Text *)

(** [String::from_utf8_lossy]: how many bytes the next character has, or
    how many an ill-formed sequence has, which is replaced as one. *)
Definition in_range (lo hi : Z) (b : option byte) : bool :=
  match b with
  | Some b => let n := Z.of_N (Byte.to_N b) in Z.leb lo n && Z.leb n hi
  | None => false
  end.
Definition continues : option byte -> bool := in_range 128 191.

Definition next_character (l : Bytes) : bool * nat :=
  let after (ranges : list (Z * Z)) (rest : Bytes) :=
    (fix go (n : nat) (ranges : list (Z * Z)) (rest : Bytes) : bool * nat :=
       match ranges with
       | [] => (true, n)
       | (lo, hi) :: ranges =>
           if in_range lo hi (head rest) then go (S n) ranges (tail rest) else (false, n)
       end) 1%nat ranges rest in
  match l with
  | [] => (true, 0%nat)
  | b :: rest =>
      let n := Z.of_N (Byte.to_N b) in
      if Z.ltb n 128 then (true, 1%nat)
      else if in_range 194 223 (Some b) then after [(128, 191)] rest
      else if Z.eqb n 224 then after [(160, 191); (128, 191)] rest
      else if Z.eqb n 237 then after [(128, 159); (128, 191)] rest
      else if in_range 225 239 (Some b) then after [(128, 191); (128, 191)] rest
      else if Z.eqb n 240 then after [(144, 191); (128, 191); (128, 191)] rest
      else if in_range 241 243 (Some b) then after [(128, 191); (128, 191); (128, 191)] rest
      else if Z.eqb n 244 then after [(128, 143); (128, 191); (128, 191)] rest
      else (false, 1%nat)
  end.

Definition replacement_character : Bytes := [xef; xbf; xbd].

(** Each round reads a byte at least, so [length l] rounds are enough. *)
Fixpoint lossy_rounds (fuel : nat) (l : Bytes) : Bytes :=
  match fuel with
  | O => []
  | S fuel =>
      match l with
      | [] => []
      | _ =>
          let '(whole, n) := next_character l in
          (if whole then take n l else replacement_character) ++ lossy_rounds fuel (drop n l)
      end
  end.
Definition from_utf8_lossy (l : Bytes) : string :=
  String.string_of_list_byte (lossy_rounds (length l) l).

Example lossy_texts :
  from_utf8_lossy [x61; xe2; x82; xac; xff; xe2; x82; x62] =
    String.string_of_list_byte [x61; xe2; x82; xac; xef; xbf; xbd; xef; xbf; xbd; x62] /\
  from_utf8_lossy [xed; xa0; x80] = String.string_of_list_byte
    (replacement_character ++ replacement_character ++ replacement_character).
Proof. by vm_compute. Qed.

(** [str::lines]: a line ends at a newline, with the carriage return
    before it; what follows the last newline is a line if it is any. *)
Definition strip_return (s : string) : string :=
  default s (strip_suffix (String (ascii_of_nat 13) EmptyString) s).
Definition lines (s : string) : list string :=
  let parts := split_on (ascii_of_nat 10) s in
  (strip_return <$> List.removelast parts) ++
  match List.last parts EmptyString with EmptyString => [] | s => [s] end.

(** [str::contains] and [str::trim_start_matches], of a text. *)
Fixpoint contains (pat s : string) : bool :=
  starts_with pat s || match s with EmptyString => false | String _ s => contains pat s end.
Fixpoint strip_all (fuel : nat) (pat s : string) : string :=
  match fuel with
  | O => s
  | S fuel => match strip_prefix pat s with Some s => strip_all fuel pat s | None => s end
  end.
Definition trim_start_matches (pat s : string) : string := strip_all (String.length s) pat s.

Example line_texts :
  lines (String.string_of_list_byte [x61; x0d; x0a; x0a; x62]) = ["a"; ""; "b"]%string /\
  lines (String.string_of_list_byte [x61; x0a]) = ["a"]%string /\ lines "" = [] /\
  contains "bc" "abcd" = true /\ contains "cb" "abcd" = false /\
  trim_start_matches "http://" "http://http://a" = "a"%string.
Proof. by vm_compute. Qed.

Section handles.
Context `{SerdeJson} `{UrlLib} {W : Type} `{Machine W} (fuel : nat).

(** * The dev nodes *)

Definition stop_command (n : Node) : Cmd :=
  mkCmd n.(node_script) ["stop"%string] None [("DEV_NODE_NAME"%string, Some n.(node_id))] None None.
Definition node_command (verb : string) (n : Node) : Cmd :=
  mkCmd n.(node_script) [verb] None
    [("DEV_NODE_NAME", Some n.(node_id)); ("DEV_NODE_PORT", Some (decimal n.(node_port)))]%string None None.

(** [Command::status] or [output] with its [expect]. *)
Definition run_command (c : Cmd) : Script W Output := answer ← ask (RunCommand c); expect answer.

Definition node_stop (n : Node) : Script W unit :=
  status ← run_command (stop_command n);
  assert_ status.(exit_success).

Definition node_start (n : Node) : Script W unit :=
  status ← run_command (node_command "start" n);
  assert_ status.(exit_success).

(** Whatever the script answers. *)
Definition node_drop (n : Node) : Script W unit := _ ← ask (RunCommand (stop_command n)); mret tt.

(** The nodes that are started are in the vector, the one being started
    in a variable of its own. *)
Fixpoint start_nodes (fleet : nat) (root : string) (base_port : Z) (started : list Node) (l : list nat) :
    Script W (list Node) :=
  match l with
  | [] => mret started
  | i :: l =>
      let node := node_at root base_port i in
      slot ← own (ONode node);
      _ ← node_start node;
      _ ← disown slot;
      _ ← reown fleet (OFleet (started ++ [node]));
      start_nodes fleet root base_port (started ++ [node]) l
  end.

(** The fleet's variable, and its nodes. *)
Definition fleet_start (root : string) (count : nat) (base_port : Z) : Script W (nat * list Node) :=
  fleet ← own (OFleet []);
  nodes ← start_nodes fleet root base_port [] (seq 0 count);
  mret (fleet, nodes).

Definition first_node (nodes : list Node) : Script W Node := expect (head nodes).

Definition fleet_chain_id (nodes : list Node) : Script W Z :=
  node ← first_node nodes;
  output ← run_command (node_command "chain-id" node);
  _ ← assert_ output.(exit_success);
  expect (Rig.chain_id (from_utf8_lossy output.(stdout))).

(** * HTTP *)

Definition client_timeout : Z := from_secs 10.
Definition get (url : string) : HttpRequest := mkHttpRequest GET url EmptyString None [] client_timeout.
Definition post_json (url : string) (v : Value) : HttpRequest :=
  mkHttpRequest POST url "application/json" None (to_vec v) client_timeout.
(** [reqwest::get], whose client has no timeout. *)
Definition plain_get (url : string) : Ask (result ClientError HttpResponse) := PlainGet url.

Definition body_json (r : HttpResponse) : option Value :=
  match r.(body_end) with BodyDone => from_slice (concat r.(chunks)) | BodyBroken _ => None end.

(** [send], and [json], each with its [expect]. *)
Definition expect_answer (answer : result ClientError HttpResponse) : Script W HttpResponse :=
  match answer with Ok r => mret r | Err _ => panic end.
Definition send (q : HttpRequest) : Script W HttpResponse := answer ← await (Http q); expect_answer answer.
Definition json (r : HttpResponse) : Script W Value := _ ← await_point; expect (body_json r).

(** [value == true], [value == n]. *)
Definition is_bool (v : Value) (b : bool) : bool := bool_decide (v = Bool b).
Definition is_int (v : Value) (n : Z) : bool := bool_decide (as_i64 v = Some n).

(** * The LB process *)

Definition LB_LOG : string := "/target/rig/lb.log".

Definition lb_command (binary config : string) (reference : option string) : Cmd :=
  mkCmd binary [config] None
    ([("ARKIV_RPC_URL", None); ("ARKIV_API_KEY", None); ("NO_COLOR", Some "1")]%string ++
     match reference with Some url => [("ARKIV_RPC_URL", Some url)]%string | None => [] end)
    None None.

(** The variable of the LB, and its child. *)
Definition lb_spawn (root config : string) (reference : option string) : Script W (nat * Child) :=
  directory ← ask OwnDirectory;
  directory ← expect directory;
  let binary := (directory ++ "/arkiv-lb")%string in
  there ← ask (Exists binary);
  _ ← assert_ there;
  created ← ask (CreateFile (root ++ LB_LOG));
  _ ← assert_ created;
  n ← new_handle;
  let child := LbChild n in
  pid ← ask (SpawnChild child (lb_command binary config reference));
  pid ← expect pid;
  lb ← own (OLb n pid);
  mret (lb, child).

(** The loop of the drop: the process is gone, or killed at the end. *)
Fixpoint reap (fuel : nat) (child : Child) (deadline : Z) : Script W unit :=
  match fuel with
  | O => unfinished
  | S fuel =>
      now ← ask Now;
      if Z.ltb now deadline then
        gone ← ask (TryWait child);
        if (gone : bool) then mret tt
        else _ ← ask (SleepFor (50 * 1000000)); reap fuel child deadline
      else _ ← ask (KillChild child); ask (WaitChild child)
  end.

Definition lb_drop (child : Child) (pid : Z) : Script W unit :=
  _ ← ask (RunCommand (mkCmd "kill" ["-TERM"; decimal pid]%string None [] None None));
  now ← ask Now;
  reap fuel child (now + from_secs 10).

(** A round of the wait for [/health]: whether the LB says it is ready. *)
Definition says_ready : Script W bool :=
  answer ← await (Http (get ("http://" ++ LB_ADMIN ++ "/health")));
  match answer with
  | Err _ => mret false
  | Ok r =>
      _ ← await_point;
      mret (match body_json r with Some body => is_bool (index "ready" body) true | None => false end)
  end.

Fixpoint ready_loop (fuel : nat) (child : Child) (started : Z) : Script W unit :=
  match fuel with
  | O => unfinished
  | S fuel =>
      exited ← ask (TryWait child);
      if (exited : bool) then panic
      else
        ready ← says_ready;
        if (ready : bool) then mret tt
        else
          now ← ask Now;
          _ ← assert_ (Z.ltb (since now started) READY_TIMEOUT);
          _ ← await (SleepFor (500 * 1000000));
          ready_loop fuel child started
  end.
Definition wait_ready (child : Child) : Script W unit :=
  started ← ask Now; ready_loop fuel child started.

(** * The rig's own servers *)

(** The address the listener has, and the task that serves it. *)
Definition bind_relay (listen upstream : string) (lie : option Lie) : Script W (string * nat) :=
  bound ← await (Bind listen);
  addr ← expect bound;
  upstream ← expect (url_parse upstream);
  task ← new_handle;
  _ ← ask (SpawnTask task (RelayServer addr upstream lie));
  mret (("http://" ++ addr)%string, task).

Definition any_port : string := "127.0.0.1:0".

(** [servers.0.push(task)]. *)
Definition push_server (servers task : nat) : Script W unit := fun s =>
  set_held ((fun h => if Nat.eqb h.1 servers
                      then match h.2 with OServers ts => (h.1, OServers (ts ++ [task])) | _ => h end
                      else h) <$> s.(held)) s.

Definition start_relay (servers : nat) (upstream : string) (lie : option Lie) : Script W string :=
  '(url, task) ← bind_relay any_port upstream lie; _ ← push_server servers task; mret url.

(** A relay on its own; [relay_slot] is its variable. *)
Record RelayHandle : Type := mkRelayHandle {
  relay_slot : nat;
  relay_url : string;
  relay_upstream : string;
  relay_task : nat;
}.

Definition relay_start (upstream : string) (lie : option Lie) : Script W RelayHandle :=
  '(url, task) ← bind_relay any_port upstream lie;
  slot ← own (ORelay task);
  mret (mkRelayHandle slot url upstream task).

(** Nothing to do for a task that is finished. *)
Definition relay_stop (r : RelayHandle) : Script W unit :=
  finished ← ask (TaskFinished r.(relay_task));
  if (finished : bool) then mret tt
  else _ ← ask (AbortTask r.(relay_task)); await (WaitTask r.(relay_task)).

Definition relay_restart (r : RelayHandle) (lie : option Lie) : Script W RelayHandle :=
  _ ← relay_stop r;
  '(url, task) ← bind_relay (trim_start_matches "http://" r.(relay_url)) r.(relay_upstream) lie;
  _ ← assert_ (bool_decide (url = r.(relay_url)));
  _ ← reown r.(relay_slot) (ORelay task);
  mret (mkRelayHandle r.(relay_slot) r.(relay_url) r.(relay_upstream) task).

Definition task_drop (task : nat) : Script W unit := ask (AbortTask task).

(** * The writer sidecar *)

Definition DEV_KEY : string := "0xac0974bec39a17e36ba4a6b4d238ff944bacb478cbed5efcae784d7bf4f2ff80".

Fixpoint identity_loop (fuel : nat) (child : Child) (url : string) (started : Z) : Script W unit :=
  match fuel with
  | O => unfinished
  | S fuel =>
      exited ← ask (TryWait child);
      if (exited : bool) then panic
      else
        answer ← await (plain_get url);
        if match answer with Ok r => is_success r.(status) | Err _ => false end then mret tt
        else
          now ← ask Now;
          _ ← assert_ (Z.ltb (since now started) (from_secs 30));
          _ ← await (SleepFor (200 * 1000000));
          identity_loop fuel child url started
  end.

Definition writer_command (root key_file rpc_url : string) (port : Z) : Cmd :=
  mkCmd "node" ["src/service.ts"%string] (Some (root ++ "/writer")%string)
    [("WRITER_PRIVATE_KEY_FILE", Some key_file); ("ARKIV_RPC_URL", Some rpc_url);
     ("ARKIV_API_KEY", Some EmptyString); ("WRITER_PORT", Some (decimal port))]%string
    None (Some (root ++ "/target/rig/writer.log")%string).

(** The sidecar's variable, and its URL. *)
Definition writer_start (root rpc_url : string) (port : Z) : Script W (nat * string) :=
  let dir := (root ++ "/target/rig")%string in
  made ← ask (CreateDirAll dir);
  _ ← assert_ made;
  let key_file := (dir ++ "/writer.key")%string in
  written ← ask (WriteFile key_file (b DEV_KEY));
  _ ← assert_ written;
  created ← ask (CreateFile (dir ++ "/writer.log"));
  _ ← assert_ created;
  n ← new_handle;
  let child := WriterChild n in
  pid ← ask (SpawnChild child (writer_command root key_file rpc_url port));
  _ ← expect pid;
  writer ← own (OWriter n key_file);
  let url := ("http://127.0.0.1:" ++ decimal port ++ "/")%string in
  started ← ask Now;
  _ ← identity_loop fuel child (url ++ "identity") started;
  mret (writer, url).

Definition writer_address (url : string) : Script W string :=
  answer ← await (plain_get (url ++ "identity"));
  r ← expect_answer answer;
  identity ← json r;
  expect (as_str (index "address" identity)).

Definition writer_drop (child : Child) (key_file : string) : Script W unit :=
  _ ← ask (KillChild child);
  _ ← ask (WaitChild child);
  ask (RemoveFile key_file).

(** * Drops *)

Fixpoint drop_each {A} (drop : A -> Script W unit) (l : list A) : Script W unit :=
  match l with [] => mret tt | x :: l => _ ← drop x; drop_each drop l end.

Definition drop_owned (o : Owned) : Script W unit :=
  match o with
  | ONode n => node_drop n
  | OFleet ns => drop_each node_drop ns
  | OLb child pid => lb_drop (LbChild child) pid
  | OServers ts => drop_each task_drop ts
  | ORelay t => task_drop t
  | OWriter child key_file => writer_drop (WriterChild child) key_file
  end.

(** [drop(x)]. *)
Definition drop_slot (slot : nat) : Script W unit :=
  o ← owned_at slot;
  _ ← disown slot;
  match o with Some o => drop_owned o | None => mret tt end.

(** The end of a scope: what is still held is dropped, the last variable
    first. *)
Fixpoint unwind_all (l : list (nat * Owned)) : Script W unit :=
  match l with
  | [] => mret tt
  | (_, o) :: l => _ ← set_held l; _ ← drop_owned o; unwind_all l
  end.

(** However [m] ends, its variables are dropped. *)
Definition scope {A} (m : Script W A) : Script W A := fun s =>
  let '(ending, s) := m s in
  match ending with
  | Unfinished => (Unfinished, s)
  | Hung => (Hung, s)
  | _ =>
      match unwind_all s.(held) s with
      | (Ended _, s) => (ending, s)
      | (Hung, s) => (Hung, s)
      | (_, s) => (Unfinished, s)
      end
  end.
End handles.
