(* ===== verification/Scripts.v ===== *)
(** The scenarios of the test rig, [crates/rig/src/main.rs], and the
    provider tooling one of them runs, [provider.rs]: what each starts,
    asks and asserts, in its order. What a scenario prints is left out. *)

From S2P Require Import Prelude External World Records Load Relay Rig Machine Handles.

#[local] Open Scope Z_scope.

(** [String::to_lowercase]; on ASCII text it changes the letters only.
    The tables of Unicode are not modelled. *)
Class Lowercase := {
  to_lowercase : string -> string;
  lowercase_ascii : forall s,
    forallb (fun c => Nat.ltb (nat_of_ascii c) 128) (String.list_ascii_of_string s) = true ->
    to_lowercase s = String.string_of_list_byte (to_ascii_lowercase <$> b s);
}.

Section scripts.
Context `{SerdeJson} `{UrlLib} `{Lowercase} {W : Type} `{Machine W} (fuel : nat).

(** * Steps the scenarios share *)

Definition workspace_root : Script W string := root ← ask WorkspaceRoot; expect root.

Definition fetch_nodes : Script W Value :=
  r ← send (get ("http://" ++ LB_ADMIN ++ "/nodes")); json r.

(** The loop of [wait_nodes]; the condition may panic itself. *)
Fixpoint wait_loop (fuel : nat) (started timeout : Z) (condition : Value -> option bool) : Script W unit :=
  match fuel with
  | O => unfinished
  | S fuel =>
      nodes ← fetch_nodes;
      holds ← expect (condition nodes);
      if (holds : bool) then mret tt
      else
        now ← ask Now;
        _ ← assert_ (Z.ltb (since now started) timeout);
        _ ← await (SleepFor (200 * 1000000));
        wait_loop fuel started timeout condition
  end.
Definition wait_nodes (timeout : Z) (condition : Value -> option bool) : Script W unit :=
  started ← ask Now; wait_loop fuel started timeout condition.

Definition scenario_dir (root : string) : string := (root ++ "/target/rig")%string.

Definition write_config (root text : string) : Script W string :=
  made ← ask (CreateDirAll (scenario_dir root));
  _ ← assert_ made;
  let path := (scenario_dir root ++ "/config.toml")%string in
  written ← ask (WriteFile path (b text));
  _ ← assert_ written;
  mret path.

Definition served_of (fleet : list Node) : Script W (list Z) :=
  nodes ← fetch_nodes; expect (served_counts fleet nodes).
(** [iter().sum::<u64>()]. *)
Definition sum_u64 (l : list Z) : Z := foldl add_u64 0 l.

(** A run of the load generator over the public endpoint. *)
Definition load_target_url : string := ("http://" ++ LB_PUBLIC)%string.
Definition start_load (seconds : Z) : Script W nat :=
  load ← new_handle;
  _ ← ask (StartLoad load load_target_url Cheap 4 (from_secs seconds));
  mret load.
Definition join_load (load : nat) : Script W LoadStats :=
  outcomes ← await (JoinLoad load);
  total ← expect (run_load (Arrived <$> outcomes));
  mret total.1.
Definition report_load (st : LoadStats) (started : Z) : Script W unit :=
  now ← ask Now; _ ← expect (report st (since now started)); mret tt.

Definition rpc (id : Z) (method : string) : Value :=
  Object [("jsonrpc", Str "2.0"); ("id", from_u64 id); ("method", Str method); ("params", Array [])]%string.

(** Whether the row of [id] has [field] as given. *)
Definition row_is (id field : string) (v : Value) (nodes : Value) : option bool :=
  row ← provider nodes id; Some (bool_decide (index field row = v)).

(** Asserts of a row, one after another. *)
Definition assert_row (nodes : Value) (id field : string) (v : Value) : Script W unit :=
  holds ← expect (row_is id field v nodes); assert_ holds.

(** * The stack *)

(** The variables of the LB and the fleet, the child and the nodes. *)
Record Stack : Type := mkStack { stack_lb : nat; stack_fleet : nat; stack_nodes : list Node }.

Definition start_stack : Script W Stack :=
  root ← workspace_root;
  '(fleet, nodes) ← fleet_start root NODES BASE_PORT;
  chain_id ← fleet_chain_id nodes;
  config ← write_config root (render_config nodes chain_id);
  '(lb, child) ← lb_spawn root config None;
  _ ← wait_ready fuel child;
  mret (mkStack lb fleet nodes).

(** The fields are dropped in their order. *)
Definition drop_stack (s : Stack) : Script W unit :=
  _ ← drop_slot fuel s.(stack_lb); drop_slot fuel s.(stack_fleet).

(** * The scenarios *)

Definition boot : Script W unit := stack ← start_stack; drop_stack stack.

Definition eligible_is (id : string) (v : bool) : Value -> option bool := row_is id "eligible" (Bool v).

Definition kill_recover : Script W unit :=
  stack ← start_stack;
  victim ← first_node stack.(stack_nodes);
  load_started ← ask Now;
  load ← start_load 15;
  _ ← await (SleepFor (from_secs 2));
  _ ← node_stop victim;
  _ ← wait_nodes (from_secs 30) (eligible_is victim.(node_id) false);
  stats ← join_load load;
  _ ← report_load stats load_started;
  _ ← assert_ (Z.eqb stats.(load_failed) 0);
  _ ← assert_ (Z.ltb 0 stats.(load_sent));
  _ ← node_start victim;
  _ ← wait_nodes (from_secs 120) (eligible_is victim.(node_id) true);
  drop_stack stack.

Definition distribution : Script W unit :=
  stack ← start_stack;
  started ← ask Now;
  load ← start_load 5;
  stats ← join_load load;
  _ ← report_load stats started;
  _ ← assert_ (Z.eqb stats.(load_failed) 0);
  served ← served_of stack.(stack_nodes);
  _ ← assert_ (Z.eqb (sum_u64 served) stats.(load_ok));
  match served with
  | [] => panic
  | first :: rest =>
      let least := foldl Z.min first rest in
      let most := foldl Z.max first rest in
      _ ← assert_ (Z.ltb 0 least);
      _ ← assert_ (Z.leb most (2 * least mod (u64_max + 1)));
      drop_stack stack
  end.

Definition denied_request : Value := rpc 7 "admin_peers".
Definition allowed_request : Value := rpc 8 "eth_blockNumber".

Definition denylist : Script W unit :=
  stack ← start_stack;
  response ← send (post_json load_target_url denied_request);
  _ ← assert_ (Z.eqb response.(status) 200);
  body ← json response;
  _ ← assert_ (is_int (index "code" (index "error" body)) (-32050));
  _ ← assert_ (is_int (index "id" body) 7);
  response ← send (post_json load_target_url allowed_request);
  body ← json response;
  _ ← assert_ (bool_decide (is_Some (value_get "result" body)));
  served ← served_of stack.(stack_nodes);
  _ ← assert_ (Z.eqb (sum_u64 served) 1);
  drop_stack stack.

Definition forward_to_node : Script W unit :=
  stack ← start_stack;
  victim ← first_node stack.(stack_nodes);
  let node_url := ("http://" ++ LB_ADMIN ++ "/node/" ++ victim.(node_id))%string in
  let ask_node := send (post_json node_url (rpc 9 "eth_blockNumber")) in
  _ ← node_stop victim;
  _ ← wait_nodes (from_secs 30) (eligible_is victim.(node_id) false);
  response ← ask_node;
  _ ← assert_ (Z.eqb response.(status) 502);
  _ ← node_start victim;
  response ← ask_node;
  _ ← assert_ (Z.eqb response.(status) 200);
  body ← json response;
  _ ← assert_ (bool_decide (is_Some (value_get "result" body)));
  _ ← assert_ (is_int (index "id" body) 9);
  nodes ← fetch_nodes;
  _ ← assert_row nodes victim.(node_id) "eligible" (Bool false);
  served ← served_of stack.(stack_nodes);
  _ ← assert_ (Z.eqb (sum_u64 served) 0);
  drop_stack stack.

(** ** Over one chain behind relays *)

Definition confirm_section : string :=
  (line "[integrity]" ++
   line "# Blocks are 250 ms on the dev node, so the lag tolerance of 30" ++
   line "# blocks is ~7 s: a 2 s confirm stays well inside it." ++
   line ("interval = " ++ quoted_text "5s") ++ line ("confirm_after = " ++ quoted_text "2s"))%string.
Definition integrity_section : string :=
  (line "[integrity]" ++ line ("interval = " ++ quoted_text "5s") ++
   line ("confirm_after = " ++ quoted_text "2s"))%string.
Definition every_round : string := line ("ref_height_interval = " ++ quoted_text "0s").

(** One node, its sidecar: the variables, the node's URL and the
    sidecar's. *)
Record Chain1 : Type := mkChain1 {
  chain1_root : string;
  chain1_fleet : nat;
  chain1_id : Z;
  chain1_node : string;
  chain1_writer : nat;
  chain1_writer_url : string;
}.
Definition one_chain : Script W Chain1 :=
  root ← workspace_root;
  '(fleet, nodes) ← fleet_start root 1 BASE_PORT;
  chain_id ← fleet_chain_id nodes;
  node ← first_node nodes;
  '(writer, writer_url) ← writer_start fuel root node.(node_url) WRITER_PORT;
  mret (mkChain1 root fleet chain_id node.(node_url) writer writer_url).

(** The honest two, among the scenario's servers. *)
Definition honest_pair (relays : nat) (node : string) : Script W (list (string * string)) :=
  first ← start_relay relays node None;
  second ← start_relay relays node None;
  mret [("honest-0", first); ("honest-1", second)]%string.

(** The LB over the marketplace configuration, ready: its variable. *)
Definition spawn_marketplace (c : Chain1) (providers : list (string * string))
    (health marketplace rest reference : string) : Script W nat :=
  config ← write_config c.(chain1_root)
    (render_marketplace_config providers c.(chain1_id) c.(chain1_writer_url) health marketplace rest);
  '(lb, child) ← lb_spawn c.(chain1_root) config (Some reference);
  _ ← wait_ready fuel child;
  mret lb.

Fixpoint for_each_script {A} (f : A -> Script W unit) (l : list A) : Script W unit :=
  match l with [] => mret tt | x :: l => _ ← f x; for_each_script f l end.

Definition honest_ids : list string := ["honest-0"; "honest-1"]%string.

Definition read_lb_log (root : string) : Script W string :=
  log ← ask (ReadFile (root ++ LB_LOG)); expect log.

Definition drop_chain (c : Chain1) : Script W unit :=
  _ ← drop_slot fuel c.(chain1_writer); drop_slot fuel c.(chain1_fleet).

Definition liar (lie : Lie) (check : string) : Script W unit :=
  c ← one_chain;
  relays ← own (OServers []);
  honest ← honest_pair relays c.(chain1_node);
  liar ← start_relay relays c.(chain1_node) (Some lie);
  lb ← spawn_marketplace c (honest ++ [("liar"%string, liar)]) EmptyString EmptyString
         confirm_section c.(chain1_node);
  _ ← wait_nodes (from_secs 90) (row_is "liar" "integrity_verdict" (Str "divergence"));
  nodes ← fetch_nodes;
  _ ← assert_row nodes "liar" "eligible" (Bool false);
  _ ← assert_row nodes "liar" "ineligibility_reason" (Str "integrity");
  _ ← for_each_script (fun id =>
        _ ← assert_row nodes id "integrity_verdict" (Str "match");
        assert_row nodes id "eligible" (Bool true)) honest_ids;
  log ← read_lb_log c.(chain1_root);
  _ ← assert_ (existsb (fun l => contains "divergence confirmed" l && contains "provider=liar" l &&
                  contains ("check=" ++ quoted_text check) l) (lines log));
  before ← expect (provider nodes "liar");
  load ← start_load 3;
  stats ← join_load load;
  _ ← assert_ (Z.eqb stats.(load_failed) 0);
  _ ← assert_ (Z.ltb 0 stats.(load_ok));
  nodes ← fetch_nodes;
  _ ← assert_row nodes "liar" "served_total" (index "served_total" before);
  _ ← drop_slot fuel lb;
  _ ← drop_slot fuel relays;
  drop_chain c.

Definition frozen_head : Script W unit :=
  c ← one_chain;
  relays ← own (OServers []);
  stuck ← relay_start c.(chain1_node) None;
  honest ← honest_pair relays c.(chain1_node);
  lb ← spawn_marketplace c (honest ++ [("stuck"%string, stuck.(relay_url))]) every_round EmptyString
         integrity_section c.(chain1_node);
  nodes ← fetch_nodes;
  _ ← assert_row nodes "stuck" "eligible" (Bool true);
  stuck ← relay_restart stuck (Some FrozenHeadLie);
  _ ← wait_nodes (from_secs 90) (row_is "stuck" "ineligibility_reason" (Str "lag"));
  nodes ← fetch_nodes;
  lying ← expect (row_is "stuck" "integrity_verdict" (Str "divergence") nodes);
  _ ← assert_ (negb lying);
  _ ← for_each_script (fun id => assert_row nodes id "eligible" (Bool true)) honest_ids;
  stuck ← relay_restart stuck None;
  _ ← wait_nodes (from_secs 90) (row_is "stuck" "eligible" (Bool true));
  nodes ← fetch_nodes;
  lying ← expect (row_is "stuck" "integrity_verdict" (Str "divergence") nodes);
  _ ← assert_ (negb lying);
  _ ← drop_slot fuel lb;
  _ ← drop_slot fuel stuck.(relay_slot);
  _ ← drop_slot fuel relays;
  drop_chain c.

(** [all]: stops at the first that does not hold. *)
Fixpoint all_match (ids : list string) (nodes : Value) : option bool :=
  match ids with
  | [] => Some true
  | id :: ids =>
      holds ← row_is id "integrity_verdict" (Str "match") nodes;
      if (holds : bool) then all_match ids nodes else Some false
  end.
Definition judged_at (nodes : Value) : option (option Z) :=
  row ← provider nodes "honest-0"; Some (as_u64 (index "integrity_height" row)).
(** [Option<u64>]'s order: [None] is below every height. *)
Definition later_height (x y : option Z) : bool :=
  match x, y with
  | Some x, Some y => Z.ltb y x
  | Some _, None => true
  | None, _ => false
  end.

Definition reference_down : Script W unit :=
  c ← one_chain;
  relays ← own (OServers []);
  honest ← honest_pair relays c.(chain1_node);
  reference ← relay_start c.(chain1_node) None;
  lb ← spawn_marketplace c honest every_round EmptyString integrity_section reference.(relay_url);
  _ ← wait_nodes (from_secs 60) (all_match honest_ids);
  nodes ← fetch_nodes;
  before ← expect (judged_at nodes);
  _ ← relay_stop reference;
  _ ← await (SleepFor (from_secs 15));
  nodes ← fetch_nodes;
  _ ← for_each_script (fun id =>
        _ ← assert_row nodes id "eligible" (Bool true);
        assert_row nodes id "integrity_verdict" (Str "match")) honest_ids;
  still ← expect (judged_at nodes);
  _ ← assert_ (bool_decide (still = before));
  log ← read_lb_log c.(chain1_root);
  _ ← assert_ (contains "the reference could not be read, nobody is judged" log);
  reference ← relay_restart reference None;
  _ ← wait_nodes (from_secs 60) (fun nodes => height ← judged_at nodes; Some (later_height height before));
  nodes ← fetch_nodes;
  _ ← for_each_script (fun id => assert_row nodes id "integrity_verdict" (Str "match")) honest_ids;
  _ ← drop_slot fuel lb;
  _ ← drop_slot fuel reference.(relay_slot);
  _ ← drop_slot fuel relays;
  drop_chain c.

(** * The provider tooling *)

Definition PROVIDER_KEY : string := "0x59c6995e998f97a5a0044966f0945389dc9e86dae88c7a8412f4603b6b78690d".
Definition PASSWORD : string := "rig-provider".
Definition KEY_SCRIPT : string :=
  "import { Wallet } from 'ethers'; const [key, password] = process.argv.slice(1); process.stdout.write(await new Wallet(key).encrypt(password))".

Record Tooling : Type := mkTooling {
  tool_dir : string;
  keystore : string;
  tunnel_env : string;
  tool_rpc_url : string;
  tool_beacon_url : string;
  tool_lb_address : string;
}.

Definition prepare (root rpc_url beacon_url lb_address : string) : Script W Tooling :=
  checkout ← ask (EnvVar "RIG_NODE_DIR");
  let dir := (default (root ++ "/../node")%string checkout ++ "/marketplace")%string in
  there ← ask (Exists (dir ++ "/node_modules"));
  _ ← assert_ there;
  let work := scenario_dir root in
  made ← ask (CreateDirAll work);
  _ ← assert_ made;
  let keystore := (work ++ "/provider-key.json")%string in
  let tunnel_env := (work ++ "/tunnel.env")%string in
  _ ← ask (RemoveFile tunnel_env);
  output ← run_command (mkCmd "node" ["--input-type=module"; "-e"; KEY_SCRIPT; PROVIDER_KEY; PASSWORD]%string
                          (Some dir) [] None None);
  _ ← assert_ output.(exit_success);
  written ← ask (WriteFile keystore output.(stdout));
  _ ← assert_ written;
  mret (mkTooling dir keystore tunnel_env rpc_url beacon_url lb_address).

(** One command, its password in its standard input. *)
Definition run_tool (t : Tooling) (command : string) : Script W Output :=
  run_command (mkCmd "node" ["src/cli.ts"%string; command] (Some t.(tool_dir))
    [("NODE_RPC_URL", Some t.(tool_rpc_url)); ("NODE_BEACON_URL", Some t.(tool_beacon_url));
     ("MARKETPLACE_KEYSTORE", Some t.(keystore)); ("MARKETPLACE_TUNNEL_ENV", Some t.(tunnel_env));
     ("LB_ADDRESS", Some t.(tool_lb_address)); ("SETTLE_ADDRESS", Some t.(tool_lb_address))]%string
    (Some (line PASSWORD)) None).

Definition output_text (o : Output) : string :=
  (from_utf8_lossy o.(stdout) ++ from_utf8_lossy o.(stderr))%string.

(** A command that must succeed; what it printed. *)
Definition run_tool_ok (t : Tooling) (command : string) : Script W string :=
  output ← run_tool t command; _ ← assert_ output.(exit_success); mret (output_text output).

Definition read_settings (t : Tooling) : Script W (gmap string string) :=
  text ← ask (ReadFile t.(tunnel_env)); text ← expect text; mret (tunnel_settings (lines text)).

(** [serve_beacon]: what its two paths answer. *)
Definition beacon_answer (path : string) : option Value :=
  match path with
  | "/eth/v1/node/version" => Some (Object [("data", Object [("version", Str "rig-beacon/v0")])])
  | "/eth/v1/node/syncing" =>
      Some (Object [("data", Object [("is_syncing", Bool false); ("is_optimistic", Bool false);
                                     ("el_offline", Bool false); ("head_slot", Str "0");
                                     ("sync_distance", Str "0")])])
  | _ => None
  end%string.

(** * An offer accepted *)

Definition accepted_in (nodes : Value) : option bool :=
  Some (match nodes with
        | Array rows => existsb (fun row => is_text (index "id" row) PROVIDER_ADDRESS) rows
        | _ => false
        end).

(** [url.trim_end_matches('/').rsplit(':').next()]. *)
Fixpoint strip_slashes (fuel : nat) (s : string) : string :=
  match fuel with
  | O => s
  | S fuel => match strip_suffix "/" s with Some s => strip_slashes fuel s | None => s end
  end.
Definition port_text (url : string) : string :=
  List.last (split_on ":" (strip_slashes (String.length url) url)) EmptyString.

Definition eq_ignore_ascii_case (x y : string) : bool :=
  bool_decide (to_ascii_lowercase <$> b x = to_ascii_lowercase <$> b y).

(** The loop that waits until the tooling reads the counter record. *)
Fixpoint status_loop (fuel : nat) (t : Tooling) (started : Z) : Script W Value :=
  match fuel with
  | O => unfinished
  | S fuel =>
      printed ← run_tool_ok t "status";
      facts ← expect (from_slice (b (List.last (lines (trim printed)) EmptyString)));
      if is_int (index "count" facts) 0 then mret facts
      else
        now ← ask Now;
        _ ← assert_ (Z.ltb (since now started) (from_secs 15));
        _ ← await (SleepFor (from_secs 1));
        status_loop fuel t started
  end.

Definition facts_agree (facts : Value) (agreement port : string) : bool :=
  match as_str (index "agreement_key" facts) with
  | Some key => eq_ignore_ascii_case key agreement
  | None => false
  end &&
  match as_u64 (index "agreement_port" facts) with
  | Some p => bool_decide (decimal p = port)
  | None => false
  end.

(** The callback posted in the tunnel server's place; the LB's answer. *)
Definition post_admission (op : string) (content : Value) : Script W Value :=
  r ← send (post_json ("http://" ++ LB_ADMIN ++ "/admission?op=" ++ op ++ "&version=0.1.0")
              (admission op content));
  json r.

Definition assert_refused (answer : Value) (reason : string) : Script W unit :=
  _ ← assert_ (is_bool (index "reject" answer) true);
  assert_ (match as_str (index "reject_reason" answer) with
           | Some text => contains reason text
           | None => false
           end).

Definition bind_beacon : Script W (nat * string) :=
  bound ← await (Bind any_port);
  addr ← expect bound;
  task ← new_handle;
  _ ← ask (SpawnTask task (BeaconServer addr));
  beacon ← own (OServers [task]);
  mret (beacon, ("http://" ++ addr)%string).

(** The tooling reads the agreement and signs; its settings. *)
Definition sign_tunnel (tooling : Tooling) (agreement port : string) : Script W string :=
  started ← ask Now;
  facts ← status_loop fuel tooling started;
  _ ← assert_ (facts_agree facts agreement port);
  _ ← run_tool_ok tooling "start-tunnel";
  settings ← read_settings tooling;
  named ← expect (settings !! "TUNNEL_AGREEMENT"%string);
  _ ← assert_ (bool_decide (to_lowercase named = agreement));
  remote ← expect (settings !! "TUNNEL_REMOTE_PORT"%string);
  _ ← assert_ (bool_decide (remote = port));
  expect (settings !! "TUNNEL_TOKEN"%string).

(** The callbacks: the token is admitted, another signer's is not, nor
    the same for another port. *)
Definition try_token (agreement token : string) (port : Z) : Script W unit :=
  login ← post_admission "Login" (login_body agreement token);
  _ ← assert_ (bool_decide (login = Object [("unchange", Bool true)]%string));
  proxy ← post_admission "NewProxy" (new_proxy_body agreement token port);
  _ ← assert_ (bool_decide (proxy = Object [("unchange", Bool true)]%string));
  wrong ← expect (flip_recovery token);
  refused ← post_admission "NewProxy" (new_proxy_body agreement wrong port);
  _ ← assert_refused refused "not made by the agreement's provider";
  refused ← post_admission "NewProxy"
              (new_proxy_body agreement token ((port + 1) mod (u16_max + 1)));
  assert_refused refused "requested, agreement assigns".

Definition offer_accepted : Script W unit :=
  c ← one_chain;
  lb_address ← writer_address c.(chain1_writer_url);
  lb ← spawn_marketplace c [] EmptyString (line ("discovery_interval = " ++ quoted_text "2s"))
         EmptyString c.(chain1_node);
  '(beacon, beacon_url) ← bind_beacon;
  tooling ← prepare c.(chain1_root) c.(chain1_node) beacon_url lb_address;
  printed ← run_tool_ok tooling "post-offer";
  _ ← assert_ (contains "Posted: offer" printed);
  _ ← wait_nodes (from_secs 60) accepted_in;
  nodes ← fetch_nodes;
  accepted ← expect (provider nodes PROVIDER_ADDRESS);
  _ ← assert_ (is_text (index "source" accepted) "marketplace");
  agreement ← expect (as_str (index "agreement_id" accepted));
  let agreement := to_lowercase agreement in
  url ← expect (as_str (index "url" accepted));
  let port := port_text url in
  token ← sign_tunnel tooling agreement port;
  port ← expect (from_str_radix u16_max 10 port);
  _ ← try_token agreement token port;
  _ ← drop_slot fuel lb;
  _ ← drop_slot fuel beacon;
  drop_chain c.

(** * A run *)

Definition run_scenario (s : Scenario) : Script W unit :=
  match s with
  | Boot => boot
  | Distribution => distribution
  | DenylistScenario => denylist
  | ForwardToNode => forward_to_node
  | KillRecover => kill_recover
  | Liar lie check => liar lie check
  | FrozenHead => frozen_head
  | ReferenceDown => reference_down
  | OfferAccepted => offer_accepted
  end.

(** [all]: each in its turn, on what its own scope leaves. *)
Fixpoint run_each (l : list (string + Scenario)) : Script W unit :=
  match l with
  | [] => mret tt
  | inl _ :: l => run_each l
  | inr s :: l => _ ← scope fuel (run_scenario s); run_each l
  end.
Definition run_all : Script W unit := run_each all.

(** [cancel_on_ctrl_c], over [all] or one scenario; the exit code, where
    a panic's is the runtime's. *)
Definition rig_run (i : Script W unit) : Host W -> option Z * Host W := fun s =>
  let '(ending, s) := scope fuel i s in
  (match ending with
   | Ended _ => Some 0
   | Panicked => Some 101
   | Cancelled => Some 130
   | Hung | Unfinished => None
   end, s).
End scripts.
