(* ===== verification/Teardown.v ===== *)
(** However a scenario of the test rig ends - it passes, an assertion or
    an [expect] panics, Ctrl-C cancels it at an await - what its calls
    started is let go of, and in an order no part of the stack notices:
    the LB before the sidecar and the providers it talks to, the chain
    last. What is to hold of the calls' acts, and a logic of scripts that
    shows it. *)

From S2P Require Import Prelude External World Records Load Relay Rig Machine Handles Scripts.

#[local] Open Scope Z_scope.

(** * What is to hold of the acts *)

Definition is_process (x : Thing) : bool := match x with Process _ => true | _ => false end.

(** A container outlives what uses a node, the sidecar the LB. *)
Definition must_outlive (x y : Thing) : bool :=
  match x, y with
  | Container _, (Process _ | Task _) => true
  | Process (WriterChild _), Process (LbChild _) => true
  | _, _ => false
  end.

(** It does not run, or it has been told to go and only a process is
    waited for. *)
Definition let_go (acts : list Act) (x : Thing) : Prop :=
  x ∉ running acts \/ (is_process x = false /\ x ∈ told acts).

(** The last time a thing is told to go, what it must outlive is let go. *)
Definition torn_in_order (acts : list Act) : Prop :=
  forall pre x post, acts = pre ++ Told x :: post -> Told x ∉ post ->
    forall y, must_outlive x y = true -> let_go pre y.

(** A call that stops a container, and that says it did not. *)
Definition stop_failed (node : string) (c : Call) : Prop :=
  Told (Container node) ∈ call_effect c /\ Gone (Container node) ∉ call_effect c.

(** ** What is still to be let go of *)

(** A container that is told to go while something that uses it is up is
    to be told once more. *)
Definition pend_act (l : list Thing) (a : Act) : list Thing :=
  match a with
  | Up x => x :: l
  | Told x =>
      if is_process x then l
      else if forallb (fun y => negb (must_outlive x y)) l then without x l else x :: l
  | Gone x => match x with Container _ => l | _ => without x l end
  end.
Definition pending (acts : list Act) : list Thing := foldl pend_act [] acts.

Definition killed_in_order (acts : list Act) : Prop :=
  forall pre x post, acts = pre ++ Told x :: post -> is_process x = true ->
    forall y, must_outlive x y = true -> y ∉ pending pre.

Lemma elem_of_without x y l : y ∈ without x l <-> y ∈ l /\ y <> x.
Proof.
  unfold without. rewrite !list_elem_of_In, filter_In, negb_true_iff, bool_decide_eq_false. done.
Qed.

Lemma running_snoc acts a : running (acts ++ [a]) = run_act (running acts) a.
Proof. unfold running. apply foldl_snoc. Qed.
Lemma told_snoc acts a : told (acts ++ [a]) = tell_act (told acts) a.
Proof. unfold told. apply foldl_snoc. Qed.
Lemma pending_snoc acts a : pending (acts ++ [a]) = pend_act (pending acts) a.
Proof. unfold pending. apply foldl_snoc. Qed.

Lemma no_outlive x l : forallb (fun y => negb (must_outlive x y)) l = true <->
  forall y, y ∈ l -> must_outlive x y = false.
Proof.
  rewrite forallb_forall. split; intros Hl y Hy; [apply negb_true_iff, Hl | apply negb_true_iff, Hl];
    by apply list_elem_of_In.
Qed.

(** What is not pending is let go. *)
Lemma let_go_pending acts x : x ∉ pending acts -> let_go acts x.
Proof.
  intros Hx. enough (x ∈ running acts -> x ∈ pending acts \/ (is_process x = false /\ x ∈ told acts)) as Hr.
  { destruct (decide (x ∈ running acts)) as [Hin|]; [|by left]. right. by destruct (Hr Hin). }
  clear Hx. induction acts as [|a acts IH] using rev_ind; [by intros ?%elem_of_nil|].
  rewrite running_snoc, pending_snoc, told_snoc. destruct a as [y|y|y]; cbn.
  - rewrite !elem_of_cons, elem_of_without. destruct (decide (x = y)); naive_solver.
  - intros Hin%IH. rewrite elem_of_cons. destruct (is_process y) eqn:Ey; [naive_solver|].
    destruct (decide (x = y)) as [->|]; [naive_solver|].
    destruct (forallb _ _); rewrite ?elem_of_without, ?elem_of_cons; naive_solver.
  - intros [Hin%IH Hne]%elem_of_without. destruct y; rewrite ?elem_of_without; naive_solver.
Qed.

(** What is pending stays so until it is told again, if a container. *)
Lemma pending_stays node l acts : Container node ∈ l -> Told (Container node) ∉ acts ->
  Container node ∈ foldl pend_act l acts.
Proof.
  revert l. induction acts as [|a acts IH]; intros l Hl Ht; cbn; [done|].
  apply IH; [|by intros ?; apply Ht; right]. destruct a as [y|y|y]; cbn.
  - by right.
  - assert (y <> Container node) by (intros ->; apply Ht; by left).
    destruct (is_process y); [done|]. destruct (forallb _ _); [by apply elem_of_without | by right].
  - destruct y; [done|by apply elem_of_without..].
Qed.

Lemma torn_pending acts : killed_in_order acts -> (forall x, x ∉ pending acts) -> torn_in_order acts.
Proof.
  intros Hk Hp pre x post -> Ht y Hy. apply let_go_pending.
  destruct x as [node|child|task]; [|by apply (Hk pre (Process child) post)|done].
  intros Hin. apply (Hp (Container node)). unfold pending. rewrite foldl_app. cbn [foldl].
  apply pending_stays; [|done]. cbn [pend_act is_process].
  destruct (forallb _ _) eqn:E; [|by left]. by rewrite (proj1 (no_outlive _ _) E y Hin) in Hy.
Qed.

(** ** A container that runs on *)

Lemma run_folds x l e :
  (x ∈ foldl run_act l e -> Up x ∉ e -> x ∈ l) /\ (Gone x ∈ e -> Up x ∉ e -> x ∉ foldl run_act l e).
Proof.
  revert l. induction e as [|a e IH]; intros l; cbn; [split; [done | by intros ?%elem_of_nil]|].
  rewrite !elem_of_cons. destruct (IH (run_act l a)) as [IH1 IH2]. split.
  - intros Hx Hn. assert (x ∈ run_act l a) as Hr by tauto. destruct a as [y|y|y]; cbn in Hr; [|done|].
    + apply elem_of_cons in Hr as [->|?]; [by destruct Hn; left|done].
    + by apply elem_of_without in Hr as [? _].
  - intros [<-|Hg] Hn Hx; [|tauto]. cbn in IH1, Hx.
    assert (x ∈ without x l) as [_ ?]%elem_of_without by tauto. done.
Qed.

Lemma tell_folds x l e : x ∈ foldl tell_act l e -> Told x ∉ e -> x ∈ l /\ Up x ∉ e.
Proof.
  revert l. induction e as [|a e IH]; intros l; cbn; [intros Hx _; split; [done | apply not_elem_of_nil]|].
  rewrite !elem_of_cons. intros Hx Hn. destruct (IH (tell_act l a)) as [Ht Hu]; [done|tauto|].
  destruct a as [y|y|y]; cbn in Ht.
  - apply elem_of_without in Ht as [? ?]. split; [done|]. intros [[= ->]|?]; done.
  - apply elem_of_cons in Ht as [->|?]; [by destruct Hn; left|]. split; [done|]. by intros [?|?].
  - split; [done|]. by intros [?|?].
Qed.

(** No call brings up what it sees gone. *)
Lemma gone_not_up c x : Gone x ∈ call_effect c -> Up x ∉ call_effect c.
Proof.
  destruct c as [A q a]. destruct q; cbn; try (by intros ?%elem_of_nil);
    try (by intros ?%list_elem_of_singleton); try (by intros [= ?]%list_elem_of_singleton).
  - unfold container_of. repeat case_bool_decide; try congruence; cbn;
      destruct (env_of c "DEV_NODE_NAME"%string); cbn; repeat case_match;
      rewrite ?elem_of_cons, ?elem_of_nil; naive_solver.
  - destruct a; [by intros [= ?]%list_elem_of_singleton | by intros ?%elem_of_nil].
  - destruct a; [intros _; by intros ?%list_elem_of_singleton | by intros ?%elem_of_nil].
  - intros _. by intros ?%list_elem_of_singleton.
  - destruct a; [intros _; by intros ?%list_elem_of_singleton | by intros ?%elem_of_nil].
  - intros _. by intros ?%list_elem_of_singleton.
Qed.

Lemma acts_snoc calls c : acts_of (calls ++ [c]) = acts_of calls ++ call_effect c.
Proof. unfold acts_of. rewrite bind_app. cbn. by rewrite app_nil_r. Qed.

(** A container that runs although it was told to go: a stop failed. *)
Lemma failed_stop calls node :
  Container node ∈ running (acts_of calls) -> Container node ∈ told (acts_of calls) ->
  exists c, c ∈ calls /\ stop_failed node c.
Proof.
  set (x := Container node). induction calls as [|c calls IH] using rev_ind; [by intros ?%elem_of_nil|].
  rewrite acts_snoc. unfold running, told. rewrite !foldl_app. fold (running (acts_of calls)) (told (acts_of calls)).
  destruct (run_folds x (running (acts_of calls)) (call_effect c)) as [Hr1 Hr2]. intros Hr Ht.
  destruct (decide (Told x ∈ call_effect c)) as [Hc|Hc].
  - exists c. split; [apply elem_of_app; right; by left|]. split; [done|]. intros Hg.
    by apply Hr2; [|apply gone_not_up|].
  - destruct (tell_folds _ _ _ Ht Hc) as [Ht' Hu]. destruct (IH (Hr1 Hr Hu) Ht') as (c' & ? & ?).
    exists c'. split; [apply elem_of_app; by left | done].
Qed.

(** * What is held *)

Definition things_of (o : Owned) : list Thing :=
  match o with
  | ONode n => [Container n.(node_id)]
  | OFleet ns => (fun n => Container n.(node_id)) <$> ns
  | OLb child _ => [Process (LbChild child)]
  | OServers ts => Task <$> ts
  | ORelay t => [Task t]
  | OWriter child _ => [Process (WriterChild child)]
  end.
Definition things (l : list (nat * Owned)) : list Thing := l ≫= (fun h => things_of h.2).
#[local] Arguments things : simpl never.

(** [o] cannot be dropped while [o'] is held. *)
Definition needs (o o' : Owned) : bool :=
  match o, o' with
  | (ONode _ | OFleet _), (OLb _ _ | OServers _ | ORelay _ | OWriter _ _) => true
  | OWriter _ _, OLb _ _ => true
  | _, _ => false
  end.
Definition clear (o : Owned) (l : list (nat * Owned)) : bool := forallb (fun h => negb (needs o h.2)) l.
Fixpoint stacked (l : list (nat * Owned)) : bool :=
  match l with [] => true | h :: l => clear h.2 l && stacked l end.

Lemma needs_outlive o o' x y :
  needs o o' = false -> x ∈ things_of o -> y ∈ things_of o' -> must_outlive x y = false.
Proof.
  intros Hn Hx Hy. destruct o, o'; try discriminate Hn; cbn in Hx, Hy;
    repeat match goal with
           | H : _ ∈ _ <$> _ |- _ => apply list_elem_of_fmap in H as (? & -> & _)
           | H : _ ∈ [] |- _ => by apply elem_of_nil in H
           | H : _ ∈ _ :: _ |- _ => apply elem_of_cons in H as [->|H]
           end; done.
Qed.

Lemma self_outlive o x y : x ∈ things_of o -> y ∈ things_of o -> must_outlive x y = false.
Proof. intros Hx Hy. apply (needs_outlive o o); [by destruct o | done | done]. Qed.

Lemma elem_of_things x l : x ∈ things l <-> exists h, h ∈ l /\ x ∈ things_of h.2.
Proof. unfold things. rewrite list_elem_of_bind. naive_solver. Qed.

Lemma clear_outlive o l x y : clear o l = true -> x ∈ things_of o -> y ∈ things l -> must_outlive x y = false.
Proof.
  intros Hc Hx (h & Hh & Hy)%elem_of_things. apply (needs_outlive o h.2); [|done|done].
  unfold clear in Hc. rewrite forallb_forall in Hc. apply negb_true_iff, Hc. by apply list_elem_of_In.
Qed.

(** What is pending is held, or is among [extra]; a sidecar was killed
    when no LB was. *)
Definition covered (l : list (nat * Owned)) (extra : list Thing) (acts : list Act) : Prop :=
  killed_in_order acts /\ forall x, x ∈ pending acts -> x ∈ things l \/ x ∈ extra.

Record holds {W} (l : list (nat * Owned)) (extra : list Thing) (s : Host W) : Prop := {
  held_is : s.(held) = l;
  slots_old : Forall (fun h => (h.1 < s.(next_handle))%nat) l;
  slots_apart : NoDup l.*1;
  all_held : covered l extra (acts_of s.(calls));
  well_stacked : stacked l = true;
}.

Definition safe {W} (s : Host W) : Prop := exists l, holds l [] s.

(** * A logic of scripts *)

Definition sound {W A} (P : Host W -> Prop) (m : Script W A) (Q : A -> Host W -> Prop) : Prop :=
  forall s, P s -> match m s with
                   | (Ended a, s') => Q a s'
                   | (Hung, _) | (Unfinished, _) => True
                   | (_, s') => safe s'
                   end.

(** Starts nothing and drops nothing. *)
Definition steady {W A} (m : Script W A) : Prop :=
  forall l, sound (holds l []) m (fun _ => holds l []).

(** ** What a call does to what is covered *)

Lemma killed_snoc acts a : killed_in_order acts ->
  (forall x, a = Told x -> is_process x = true -> forall y, must_outlive x y = true -> y ∉ pending acts) ->
  killed_in_order (acts ++ [a]).
Proof.
  intros Hk Ha pre x post E Hx y Hy. destruct post as [|b post _] using rev_ind.
  - apply app_inj_tail in E as [-> ->]. by apply (Ha x).
  - rewrite app_comm_cons, app_assoc in E. apply app_inj_tail in E as [-> _]. by apply (Hk pre x post).
Qed.

Section covering.
Context (l : list (nat * Owned)) (e : list Thing) (acts : list Act).

Lemma covered_up x : covered l e acts -> covered l (x :: e) (acts ++ [Up x]).
Proof.
  intros [Hk Hp]. split; [by apply killed_snoc|]. intros y. rewrite pending_snoc. cbn.
  rewrite !elem_of_cons. naive_solver.
Qed.

Lemma covered_up_held x : x ∈ things l -> covered l e acts -> covered l e (acts ++ [Up x]).
Proof.
  intros Hx [Hk Hp]. split; [by apply killed_snoc|]. intros y. rewrite pending_snoc. cbn.
  rewrite elem_of_cons. naive_solver.
Qed.

Lemma covered_gone x : covered l e acts -> covered l e (acts ++ [Gone x]).
Proof.
  intros [Hk Hp]. split; [by apply killed_snoc|]. intros y. rewrite pending_snoc. cbn.
  destruct x; rewrite ?elem_of_without; naive_solver.
Qed.

(** A child that has been waited for is nobody's any more. *)
Lemma covered_waited child : covered l (Process child :: e) acts -> covered l e (acts ++ [Gone (Process child)]).
Proof.
  intros [Hk Hp]. split; [by apply killed_snoc|]. intros y. rewrite pending_snoc. cbn.
  rewrite elem_of_without. intros [[?|[?|?]%elem_of_cons]%Hp ?]; auto. done.
Qed.

(** What is told to go and is still held, is told again when it is
    dropped. *)
Lemma covered_told x : x ∈ things l -> is_process x = false -> covered l e acts -> covered l e (acts ++ [Told x]).
Proof.
  intros Hx Hp [Hk Hc]. split; [apply killed_snoc; [done | by intros ? [= <-] ?; congruence]|].
  intros y. rewrite pending_snoc. cbn. rewrite Hp.
  destruct (forallb _ _); rewrite ?elem_of_without, ?elem_of_cons; naive_solver.
Qed.

(** Nothing needs a task to be up. *)
Lemma covered_told_task t : covered l e acts -> covered l e (acts ++ [Told (Task t)]).
Proof.
  intros [Hk Hc]. split; [by apply killed_snoc; [|intros ? [= <-]]|].
  intros y. rewrite pending_snoc. cbn. rewrite (proj2 (no_outlive (Task t) _)) by done.
  rewrite elem_of_without. intros [? _]. auto.
Qed.

(** Told last, when nothing that uses it is up. *)
Lemma covered_told_last x : is_process x = false ->
  (forall y, y ∈ things l \/ y ∈ e -> must_outlive x y = false) ->
  covered l (x :: e) acts -> covered l e (acts ++ [Told x]).
Proof.
  intros Hp Hx [Hk Hc]. split; [apply killed_snoc; [done | by intros ? [= <-] ?; congruence]|].
  intros y. rewrite pending_snoc. cbn. rewrite Hp, (proj2 (no_outlive _ _)).
  - rewrite elem_of_without. intros [[?|[?|?]%elem_of_cons]%Hc ?]; auto. done.
  - intros z [?|[->|?]%elem_of_cons]%Hc; [by apply Hx; left | by destruct x as [|[]|] | by apply Hx; right].
Qed.

Lemma covered_killed x : is_process x = true ->
  (forall y, y ∈ things l \/ y ∈ e -> must_outlive x y = false) ->
  covered l e acts -> covered l e (acts ++ [Told x]).
Proof.
  intros Hp Hx [Hk Hc]. split.
  - apply killed_snoc; [done|]. intros ? [= <-] _ y Hy Hin%Hc. by rewrite (Hx y Hin) in Hy.
  - intros y. rewrite pending_snoc. cbn. rewrite Hp. apply Hc.
Qed.
End covering.

(** The calls that only look, or see something gone. *)
Definition mild {A} (q : Ask A) : bool :=
  match q with
  | RunCommand c =>
      bool_decide (container_of "start" c = None) && bool_decide (container_of "stop" c = None)
  | SpawnChild _ _ | KillChild _ | SpawnTask _ _ | AbortTask _ => false
  | _ => true
  end.

Lemma mild_effect {A} (q : Ask A) a : mild q = true ->
  effect q a = [] \/ exists x, effect q a = [Gone x].
Proof.
  destruct q; cbn; try discriminate; try (by left); try (by right; eexists);
    try (destruct a; [by right; eexists | by left]).
  intros [->%bool_decide_eq_true ->%bool_decide_eq_true]%andb_true_iff. by left.
Qed.

Lemma covered_mild {A} (q : Ask A) a l e acts : mild q = true ->
  covered l e acts -> covered l e (acts ++ effect q a).
Proof.
  intros Hq Hc. destruct (mild_effect q a Hq) as [->|[x ->]]; [by rewrite app_nil_r | by apply covered_gone].
Qed.

Lemma mild_command c : length c.(cmd_args) <> 1%nat -> mild (RunCommand c) = true.
Proof.
  intros Hl. assert (forall verb, container_of verb c = None) as Hn.
  { intros verb. unfold container_of. rewrite bool_decide_eq_false_2; [done|]. by intros E; rewrite E in Hl. }
  cbn. by rewrite !Hn.
Qed.

Section logic.
Context {W : Type} `{Machine W}.

Lemma bind_assoc {A B C} (m : Script W A) (f : A -> Script W B) (g : B -> Script W C) s :
  ((m ≫= f) ≫= g) s = (m ≫= (fun a => f a ≫= g)) s.
Proof. unfold mbind, script_bind. by destruct (m s) as [[a| | | |] s']. Qed.

Lemma sound_ret {A} (a : A) (Q : A -> Host W -> Prop) : sound (Q a) (mret a) Q.
Proof. by intros s Hs. Qed.

Lemma sound_bind {A B} (P : Host W -> Prop) (m : Script W A) (f : A -> Script W B) Q R :
  sound P m Q -> (forall a, sound (Q a) (f a) R) -> sound P (m ≫= f) R.
Proof.
  intros Hm Hf s Hs. specialize (Hm s Hs). unfold mbind, script_bind.
  destruct (m s) as [[a| | | |] s']; [by apply Hf|done..].
Qed.

Lemma sound_weaken {A} (P P' : Host W -> Prop) (m : Script W A) (Q Q' : A -> Host W -> Prop) :
  (forall s, P s -> P' s) -> sound P' m Q' -> (forall a s, Q' a s -> Q a s) -> sound P m Q.
Proof.
  intros HP Hm HQ s Hs. specialize (Hm s (HP s Hs)). destruct (m s) as [[a| | | |] s']; auto.
Qed.

Lemma sound_ask {A} l e e' (q : Ask A) :
  (forall a acts, covered l e acts -> covered l (e' a) (acts ++ effect q a)) ->
  sound (holds l e) (ask q) (fun a => holds (W := W) l (e' a)).
Proof.
  intros He s [Hh Ho Hd Hc Hs]. unfold ask. destruct (perform q _) as [[a w]|]; [|done].
  constructor; try done. cbn. rewrite acts_snoc. by apply He.
Qed.

Lemma sound_mild {A} l e (q : Ask A) : mild q = true ->
  sound (holds l e) (ask q) (fun _ => holds (W := W) l e).
Proof. intros Hq. apply (sound_ask _ _ (fun _ => e)). intros a acts. by apply covered_mild. Qed.

Lemma steady_ret {A} (a : A) : steady (mret a : Script W A).
Proof. by intros l s Hs. Qed.
Lemma steady_bind {A B} (m : Script W A) (f : A -> Script W B) :
  steady m -> (forall a, steady (f a)) -> steady (m ≫= f).
Proof. intros Hm Hf l. eapply sound_bind; [apply Hm | intros a; apply Hf]. Qed.
Lemma steady_ask {A} (q : Ask A) : mild q = true -> steady (W := W) (ask q).
Proof. intros Hq l. by apply sound_mild. Qed.
Lemma steady_abort t : steady (W := W) (ask (AbortTask t)).
Proof. intros l. apply (sound_ask _ _ (fun _ => [])). intros ? acts. apply covered_told_task. Qed.
Lemma steady_panic {A} : steady (panic : Script W A).
Proof. intros l s Hs. by exists l. Qed.
Lemma steady_cancelled {A} : steady (cancelled : Script W A).
Proof. intros l s Hs. by exists l. Qed.
Lemma steady_unfinished {A} : steady (unfinished : Script W A).
Proof. by intros l s Hs. Qed.
Lemma steady_assert c : steady (assert_ c : Script W unit).
Proof. destruct c; [apply steady_ret | apply steady_panic]. Qed.
Lemma steady_expect {A} (x : option A) : steady (expect x : Script W A).
Proof. destruct x; [apply steady_ret | apply steady_panic]. Qed.
Lemma steady_await_point : steady (W := W) await_point.
Proof. apply steady_bind; [by apply steady_ask|]. intros []; [apply steady_cancelled | apply steady_ret]. Qed.
Lemma steady_await {A} (q : Ask A) : mild q = true -> steady (W := W) (await q).
Proof.
  intros Hq l s Hs. unfold await. pose proof (steady_ask q Hq l s Hs) as Ha. unfold ask in Ha.
  destruct (perform q _) as [[a w]|].
  - revert Ha. apply (steady_bind await_point); [apply steady_await_point | intros ?; apply steady_ret].
  - unfold mbind, script_bind. pose proof (steady_ask CtrlCYet eq_refl l s Hs) as Hc.
    destruct (ask CtrlCYet s) as [[[]| | | |] s']; try done. by exists l.
Qed.

(** A handle is one of no variable. *)
Lemma sound_new_handle l e :
  sound (holds l e) new_handle
    (fun n s => holds (W := W) l e s /\ Forall (fun h => h.1 <> n) l /\ (n < s.(next_handle))%nat).
Proof.
  intros s [Hh Ho Hd Hc Hs]. cbn. split_and!; [constructor; cbn; try done | | lia].
  - eapply Forall_impl; [exact Ho|]. cbn. lia.
  - eapply Forall_impl; [exact Ho|]. cbn. lia.
Qed.
Lemma steady_new_handle : steady (W := W) new_handle.
Proof.
  intros l. eapply sound_weaken; [done | apply sound_new_handle | by intros a s [? _]].
Qed.
End logic.

(** ** What comes up and what is dropped *)

Lemma things_split pre slot o post x :
  x ∈ things (pre ++ (slot, o) :: post) <-> x ∈ things_of o \/ x ∈ things (pre ++ post).
Proof.
  rewrite !elem_of_things. split.
  - intros (h & [Hh|[->|Hh]%elem_of_cons]%elem_of_app & Hx); [right; exists h|by left|right; exists h];
      (split; [apply elem_of_app|]; auto).
  - intros [Hx|(h & [Hh|Hh]%elem_of_app & Hx)]; [exists (slot, o)|exists h..];
      (split; [apply elem_of_app|]; rewrite ?elem_of_cons; auto).
Qed.

Lemma stacked_app l l' :
  stacked (l ++ l') = true <->
  stacked l = true /\ stacked l' = true /\ Forall (fun h => clear h.2 l' = true) l.
Proof.
  induction l as [|h l IH]; cbn.
  - split; [intros Hl; by split_and! | by intros (_ & ? & _)].
  - unfold clear at 1 3. rewrite forallb_app, !andb_true_iff, IH, Forall_cons.
    fold (clear h.2 l). fold (clear h.2 l'). tauto.
Qed.

Section changes.
Context {W : Type} `{Machine W}.

(** What is held changes hands, and the acts do not. *)
Lemma covered_change l l' e e' acts :
  (forall x, x ∈ pending acts -> x ∈ things l \/ x ∈ e -> x ∈ things l' \/ x ∈ e') ->
  covered l e acts -> covered l' e' acts.
Proof. intros He [Hk Hc]. split; [done|]. intros x Hx. apply He; [done|by apply Hc]. Qed.

Lemma sound_own l e o : clear o l = true ->
  sound (holds l (things_of o ++ e)) (own o) (fun n => holds (W := W) ((n, o) :: l) e).
Proof.
  intros Hcl. eapply sound_bind; [apply sound_new_handle|]. intros n s (Hs & Hf & Hn). cbn.
  destruct Hs as [Hh Ho Hd Hc Hs]. constructor; cbn.
  - by rewrite Hh.
  - by constructor.
  - constructor; [|done]. intros (h & -> & Hin)%list_elem_of_fmap. rewrite Forall_forall in Hf.
    by apply (Hf h).
  - revert Hc. apply covered_change. intros x _. change ((n, o) :: l) with ([] ++ (n, o) :: l).
    rewrite things_split, elem_of_app. tauto.
  - by rewrite Hcl.
Qed.

(** A slot names one variable. *)
Lemma slot_apart pre slot o post :
  NoDup (pre ++ (slot, o) :: post).*1 -> Forall (fun h : nat * Owned => h.1 <> slot) (pre ++ post).
Proof.
  rewrite fmap_app. cbn. intros (_ & Hne & Hd%NoDup_cons)%NoDup_app. apply Forall_app. split; apply Forall_forall.
  - intros h Hh E. apply (Hne h.1); [by apply list_elem_of_fmap_2 | rewrite E; by left].
  - intros h Hh E. apply (proj1 Hd). rewrite <- E. by apply (list_elem_of_fmap_2 fst).
Qed.

Lemma filter_apart slot (l : list (nat * Owned)) :
  Forall (fun h => h.1 <> slot) l -> List.filter (fun h => negb (Nat.eqb h.1 slot)) l = l.
Proof.
  induction 1 as [|h l Hh Hl IH]; cbn; [done|]. rewrite (proj2 (Nat.eqb_neq _ _) Hh). cbn. by rewrite IH.
Qed.

Lemma map_apart slot (f : nat * Owned -> nat * Owned) (l : list (nat * Owned)) :
  Forall (fun h => h.1 <> slot) l -> (fun h => if Nat.eqb h.1 slot then f h else h) <$> l = l.
Proof.
  induction 1 as [|h l Hh Hl IH]; cbn; [done|]. rewrite (proj2 (Nat.eqb_neq _ _) Hh). by f_equal.
Qed.

Lemma find_apart slot (l l' : list (nat * Owned)) :
  Forall (fun h => h.1 <> slot) l ->
  List.find (fun h => Nat.eqb h.1 slot) (l ++ l') = List.find (fun h => Nat.eqb h.1 slot) l'.
Proof.
  induction 1 as [|h l Hh Hl IH]; cbn; [done|]. by rewrite (proj2 (Nat.eqb_neq _ _) Hh).
Qed.

Lemma sound_disown pre slot o post e :
  sound (holds (pre ++ (slot, o) :: post) e) (disown slot)
    (fun _ => holds (W := W) (pre ++ post) (things_of o ++ e)).
Proof.
  intros s [Hh Ho Hd Hc Hs]. pose proof (slot_apart _ _ _ _ Hd) as [Hpre Hpost]%Forall_app.
  apply stacked_app in Hs as (Hs1 & [_ Hs2]%andb_true_iff & Hs3). cbn. rewrite Hh.
  rewrite List.filter_app, (filter_apart _ _ Hpre). cbn. rewrite Nat.eqb_refl. cbn.
  rewrite (filter_apart _ _ Hpost). apply Forall_app in Ho as [Ho1 [_ Ho2]%Forall_cons].
  constructor; cbn; try done.
  - by apply Forall_app.
  - rewrite fmap_app in Hd |- *. cbn in Hd. apply NoDup_app in Hd as (? & Hne & [? ?]%NoDup_cons).
    apply NoDup_app. split_and!; [done| |done]. intros x Hx Hx'. apply (Hne x Hx). by right.
  - revert Hc. apply covered_change. intros x _. rewrite things_split, elem_of_app. tauto.
  - apply stacked_app. split_and!; [done..|]. eapply Forall_impl; [exact Hs3|].
    intros h. cbn. by rewrite andb_true_iff; intros [_ ?].
Qed.

(** The value of one variable changes in place. *)
Lemma change_holds pre slot o o' post e e' f (s : Host W) :
  holds (pre ++ (slot, o) :: post) e s ->
  f (slot, o) = (slot, o') -> stacked (pre ++ (slot, o') :: post) = true ->
  (forall x, x ∈ pending (acts_of s.(calls)) -> x ∈ things_of o \/ x ∈ e -> x ∈ things_of o' \/ x ∈ e') ->
  holds (pre ++ (slot, o') :: post) e'
    (mkHost s.(machine) ((fun h => if Nat.eqb h.1 slot then f h else h) <$> s.(held)) s.(calls) s.(next_handle)).
Proof.
  intros [Hh Ho Hd Hc Hs] Hf Hst Hx. pose proof (slot_apart _ _ _ _ Hd) as [Hpre Hpost]%Forall_app.
  rewrite Hh. rewrite fmap_app, fmap_cons. rewrite (map_apart _ _ _ Hpre), (map_apart _ _ _ Hpost).
  cbn. rewrite Nat.eqb_refl, Hf. constructor; cbn; try done.
  - apply Forall_app in Ho as [? [? ?]%Forall_cons]. apply Forall_app. split; [done|]. by constructor.
  - by rewrite fmap_app in Hd |- *.
  - revert Hc. apply covered_change. intros x Hin. specialize (Hx x Hin). rewrite !things_split. tauto.
Qed.
End changes.

(** ** Drops *)

Section drops.
Context {W : Type} `{Machine W} (fuel : nat).

(** A child that is killed, if it did not go, and waited for. *)
Lemma sound_kill child l e :
  (forall y, y ∈ things l \/ y ∈ Process child :: e -> must_outlive (Process child) y = false) ->
  sound (holds l (Process child :: e)) (_ ← ask (KillChild child); ask (WaitChild child))
    (fun _ => holds (W := W) l e).
Proof.
  intros Hy. eapply sound_bind;
    [apply (sound_ask _ _ (fun _ => Process child :: e)); intros ? acts; by apply covered_killed|].
  intros ?. apply (sound_ask _ _ (fun _ => e)). intros ? acts. apply covered_waited.
Qed.

Lemma sound_reap fuel' child deadline l e :
  (forall y, y ∈ things l \/ y ∈ Process child :: e -> must_outlive (Process child) y = false) ->
  sound (holds l (Process child :: e)) (reap fuel' child deadline) (fun _ => holds (W := W) l e).
Proof.
  intros Hy. induction fuel' as [|fuel' IH]; cbn [reap]; [by intros s Hs|].
  eapply sound_bind; [by apply sound_mild|]. intros now. destruct (Z.ltb now deadline); [|by apply sound_kill].
  eapply sound_bind.
  - apply (sound_ask _ _ (fun gone => if gone : bool then e else Process child :: e)).
    intros [] acts; [apply covered_waited | by rewrite app_nil_r].
  - intros []; [exact (sound_ret tt (fun _ => holds l e))|].
    eapply sound_bind; [by apply sound_mild | intros ?; exact IH].
Qed.

Lemma drop_each_sound {A} (f : A -> Thing) (drop : A -> Script W unit) xs l :
  (forall x e, (forall y, y ∈ things l \/ y ∈ e -> must_outlive (f x) y = false) ->
     sound (holds l (f x :: e)) (drop x) (fun _ => holds l e)) ->
  (forall x y, x ∈ xs -> y ∈ things l \/ y ∈ f <$> xs -> must_outlive (f x) y = false) ->
  sound (holds l (f <$> xs)) (drop_each drop xs) (fun _ => holds l []).
Proof.
  intros Hd Hxs. induction xs as [|x xs IH]; cbn [drop_each]; [by intros s Hs|].
  eapply sound_bind.
  - apply Hd. intros y Hy. apply Hxs; [by left|]. destruct Hy as [?|?]; [by left | right; by right].
  - intros ?. apply IH. intros z y Hz Hy. apply Hxs; [by right|].
    destruct Hy as [?|?]; [by left | right; by right].
Qed.

Lemma stop_effect n answer : effect (RunCommand (stop_command n)) answer = Told (Container n.(node_id)) ::
  match answer with Some o => if o.(exit_success) then [Gone (Container n.(node_id))] else [] | None => [] end.
Proof. done. Qed.

Lemma node_drop_sound n e l :
  (forall y, y ∈ things l \/ y ∈ e -> must_outlive (Container n.(node_id)) y = false) ->
  sound (holds l (Container n.(node_id) :: e)) (node_drop n) (fun _ => holds (W := W) l e).
Proof.
  intros Hy. eapply sound_bind; [|intros ?; exact (sound_ret tt (fun _ => holds l e))].
  apply (sound_ask _ _ (fun _ => e)). intros answer acts Hc. rewrite stop_effect, cons_middle, app_assoc.
  assert (covered l e (acts ++ [Told (Container n.(node_id))])) as Ht by by apply covered_told_last.
  destruct answer as [[[] ? ?]|]; rewrite ?app_nil_r; try done. by apply covered_gone.
Qed.

Lemma task_drop_sound t e l :
  (forall y, y ∈ things l \/ y ∈ e -> must_outlive (Task t) y = false) ->
  sound (holds l (Task t :: e)) (task_drop t) (fun _ => holds (W := W) l e).
Proof. intros Hy. apply (sound_ask _ _ (fun _ => e)). intros ? acts. by apply covered_told_last. Qed.

Lemma drop_owned_sound o l : clear o l = true ->
  sound (holds l (things_of o)) (drop_owned fuel o) (fun _ => holds (W := W) l []).
Proof.
  intros Hc.
  assert (forall x y, x ∈ things_of o -> y ∈ things l \/ y ∈ things_of o -> must_outlive x y = false) as Ho.
  { intros x y Hx [Hy|Hy]; [by eapply clear_outlive | by eapply self_outlive]. }
  assert (forall x (e : list Thing), x ∈ things_of o -> (forall y, y ∈ e -> y ∈ things_of o) ->
    forall y, y ∈ things l \/ y ∈ e -> must_outlive x y = false) as Hx.
  { intros x e Hx He y [Hy|Hy]; [apply Ho; auto | apply Ho; auto]. }
  destruct o as [n|ns|child pid|ts|t|child key_file]; cbn [drop_owned things_of] in *.
  - apply node_drop_sound, Hx; [by left | by intros y Hy%elem_of_nil].
  - apply drop_each_sound; [intros n e; apply node_drop_sound|].
    intros n y Hn Hy. apply Ho; [by apply (list_elem_of_fmap_2 (fun n => Container n.(node_id))) | done].
  - eapply sound_bind; [apply sound_mild, mild_command; done|]. intros ?.
    eapply sound_bind; [by apply sound_mild|]. intros now. by apply sound_reap, Hx; [left|].
  - apply drop_each_sound; [intros t e; apply task_drop_sound|].
    intros t y Ht Hy. apply Ho; [by apply (list_elem_of_fmap_2 Task) | done].
  - apply task_drop_sound, Hx; [by left | by intros y Hy%elem_of_nil].
  - unfold writer_drop. intros s Hs. 
    rewrite <- (bind_assoc (ask (KillChild _)) (fun _ => ask (WaitChild _)) (fun _ => ask (RemoveFile key_file))).
    eapply sound_bind; [by apply sound_kill, Hx; [left|] | intros ?; by apply sound_mild | exact Hs].
Qed.

Lemma drop_slot_sound pre slot o post : clear o (pre ++ post) = true ->
  sound (holds (pre ++ (slot, o) :: post) []) (drop_slot fuel slot) (fun _ => holds (W := W) (pre ++ post) []).
Proof.
  intros Hc s Hs. unfold drop_slot, mbind, script_bind, owned_at.
  pose proof (slot_apart _ _ _ _ (slots_apart _ _ _ Hs)) as [Hpre _]%Forall_app.
  rewrite (held_is _ _ _ Hs), (find_apart _ _ _ Hpre). cbn. rewrite Nat.eqb_refl. cbn.
  pose proof (sound_disown pre slot o post [] s Hs) as Hd. unfold disown, set_held in Hd |- *. cbn in Hd.
  apply (drop_owned_sound o (pre ++ post) Hc). by rewrite app_nil_r in Hd.
Qed.

Lemma unwind_sound l : sound (holds l []) (unwind_all fuel l) (fun _ => holds (W := W) [] []).
Proof.
  induction l as [|[slot o] l IH]; cbn [unwind_all]; [by intros s Hs|]. intros s Hs.
  pose proof (sound_disown [] slot o l [] s Hs) as Hd. cbn in Hd. rewrite app_nil_r in Hd.
  rewrite (held_is _ _ _ Hs) in Hd. cbn in Hd. rewrite Nat.eqb_refl in Hd. cbn in Hd.
  pose proof (slot_apart [] _ _ _ (slots_apart _ _ _ Hs)) as Ha. cbn in Ha. rewrite (filter_apart _ _ Ha) in Hd.
  unfold mbind at 1, script_bind at 1. unfold set_held.
  pose proof (well_stacked _ _ _ Hs) as [Hc _]%andb_true_iff.
  eapply sound_bind; [exact (drop_owned_sound o l Hc) | intros ?; exact IH | exact Hd].
Qed.

(** Whatever [m] came to, nothing of it is held when its scope is left. *)
Lemma scope_leaves {A} (m : Script W A) P :
  sound P m (fun _ => safe) ->
  forall s, P s -> match scope fuel m s with (Hung, _) | (Unfinished, _) => True | (_, s') => holds [] [] s' end.
Proof.
  intros Hm s Hs. specialize (Hm s Hs). unfold scope. destruct (m s) as [ending s1].
  assert (safe s1 -> forall e : Ending A,
    match (match unwind_all fuel s1.(held) s1 with
           | (Ended _, s) => (e, s) | (Hung, s) => (Hung, s) | (_, s) => (Unfinished, s) end) with
    | (Hung, _) | (Unfinished, _) => True | (_, s') => holds [] [] s' end) as Hu.
  { intros [l Hl] e. rewrite (held_is _ _ _ Hl). pose proof (unwind_sound l s1 Hl) as Hw.
    destruct (unwind_all fuel l s1) as [[[]| | | |] s2]; by destruct e. }
  destruct ending; try done; by apply Hu.
Qed.
End drops.

(** * What each step of a scenario starts *)

(** Goes through a script whose steps are steady. *)
Ltac steady :=
  repeat first
    [ progress intros
    | simple apply steady_await; reflexivity | simple apply steady_await_point
    | simple apply steady_ask; reflexivity | simple apply steady_bind
    | simple apply steady_ret | simple apply steady_cancelled | simple apply steady_panic
    | simple apply steady_unfinished | simple apply steady_assert | simple apply steady_expect
    | simple apply steady_new_handle | simple apply steady_abort
    | match goal with H : context [steady _] |- _ => simple apply H end
    | case_match ].

Section steps.
Context `{SerdeJson} `{UrlLib} `{Lowercase} {W : Type} `{Machine W} (fuel : nat).
Abbreviation steady := (steady (W := W)) (only parsing).

Lemma steady_command c : mild (RunCommand c) = true -> steady (run_command c).
Proof using Type. intros Hc. unfold run_command. pose proof (steady_ask (W := W) _ Hc). steady. Qed.
Lemma steady_chain_id ns : steady (fleet_chain_id ns).
Proof using Type. unfold fleet_chain_id, first_node, run_command. steady. Qed.
Lemma steady_fetch : steady fetch_nodes.
Proof using Type. unfold fetch_nodes, send, expect_answer, json. steady. Qed.
Lemma steady_send q : steady (send q).
Proof using Type. unfold send, expect_answer. steady. Qed.
Lemma steady_json r : steady (json r).
Proof using Type. unfold json. steady. Qed.

Lemma steady_wait_loop n started timeout condition : steady (wait_loop n started timeout condition).
Proof using Type.
  pose proof steady_fetch. induction n as [|n IH]; cbn [wait_loop]; steady.
Qed.
Lemma steady_wait timeout condition : steady (wait_nodes fuel timeout condition).
Proof using Type. unfold wait_nodes. pose proof steady_wait_loop. steady. Qed.

Lemma steady_ready child : steady (wait_ready fuel child).
Proof using Type.
  unfold wait_ready. assert (forall n started, steady (ready_loop n child started)).
  { induction n as [|n IH]; intros started; cbn [ready_loop]; unfold says_ready; steady. }
  steady.
Qed.

Lemma steady_identity n child url started : steady (identity_loop n child url started).
Proof using Type. induction n as [|n IH]; cbn [identity_loop]; steady. Qed.

Lemma steady_config root text : steady (write_config root text).
Proof using Type. unfold write_config. steady. Qed.
Lemma steady_served ns : steady (served_of ns).
Proof using Type. unfold served_of. pose proof steady_fetch. steady. Qed.
Lemma steady_start_load n : steady (start_load n).
Proof using Type. unfold start_load. steady. Qed.
Lemma steady_join_load n : steady (join_load n).
Proof using Type. unfold join_load. steady. Qed.
Lemma steady_report st t : steady (report_load st t).
Proof using Type. unfold report_load. steady. Qed.
Lemma steady_row nodes id field v : steady (assert_row nodes id field v).
Proof using Type. unfold assert_row. steady. Qed.
Lemma steady_each {A} (f : A -> Script W unit) l : (forall x, steady (f x)) -> steady (for_each_script f l).
Proof using Type. intros Hf. induction l as [|x l IH]; cbn [for_each_script]; steady. Qed.
Lemma steady_log root : steady (read_lb_log root).
Proof using Type. unfold read_lb_log. steady. Qed.
Lemma steady_address url : steady (writer_address url).
Proof using Type. unfold writer_address, expect_answer. pose proof steady_send. pose proof steady_json. steady. Qed.

Lemma steady_tool t command : steady (run_tool_ok t command).
Proof using Type.
  unfold run_tool_ok, run_tool. apply steady_bind; [by apply steady_command, mild_command | intros ?; steady].
Qed.
Lemma steady_prepare root rpc beacon lb : steady (prepare root rpc beacon lb).
Proof using Type. unfold prepare, run_command. steady. Qed.
Lemma steady_status n t started : steady (status_loop n t started).
Proof using Type. pose proof steady_tool. induction n as [|n IH]; cbn [status_loop]; steady. Qed.
Lemma steady_sign t agreement port : steady (sign_tunnel fuel t agreement port).
Proof using Type.
  unfold sign_tunnel, read_settings. pose proof steady_tool. pose proof steady_status. steady.
Qed.
Lemma steady_token agreement token port : steady (try_token agreement token port).
Proof using Type.
  unfold try_token, post_admission, assert_refused. pose proof steady_send. pose proof steady_json. steady.
Qed.
Lemma steady_relay_stop r : steady (relay_stop r).
Proof using Type. unfold relay_stop. steady. Qed.

Lemma steady_root : steady workspace_root.
Proof using Type. unfold workspace_root. steady. Qed.
Lemma steady_first ns : steady (first_node ns).
Proof using Type. unfold first_node. steady. Qed.
End steps.

(** ** What a scenario knows of what it holds *)

(** The kinds of the variables: of a fleet its nodes, of a relay its
    task. *)
Inductive Kind : Type :=
| KNode (n : Node)
| KFleet (ns : list Node)
| KLb
| KServers
| KRelay (task : nat)
| KWriter.
Definition kind_of (o : Owned) : Kind :=
  match o with
  | ONode n => KNode n
  | OFleet ns => KFleet ns
  | OLb _ _ => KLb
  | OServers _ => KServers
  | ORelay t => KRelay t
  | OWriter _ _ => KWriter
  end.
Definition kinds (l : list (nat * Owned)) : list (nat * Kind) := (fun h => (h.1, kind_of h.2)) <$> l.

Definition keeping {W} (e : list Thing) (ks : list (nat * Kind)) (s : Host W) : Prop :=
  exists l, holds l e s /\ kinds l = ks.
Definition keeps {W} : list (nat * Kind) -> Host W -> Prop := keeping [].

Definition kind_needs (k k' : Kind) : bool :=
  match k, k' with
  | (KNode _ | KFleet _), (KLb | KServers | KRelay _ | KWriter) => true
  | KWriter, KLb => true
  | _, _ => false
  end.
Definition kind_clear (k : Kind) (ks : list (nat * Kind)) : bool :=
  forallb (fun h => negb (kind_needs k h.2)) ks.

Fixpoint kind_stacked (ks : list (nat * Kind)) : bool :=
  match ks with [] => true | h :: ks => kind_clear h.2 ks && kind_stacked ks end.

Lemma clear_kinds o l : clear o l = kind_clear (kind_of o) (kinds l).
Proof.
  unfold clear, kind_clear, kinds. induction l as [|h l IH]; cbn; [done|]. rewrite IH. f_equal. f_equal.
  by destruct o, h as [? []].
Qed.

Lemma kinds_split l pre slot k post :
  kinds l = pre ++ (slot, k) :: post ->
  exists lpre o lpost, l = lpre ++ (slot, o) :: lpost /\ kinds lpre = pre /\ kind_of o = k /\ kinds lpost = post.
Proof.
  unfold kinds. intros (lpre & lrest & -> & E & ->)%fmap_app_inv. symmetry in E.
  apply fmap_cons_inv in E as ([slot' o] & lpost & [= -> ->] & -> & ->). by exists lpre, o, lpost.
Qed.

Lemma kinds_app l l' : kinds (l ++ l') = kinds l ++ kinds l'.
Proof. apply fmap_app. Qed.

Lemma stacked_kinds l : stacked l = kind_stacked (kinds l).
Proof. induction l as [|h l IH]; cbn; [done|]. by rewrite clear_kinds, IH. Qed.

Section kinds.
Context {W : Type} `{Machine W} (fuel : nat).

Lemma holds_more l e e' (s : Host W) : holds l e s -> (forall x, x ∈ e -> x ∈ e') -> holds l e' s.
Proof.
  intros [Hh Ho Hd Hc Hs] He. constructor; try done. revert Hc. apply covered_change.
  intros x _ [?|?]; auto.
Qed.

Lemma keeping_lift {A} e ks (m : Script W A) Q :
  (forall l, kinds l = ks -> sound (holds l e) m Q) -> sound (keeping e ks) m Q.
Proof. intros Hm s (l & Hl & Hk). by apply (Hm l Hk). Qed.

Lemma keeping_post {A} e e' ks (m : Script W A) :
  (forall l, sound (holds l e) m (fun _ => holds l e')) -> sound (keeping e ks) m (fun _ => keeping e' ks).
Proof.
  intros Hm. apply keeping_lift. intros l Hk. apply (sound_weaken _ (holds l e) _ _ (fun _ => holds l e'));
    [done | apply Hm | by exists l].
Qed.

Lemma keeps_steady {A} ks (m : Script W A) : steady m -> sound (keeps ks) m (fun _ => keeps ks).
Proof. apply (keeping_post [] []). Qed.

(** A call that starts something, and one that does so if it succeeds. *)
Lemma keeping_up {A} e ks (q : Ask A) x : (forall a, effect q a = [Up x]) ->
  sound (keeping e ks) (ask q) (fun _ => keeping (W := W) (x :: e) ks).
Proof.
  intros Hq. apply keeping_post. intros l. apply (sound_ask _ _ (fun _ => x :: e)). intros a acts.
  rewrite Hq. apply covered_up.
Qed.

Lemma keeping_spawn ks child c :
  sound (keeps ks) (ask (SpawnChild child c))
    (fun pid => keeping (W := W) (match pid with Some _ => [Process child] | None => [] end) ks).
Proof.
  intros s (l & Hl & Hk).
  assert (sound (holds l []) (ask (SpawnChild child c))
    (fun pid => holds (W := W) l (match pid with Some _ => [Process child] | None => [] end))) as Hs.
  { apply sound_ask. intros [pid|] acts; cbn; [apply covered_up | by rewrite app_nil_r]. }
  specialize (Hs s Hl). destruct (ask _ s) as [[pid| | | |] s']; try done. by exists l.
Qed.

Lemma sound_pure {A} (phi : Prop) P (m : Script W A) Q :
  (phi -> sound P m Q) -> sound (fun s => phi /\ P s) m Q.
Proof. intros Hm s [Hphi Hs]. by apply Hm. Qed.

Lemma sound_exists {A B} (P : B -> Host W -> Prop) (m : Script W A) Q :
  (forall x, sound (P x) m Q) -> sound (fun s => exists x, P x s) m Q.
Proof. intros Hm s [x Hs]. by apply (Hm x). Qed.

(** What is just up is owned by what holds it. *)
Lemma keeping_own e ks o : kind_clear (kind_of o) ks = true -> (forall x, x ∈ e -> x ∈ things_of o) ->
  sound (keeping e ks) (own o) (fun n => keeps (W := W) ((n, kind_of o) :: ks)).
Proof.
  intros Hc He s (l & Hl & <-). rewrite <- clear_kinds in Hc.
  assert (holds l (things_of o ++ []) s) as Hl'.
  { eapply holds_more; [done|]. intros x Hx. rewrite app_nil_r. auto. }
  pose proof (sound_own l [] o Hc s Hl') as Ho. destruct (own o s) as [[n| | | |] s']; try done.
  by eexists.
Qed.

Lemma keeps_drop pre slot k post : kind_clear k (pre ++ post) = true ->
  sound (keeps (pre ++ (slot, k) :: post)) (drop_slot fuel slot) (fun _ => keeps (W := W) (pre ++ post)).
Proof.
  intros Hc s (l & Hl & (lpre & o & lpost & -> & <- & <- & <-)%kinds_split).
  rewrite <- kinds_app, <- clear_kinds in Hc.
  pose proof (drop_slot_sound fuel lpre slot o lpost Hc s Hl) as Hd.
  destruct (drop_slot fuel slot s) as [[[]| | | |] s']; try done. exists (lpre ++ lpost).
  split; [done | apply kinds_app].
Qed.

Lemma keeping_change e e' pre slot k k' post f (s : Host W) :
  keeping e (pre ++ (slot, k) :: post) s -> kind_stacked (pre ++ (slot, k') :: post) = true ->
  (forall o, kind_of o = k -> exists o', f (slot, o) = (slot, o') /\ kind_of o' = k' /\
     forall x, x ∈ pending (acts_of s.(calls)) -> x ∈ things_of o \/ x ∈ e -> x ∈ things_of o' \/ x ∈ e') ->
  keeping e' (pre ++ (slot, k') :: post)
    (mkHost s.(machine) ((fun h => if Nat.eqb h.1 slot then f h else h) <$> s.(held)) s.(calls) s.(next_handle)).
Proof.
  intros (l & Hl & (lpre & o & lpost & -> & <- & Ek & <-)%kinds_split) Hst Hf.
  destruct (Hf o Ek) as (o' & Ef & <- & Hx). exists (lpre ++ (slot, o') :: lpost).
  rewrite kinds_app. split; [|done]. eapply change_holds; [done..| |done].
  by rewrite stacked_kinds, kinds_app.
Qed.

(** A node that is held starts; a start that fails leaves it held. *)
Definition kind_nodes (k : Kind) : list Node :=
  match k with KNode n => [n] | KFleet ns => ns | _ => [] end.

Lemma kind_things ks f k n (l : list (nat * Owned)) : kinds l = ks -> (f, k) ∈ ks -> n ∈ kind_nodes k ->
  Container n.(node_id) ∈ things l.
Proof.
  intros <- ([f' o] & [= <- ->] & Hin)%list_elem_of_fmap Hn.
  apply elem_of_things. exists (f, o). split; [done|]. destruct o; cbn in *; try by apply elem_of_nil in Hn.
  - apply list_elem_of_singleton in Hn as ->. by left.
  - by apply (list_elem_of_fmap_2 (fun n => Container n.(node_id))).
Qed.

(** A command of the script, and the assertion of its status. *)
Lemma keeps_status ks c : (forall l, kinds l = ks -> forall answer acts, covered l [] acts ->
    covered l [] (acts ++ effect (RunCommand c) answer)) ->
  sound (keeps ks) (status ← run_command c; assert_ status.(exit_success)) (fun _ => keeps (W := W) ks).
Proof.
  intros Hc. apply keeping_lift. intros l Hk.
  apply (sound_weaken _ (holds l []) _ _ (fun _ => holds l [])); [done | |intros ? s Hs; by exists l].
  eapply sound_bind; [|intros ?; apply steady_assert].
  eapply sound_bind; [|intros ?; apply steady_expect].
  apply (sound_ask _ _ (fun _ => [])). by apply Hc.
Qed.

Lemma keeps_node_start ks f k n : (f, k) ∈ ks -> n ∈ kind_nodes k ->
  sound (keeps ks) (node_start n) (fun _ => keeps (W := W) ks).
Proof.
  intros Hf Hn. apply keeps_status. intros l Hk answer acts.
  apply (covered_up_held l [] acts (Container n.(node_id))). by eapply kind_things.
Qed.

(** A node that is held is stopped, and is stopped again by its drop. *)
Lemma keeps_node_stop ks f k n : (f, k) ∈ ks -> n ∈ kind_nodes k ->
  sound (keeps ks) (node_stop n) (fun _ => keeps (W := W) ks).
Proof.
  intros Hf Hn. apply keeps_status. intros l Hk answer acts Hc. rewrite stop_effect, cons_middle, app_assoc.
  assert (covered l [] (acts ++ [Told (Container n.(node_id))])) as Ht.
  { apply covered_told; [by eapply kind_things|done..]. }
  destruct answer as [[[] ? ?]|]; rewrite ?app_nil_r; try done. by apply covered_gone.
Qed.

(** A variable is moved out of: its things are up, and in nobody's hands
    yet. *)
Lemma keeps_disown slot n ks :
  sound (keeps ((slot, KNode n) :: ks)) (disown slot) (fun _ => keeping (W := W) [Container n.(node_id)] ks).
Proof.
  intros s (l & Hl & ([|] & o & lpost & -> & E & Ek & <-)%(kinds_split _ [])); [|done].
  pose proof (sound_disown [] slot o lpost [] s Hl) as Hd. unfold disown, set_held in *. cbn in Hd.
  exists lpost. split; [|done]. destruct o; try discriminate Ek. by injection Ek as ->.
Qed.

Lemma keeps_safe ks (s : Host W) : keeps ks s -> safe s.
Proof. intros (l & Hl & _). by exists l. Qed.
End kinds.
