(* ===== verification/Runs.v ===== *)
(** What every scenario of the test rig leaves behind: the scripts of
    Scripts, each step by what it starts, over the drops of Teardown. *)

From S2P Require Import Prelude External Concrete World Records Load Relay Rig Machine Handles Scripts Teardown.

#[local] Open Scope Z_scope.

(** A listener has the address it is given, or a port of its own choice,
    and an address is no URL. *)
Definition plain_address (a : string) : Prop :=
  a <> any_port /\ trim_start_matches "http://" ("http://" ++ a) = a.
Class Addresses (W : Type) `{Machine W} := {
  bound_address : forall addr w a w', perform (Bind addr) w = Some (Some a, w') ->
    plain_address a /\ (addr = any_port \/ a = addr);
}.

Create HintDb steps.
#[export] Hint Resolve steady_chain_id steady_fetch steady_send steady_json steady_wait
  steady_ready steady_config steady_served steady_start_load steady_join_load steady_report steady_row
  steady_log steady_address steady_tool steady_prepare steady_sign steady_token steady_relay_stop
  steady_root steady_first steady_ask steady_await steady_assert steady_expect steady_panic
  steady_new_handle : steps.

(** The next step keeps what is held. *)
Ltac keep := eapply sound_bind; [apply keeps_steady; solve [eauto 2 with steps]|intros ?].

Section starts.
Context `{SerdeJson} `{UrlLib} {W : Type} `{Machine W} (fuel : nat).

(** ** The fleet *)

Lemma start_nodes_holds fleet root base l started :
  sound (keeps [(fleet, KFleet started)]) (start_nodes fleet root base started l)
    (fun ns => keeps (W := W) [(fleet, KFleet ns)]).
Proof using Type.
  revert started. induction l as [|i l IH]; intros started; cbn [start_nodes].
  { exact (sound_ret started (fun ns => keeps [(fleet, KFleet ns)])). }
  set (node := node_at root base i).
  eapply sound_bind; [by apply (keeping_own [] _ (ONode node)); [|intros ? ?%elem_of_nil]|].
  intros slot. eapply sound_bind; [by apply (keeps_node_start _ slot (KNode node)); left|].
  intros ?. eapply sound_bind; [apply keeps_disown|].
  intros ?. eapply sound_bind; [|intros ?; apply IH].
  intros s Hs. unfold reown, set_held.
  apply (keeping_change _ _ [] _ _ (KFleet (started ++ [node])) [] (fun _ => (fleet, _)) s Hs); [done|].
  intros o Ho. eexists. split_and!; [done..|]. destruct o; try discriminate Ho. injection Ho as ->.
  intros x _ Hx. left. cbn. rewrite fmap_app. apply elem_of_app. cbn in Hx. tauto.
Qed.

Lemma fleet_start_holds root count base :
  sound (keeps []) (fleet_start root count base) (fun p => keeps (W := W) [(p.1, KFleet p.2)]).
Proof using Type.
  eapply sound_bind; [by apply (keeping_own [] _ (OFleet [])); [|intros ? ?%elem_of_nil]|].
  intros fleet. eapply sound_bind; [apply start_nodes_holds|]. intros ns.
  exact (sound_ret (fleet, ns) (fun p => keeps [(p.1, KFleet p.2)])).
Qed.

(** ** The LB and the sidecar *)

Lemma lb_spawn_holds root config reference ks :
  sound (keeps ks) (lb_spawn root config reference) (fun p => keeps (W := W) ((p.1, KLb) :: ks)).
Proof using Type.
  unfold lb_spawn. do 7 keep. cbv zeta.
  eapply sound_bind; [apply keeping_spawn|]. intros [pid|]; [|by intros s Hs; eapply keeps_safe].
  eapply sound_bind; [apply (sound_ret pid (fun _ => keeping [_] ks))|]. intros ?.
  eapply sound_bind; [apply (keeping_own _ _ (OLb _ _)); [by apply forallb_forall|done]|].
  intros lb. exact (sound_ret (lb, _) (fun p => keeps ((p.1, KLb) :: ks))).
Qed.

Lemma writer_start_holds root url port ks : kind_clear KWriter ks = true ->
  sound (keeps ks) (writer_start fuel root url port) (fun p => keeps (W := W) ((p.1, KWriter) :: ks)).
Proof using Type.
  intros Hc. unfold writer_start. cbv zeta. do 7 keep.
  eapply sound_bind; [apply keeping_spawn|]. intros [pid|]; [|by intros s Hs; eapply keeps_safe].
  eapply sound_bind; [apply (sound_ret pid (fun _ => keeping [_] ks))|]. intros ?.
  eapply sound_bind; [by apply (keeping_own _ _ (OWriter _ _))|].
  intros writer. keep. eapply sound_bind; [apply keeps_steady, steady_identity|]. intros ?.
  exact (sound_ret (writer, _) (fun p => keeps ((p.1, KWriter) :: ks))).
Qed.
End starts.

(** ** What a step that ended did *)

Section ended.
Context {W : Type} `{Machine W}.

Lemma bind_ended {A B} (m : Script W A) (f : A -> Script W B) s b s' :
  (m ≫= f) s = (Ended b, s') -> exists a s1, m s = (Ended a, s1) /\ f a s1 = (Ended b, s').
Proof. unfold mbind, script_bind. destruct (m s) as [[a| | | |] s1]; try discriminate. by exists a, s1. Qed.

Lemma ask_ended {A} (q : Ask A) (s s' : Host W) a :
  ask q s = (Ended a, s') -> acts_of s'.(calls) = acts_of s.(calls) ++ effect q a /\
    exists w, perform q s.(machine) = Some (a, w).
Proof.
  unfold ask. destruct (perform q _) as [[a' w]|]; [|done]. intros [= <- <-]. cbn. rewrite acts_snoc. eauto.
Qed.

Lemma expect_ended {A} (x : option A) (s s' : Host W) a : expect x s = (Ended a, s') -> x = Some a /\ s' = s.
Proof. destruct x; [by intros [= <- <-] | done]. Qed.

Lemma await_ended {A} (q : Ask A) (s s' : Host W) a :
  await q s = (Ended a, s') -> acts_of s'.(calls) = acts_of s.(calls) ++ effect q a /\
    exists w, perform q s.(machine) = Some (a, w).
Proof.
  unfold await. destruct (perform q _) as [[a' w]|].
  - intros (? & s1 & (came & s2 & [E _]%ask_ended & Hc)%bind_ended & E1)%bind_ended. injection E1 as <- <-.
    destruct came; [done|]. injection Hc as <- <-. rewrite E. cbn. rewrite app_nil_r, acts_snoc. eauto.
  - by intros ([] & s1 & _ & ?)%bind_ended.
Qed.

(** Once stopped, a relay's task is pending no more. *)
Lemma relay_stop_ended r (s s' : Host W) u :
  relay_stop r s = (Ended u, s') -> Task r.(relay_task) ∉ pending (acts_of s'.(calls)).
Proof.
  intros ([] & s1 & [E1 _]%ask_ended & E)%bind_ended.
  - injection E as <- <-. cbn in E1. rewrite E1, pending_snoc. by intros [_ ?]%elem_of_without.
  - apply bind_ended in E as (? & s2 & [E2 _]%ask_ended & [E3 _]%await_ended). cbn in E2, E3.
    rewrite E3, pending_snoc. by intros [_ ?]%elem_of_without.
Qed.
End ended.

(** ** The rig's servers *)

Section servers.
Context `{SerdeJson} `{UrlLib} {W : Type} `{Machine W} `{!Addresses W} (fuel : nat).

Definition relay_plain (url : string) : Prop := exists a, url = ("http://" ++ a)%string /\ plain_address a.

Lemma bind_relay_holds listen upstream lie ks :
  sound (keeps ks) (bind_relay listen upstream lie) (fun p => keeping (W := W) [Task p.2] ks).
Proof using Type.
  unfold bind_relay. do 4 keep. eapply sound_bind; [by apply keeping_up|]. intros ?.
  exact (sound_ret (_, _) (fun p => keeping [Task p.2] ks)).
Qed.

(** What is up when it returns, and where. *)
Lemma bind_relay_result listen upstream lie (s : Host W) p s' :
  bind_relay listen upstream lie s = (Ended p, s') ->
  acts_of s'.(calls) = acts_of s.(calls) ++ [Up (Task p.2)] /\
  exists a, p.1 = ("http://" ++ a)%string /\ plain_address a /\ (listen = any_port \/ a = listen).
Proof using Type*.
  intros (x & s1 & (E1 & w & Hb)%await_ended & (addr & s2 & [-> ->]%expect_ended & E)%bind_ended)%bind_ended.
  apply bind_ended in E as (up & s3 & [_ ->]%expect_ended & E).
  apply bind_ended in E as (task & s4 & [= <- <-] & E).
  apply bind_ended in E as (? & s5 & [E5 _]%ask_ended & [= <- <-]). cbn in *. rewrite E5, E1, app_nil_r.
  split; [done|]. apply bound_address in Hb as [? ?]. by exists addr.
Qed.

Lemma start_relay_holds servers upstream lie ks : (servers, KServers) ∈ ks -> kind_stacked ks = true ->
  sound (keeps ks) (start_relay servers upstream lie) (fun url s => relay_plain url /\ keeps (W := W) ks s).
Proof using Type*.
  intros (pre & post & ->)%list_elem_of_split Hst s Hs. unfold start_relay, mbind, script_bind.
  pose proof (bind_relay_holds any_port upstream lie _ s Hs) as Hb.
  destruct (bind_relay any_port upstream lie s) as [[[url task]| | | |] s1] eqn:E; try done.
  apply bind_relay_result in E as (_ & a & Eu & Ha & _). cbn. split; [by exists a|]. cbn in Hb.
  apply (keeping_change [Task task] [] pre servers KServers KServers post (fun h =>
    match h.2 with OServers ts => (h.1, OServers (ts ++ [task])) | _ => h end) s1 Hb Hst).
  intros o Ho. destruct o as [| | |ts| |]; try discriminate Ho. eexists. split_and!; [done..|].
  intros x _ Hx. left. cbn in *. rewrite fmap_app. apply elem_of_app. tauto.
Qed.

Lemma relay_start_holds upstream lie ks :
  sound (keeps ks) (relay_start upstream lie)
    (fun r s => relay_plain r.(relay_url) /\ keeps (W := W) ((r.(relay_slot), KRelay r.(relay_task)) :: ks) s).
Proof using Type*.
  intros s Hs. unfold relay_start. unfold mbind at 1, script_bind at 1.
  pose proof (bind_relay_holds any_port upstream lie _ s Hs) as Hb.
  destruct (bind_relay any_port upstream lie s) as [[[url task]| | | |] s1] eqn:E; try done.
  apply bind_relay_result in E as (_ & a & Eu & Ha & _). cbn in Eu, Hb. revert s1 Hb.
  eapply sound_bind; [apply (keeping_own _ _ (ORelay task)); [by apply forallb_forall|done]|].
  intros slot s2 Hs2. cbn. split; [by exists a|done].
Qed.

(** The old task is stopped before the variable names the new one, which
    has the old address. *)
Lemma relay_restart_holds r lie pre post :
  relay_plain r.(relay_url) -> kind_stacked (pre ++ (r.(relay_slot), KRelay r.(relay_task)) :: post) = true ->
  sound (keeps (pre ++ (r.(relay_slot), KRelay r.(relay_task)) :: post)) (relay_restart r lie)
    (fun r' s => (relay_plain r'.(relay_url) /\ r'.(relay_slot) = r.(relay_slot)) /\
       keeps (W := W) (pre ++ (r.(relay_slot), KRelay r'.(relay_task)) :: post) s).
Proof using Type*.
  intros Hr Hst. set (ks := pre ++ _ :: post).
  assert (sound (keeps ks) (relay_stop r)
    (fun _ s => (Task r.(relay_task) ∉ pending (acts_of s.(calls))) /\ keeps (W := W) ks s)) as Hstop.
  { intros s Hs. pose proof (keeps_steady ks _ (steady_relay_stop r) s Hs) as Hk.
    pose proof (fun u => relay_stop_ended r s (relay_stop r s).2 u) as Hg.
    destruct (relay_stop r s) as [[[]| | | |] s']; try done. split; [by apply (Hg tt)|done]. }
  eapply sound_bind; [exact Hstop|]. intros _ s [Hg Hs]. unfold mbind at 1, script_bind at 1.
  set (listen := trim_start_matches _ _). set (up := r.(relay_upstream)).
  pose proof (bind_relay_holds listen up lie _ s Hs) as Hb.
  destruct (bind_relay listen up lie s) as [[[url task]| | | |] s1] eqn:E; try done.
  apply bind_relay_result in E as (Ea & a & Eu & Ha & Hl). cbn in Ea, Eu, Hb.
  assert (url = r.(relay_url)) as Hurl.
  { destruct Hr as (a0 & Er & Hne & Ht). subst listen. rewrite Er, Ht in Hl.
    destruct Hl as [Hl| ->]; [done|]. by rewrite Er. }
  rewrite bool_decide_eq_true_2 by done. cbn. split; [done|].
  apply (keeping_change _ [] pre _ _ (KRelay task) post (fun _ => (r.(relay_slot), _)) s1 Hb).
  - unfold ks in Hst. clear -Hst. induction pre as [|h pre IH]; cbn in *; [done|].
    rewrite !andb_true_iff in Hst |- *. destruct Hst as [Hc Hst]. split; [|by apply IH].
    unfold kind_clear in *. rewrite forallb_app in *. cbn in *. by destruct h as [? []].
  - intros o Ho. eexists. split_and!; [done..|]. destruct o; try discriminate Ho. injection Ho as ->.
    intros x Hin Hx. left. cbn in *. rewrite Ea, pending_snoc in Hin. cbn in Hin.
    destruct Hx as [->%list_elem_of_singleton|?]; [|done].
    apply elem_of_cons in Hin as [[= ->]|?]; [by left|done].
Qed.

Lemma bind_beacon_holds ks :
  sound (keeps ks) bind_beacon (fun p => keeps (W := W) ((p.1, KServers) :: ks)).
Proof using Type.
  unfold bind_beacon. do 3 keep. eapply sound_bind; [by apply keeping_up|]. intros ?.
  eapply sound_bind; [apply (keeping_own _ _ (OServers [_])); [by apply forallb_forall|done]|].
  intros beacon. exact (sound_ret (beacon, _) (fun p => keeps ((p.1, KServers) :: ks))).
Qed.
End servers.

(** ** The scenarios *)

Section scenarios.
Context `{SerdeJson} `{UrlLib} `{Lowercase} {W : Type} `{Machine W} `{!Addresses W} (fuel : nat).

Lemma start_stack_holds :
  sound (keeps []) (start_stack fuel)
    (fun st => keeps (W := W) [(st.(stack_lb), KLb); (st.(stack_fleet), KFleet st.(stack_nodes))]).
Proof using Type.
  unfold start_stack. keep. eapply sound_bind; [apply fleet_start_holds|]. intros [fleet nodes]. do 2 keep.
  eapply sound_bind; [apply lb_spawn_holds|]. intros [lb child]. keep.
  exact (sound_ret (mkStack lb fleet nodes)
    (fun st => keeps [(st.(stack_lb), KLb); (st.(stack_fleet), KFleet st.(stack_nodes))])).
Qed.

Lemma drop_stack_holds st :
  sound (keeps [(st.(stack_lb), KLb); (st.(stack_fleet), KFleet st.(stack_nodes))]) (drop_stack fuel st)
    (fun _ => keeps (W := W) []).
Proof using Type.
  eapply sound_bind; [by apply (keeps_drop fuel [])|]. intros ?. by apply (keeps_drop fuel [] _ _ []).
Qed.

(** The first of the nodes is one of them. *)
Lemma first_node_holds ns ks :
  sound (keeps ks) (first_node ns) (fun n s => n ∈ ns /\ keeps (W := W) ks s).
Proof using Type.
  destruct ns as [|n ns]; intros s Hs; [by eapply keeps_safe|]. split; [by left|done].
Qed.

Lemma boot_holds : sound (keeps []) (boot fuel) (fun _ => keeps (W := W) []).
Proof using Type. eapply sound_bind; [apply start_stack_holds | intros st; apply drop_stack_holds]. Qed.

Lemma kill_recover_holds : sound (keeps []) (kill_recover fuel) (fun _ => keeps (W := W) []).
Proof using Type.
  eapply sound_bind; [apply start_stack_holds|]. intros st.
  eapply sound_bind; [apply first_node_holds|]. intros victim. apply sound_pure. intros Hv.
  do 3 keep.
  eapply sound_bind; [by apply (keeps_node_stop _ st.(stack_fleet) (KFleet st.(stack_nodes))); [right; left|]|].
  intros ?. do 5 keep.
  eapply sound_bind; [by apply (keeps_node_start _ st.(stack_fleet) (KFleet st.(stack_nodes))); [right; left|]|].
  intros ?. keep. apply drop_stack_holds.
Qed.

Lemma distribution_holds : sound (keeps []) (distribution fuel) (fun _ => keeps (W := W) []).
Proof using Type.
  eapply sound_bind; [apply start_stack_holds|]. intros st. do 7 keep.
  case_match; [by intros s Hs; eapply keeps_safe|]. do 2 keep. apply drop_stack_holds.
Qed.

Lemma denylist_holds : sound (keeps []) (denylist fuel) (fun _ => keeps (W := W) []).
Proof using Type.
  eapply sound_bind; [apply start_stack_holds|]. intros st. do 10 keep. apply drop_stack_holds.
Qed.

Lemma forward_to_node_holds : sound (keeps []) (forward_to_node fuel) (fun _ => keeps (W := W) []).
Proof using Type.
  eapply sound_bind; [apply start_stack_holds|]. intros st.
  eapply sound_bind; [apply first_node_holds|]. intros victim. apply sound_pure. intros Hv.
  eapply sound_bind; [by apply (keeps_node_stop _ st.(stack_fleet) (KFleet st.(stack_nodes))); [right; left|]|].
  intros ?. do 3 keep.
  eapply sound_bind; [by apply (keeps_node_start _ st.(stack_fleet) (KFleet st.(stack_nodes))); [right; left|]|].
  intros ?. do 9 keep. apply drop_stack_holds.
Qed.

(** One chain: its sidecar and its node. *)
Definition chain_kinds (c : Chain1) (ns : list Node) : list (nat * Kind) :=
  [(c.(chain1_writer), KWriter); (c.(chain1_fleet), KFleet ns)].

Lemma one_chain_holds :
  sound (keeps []) (one_chain fuel) (fun c s => exists ns, keeps (W := W) (chain_kinds c ns) s).
Proof using Type.
  unfold one_chain. keep. eapply sound_bind; [apply fleet_start_holds|]. intros [fleet nodes]. do 2 keep.
  eapply sound_bind; [by apply writer_start_holds|]. intros [writer url] s Hs. by exists nodes.
Qed.

Lemma drop_chain_holds c ns : sound (keeps (chain_kinds c ns)) (drop_chain fuel c) (fun _ => keeps (W := W) []).
Proof using Type.
  eapply sound_bind; [by apply (keeps_drop fuel [])|]. intros ?. by apply (keeps_drop fuel [] _ _ []).
Qed.

Lemma honest_pair_holds relays node ks : (relays, KServers) ∈ ks -> kind_stacked ks = true ->
  sound (keeps ks) (honest_pair relays node) (fun _ => keeps (W := W) ks).
Proof using Type*.
  intros Hr Hst. eapply sound_bind; [by apply start_relay_holds|]. intros first. apply sound_pure. intros _.
  eapply sound_bind; [by apply start_relay_holds|]. intros second s [_ Hs]. exact Hs.
Qed.

Lemma spawn_marketplace_holds c providers health marketplace rest reference ks :
  sound (keeps ks) (spawn_marketplace fuel c providers health marketplace rest reference)
    (fun lb => keeps (W := W) ((lb, KLb) :: ks)).
Proof using Type.
  unfold spawn_marketplace. keep. eapply sound_bind; [apply lb_spawn_holds|]. intros [lb child]. keep.
  exact (sound_ret lb (fun lb => keeps ((lb, KLb) :: ks))).
Qed.

Lemma keep_each {A} (f : A -> Script W unit) l ks : (forall x, steady (f x)) ->
  sound (keeps ks) (for_each_script f l) (fun _ => keeps (W := W) ks).
Proof using Type. intros Hf. by apply keeps_steady, steady_each. Qed.

(** The scenario's relays, held over the chain. *)
Lemma own_servers ks :
  sound (keeps ks) (own (OServers [])) (fun n => keeps (W := W) ((n, KServers) :: ks)).
Proof using Type.
  apply (keeping_own [] ks (OServers [])); [by apply forallb_forall|]. by intros x ?%elem_of_nil.
Qed.

Ltac each := eapply sound_bind; [apply keep_each; intros ?; steady; apply steady_row|intros ?].

Lemma liar_holds lie check : sound (keeps []) (liar fuel lie check) (fun _ => keeps (W := W) []).
Proof using Type*.
  eapply sound_bind; [apply one_chain_holds|]. intros c. apply sound_exists. intros ns.
  eapply sound_bind; [apply own_servers|]. intros relays.
  eapply sound_bind; [by apply honest_pair_holds; [left|]|]. intros honest.
  eapply sound_bind; [by apply start_relay_holds; [left|]|]. intros liar. apply sound_pure. intros _.
  eapply sound_bind; [apply spawn_marketplace_holds|]. intros lb.
  do 4 keep. each. do 9 keep.
  eapply sound_bind; [by apply (keeps_drop fuel [])|]. intros ?.
  eapply sound_bind; [by apply (keeps_drop fuel [])|]. intros ?. apply drop_chain_holds.
Qed.

Lemma frozen_head_holds : sound (keeps []) (frozen_head fuel) (fun _ => keeps (W := W) []).
Proof using Type*.
  eapply sound_bind; [apply one_chain_holds|]. intros c. apply sound_exists. intros ns.
  eapply sound_bind; [apply own_servers|]. intros relays.
  eapply sound_bind; [apply relay_start_holds|]. intros r0. apply sound_pure. intros Hr0.
  eapply sound_bind; [by apply honest_pair_holds; [right; left|]|]. intros honest.
  eapply sound_bind; [apply spawn_marketplace_holds|]. intros lb. do 2 keep.
  eapply sound_bind; [by apply (relay_restart_holds r0 _ [(lb, KLb)])|].
  intros r1. apply sound_pure. intros [Hr1 Es1]. do 4 keep. each.
  eapply sound_bind; [rewrite <- Es1; by apply (relay_restart_holds r1 _ [(lb, KLb)])|].
  intros r2. apply sound_pure. intros [Hr2 Es2]. rewrite <- Es2. do 4 keep.
  eapply sound_bind; [by apply (keeps_drop fuel [])|]. intros ?.
  eapply sound_bind; [by apply (keeps_drop fuel [])|]. intros ?.
  eapply sound_bind; [by apply (keeps_drop fuel [])|]. intros ?. apply drop_chain_holds.
Qed.

Lemma reference_down_holds : sound (keeps []) (reference_down fuel) (fun _ => keeps (W := W) []).
Proof using Type*.
  eapply sound_bind; [apply one_chain_holds|]. intros c. apply sound_exists. intros ns.
  eapply sound_bind; [apply own_servers|]. intros relays.
  eapply sound_bind; [by apply honest_pair_holds; [left|]|]. intros honest.
  eapply sound_bind; [apply relay_start_holds|]. intros r0. apply sound_pure. intros Hr0.
  eapply sound_bind; [apply spawn_marketplace_holds|]. intros lb. do 6 keep. each. do 4 keep.
  eapply sound_bind; [by apply (relay_restart_holds r0 _ [(lb, KLb)])|].
  intros r1. apply sound_pure. intros [Hr1 Es1]. rewrite <- Es1. do 2 keep. each.
  eapply sound_bind; [by apply (keeps_drop fuel [])|]. intros ?.
  eapply sound_bind; [by apply (keeps_drop fuel [])|]. intros ?.
  eapply sound_bind; [by apply (keeps_drop fuel [])|]. intros ?. apply drop_chain_holds.
Qed.

Lemma offer_accepted_holds : sound (keeps []) (offer_accepted fuel) (fun _ => keeps (W := W) []).
Proof using Type*.
  eapply sound_bind; [apply one_chain_holds|]. intros c. apply sound_exists. intros ns. keep.
  eapply sound_bind; [apply spawn_marketplace_holds|]. intros lb.
  eapply sound_bind; [apply bind_beacon_holds|]. intros [beacon url]. do 12 keep.
  eapply sound_bind; [by apply (keeps_drop fuel [(beacon, KServers)])|]. intros ?.
  eapply sound_bind; [by apply (keeps_drop fuel [])|]. intros ?. apply drop_chain_holds.
Qed.

Lemma scenario_holds sc : sound (keeps []) (run_scenario fuel sc) (fun _ => keeps (W := W) []).
Proof using Type*.
  destruct sc; cbn [run_scenario]; [apply boot_holds | apply distribution_holds | apply denylist_holds
    | apply forward_to_node_holds | apply kill_recover_holds | apply liar_holds | apply frozen_head_holds
    | apply reference_down_holds | apply offer_accepted_holds].
Qed.
End scenarios.

(** * A run of the rig *)

Section rig.
Context `{SerdeJson} `{UrlLib} `{Lowercase} {W : Type} `{Machine W} `{!Addresses W} (fuel : nat).

Lemma run_each_holds l : sound (holds [] []) (run_each fuel l) (fun _ => holds (W := W) [] []).
Proof using Type*.
  induction l as [|[name|sc] l IH]; cbn [run_each]; [by intros s Hs | exact IH |].
  eapply sound_bind; [|intros ?; exact IH]. intros s Hs.
  pose proof (scope_leaves fuel (run_scenario fuel sc) (keeps [])) as Hsc.
  assert (keeps [] s) as Hk by by exists [].
  specialize (Hsc (fun s Hs => sound_weaken _ _ _ _ _ (fun s Hs => Hs) (scenario_holds fuel sc)
    (fun _ s => keeps_safe [] s) s Hs) s Hk).
  destruct (scope fuel (run_scenario fuel sc) s) as [[[]| | | |] s']; try done; by exists [].
Qed.

End rig.

(** A machine where all goes well and the LB takes two seconds to be
    ready; Ctrl-C comes at a time of its own. A child that is asked to
    go stays, and is killed. *)
Definition calm {A} (q : Ask A) : Z * Z -> A * (Z * Z) :=
  match q in Ask A return Z * Z -> A * (Z * Z) with
  | Now => fun w => (w.1, w)
  | CtrlC => fun w => (Z.leb w.2 w.1, w)
  | CtrlCYet => fun w => (true, w)
  | SleepFor d => fun w => (tt, (w.1 + Z.max 0 d, w.2))
  | RunCommand _ => fun w => (Some (mkOutput true (b "1337") []), w)
  | SpawnChild _ _ => fun w => (Some 4242, w)
  | TryWait _ => fun w => (false, w)
  | KillChild _ | WaitChild _ | RemoveFile _ | SpawnTask _ _ | AbortTask _ | WaitTask _ => fun w => (tt, w)
  | OwnDirectory | WorkspaceRoot => fun w => (Some "/rig"%string, w)
  | EnvVar _ => fun w => (None, w)
  | Exists _ | CreateDirAll _ | CreateFile _ | WriteFile _ _ => fun w => (true, w)
  | ReadFile _ => fun w => (None, w)
  | Bind a => fun w => (if bool_decide (a = any_port) then Some "127.0.0.1:40001"%string
                        else if bool_decide (trim_start_matches "http://" ("http://" ++ a) = a)%string
                             then Some a else None, w)
  | TaskFinished _ => fun w => (false, w)
  | Http _ | PlainGet _ => fun w => (Ok (mkHttpResponse 200 None
      [to_vec (Object [("ready"%string, Bool (Z.leb (from_secs 2) w.1))])] BodyDone), w)
  | StartLoad _ _ _ _ _ => fun w => (tt, w)
  | JoinLoad _ => fun w => ([], w)
  end.
#[export] Instance calm_machine : Machine (Z * Z) := { perform _ q w := Some (calm q w) }.
#[export] Instance calm_addresses : Addresses (Z * Z).
Proof.
  constructor. intros addr w a w'. cbn. unfold plain_address. repeat case_bool_decide; intros [= <- <-]; auto.
Qed.
#[export] Instance ascii_lowercase : Lowercase.
Proof.
  by exists (fun s => String.string_of_list_byte (to_ascii_lowercase <$> b s)).
Defined.

Definition calm_host (ctrl_c : Z) : Host (Z * Z) := mkHost (0, ctrl_c) [] [] 0.

