(* ===== verification/Ends.v ===== *)
(** A run of the test rig comes to an end, or to a call that waits on
    another program and is never answered: each of its loops sleeps, and
    gives up past a timeout, on a machine whose clock does not go back. *)

From S2P Require Import Prelude External Concrete World Records Load Relay Rig Machine Handles Scripts Teardown Runs.

#[local] Open Scope Z_scope.

(** The clock of the machine: what it says, that no call takes it back,
    and that a sleep takes its time. A call that waits on no other program
    answers. *)
Class Passing (W : Type) `{Machine W} := {
  time : W -> Z;
  answers : forall A (q : Ask A) w, waits_on_others q = false -> is_Some (perform q w);
  now_is : forall w now w', perform Now w = Some (now, w') -> time w <= now <= time w';
  never_back : forall A (q : Ask A) w a w', perform q w = Some (a, w') -> time w <= time w';
  sleeps : forall d w a w', perform (SleepFor d) w = Some (a, w') -> time w + d <= time w';
}.

(** ** Scripts that end *)

Section ends.
Context {W : Type} `{Machine W} `{!Passing W}.

(** The run stays at a call that waits on another program, which never
    answers it. *)
Definition stuck (s : Host W) : Prop :=
  exists A (q : Ask A), waits_on_others q = true /\ perform q s.(machine) = None.

Lemma stuck_at {A} (q : Ask A) (s : Host W) : perform q s.(machine) = None -> stuck s.
Proof using Type*.
  intros Hq. exists A, q. split; [|done]. destruct (waits_on_others q) eqn:E; [done|].
  destruct (answers A q s.(machine) E) as [? ?]. congruence.
Qed.

(** From a time on: it ends, no earlier, or the scenario is left, or it is
    stuck. *)
Definition ends_from {A} (t : Z) (m : Script W A) : Prop :=
  forall s, t <= time s.(machine) ->
    match m s with
    | (Ended _, s') => t <= time s'.(machine)
    | (Hung, s') => stuck s'
    | (Unfinished, _) => False
    | _ => True
    end.
Definition ends {A} (m : Script W A) : Prop := forall t, ends_from t m.

(** It returns, or is stuck; a drop does. *)
Definition returns_from {A} (t : Z) (m : Script W A) : Prop :=
  forall s, t <= time s.(machine) ->
    match m s with
    | (Ended _, s') => t <= time s'.(machine)
    | (Hung, s') => stuck s'
    | _ => False
    end.
Definition returns {A} (m : Script W A) : Prop := forall t, returns_from t m.

Lemma returns_ends {A} (m : Script W A) : returns m -> ends m.
Proof. intros Hm t s Hs. specialize (Hm t s Hs). by destruct (m s) as [[a| | | |] s']. Qed.

Lemma returns_bind {A B} t (m : Script W A) (f : A -> Script W B) :
  returns_from t m -> (forall a, returns_from t (f a)) -> returns_from t (m ≫= f).
Proof.
  intros Hm Hf s Hs. specialize (Hm s Hs). unfold mbind, script_bind.
  destruct (m s) as [[a| | | |] s']; try done. by apply Hf.
Qed.
Lemma returns_ask {A} (q : Ask A) : returns (ask q).
Proof.
  intros t s Hs. unfold ask. destruct (perform q _) as [[a w]|] eqn:E; [|by apply (stuck_at q)].
  apply never_back in E. cbn. lia.
Qed.
Lemma returns_ret {A} (a : A) : returns (mret a).
Proof. by intros t s Hs. Qed.
Lemma returns_set l : returns (set_held l).
Proof. by intros t s Hs. Qed.
Lemma returns_disown slot : returns (disown slot).
Proof. by intros t s Hs. Qed.
Lemma returns_reown slot o : returns (reown slot o).
Proof. by intros t s Hs. Qed.
Lemma returns_push servers task : returns (push_server servers task).
Proof. by intros t s Hs. Qed.
Lemma returns_handle : returns new_handle.
Proof. by intros t s Hs. Qed.
Lemma returns_owned_at slot : returns (owned_at slot).
Proof. by intros t s Hs. Qed.
Lemma returns_own o : returns (own o).
Proof. by intros t s Hs. Qed.

Lemma ends_at {A} t (m : Script W A) : ends m -> ends_from t m.
Proof. intros Hm. apply Hm. Qed.
Lemma ends_bind {A B} t (m : Script W A) (f : A -> Script W B) :
  ends_from t m -> (forall a, ends_from t (f a)) -> ends_from t (m ≫= f).
Proof.
  intros Hm Hf s Hs. specialize (Hm s Hs). unfold mbind, script_bind.
  destruct (m s) as [[a| | | |] s']; try done. by apply Hf.
Qed.
Lemma ends_panic {A} : ends (panic : Script W A).
Proof. by intros t s Hs. Qed.
Lemma ends_cancelled {A} : ends (cancelled : Script W A).
Proof. by intros t s Hs. Qed.
Lemma ends_assert c : ends (assert_ c : Script W unit).
Proof. by destruct c; intros t s Hs. Qed.
Lemma ends_expect {A} (x : option A) : ends (expect x : Script W A).
Proof. by destruct x; intros t s Hs. Qed.
Lemma ends_await_point : ends await_point.
Proof.
  intros t. apply ends_bind; [apply returns_ends, returns_ask|]. intros []; [apply ends_cancelled | apply returns_ends, returns_ret].
Qed.
Lemma ends_await {A} (q : Ask A) : ends (await q).
Proof.
  intros t s Hs. unfold await. destruct (perform q _) as [[a w]|] eqn:E.
  - apply never_back in E. revert E. set (s1 := answered q a w s). intros E.
    apply (ends_bind t await_point); [apply ends_await_point | intros ?; apply returns_ends, returns_ret | cbn; lia].
  - pose proof (stuck_at q s E) as Hq. unfold mbind, script_bind, ask.
    destruct (answers _ CtrlCYet s.(machine) eq_refl) as [[[] w] Ec]; by rewrite Ec.
Qed.

Lemma bind_ask {A B} (q : Ask A) (f : A -> Script W B) s a w : perform q s.(machine) = Some (a, w) ->
  (ask q ≫= f) s = f a (answered q a w s).
Proof. unfold mbind, script_bind, ask. by intros ->. Qed.

(** A sleep takes its time, and is cancelled or goes on. *)
Lemma await_sleep {A} d (rest : Script W A) s : exists s',
  time s.(machine) + d <= time s'.(machine) /\
  ((_ ← await (SleepFor d); rest) s = (Cancelled, s') \/ (_ ← await (SleepFor d); rest) s = rest s').
Proof using Type*.
  destruct (answers _ (SleepFor d) s.(machine) eq_refl) as [[a w] E].
  destruct (answers _ CtrlC w eq_refl) as [[came w'] Ec].
  pose proof (sleeps _ _ _ _ E). pose proof (never_back _ _ _ _ _ Ec).
  unfold await, await_point, mbind, script_bind, ask. rewrite E. cbn. rewrite Ec.
  destruct came; eexists; (split; [|by auto]); cbn; lia.
Qed.

Lemma ends_sleep {A} t d (rest : Script W A) :
  0 <= d -> ends_from (t + d) rest -> ends_from t (_ ← await (SleepFor d); rest).
Proof using Type*.
  intros Hd Hr s Hs. destruct (await_sleep d rest s) as (s' & Ht & [-> | ->]); [done|].
  specialize (Hr s' ltac:(lia)). destruct (rest s') as [[a| | | |] s2]; try done. lia.
Qed.

(** The clock is read. *)
Lemma now_answered (s : Host W) : exists now w,
  perform Now s.(machine) = Some (now, w) /\ time s.(machine) <= now <= time w.
Proof using Type*.
  destruct (answers _ Now s.(machine) eq_refl) as [[now w] E]. exists now, w. split; [done|by apply now_is].
Qed.

Lemma ends_now {A} t (f : Z -> Script W A) :
  (forall now, t <= now -> ends_from now (f now)) -> ends_from t (now ← ask Now; f now).
Proof using Type*.
  intros Hf s Hs. destruct (now_answered s) as (now & w & E & Hn). rewrite (bind_ask _ _ _ _ _ E).
  specialize (Hf now ltac:(lia) (answered Now now w s) ltac:(cbn; lia)).
  destruct (f _ _) as [[a| | | |] s']; try done. lia.
Qed.

Lemma returns_now {A} t (f : Z -> Script W A) :
  (forall now, t <= now -> returns_from now (f now)) -> returns_from t (now ← ask Now; f now).
Proof using Type*.
  intros Hf s Hs. destruct (now_answered s) as (now & w & E & Hn). rewrite (bind_ask _ _ _ _ _ E).
  specialize (Hf now ltac:(lia) (answered Now now w s) ltac:(cbn; lia)).
  destruct (f _ _) as [[a| | | |] s']; try done. lia.
Qed.

Lemma returns_sleep {A} t d (rest : Script W A) :
  0 <= d -> returns_from (t + d) rest -> returns_from t (_ ← ask (SleepFor d); rest).
Proof using Type*.
  intros Hd Hr s Hs. destruct (answers _ (SleepFor d) s.(machine) eq_refl) as [[a w] E].
  rewrite (bind_ask _ _ _ _ _ E). apply sleeps in E.
  specialize (Hr (answered (SleepFor d) a w s) ltac:(cbn; lia)).
  destruct (rest _) as [[?| | | |] s']; try done. lia.
Qed.

(** The end of a round: it gives up past the timeout, or sleeps and goes
    on; [n] more rounds are enough. *)
Lemma ends_retry {A} t started timeout d n (rest : Script W A) :
  0 <= d -> started <= t -> timeout - (t - started) <= Z.of_nat n * d ->
  (forall n' t', n = S n' -> t + d <= t' -> ends_from t' rest) ->
  ends_from t (now ← ask Now; _ ← assert_ (Z.ltb (since now started) timeout);
               _ ← await (SleepFor d); rest).
Proof.
  intros Hd Hst Hn Hr. apply ends_now. intros now Hnow.
  destruct (Z.ltb_spec (since now started) timeout) as [Hlt|]; [|by intros s Hs].
  apply ends_bind; [apply ends_assert|]. intros ?. apply ends_sleep; [done|].
  destruct n as [|n]; [unfold since in Hlt; lia | apply (Hr n); [done|lia]].
Qed.
End ends.

(** Goes through a script whose steps end. *)
Ltac ending :=
  repeat first
    [ progress intros
    | progress cbv zeta
    | match goal with |- ends _ => intros ? end
    | simple apply ends_await | simple apply ends_now | simple apply ends_bind | simple apply ends_panic
    | simple apply ends_cancelled | simple apply ends_assert | simple apply ends_expect
    | match goal with H : context [ends _] |- _ => simple apply H end
    | simple apply returns_ends;
      first [ simple apply returns_ask | simple apply returns_ret
            | simple apply returns_disown | simple apply returns_reown | simple apply returns_push
            | simple apply returns_handle | simple apply returns_own ]
    | case_match ].

(** ** Drops *)

Section drops.
Context {W : Type} `{Machine W} `{!Passing W} (fuel : nat).

(** Each round sleeps, and at the deadline the process is killed. *)
Lemma reap_returns n child deadline t : deadline - t <= Z.of_nat n * (50 * 1000000) ->
  returns_from (W := W) t (reap (S n) child deadline).
Proof.
  revert t. induction n as [|n IH]; intros t Hn; cbn [reap]; apply returns_now; intros now Hnow;
    destruct (Z.ltb_spec now deadline) as [Hlt|];
    try (apply returns_bind; [apply returns_ask | intros ?; apply returns_ask]); [lia|].
  apply returns_bind; [apply returns_ask|]. intros []; [apply returns_ret|].
  apply returns_sleep; [lia|]. apply IH. lia.
Qed.

Lemma drop_each_returns {A} (drop : A -> Script W unit) l :
  (forall x, returns (drop x)) -> returns (drop_each drop l).
Proof.
  intros Hd. induction l as [|x l IH]; cbn [drop_each]; intros t; [apply returns_ret|].
  apply returns_bind; [apply Hd | intros ?; apply IH].
Qed.

Lemma drop_owned_returns o : (201 <= fuel)%nat -> returns (W := W) (drop_owned fuel o).
Proof.
  intros Hf.
  assert (forall n, returns (W := W) (node_drop n)) as Hn.
  { intros n t. apply returns_bind; [apply returns_ask | intros ?; apply returns_ret]. }
  destruct o as [n|ns|child pid|ts|tk|child key]; cbn [drop_owned]; [apply Hn | by apply drop_each_returns | |
    by apply drop_each_returns; intros ?; apply returns_ask | apply returns_ask | ].
  - intros t. apply returns_bind; [apply returns_ask|]. intros ?.
    apply returns_now. intros now Hnow.
    destruct fuel as [|n]; [lia|]. apply reap_returns. unfold from_secs, NANOS. lia.
  - intros t. unfold writer_drop. repeat (apply returns_bind; [apply returns_ask | intros ?]).
    apply returns_ask.
Qed.

Lemma drop_slot_returns slot : (201 <= fuel)%nat -> returns (W := W) (drop_slot fuel slot).
Proof.
  intros Hf t. apply returns_bind; [apply returns_owned_at|]. intros o.
  apply returns_bind; [apply returns_disown|]. intros ?.
  destruct o as [o|]; [by apply drop_owned_returns | apply returns_ret].
Qed.

Lemma unwind_returns l : (201 <= fuel)%nat -> returns (W := W) (unwind_all fuel l).
Proof.
  intros Hf. induction l as [|[slot o] l IH]; cbn [unwind_all]; intros t; [apply returns_ret|].
  apply returns_bind; [apply returns_set|]. intros ?.
  apply returns_bind; [by apply drop_owned_returns | intros ?; apply IH].
Qed.

Lemma scope_ends {A} (m : Script W A) : (201 <= fuel)%nat ->
  ends m -> ends (scope fuel m).
Proof.
  intros Hf Hm t s Hs. specialize (Hm t s Hs). unfold scope. destruct (m s) as [ending s'].
  pose proof (unwind_returns s'.(held) Hf) as Hu.
  destruct ending; try done;
    specialize (Hu _ s' (Z.le_refl _)); destruct (unwind_all _ _ s') as [[[]| | | |] s2]; try done. lia.
Qed.
End drops.

(** ** The waits *)

Section waits.
Context `{SerdeJson} `{UrlLib} `{Lowercase} {W : Type} `{Machine W} `{!Passing W} (fuel : nat).
Abbreviation ends := (ends (W := W)) (only parsing).

Lemma ends_fetch : ends fetch_nodes.
Proof using Type. unfold fetch_nodes, send, expect_answer, json, await_point. ending. Qed.

Lemma ends_wait_loop n started timeout condition t :
  started <= t -> timeout - (t - started) <= Z.of_nat n * (200 * 1000000) ->
  ends_from (W := W) t (wait_loop (S n) started timeout condition).
Proof using Type*.
  revert t. induction n as [|n IH]; intros t Hst Hn; cbn [wait_loop];
    (apply ends_bind; [apply ends_fetch|]; intros nodes; apply ends_bind; [apply ends_expect|]; intros [];
     [apply returns_ends, returns_ret|]; eapply ends_retry; [lia|done|exact Hn|]; intros n' t' E Ht'; try done).
  apply IH; lia.
Qed.

(** Ten minutes' worth of rounds are more than any wait takes. *)
Lemma ends_wait timeout condition : timeout <= from_secs 120 -> (601 <= fuel)%nat ->
  ends (wait_nodes fuel timeout condition).
Proof using Type*.
  unfold from_secs, NANOS. intros Ht Hf t. apply ends_now. intros now Hnow. destruct fuel as [|n]; [lia|].
  apply ends_wait_loop; lia.
Qed.

Lemma ends_ready child : (601 <= fuel)%nat -> ends (wait_ready fuel child).
Proof using Type*.
  intros Hf t. apply ends_now. intros now Hnow. destruct fuel as [|n]; [lia|].
  assert (forall t started, started <= t -> READY_TIMEOUT - (t - started) <= Z.of_nat n * (500 * 1000000) ->
    ends_from (W := W) t (ready_loop (S n) child started)) as Hl.
  { clear Hf. induction n as [|n IH]; intros t1 started Hst Hn; cbn [ready_loop];
      (apply ends_bind; [apply returns_ends, returns_ask|]; intros []; [apply ends_panic|];
       apply ends_bind; [unfold says_ready, await_point; ending|]; intros []; [apply returns_ends, returns_ret|];
       eapply ends_retry; [lia|done|exact Hn|]; intros n' t' E Ht'; try done).
    apply IH; lia. }
  apply Hl; [lia|]. unfold READY_TIMEOUT, from_secs, NANOS. lia.
Qed.

Lemma ends_identity child url started t n :
  started <= t -> from_secs 30 - (t - started) <= Z.of_nat n * (200 * 1000000) ->
  ends_from (W := W) t (identity_loop (S n) child url started).
Proof using Type*.
  revert t. induction n as [|n IH]; intros t Hst Hn; cbn [identity_loop];
    (apply ends_bind; [apply returns_ends, returns_ask|]; intros []; [apply ends_panic|];
     apply ends_bind; [apply ends_await|]; intros answer; case_match; [apply returns_ends, returns_ret|];
     eapply ends_retry; [lia|done|exact Hn|]; intros n' t' E Ht'; try done).
  apply IH; lia.
Qed.

Lemma ends_command c : ends (run_command c).
Proof using Type. unfold run_command. ending. Qed.
Lemma ends_tool tool command : ends (run_tool_ok tool command).
Proof using Type. unfold run_tool_ok, run_tool. pose proof ends_command. ending. Qed.

Lemma ends_status tool started t n :
  started <= t -> from_secs 15 - (t - started) <= Z.of_nat n * from_secs 1 ->
  ends_from (W := W) t (status_loop (S n) tool started).
Proof using Type*.
  revert t. induction n as [|n IH]; intros t Hst Hn; cbn [status_loop];
    (apply ends_bind; [apply ends_tool|]; intros printed; apply ends_bind; [apply ends_expect|]; intros facts;
     case_match; [apply returns_ends, returns_ret|];
     eapply ends_retry; [done|done|exact Hn|]; intros n' t' E Ht'; try done).
  unfold from_secs, NANOS in *. apply IH; lia.
Qed.

(** ** The scenarios *)

Context (Hfuel : (601 <= fuel)%nat).

Lemma ends_drop slot : ends (drop_slot fuel slot).
Proof using Type*. apply returns_ends, drop_slot_returns. lia. Qed.

Lemma ends_send q : ends (send q).
Proof using Type. unfold send, expect_answer. ending. Qed.
Lemma ends_json r : ends (json r).
Proof using Type. unfold json, await_point. ending. Qed.
Lemma ends_node_stop n : ends (node_stop n).
Proof using Type. unfold node_stop. pose proof ends_command. ending. Qed.
Lemma ends_node_start n : ends (node_start n).
Proof using Type. unfold node_start. pose proof ends_command. ending. Qed.
Lemma ends_start_nodes fleet root base started l : ends (start_nodes fleet root base started l).
Proof using Type.
  pose proof ends_node_start. revert started. induction l as [|i l IH]; intros started; cbn [start_nodes]; ending.
Qed.
Lemma ends_fleet_start root count base : ends (fleet_start root count base).
Proof using Type. unfold fleet_start. pose proof ends_start_nodes. ending. Qed.
Lemma ends_chain_id ns : ends (fleet_chain_id ns).
Proof using Type. unfold fleet_chain_id, first_node. pose proof ends_command. ending. Qed.
Lemma ends_first ns : ends (first_node ns).
Proof using Type. unfold first_node. ending. Qed.
Lemma ends_lb_spawn root config reference : ends (lb_spawn root config reference).
Proof using Type. unfold lb_spawn. ending. Qed.
Lemma ends_config root text : ends (write_config root text).
Proof using Type. unfold write_config. ending. Qed.
Lemma ends_root : ends workspace_root.
Proof using Type. unfold workspace_root. ending. Qed.
Lemma ends_served ns : ends (served_of ns).
Proof using Type. unfold served_of. pose proof ends_fetch. ending. Qed.
Lemma ends_load n : ends (start_load n).
Proof using Type. unfold start_load. ending. Qed.
Lemma ends_join n : ends (join_load n).
Proof using Type. unfold join_load. ending. Qed.
Lemma ends_report st t : ends (report_load st t).
Proof using Type. unfold report_load. ending. Qed.
Lemma ends_row nodes id field v : ends (assert_row nodes id field v).
Proof using Type. unfold assert_row. ending. Qed.
Lemma ends_each {A} (f : A -> Script W unit) l : (forall x, ends (f x)) -> ends (for_each_script f l).
Proof using Type. intros Hf. induction l as [|x l IH]; cbn [for_each_script]; ending. Qed.
Lemma ends_log root : ends (read_lb_log root).
Proof using Type. unfold read_lb_log. ending. Qed.
Lemma ends_bind_relay listen upstream lie : ends (bind_relay listen upstream lie).
Proof using Type. unfold bind_relay. ending. Qed.
Lemma ends_start_relay servers upstream lie : ends (start_relay servers upstream lie).
Proof using Type. unfold start_relay. pose proof ends_bind_relay. ending. Qed.
Lemma ends_relay_start upstream lie : ends (relay_start upstream lie).
Proof using Type. unfold relay_start. pose proof ends_bind_relay. ending. Qed.
Lemma ends_relay_stop r : ends (relay_stop r).
Proof using Type. unfold relay_stop, await_point. ending. Qed.
Lemma ends_relay_restart r lie : ends (relay_restart r lie).
Proof using Type.
  unfold relay_restart. pose proof ends_bind_relay. pose proof ends_relay_stop. ending.
Qed.
Lemma ends_writer_start root url port : ends (writer_start fuel root url port).
Proof using Type*.
  unfold writer_start. ending. destruct fuel as [|n]; [lia|]. apply ends_identity; [lia|]. unfold from_secs, NANOS. lia.
Qed.
Lemma ends_address url : ends (writer_address url).
Proof using Type. unfold writer_address, expect_answer. pose proof ends_send. pose proof ends_json. ending. Qed.
Lemma ends_prepare root rpc beacon lb : ends (prepare root rpc beacon lb).
Proof using Type. unfold prepare. pose proof ends_command. ending. Qed.
Lemma ends_beacon : ends bind_beacon.
Proof using Type. unfold bind_beacon. ending. Qed.
Lemma ends_sign tooling agreement port : ends (sign_tunnel fuel tooling agreement port).
Proof using Type*.
  unfold sign_tunnel, read_settings. pose proof ends_tool. ending.
  destruct fuel as [|n]; [lia|]. apply ends_status; [lia|]. unfold from_secs, NANOS. lia.
Qed.
Lemma ends_token agreement token port : ends (try_token agreement token port).
Proof using Type.
  unfold try_token, post_admission, assert_refused. pose proof ends_send. pose proof ends_json. ending.
Qed.

Lemma ends_start_stack : ends (start_stack fuel).
Proof using Type*.
  unfold start_stack. pose proof ends_root. pose proof ends_fleet_start. pose proof ends_chain_id.
  pose proof ends_config. pose proof ends_lb_spawn. pose proof (fun c => ends_ready c Hfuel). ending.
Qed.
Lemma ends_drop_stack st : ends (drop_stack fuel st).
Proof using Type*. unfold drop_stack. pose proof ends_drop. ending. Qed.
Lemma ends_one_chain : ends (one_chain fuel).
Proof using Type*.
  unfold one_chain. pose proof ends_root. pose proof ends_fleet_start. pose proof ends_chain_id.
  pose proof ends_first. pose proof ends_writer_start. ending.
Qed.
Lemma ends_drop_chain c : ends (drop_chain fuel c).
Proof using Type*. unfold drop_chain. pose proof ends_drop. ending. Qed.
Lemma ends_spawn_marketplace c providers health marketplace rest reference :
  ends (spawn_marketplace fuel c providers health marketplace rest reference).
Proof using Type*.
  unfold spawn_marketplace. pose proof ends_config. pose proof ends_lb_spawn.
  pose proof (fun c => ends_ready c Hfuel). ending.
Qed.
Lemma ends_honest relays node : ends (honest_pair relays node).
Proof using Type. unfold honest_pair. pose proof ends_start_relay. ending. Qed.
End waits.

Create HintDb ending.
#[export] Hint Resolve ends_await ends_assert ends_expect ends_fetch ends_first ends_node_stop ends_node_start
  ends_served ends_load ends_join ends_report ends_row ends_send ends_json ends_log ends_start_relay
  ends_relay_start ends_relay_stop ends_relay_restart ends_address ends_prepare ends_beacon ends_sign
  ends_token ends_tool ends_start_stack ends_drop_stack ends_one_chain ends_drop_chain
  ends_spawn_marketplace ends_honest ends_drop : ending.

(** The next steps of a scenario. *)
Ltac next :=
  repeat first
    [ progress cbv zeta
    | match goal with |- ends _ => intros ? end
    | solve [simple apply ends_at; eauto 2 with ending]
    | simple apply ends_now; intros ? ?
    | simple apply ends_wait; [by vm_compute|done]
    | simple apply ends_each; intros ?
    | simple apply ends_bind; [|intros ?]
    | simple apply ends_panic
    | simple apply returns_ends;
      first [ simple apply returns_own | simple apply returns_ask | simple apply returns_ret ]
    | case_match ].

Section rig.
Context `{SerdeJson} `{UrlLib} `{Lowercase} {W : Type} `{Machine W} `{!Passing W} (fuel : nat).
Context (Hfuel : (601 <= fuel)%nat).

Lemma ends_scenario sc : ends (W := W) (run_scenario fuel sc).
Proof using Type*.
  destruct sc; cbn [run_scenario].
  - unfold boot. next.
  - unfold distribution. next.
  - unfold denylist. next.
  - unfold forward_to_node. next.
  - unfold kill_recover. next.
  - unfold liar. next.
  - unfold frozen_head. next.
  - unfold reference_down. next.
  - unfold offer_accepted. next.
Qed.

Lemma ends_each_scenario l : ends (W := W) (run_each fuel l).
Proof using Type*.
  induction l as [|[name|sc] l IH]; cbn [run_each]; intros t; [apply returns_ends, returns_ret | apply IH |].
  apply ends_bind; [apply scope_ends; [lia|apply ends_scenario] | intros ?; apply IH].
Qed.

(** C17: a run of the rig ends with an exit code, or it is at a call that
    waits on another program and that never answers. On a machine whose
    clock does not go back, where a sleep takes its time and where each
    call that waits on no other program answers, none of the loops - the
    waits for the LB, the sidecar, the provider's records, a condition of
    [/nodes], the drop that waits for the LB - goes on for ever: 601 rounds
    are enough for each. What has no deadline is a command of the rig's, the
    wait for a child that was killed or a task that was aborted, and
    [reqwest::get] of the sidecar's [/identity]: only these can hang the
    run, and where they answer the run has an exit code. *)
Theorem every_run_ends i (s : Host W) :
  i = run_all fuel \/ (exists sc, i = run_scenario fuel sc) ->
  match scope fuel i s with
  | (Unfinished, _) => False
  | (Hung, s') => stuck s'
  | _ => is_Some (rig_run fuel i s).1
  end /\
  ((forall A (q : Ask A) w, waits_on_others q = true -> is_Some (perform q w)) ->
   is_Some (rig_run fuel i s).1).
Proof using Type*.
  intros Hi. assert (ends (scope fuel i)) as He.
  { apply scope_ends; [lia|]. destruct Hi as [->|[sc ->]]; [apply ends_each_scenario | apply ends_scenario]. }
  specialize (He _ s (Z.le_refl _)). unfold rig_run. destruct (scope fuel i s) as [[[]| | | |] s']; try done;
    try (split; [by eexists | intros _; by eexists]).
  split; [done|]. intros Ha. destruct He as (A & q & Hq & E). destruct (Ha A q s'.(machine) Hq). congruence.
Qed.
End rig.

(** ** What a wait comes to *)

Section wait.
Context `{SerdeJson} `{UrlLib} {W : Type} `{Machine W} `{!Passing W}.

(** What a wait may come to, from [started] on. *)
Definition wait_outcome (started timeout : Z) (condition : Value -> option bool)
    (e : Ending unit * Host W) : Prop :=
  match e with
  | (Ended _, s') => exists s1 nodes, fetch_nodes s1 = (Ended nodes, s') /\ condition nodes = Some true
  | (Panicked, s') => timeout <= time s'.(machine) - started \/ (exists s1, fetch_nodes s1 = (Panicked, s')) \/
      exists s1 nodes, fetch_nodes s1 = (Ended nodes, s') /\ condition nodes = None
  | (Cancelled, _) => True
  | (Hung, s') => stuck s'
  | (Unfinished, _) => False
  end.

(** The end of a round, where the wait is over or sleeps. *)
Lemma retry_outcome n started timeout condition (rest : Script W unit) (s : Host W) :
  started <= time s.(machine) -> timeout - (time s.(machine) - started) <= Z.of_nat n * (200 * 1000000) ->
  (forall n' s', n = S n' -> time s.(machine) + 200 * 1000000 <= time s'.(machine) ->
     wait_outcome started timeout condition (rest s')) ->
  wait_outcome started timeout condition
    ((now ← ask Now; _ ← assert_ (Z.ltb (since now started) timeout);
      _ ← await (SleepFor (200 * 1000000)); rest) s).
Proof using Type*.
  intros Hst Hn Hr. destruct (now_answered s) as (now & w & E & Hnow). rewrite (bind_ask _ _ _ _ _ E).
  destruct (Z.ltb_spec (since now started) timeout) as [Hlt|Hge]; unfold since in *; [|left; cbn; lia].
  set (s1 := answered Now now w s).
  change (wait_outcome started timeout condition ((_ ← await (SleepFor (200 * 1000000)); rest) s1)).
  destruct (await_sleep (200 * 1000000) rest s1) as (s' & Ht & [-> | ->]); [done|]. cbn [machine s1 answered] in Ht.
  destruct n as [|n]; [lia|]. apply (Hr n); [done|lia].
Qed.

Lemma wait_loop_outcome n started timeout condition (s : Host W) :
  started <= time s.(machine) -> timeout - (time s.(machine) - started) <= Z.of_nat n * (200 * 1000000) ->
  wait_outcome started timeout condition (wait_loop (S n) started timeout condition s).
Proof using Type*.
  revert s. induction n as [|n IH]; intros s Hst Hn; cbn [wait_loop]; unfold mbind at 1, script_bind at 1;
    pose proof (ends_fetch _ s (Z.le_refl _)) as Hf; destruct (fetch_nodes s) as [[nodes| | | |] s1] eqn:Ef;
    try done; try (by right; left; exists s);
    (unfold mbind at 1, script_bind at 1; destruct (condition nodes) as [[]|] eqn:Ec; cbn [expect];
     [by exists s, nodes | | by right; right; exists s, nodes]);
    (eapply retry_outcome; [lia | etransitivity; [|exact Hn]; lia | intros n' s' E Hs'; try done]).
  apply IH; lia.
Qed.

(** A wait returns on an answer its condition holds of, and gives up no
    earlier than its timeout; what else can end it is its own request,
    its condition's [expect] and Ctrl-C. *)
Theorem wait_ends n timeout condition (s : Host W) :
  timeout <= Z.of_nat n * (200 * 1000000) ->
  wait_outcome (time s.(machine)) timeout condition (wait_nodes (S n) timeout condition s).
Proof using Type*.
  intros Hn. unfold wait_nodes. destruct (now_answered s) as (now & w & E & Hnow). rewrite (bind_ask _ _ _ _ _ E).
  pose proof (wait_loop_outcome n now timeout condition (answered Now now w s)) as Ho.
  cbn [machine answered] in Ho. specialize (Ho ltac:(lia) ltac:(lia)).
  destruct (wait_loop _ _ _ _ _) as [[a| | | |] s']; try done. destruct Ho as [?|?]; [left; lia|by right].
Qed.
End wait.

(** The calm machine's clock. *)
#[local] Instance calm_passing : Passing (Z * Z).
Proof.
  refine {| time := fst |}; cbn.
  - intros A q w _. by eexists.
  - intros w now w' [= <- <-]. lia.
  - intros A q w a w' [= E]. destruct q; cbn in E; injection E as <- <-; cbn; lia.
  - intros d w a w' [= <- <-]. cbn. lia.
Defined.

(** * The sidecar's wait has no deadline *)

(** A machine as calm, but for a sidecar that takes a connection and says
    nothing, and nobody presses Ctrl-C. *)
Inductive Silent : Type := mkSilent (clock : Z).
#[local] Instance silent_machine : Machine Silent := {
  perform A q w :=
    match w with
    | mkSilent t =>
        match q in Ask A return option (A * Silent) with
        | PlainGet _ => None
        | CtrlCYet => Some (false, w)
        | q => let '(a, (t, _)) := calm q (t, t + 1) in Some (a, mkSilent t)
        end
    end;
}.

(** The scenario hangs at the first [/identity]: the assertion after it,
    that 30 s have not gone by, is never reached. *)
Lemma silent_sidecar_hangs fuel child url started s :
  waits_on_others (plain_get url) = true /\
  identity_loop (W := Silent) (S fuel) child url started s =
    (Hung, answered (TryWait child) false s.(machine) s).
Proof.
  split; [done|]. destruct s as [[t] held calls next]. cbn [identity_loop]. unfold mbind, script_bind.
  unfold ask, await. cbn. done.
Qed.

(** On the calm machine [boot] passes; no load arrives, and the second
    scenario's assertion panics. *)
Lemma every_run_ends_witness :
  is_Some (rig_run 601 (run_all 601) (calm_host (from_secs 900))).1 /\
  (rig_run 601 (run_all 601) (calm_host (from_secs 900))).1 = Some 101.
Proof.
  split; [|by vm_compute].
  apply (every_run_ends 601); [lia | by left | by eexists].
Defined.

Lemma wait_ends_witness :
  let ready nodes := Some (is_bool (index "ready" nodes) true) in
  let s := calm_host (from_secs 900) in
  wait_outcome (time s.(machine)) (from_secs 5) ready (wait_nodes 26 (from_secs 5) ready s) /\
  (wait_nodes 26 (from_secs 5) ready s).1 = Ended tt.
Proof.
  intros ready s. split; [|by vm_compute].
  refine (wait_ends 25 (from_secs 5) ready s _). by vm_compute.
Defined.
