(* ===== verification/Settings.v ===== *)
(** How the configuration is read from its file: what serde's derives of
    [crates/lb/src/config.rs] make of a TOML document - the settings each
    section knows, their types and their defaults. The TOML text, and the
    texts of durations, sizes and addresses, are other crates'. *)

From S2P Require Import Prelude External Concrete Records Config.

#[local] Open Scope Z_scope.

(** * TOML *)

Inductive Toml : Type :=
| TText (s : string)
| TInt (n : Z)
| TFloat (text : string)
| TBool (x : bool)
| TDate (text : string)
| TList (l : list Toml)
| TTable (fields : list (string * Toml)).

(** [toml::from_str] up to the document's tree, where no key is given
    twice; humantime's durations, bytesize's sizes, the standard
    library's socket addresses (of IPv4, as [Listen] has them), and how a
    struct's visitor is offered an array. *)
Class TomlTexts := {
  toml_tree : string -> option (list (string * Toml));
  duration_text : string -> option Z;
  byte_size : Toml -> option Z;
  socket_addr : string -> option (Z * Z);
  array_fields : list string -> list Toml -> option (list (string * Toml));
}.

Inductive DeError : Type :=
| UnknownField (name : string)
| MissingField (name : string)
| WrongType
| BadText (text : string)
| BadGlm (e : GlmError).

#[export] Instance de_error_eq_dec : EqDecision DeError.
Proof. intros x y. unfold Decision. repeat decide equality. Defined.

(** * Reading a struct *)

Fixpoint setting (name : string) (fields : list (string * Toml)) : option Toml :=
  match fields with
  | [] => None
  | (k, v) :: fields => if bool_decide (k = name) then Some v else setting name fields
  end.

(** What is read of a field, and what it is when it is absent. *)
Definition field {A} (name : string) (read : Toml -> result DeError A) (absent : result DeError A)
    (fields : list (string * Toml)) : result DeError A :=
  match setting name fields with Some v => read v | None => absent end.

Definition ignore {A} (r : result DeError A) : result DeError unit := _ ← r; Ok tt.

(** [deny_unknown_fields]: the visitor goes through what is given, in its
    order, and stops at a name that is not a field's or at a value the
    field's type does not read. *)
Definition schema : Type := list (string * (Toml -> result DeError unit)).
Definition visit (s : schema) (fields : list (string * Toml)) : result DeError unit :=
  for_each_ok (fun f => match List.find (fun k => bool_decide (k.1 = f.1)) s with
                        | Some k => k.2 f.2
                        | None => Err (UnknownField f.1)
                        end) fields.

Section settings.
Context `{Alloy} `{TomlTexts}.

Definition entries (s : schema) (t : Toml) : result DeError (list (string * Toml)) :=
  fields ← match t with
           | TTable fields => Ok fields
           | TList l => ok_or WrongType (array_fields s.*1 l)
           | _ => Err WrongType
           end;
  _ ← visit s fields;
  Ok fields.

(** ** The types of the settings *)

Definition text (v : Toml) : result DeError string := match v with TText s => Ok s | _ => Err WrongType end.
Definition int_to (max : Z) (v : Toml) : result DeError Z :=
  match v with TInt n => if Z.leb 0 n && Z.leb n max then Ok n else Err WrongType | _ => Err WrongType end.
(** [#[serde(with = "humantime_serde")]]. *)
Definition duration (v : Toml) : result DeError Z := s ← text v; ok_or (BadText s) (duration_text s).
Definition size (v : Toml) : result DeError Z := ok_or WrongType (byte_size v).
Definition address (v : Toml) : result DeError (Z * Z) := s ← text v; ok_or (BadText s) (socket_addr s).
Definition wei (v : Toml) : result DeError Wei := s ← text v; ok_or (BadText s) (u256_from_str10 s).
Definition deserialize_glm (v : Toml) : result DeError Wei := s ← text v; map_err BadGlm (glm s).
(** A TOML document has no null: an [Option] that is there is [Some]. *)
Definition present_ {A} (read : Toml -> result DeError A) (v : Toml) : result DeError (option A) :=
  Some <$> read v.
Fixpoint each {A} (read : Toml -> result DeError A) (l : list Toml) : result DeError (list A) :=
  match l with
  | [] => Ok []
  | v :: l => x ← read v; xs ← each read l; Ok (x :: xs)
  end.
Definition list_of {A} (read : Toml -> result DeError A) (v : Toml) : result DeError (list A) :=
  match v with TList l => each read l | _ => Err WrongType end.

Definition known {A} (name : string) (read : Toml -> result DeError A) :
    string * (Toml -> result DeError unit) :=
  (name, fun v => ignore (read v)).

(** ** The sections *)

Definition listen_schema : schema := [known "public" address; known "admin" address]%string.
Definition listen_from (t : Toml) : result DeError Listen :=
  f ← entries listen_schema t;
  public_ ← field "public" address (Ok default_listen.(public)) f;
  admin_ ← field "admin" address (Ok default_listen.(admin)) f;
  Ok (mkListen public_ admin_).

Definition integrity_schema : schema := [known "interval" duration; known "confirm_after" duration]%string.
Definition integrity_from (t : Toml) : result DeError IntegrityConfig :=
  f ← entries integrity_schema t;
  interval_ ← field "interval" duration (Ok default_integrity.(interval)) f;
  confirm_after_ ← field "confirm_after" duration (Ok default_integrity.(confirm_after)) f;
  Ok (mkIntegrityConfig interval_ confirm_after_).

Definition stats_schema : schema := [known "file" text]%string.
Definition stats_from (t : Toml) : result DeError StatsConfig :=
  f ← entries stats_schema t;
  file_ ← field "file" text (Ok default_stats.(file)) f;
  Ok (mkStatsConfig file_ default_stats.(period)).

Definition health_schema : schema :=
  [known "probe_interval" duration; known "probe_timeout" duration; known "flip_after" (int_to u32_max);
   known "max_probe_backoff" duration; known "ref_height_interval" duration;
   known "chainid_check_interval" duration; known "chain_id" (int_to u64_max);
   known "lag_tolerance_blocks" (int_to u64_max)]%string.
Definition health_from (t : Toml) : result DeError Health :=
  let d := default_health in
  f ← entries health_schema t;
  probe_interval_ ← field "probe_interval" duration (Ok d.(probe_interval)) f;
  probe_timeout_ ← field "probe_timeout" duration (Ok d.(probe_timeout)) f;
  flip_after_ ← field "flip_after" (int_to u32_max) (Ok d.(flip_after)) f;
  max_probe_backoff_ ← field "max_probe_backoff" duration (Ok d.(max_probe_backoff)) f;
  ref_height_interval_ ← field "ref_height_interval" duration (Ok d.(ref_height_interval)) f;
  chainid_check_interval_ ← field "chainid_check_interval" duration (Ok d.(chainid_check_interval)) f;
  chain_id_ ← field "chain_id" (present_ (int_to u64_max)) (Ok d.(health_chain_id)) f;
  lag_tolerance_blocks_ ← field "lag_tolerance_blocks" (int_to u64_max) (Ok d.(lag_tolerance_blocks)) f;
  Ok (mkHealth probe_interval_ probe_timeout_ flip_after_ max_probe_backoff_ ref_height_interval_
        chainid_check_interval_ chain_id_ lag_tolerance_blocks_ d.(disable_probing)).

Definition proxy_schema : schema :=
  [known "attempt_timeout" duration; known "request_timeout" duration; known "max_retries" (int_to u32_max);
   known "max_request_size" size; known "max_response_size" size]%string.
Definition proxy_from (t : Toml) : result DeError Proxy :=
  let d := default_proxy in
  f ← entries proxy_schema t;
  attempt_timeout_ ← field "attempt_timeout" duration (Ok d.(attempt_timeout)) f;
  request_timeout_ ← field "request_timeout" duration (Ok d.(request_timeout)) f;
  max_retries_ ← field "max_retries" (int_to u32_max) (Ok d.(max_retries)) f;
  max_request_size_ ← field "max_request_size" size (Ok d.(max_request_size)) f;
  max_response_size_ ← field "max_response_size" size (Ok d.(max_response_size)) f;
  Ok (mkProxy attempt_timeout_ request_timeout_ max_retries_ max_request_size_ max_response_size_).

Definition required_ {A} (name : string) : result DeError A := Err (MissingField name).

Definition provider_schema : schema := [known "id" text; known "url" text]%string.
Definition provider_from (t : Toml) : result DeError ProviderConfig :=
  f ← entries provider_schema t;
  id_ ← field "id" text (required_ "id") f;
  url_ ← field "url" text (required_ "url") f;
  Ok (mkProviderConfig id_ url_).

Definition marketplace_schema : schema :=
  [known "writer_url" text; known "wei_per_call" wei; known "tunnel_server" text;
   known "max_providers" (int_to u32_max); known "remote_port_start" (int_to u16_max);
   known "discovery_interval" duration; known "refresh_interval" duration; known "agreement_life" duration;
   known "listing_life" duration; known "counter_record_life" duration; known "offer_max_lifetime" duration;
   known "settlement_period" duration; known "flush_interval" duration;
   known "gas_warn_below" deserialize_glm]%string.
Definition marketplace_from (t : Toml) : result DeError MarketplaceConfig :=
  f ← entries marketplace_schema t;
  writer_url_ ← field "writer_url" text (Ok default_writer_url) f;
  wei_per_call_ ← field "wei_per_call" wei (required_ "wei_per_call") f;
  tunnel_server_ ← field "tunnel_server" text (required_ "tunnel_server") f;
  max_providers_ ← field "max_providers" (int_to u32_max) (Ok default_max_providers) f;
  remote_port_start_ ← field "remote_port_start" (int_to u16_max) (Ok default_remote_port_start) f;
  discovery_interval_ ← field "discovery_interval" duration (Ok default_discovery_interval) f;
  refresh_interval_ ← field "refresh_interval" duration (Ok default_refresh_interval) f;
  agreement_life_ ← field "agreement_life" duration (Ok default_agreement_life) f;
  listing_life_ ← field "listing_life" duration (Ok default_listing_life) f;
  counter_record_life_ ← field "counter_record_life" duration (Ok default_counter_record_life) f;
  offer_max_lifetime_ ← field "offer_max_lifetime" duration (Ok default_offer_max_lifetime) f;
  settlement_period_ ← field "settlement_period" duration (Ok default_settlement_period) f;
  flush_interval_ ← field "flush_interval" duration (Ok default_flush_interval) f;
  gas_warn_below_ ← field "gas_warn_below" deserialize_glm (Ok default_gas_warn_below) f;
  Ok (mkMarketplaceConfig writer_url_ wei_per_call_ tunnel_server_ max_providers_ remote_port_start_
        discovery_interval_ refresh_interval_ agreement_life_ listing_life_ counter_record_life_
        offer_max_lifetime_ settlement_period_ flush_interval_ gas_warn_below_).

Definition config_schema : schema :=
  [known "listen" listen_from; known "health" health_from; known "proxy" proxy_from;
   known "marketplace" marketplace_from; known "integrity" integrity_from; known "stats" stats_from;
   known "providers" (list_of provider_from)]%string.
Definition config_from (t : Toml) : result DeError Config :=
  let d := default_config in
  f ← entries config_schema t;
  listen_ ← field "listen" listen_from (Ok d.(listen)) f;
  health_ ← field "health" health_from (Ok d.(health)) f;
  proxy_ ← field "proxy" proxy_from (Ok d.(proxy)) f;
  marketplace_ ← field "marketplace" (present_ marketplace_from) (Ok d.(marketplace)) f;
  integrity_ ← field "integrity" (present_ integrity_from) (Ok d.(integrity)) f;
  stats_ ← field "stats" stats_from (Ok d.(stats)) f;
  providers_ ← field "providers" (list_of provider_from) (Ok d.(providers)) f;
  Ok (mkConfig listen_ health_ proxy_ marketplace_ integrity_ stats_ providers_
        d.(reference) d.(reference_key)).

(** [toml::from_str::<Config>], as [Config.parse] uses it. *)
Definition toml_config (s : string) : option Config :=
  fields ← toml_tree s; result_ok (config_from (TTable fields)).
End settings.

(** * What a file can set *)

Section lemmas.
Context `{Alloy} `{TomlTexts}.

(** The settings of a table that reads are the section's, and each is of
    its field's type. *)
Lemma entries_Ok s fields f :
  entries s (TTable fields) = Ok f <-> f = fields /\ visit s fields = Ok tt.
Proof.
  unfold entries. cbn. destruct (visit s fields) as [[]|e]; cbn; [|naive_solver].
  split; [by intros [= <-] | by intros [-> _]].
Qed.

Lemma visit_known s fields : visit s fields = Ok tt -> forall k v, (k, v) ∈ fields -> k ∈ s.*1.
Proof.
  intros Hv%for_each_ok_Ok k v Hin. rewrite Forall_forall in Hv. specialize (Hv _ Hin). cbn in Hv.
  destruct (List.find _ s) as [x|] eqn:E; [|done].
  apply List.find_some in E as [Hx%list_elem_of_In Hk%bool_decide_eq_true]. rewrite <- Hk.
  by apply list_elem_of_fmap_2.
Qed.

Lemma visit_perm s fields fields' : fields ≡ₚ fields' -> visit s fields = Ok tt -> visit s fields' = Ok tt.
Proof.
  unfold visit. rewrite !for_each_ok_Ok. intros Hp Hv. by rewrite <- Hp.
Qed.

Lemma setting_elem fields name v :
  NoDup fields.*1 -> setting name fields = Some v <-> (name, v) ∈ fields.
Proof.
  induction fields as [|[k x] fields IH]; cbn; intros Hd.
  - split; [done | by intros ?%elem_of_nil].
  - apply NoDup_cons in Hd as [Hk Hd]. rewrite elem_of_cons. case_bool_decide as E; subst.
    + split; [intros [= ->]; by left|]. intros [[= ->]|Hin]; [done|]. exfalso. apply Hk.
      by apply (list_elem_of_fmap_2 fst fields (name, v)).
    + rewrite IH by done. split; [by right|]. intros [[= <- <-]|?]; done.
Qed.

Lemma setting_perm fields fields' name :
  NoDup fields.*1 -> fields ≡ₚ fields' -> setting name fields' = setting name fields.
Proof.
  intros Hd Hp. assert (NoDup fields'.*1) as Hd' by (by rewrite <- Hp).
  destruct (setting name fields) as [v|] eqn:E.
  - apply setting_elem in E; [|done]. apply setting_elem; [done|]. by rewrite <- Hp.
  - destruct (setting name fields') as [v|] eqn:E'; [|done].
    apply setting_elem in E'; [|done]. rewrite <- Hp in E'. apply setting_elem in E'; [|done]. congruence.
Qed.

Lemma field_perm {A} name read (absent : result DeError A) fields fields' :
  NoDup fields.*1 -> fields ≡ₚ fields' -> field name read absent fields' = field name read absent fields.
Proof. intros Hd Hp. unfold field. by rewrite (setting_perm fields fields'). Qed.

(** What a field is read as. *)
Lemma field_Ok {A} name read (absent : result DeError A) fields a :
  field name read absent fields = Ok a <->
  (setting name fields = None /\ absent = Ok a) \/ exists v, setting name fields = Some v /\ read v = Ok a.
Proof. unfold field. destruct (setting name fields); naive_solver. Qed.

Lemma present_Ok {A} (read : Toml -> result DeError A) v o : present_ read v = Ok o -> is_Some o.
Proof. unfold present_. destruct (read v); cbn; [|done]. intros [= <-]. by eexists. Qed.

Lemma section_absent {A} name (read : Toml -> result DeError A) fields (d : A) x :
  field name read (Ok d) fields = Ok x -> setting name fields = None -> x = d.
Proof. intros [[_ [= ->]]|(v & E & _)]%field_Ok E'; congruence. Qed.

Lemma section_optional {A} name (read : Toml -> result DeError A) fields x :
  field name (present_ read) (Ok None) fields = Ok x -> setting name fields = None <-> x = None.
Proof.
  intros [[E [= ->]]|(v & E & [y ->]%present_Ok)]%field_Ok; [done|]. rewrite E. by split.
Qed.

Ltac opened := repeat match goal with H : _ ≫= _ = Ok _ |- _ => apply bind_Ok in H as (? & ? & H) end.

Lemma health_hook fields h : field "health" health_from (Ok default_health) fields = Ok h ->
  h.(disable_probing) = false.
Proof.
  intros [[_ [= <-]]|(v & _ & Hv)]%field_Ok; [done|]. unfold health_from in Hv. opened. by injection Hv as <-.
Qed.
Lemma stats_hook fields st : field "stats" stats_from (Ok default_stats) fields = Ok st -> st.(period) = None.
Proof.
  intros [[_ [= <-]]|(v & _ & Hv)]%field_Ok; [done|]. unfold stats_from in Hv. opened. by injection Hv as <-.
Qed.

Lemma config_from_perm fields fields' c :
  NoDup fields.*1 -> fields ≡ₚ fields' -> config_from (TTable fields) = Ok c ->
  config_from (TTable fields') = Ok c.
Proof.
  intros Hd Hp. unfold config_from. intros (f & [-> Hv]%entries_Ok & Hc)%bind_Ok.
  assert (entries config_schema (TTable fields') = Ok fields') as ->.
  { apply entries_Ok. split; [done|]. by apply (visit_perm _ fields). }
  cbn [mbind result_bind]. rewrite <- Hc. by rewrite !(field_perm _ _ _ fields fields' Hd Hp).
Qed.

(** C38: what the configuration file can set: a file that reads names only
    the settings of the seven sections, each section it leaves out is the
    default one, and nothing in it reaches the reference endpoint, its key
    or the two hooks of the tests. In what order its sections come makes
    no difference. *)
Theorem file_sets_its_settings fields c :
  NoDup fields.*1 -> config_from (TTable fields) = Ok c ->
  (forall k v, (k, v) ∈ fields ->
     k ∈ ["listen"; "health"; "proxy"; "marketplace"; "integrity"; "stats"; "providers"]%string) /\
  (setting "listen" fields = None -> c.(listen) = default_listen) /\
  (setting "health" fields = None -> c.(health) = default_health) /\
  (setting "proxy" fields = None -> c.(proxy) = default_proxy) /\
  (setting "marketplace" fields = None <-> c.(marketplace) = None) /\
  (setting "integrity" fields = None <-> c.(integrity) = None) /\
  (setting "stats" fields = None -> c.(stats) = default_stats) /\
  (setting "providers" fields = None -> c.(providers) = []) /\
  c.(reference) = None /\ c.(reference_key) = None /\
  c.(health).(disable_probing) = false /\ c.(stats).(period) = None /\
  (forall fields', fields ≡ₚ fields' -> config_from (TTable fields') = Ok c).
Proof.
  intros Hd Hc. assert (forall fields', fields ≡ₚ fields' -> config_from (TTable fields') = Ok c) as Hperm
    by by (intros; eapply config_from_perm).
  unfold config_from in Hc. apply bind_Ok in Hc as (f & [-> Hv]%entries_Ok & Hc).
  apply bind_Ok in Hc as (l & Hl & Hc). apply bind_Ok in Hc as (h & Hh & Hc).
  apply bind_Ok in Hc as (p & Hpr & Hc). apply bind_Ok in Hc as (m & Hm & Hc).
  apply bind_Ok in Hc as (i & Hi & Hc). apply bind_Ok in Hc as (st & Hst & Hc).
  apply bind_Ok in Hc as (ps & Hps & Hc). injection Hc as <-.
  split; [exact (visit_known config_schema fields Hv)|]. cbn.
  split_and!; try done; try (by eapply section_absent); try (by eapply section_optional);
    [by eapply health_hook | by eapply stats_hook].
Qed.
End lemmas.

(** * A reader of plain documents

    The instance the tests and witnesses run with: sections, arrays of
    sections, and settings that are a quoted text without escapes, a
    whole number or a truth value, one to a line. *)

(** The parts between a character. *)
Fixpoint words (c : ascii) (s : string) : list string :=
  match s with
  | EmptyString => [EmptyString]
  | String d s =>
      if Ascii.eqb d c then EmptyString :: words c s
      else match words c s with
           | w :: ws => String d w :: ws
           | [] => [String d EmptyString]
           end
  end.

Fixpoint skip_blanks (s : string) : string :=
  match s with String " " s => skip_blanks s | _ => s end.
(** Up to a character, which is dropped. *)
Definition before (c : ascii) (s : string) : string := default s (fst <$> split_once c s).

Fixpoint span_digits (s : string) : string * string :=
  match s with
  | String c s' => if is_digit c then prod_map (String c) id (span_digits s') else (EmptyString, s)
  | EmptyString => (EmptyString, EmptyString)
  end.

Definition QUOTE : ascii := ascii_of_nat 34.

Definition plain_value (s : string) : option Toml :=
  match s with
  | String c t =>
      if Ascii.eqb c QUOTE then Some (TText (before QUOTE t))
      else if bool_decide (s = "true"%string) then Some (TBool true)
      else if bool_decide (s = "false"%string) then Some (TBool false)
      else TInt <$> from_str_radix i64_max 10 s
  | EmptyString => None
  end.

(** The document so far, and the section its lines are of. *)
Inductive Header : Type := Root | Of (name : string) | OneOf (name : string).

Fixpoint put_one (name : string) (v : Toml) (root : list (string * Toml)) : list (string * Toml) :=
  match root with
  | [] => [(name, TList [v])]
  | (k, TList l) :: root => if bool_decide (k = name) then (k, TList (l ++ [v])) :: root
                            else (k, TList l) :: put_one name v root
  | f :: root => f :: put_one name v root
  end.

Definition close (h : Header) (fields root : list (string * Toml)) : list (string * Toml) :=
  match h with
  | Root => root ++ fields
  | Of name => root ++ [(name, TTable fields)]
  | OneOf name => put_one name (TTable fields) root
  end.

Fixpoint read_lines (h : Header) (fields root : list (string * Toml)) (l : list string) :
    option (list (string * Toml)) :=
  match l with
  | [] => Some (close h fields root)
  | s :: l =>
      match skip_blanks s with
      | EmptyString | String "#" _ => read_lines h fields root l
      | String "[" (String "[" name) => read_lines (OneOf (before "]" name)) [] (close h fields root) l
      | String "[" name => read_lines (Of (before "]" name)) [] (close h fields root) l
      | s =>
          '(key, v) ← split_once "=" s;
          v ← plain_value (skip_blanks v);
          read_lines h (fields ++ [(before " " key, v)]) root l
      end
  end.

Definition unit_nanos (u : string) : option Z :=
  match u with
  | "ms" => Some MILLIS
  | "s" => Some (from_secs 1)
  | "m" => Some (from_secs 60)
  | "h" => Some (from_secs 3600)
  | "d" => Some (from_secs 86400)
  | _ => None
  end%string.

(** [1m 1s]: numbers with their units, added up. *)
Fixpoint spans (l : list string) : option Z :=
  match l with
  | [] => Some 0
  | w :: l =>
      let '(n, u) := span_digits w in
      n ← from_str_radix u64_max 10 n; u ← unit_nanos u; rest ← spans l; Some (n * u + rest)
  end.

Definition unit_bytes (u : string) : option Z :=
  match u with "B" => Some 1 | "KiB" => Some 1024 | "MiB" => Some MIB | _ => None end%string.

(** [127.0.0.1:8545]. *)
Definition plain_address_of (s : string) : option (Z * Z) :=
  match words ":" s with
  | [ip; port] =>
      parts ← mapM (from_str_radix 255 10) (words "." ip);
      match parts with
      | [p; q; r; t] =>
          port ← from_str_radix u16_max 10 port; Some (p * 16777216 + q * 65536 + r * 256 + t, port)
      | _ => None
      end
  | _ => None
  end.

#[export] Instance plain_texts : TomlTexts := {|
  toml_tree s := read_lines Root [] [] (words (ascii_of_nat 10) s);
  duration_text s := spans (words " " s);
  byte_size v := match v with
                 | TText s => let '(n, u) := span_digits s in
                              n ← from_str_radix u64_max 10 n; u ← unit_bytes u; Some (n * u)
                 | TInt n => Some n
                 | _ => None
                 end;
  socket_addr := plain_address_of;
  array_fields _ _ := None;
|}.

(** A document's lines, where an apostrophe stands for a quote. *)
Definition quotes (s : string) : string :=
  String.string_of_list_ascii
    ((fun c => if Ascii.eqb c "'" then QUOTE else c) <$> String.list_ascii_of_string s).
Fixpoint document (l : list string) : string :=
  match l with
  | [] => EmptyString
  | s :: l => (quotes s ++ String (ascii_of_nat 10) (document l))%string
  end.

Lemma file_sets_its_settings_witness :
  let fields := [("health", TTable [("flip_after", TInt 4)]); ("stats", TTable [])]%string in
  exists c, config_from (TTable fields) = Ok c /\ c.(health).(flip_after) = 4 /\
    c.(listen) = default_listen /\ c.(marketplace) = None /\ c.(reference) = None.
Proof.
  intros fields. destruct (config_from (TTable fields)) as [c|e] eqn:E; [|discriminate E].
  exists c. split; [done|]. destruct (file_sets_its_settings fields c) as
    (_ & Hl & _ & _ & [Hm _] & _ & _ & _ & Hr & _); [|exact E|].
  { apply (bool_decide_eq_true_1 _). by vm_compute. }
  split; [by injection E as <-|]. split; [by apply Hl|]. split; [by apply Hm|exact Hr].
Defined.
