(* ===== verification/TestKit.v ===== *)
(** What the models of the repository's unit tests share: texts with
    quotes, and URLs as far as the tests look at them. A test is a
    definition that is true when its assertions hold. *)

From S2P Require Import Prelude External Config Settings.

#[local] Open Scope Z_scope.

(** Assertions one after another. *)
Definition all_of (l : list bool) : bool := forallb id l.

(** URLs by their scheme; an HTTP one has a host, and a path. *)
#[export] Instance plain_url : UrlLib := {|
  url_parse s :=
    '(scheme, rest) ← split_once ":" s;
    match strip_prefix "//" rest with
    | Some EmptyString => None
    | Some host => Some (if bool_decide (split_once "/" host = None) then s ++ "/" else s)%string
    | None => Some s
    end;
  url_scheme u := before ":" u;
  url_join u s := (u ++ s)%string;
  decode_text := String.string_of_list_byte;
|}.

(** [FixedBytes::repeat_byte]. *)
Definition repeat_byte (width : nat) (x : Z) : Z := foldl (fun a _ => a * 256 + x) 0 (seq 0 width).
