(* ===== verification/ConfigTests.v ===== *)
(** The unit tests of [crates/lb/src/config.rs], run against the model of
    the configuration: each a definition that is true when the test's
    assertions hold, over the documents the test parses. *)

From S2P Require Import Prelude External Concrete Records Reader Config Settings TestKit.

#[local] Open Scope Z_scope.

#[local] Instance complaint_eq_dec : EqDecision Complaint.
Proof. solve_decision. Defined.
#[local] Instance integrity_config_eq_dec : EqDecision IntegrityConfig.
Proof. solve_decision. Defined.

Definition parse_test (l : list string) : result ConfigError Config :=
  Config.parse toml_config (document l) "test".

(** The error that [toml::from_str] gives, which a parse error carries as
    its source. *)
Definition detail (l : list string) : option DeError :=
  fields ← toml_tree (document l);
  match config_from (TTable fields) with Err e => Some e | Ok _ => None end.

Definition parses (l : list string) (f : Config -> bool) : bool :=
  match parse_test l with Ok c => f c | Err _ => false end.
Definition market (l : list string) (f : MarketplaceConfig -> bool) : bool :=
  parses l (fun c => match c.(marketplace) with Some m => f m | None => false end).
Definition accepted (l : list string) : bool := parses l (fun _ => true).
(** Refused by [validate], with this complaint. *)
Definition refused (l : list string) (what : Complaint) : bool :=
  match parse_test l with Err (Invalid w) => bool_decide (w = what) | _ => false end.
(** Refused by the reader of the file. *)
Definition unread (l : list string) (e : DeError) : bool :=
  match parse_test l with Err (CParse _) => bool_decide (detail l = Some e) | _ => false end.

Definition set_to (name value : string) : string := (name ++ " = '" ++ value ++ "'")%string.

Definition empty_config_yields_the_settled_defaults : bool :=
  parses [] (fun c =>
    Z.eqb c.(health).(probe_interval) (from_secs 5) && Z.eqb c.(health).(flip_after) 3 &&
    Z.eqb c.(health).(ref_height_interval) (from_secs 60) && Z.eqb c.(health).(lag_tolerance_blocks) 30 &&
    Z.eqb c.(proxy).(max_retries) 2 && Z.eqb c.(proxy).(max_response_size) (64 * MIB) &&
    Z.eqb c.(listen).(public).2 8545 && bool_decide (length c.(providers) = 0%nat) &&
    match c.(marketplace) with None => true | _ => false end &&
    match c.(integrity) with None => true | _ => false end).

Definition the_integrity_section_yields_the_settled_defaults : bool :=
  parses ["[integrity]"%string] (fun c =>
    match c.(integrity) with
    | Some i => Z.eqb i.(interval) (from_secs (30 * 60)) && Z.eqb i.(confirm_after) (from_secs 30)
    | None => false
    end).

Definition an_unknown_integrity_key_is_an_error : bool :=
  unread ["[integrity]"; "confirm_afte = '30s'"]%string (UnknownField "confirm_afte").

Definition integrity_durations_must_be_positive : bool :=
  forallb (fun f => refused ["[integrity]"; set_to f "0s"]%string
                      (MustBePositive ("integrity." ++ f))) ["interval"; "confirm_after"]%string.

Definition a_confirmation_wait_as_long_as_the_interval_is_refused : bool :=
  refused ["[integrity]"; "interval = '30s'"; "confirm_after = '30s'"]%string
    (ConfirmTooLate (from_secs 30) (from_secs 30)).

(** [config.example.toml], without its comments. *)
Definition example_toml : list string :=
  ["[listen]"; "public = '0.0.0.0:8545'"; "admin = '127.0.0.1:9545'"; "";
   "[health]"; "probe_interval = '5s'"; "probe_timeout = '2s'"; "flip_after = 3"; "max_probe_backoff = '5m'";
   "ref_height_interval = '60s'"; "chainid_check_interval = '5m'"; "lag_tolerance_blocks = 30"; "";
   "[proxy]"; "attempt_timeout = '15s'"; "request_timeout = '30s'"; "max_retries = 2";
   "max_request_size = '2MiB'"; "max_response_size = '64MiB'"; "";
   "[marketplace]"; "writer_url = 'http://127.0.0.1:8560/'"; "wei_per_call = '1000000000000000'";
   "tunnel_server = '203.0.113.10:7000'"; "max_providers = 90"; "remote_port_start = 20000";
   "discovery_interval = '5m'"; "refresh_interval = '1h'"; "agreement_life = '3d'"; "listing_life = '30d'";
   "counter_record_life = '180d'"; "offer_max_lifetime = '1d'"; "settlement_period = '7d'";
   "flush_interval = '1d'"; "gas_warn_below = '0.1'"; "";
   "[integrity]"; "interval = '30m'"; "confirm_after = '30s'"; "";
   "[stats]"; "file = '/var/lib/arkiv-lb/stats.json'"]%string.

Definition the_example_integrity_section_is_the_defaults : bool :=
  parses example_toml (fun c => bool_decide (c.(integrity) = Some default_integrity)).

(** The two lines a deployment must write. *)
Definition MARKETPLACE : list string :=
  ["[marketplace]"; "wei_per_call = '1000000000000000'"; "tunnel_server = '203.0.113.10:7000'"]%string.

Definition the_marketplace_section_yields_the_settled_defaults : bool :=
  market MARKETPLACE (fun m =>
    bool_decide (m.(writer_url) = "http://127.0.0.1:8560/"%string) &&
    Z.eqb m.(mp_wei_per_call) 1000000000000000 &&
    bool_decide (m.(mp_tunnel_server) = "203.0.113.10:7000"%string) && Z.eqb m.(max_providers) 90 &&
    bool_decide (remote_ports m = seqZ 20000 90) &&
    Z.eqb m.(discovery_interval) (from_secs 300) && Z.eqb m.(refresh_interval) (from_secs 3600) &&
    Z.eqb m.(agreement_life) (from_secs 259200) && Z.eqb m.(listing_life) (from_secs 2592000) &&
    Z.eqb m.(counter_record_life) (from_secs 15552000) && Z.eqb m.(offer_max_lifetime) (from_secs 86400) &&
    Z.eqb m.(gas_warn_below) 100000000000000000 &&
    Z.eqb m.(settlement_period) (from_secs (7 * 86400)) && Z.eqb m.(flush_interval) (from_secs 86400)).

Definition a_marketplace_section_without_the_price_or_the_tunnel_is_refused : bool :=
  unread ["[marketplace]"; "tunnel_server = '203.0.113.10:7000'"]%string (MissingField "wei_per_call") &&
  unread ["[marketplace]"; "wei_per_call = '1000000000000000'"]%string (MissingField "tunnel_server").

Definition the_marketplace_section_parses : bool :=
  market (MARKETPLACE ++
    ["writer_url = 'http://10.0.0.2:8560'"; "max_providers = 10"; "remote_port_start = 30000";
     "discovery_interval = '1m'"; "agreement_life = '1d'"; "offer_max_lifetime = '12h'";
     "listing_life = '7d'"; "gas_warn_below = '1.5'"]%string) (fun m =>
    bool_decide (m.(writer_url) = "http://10.0.0.2:8560"%string) && Z.eqb m.(max_providers) 10 &&
    bool_decide (remote_ports m = seqZ 30000 10) && Z.eqb m.(discovery_interval) (from_secs 60) &&
    Z.eqb m.(offer_max_lifetime) (from_secs 43200) && Z.eqb m.(agreement_life) (from_secs 86400) &&
    Z.eqb m.(listing_life) (from_secs 604800) && Z.eqb m.(gas_warn_below) 1500000000000000000).

Definition glm_amounts_are_decimal_with_eighteen_places : bool :=
  forallb (fun x => match glm x.1 with Ok w => Z.eqb w x.2 | Err _ => false end)
    [("0.02", 20000000000000000); ("1", 1000000000000000000); ("0.000000000000000001", 1); ("0", 0)]%string &&
  forallb (fun bad => negb (is_ok (glm bad)))
    ["0.0000000000000000001"; ".5"; "1e3"; "-1"; "0x10"; "one"; ""]%string &&
  unread (MARKETPLACE ++ ["gas_warn_below = '1e3'"]%string) (BadGlm (NotAnAmount "1e3")).

Definition marketplace_zero_durations_are_refused : bool :=
  forallb (fun name => refused (MARKETPLACE ++ [set_to name "0s"]) (MustBePositive ("marketplace." ++ name)))
    ["discovery_interval"; "refresh_interval"; "agreement_life"; "listing_life"; "counter_record_life";
     "offer_max_lifetime"; "settlement_period"; "flush_interval"]%string.

Definition LIFETIMES : list string :=
  ["agreement_life"; "listing_life"; "counter_record_life"; "offer_max_lifetime"]%string.

(** One block more than the maximum. *)
Definition a_lifetime_past_the_chains_maximum_is_refused : bool :=
  forallb (fun name => refused (MARKETPLACE ++ [set_to name "15768002s"])
                         (LifetimeTooLong name (from_secs 15768002))) LIFETIMES &&
  accepted (MARKETPLACE ++ [set_to "counter_record_life" "15768000s"]) &&
  accepted (MARKETPLACE ++ [set_to "listing_life" "15768000s"]).

Definition lifetimes_must_be_even_seconds : bool :=
  forallb (fun name =>
    forallb (fun odd => refused (MARKETPLACE ++ [set_to name odd]) (OddLifetime name))
      ["3s"; "1m 1s"; "2500ms"]%string &&
    accepted (MARKETPLACE ++ [set_to name "4s"] ++
      ((fun x => set_to x.1 x.2) <$>
       List.filter (fun x => negb (bool_decide (x.1 = name)))
         [("flush_interval", "2s"); ("refresh_interval", "2s"); ("discovery_interval", "1s");
          ("offer_max_lifetime", "2s")]%string))) LIFETIMES &&
  accepted (MARKETPLACE ++ [set_to "discovery_interval" "3s"]).

Definition the_cap_fits_one_page : bool :=
  refused (MARKETPLACE ++ ["max_providers = 101"%string]) (MoreThanAPage 101) &&
  accepted (MARKETPLACE ++ ["max_providers = 100"%string]) &&
  market (MARKETPLACE ++ ["max_providers = 0"%string]) (fun m => bool_decide (remote_ports m = [])).

Definition the_discovery_interval_is_shorter_than_the_refresh_interval : bool :=
  refused (MARKETPLACE ++ [set_to "discovery_interval" "1h"; set_to "refresh_interval" "1h"])
    (PollAfterRefresh (from_secs 3600) (from_secs 3600)) &&
  accepted (MARKETPLACE ++ [set_to "discovery_interval" "59m"; set_to "refresh_interval" "1h"]).

Definition a_refreshed_life_outlasts_the_refresh_interval : bool :=
  forallb (fun name =>
    let with_life life := MARKETPLACE ++ [set_to name life; set_to "refresh_interval" "1h";
      set_to "offer_max_lifetime" "30m"; set_to "flush_interval" "1h"] in
    refused (with_life "1h"%string) (ExpiresBeforeRefresh name (from_secs 3600) (from_secs 3600)) &&
    accepted (with_life "2h"%string)) ["agreement_life"; "listing_life"]%string.

Definition the_refresh_interval_is_at_least_a_block : bool :=
  refused (MARKETPLACE ++ [set_to "refresh_interval" "1s"; set_to "discovery_interval" "500ms"])
    (RefreshInOneBlock (from_secs 1)) &&
  accepted (MARKETPLACE ++ [set_to "refresh_interval" "2s"; set_to "discovery_interval" "1s"]).

Definition an_agreement_outlives_the_offer_it_answers : bool :=
  refused (MARKETPLACE ++ [set_to "offer_max_lifetime" "2d"; set_to "agreement_life" "2d"])
    (OfferOutlivesAgreement (from_secs 172800) (from_secs 172800)) &&
  accepted (MARKETPLACE ++ [set_to "offer_max_lifetime" "1d"; set_to "agreement_life" "2d"]).

Definition a_flush_fits_an_agreement : bool :=
  refused (MARKETPLACE ++ [set_to "flush_interval" "4d"]) (FlushTooRare (from_secs 345600) (from_secs 259200)) &&
  accepted (MARKETPLACE ++ [set_to "flush_interval" "3d"]).

Definition the_ports_stay_below_65536 : bool :=
  refused (MARKETPLACE ++ ["max_providers = 3"; "remote_port_start = 65534"]%string) (PastLastPort 65534 3) &&
  market (MARKETPLACE ++ ["max_providers = 3"; "remote_port_start = 65533"]%string)
    (fun m => bool_decide (remote_ports m = [65533; 65534; 65535])).

Definition the_writer_url_must_be_http : bool :=
  refused (MARKETPLACE ++ [set_to "writer_url" "ws://127.0.0.1:8560"])
    (NotHttp "marketplace.writer_url" "ws://127.0.0.1:8560") &&
  refused (MARKETPLACE ++ [set_to "writer_url" "http://"]) (DoesNotParse "marketplace.writer_url" "http://").

Definition chain_id_parses_and_defaults_to_unchecked : bool :=
  parses [] (fun c => bool_decide (c.(health).(health_chain_id) = None)) &&
  parses ["[health]"; "chain_id = 1337"]%string
    (fun c => bool_decide (c.(health).(health_chain_id) = Some 1337)).

Definition zero_durations_and_sizes_are_refused : bool :=
  forallb (fun x => refused ["[" ++ x.1.1 ++ "]"; set_to x.1.2 x.2]%string
                      (MustBePositive (x.1.1 ++ "." ++ x.1.2)))
    [("health", "probe_interval", "0s"); ("health", "probe_timeout", "0s"); ("proxy", "attempt_timeout", "0s");
     ("proxy", "request_timeout", "0s"); ("proxy", "max_request_size", "0B");
     ("proxy", "max_response_size", "0B")]%string.

Definition the_probing_test_hook_is_not_reachable_from_toml : bool :=
  unread ["[health]"; "disable_probing = true"]%string (UnknownField "disable_probing").

Definition the_stats_period_test_hook_is_not_reachable_from_toml : bool :=
  unread ["[stats]"; "period = '1s'"]%string (UnknownField "period").

Definition zero_chainid_check_interval_means_every_round : bool :=
  parses ["[health]"; "chainid_check_interval = '0s'"]%string
    (fun c => Z.eqb c.(health).(chainid_check_interval) 0).

Definition check_intervals_below_the_probe_interval_are_refused : bool :=
  forallb (fun name => refused ["[health]"%string; set_to name "1s"] (ShorterThanProbes name) &&
                       accepted ["[health]"%string; set_to name "5s"])
    ["ref_height_interval"; "chainid_check_interval"]%string.

Definition the_reference_endpoint_is_not_reachable_from_toml : bool :=
  unread [set_to "reference" "http://example.org"] (UnknownField "reference").

Definition the_reference_key_is_not_reachable_from_toml : bool :=
  unread [set_to "reference_key" "secret"] (UnknownField "reference_key").

Definition flip_after_below_two_refuses_with_the_invariant_named : bool :=
  refused ["[health]"; "flip_after = 1"]%string (FlipAfterTooSmall 1).

Definition provider_lines (id url : string) : list string :=
  ["[[providers]]"%string; set_to "id" id; set_to "url" url].

Definition duplicate_provider_id_is_named : bool :=
  refused (provider_lines "node-1" "http://127.0.0.1:1" ++ provider_lines "node-1" "http://127.0.0.1:2")
    (SeenTwice "node-1").

Definition provider_id_charset_is_enforced : bool :=
  refused (provider_lines "Node_1" "http://127.0.0.1:1") (BadHandle "Node_1").

Definition http_and_https_urls_are_accepted : bool :=
  parses (provider_lines "node-1" "http://127.0.0.1:18545" ++ provider_lines "node-2" "https://example.org")
    (fun c => bool_decide (length c.(providers) = 2%nat)).

Definition non_http_schemes_are_refused : bool :=
  forallb (fun url => refused (provider_lines "node-1" url) (NotHttp "provider node-1: url" url))
    ["ftp://x"; "ws://127.0.0.1:8546"; "wss://example.org"; "file:///etc/hosts";
     "unix:/var/run/node.sock"]%string.

Definition an_unparsable_url_is_refused_with_the_provider_named : bool :=
  refused (provider_lines "node-1" "http://") (DoesNotParse "provider node-1: url" "http://").

Definition unknown_keys_are_errors_not_silence : bool :=
  unread ["[health]"; "probe_intreval = '5s'"]%string (UnknownField "probe_intreval").

Definition the_committed_example_parses_and_validates : bool := accepted example_toml.

Definition config_tests : list bool :=
  [empty_config_yields_the_settled_defaults; the_integrity_section_yields_the_settled_defaults;
   an_unknown_integrity_key_is_an_error; integrity_durations_must_be_positive;
   a_confirmation_wait_as_long_as_the_interval_is_refused; the_example_integrity_section_is_the_defaults;
   the_marketplace_section_yields_the_settled_defaults;
   a_marketplace_section_without_the_price_or_the_tunnel_is_refused; the_marketplace_section_parses;
   glm_amounts_are_decimal_with_eighteen_places; marketplace_zero_durations_are_refused;
   a_lifetime_past_the_chains_maximum_is_refused; lifetimes_must_be_even_seconds; the_cap_fits_one_page;
   the_discovery_interval_is_shorter_than_the_refresh_interval;
   a_refreshed_life_outlasts_the_refresh_interval; the_refresh_interval_is_at_least_a_block;
   an_agreement_outlives_the_offer_it_answers; a_flush_fits_an_agreement; the_ports_stay_below_65536;
   the_writer_url_must_be_http; chain_id_parses_and_defaults_to_unchecked;
   zero_durations_and_sizes_are_refused; the_probing_test_hook_is_not_reachable_from_toml;
   the_stats_period_test_hook_is_not_reachable_from_toml; zero_chainid_check_interval_means_every_round;
   check_intervals_below_the_probe_interval_are_refused; the_reference_endpoint_is_not_reachable_from_toml;
   the_reference_key_is_not_reachable_from_toml; flip_after_below_two_refuses_with_the_invariant_named;
   duplicate_provider_id_is_named; provider_id_charset_is_enforced; http_and_https_urls_are_accepted;
   non_http_schemes_are_refused; an_unparsable_url_is_refused_with_the_provider_named;
   unknown_keys_are_errors_not_silence; the_committed_example_parses_and_validates].

(** Every test of the module holds of the model. *)
Theorem config_tests_pass : forallb id config_tests = true.
Proof. by vm_compute. Qed.

(** What the file says of itself: every value in it is the default. *)
Example the_example_is_the_default :
  parses example_toml (fun c => bool_decide (c.(integrity) = Some default_integrity)) = true /\
  (fun c => (c.(listen), c.(health), c.(proxy), c.(stats), c.(providers))) <$> parse_test example_toml =
    Ok (default_listen, default_health, default_proxy, default_stats, []) /\
  (fun c => c.(marketplace)) <$> parse_test example_toml = (fun c => c.(marketplace)) <$> parse_test MARKETPLACE.
Proof. by vm_compute. Qed.
