(* ===== verification/PoolTests.v ===== *)
(** The unit tests of [crates/lb/src/pool.rs], run against the model of
    the pool. The two that race threads on the cursor are left out:
    [next_eligible_spec] and [remove_spec] prove what they sample. *)

From S2P Require Import Prelude External Concrete Pool Config Settings TestKit.

#[local] Open Scope Z_scope.

(** [pool(ids)] of the tests; the URLs parse. *)
Definition pool_of (ids : list string) : Pool :=
  match pool_new 0 ((fun i => (i, "http://127.0.0.1:1/" ++ i)%string) <$> ids) with
  | Ok pl => pl
  | Err _ => empty_pool
  end.
(** [pool.snapshot()[0]] of a pool of one. *)
Definition one : Provider :=
  match entry (pool_of ["a"%string]) 0%nat with
  | Some p => p
  | None => provider_new 0 EmptyString EmptyString Static
  end.

Definition times (n : nat) (f : Provider -> Provider) (p : Provider) : Provider := Nat.iter n f p.
Definition probed (success : bool) : Provider -> Provider := record_health success 3 Probe.
Definition healthy_one : Provider := set_health true one.

(** Selections one after another, and the ids they pick. *)
Fixpoint picks (n : nat) (pl : Pool) : list (option string) :=
  match n with
  | O => []
  | S n =>
      let '(r, pl) := next_eligible (fun _ => 0) pl in
      (r ≫= fun r => id <$> entry pl r) :: picks n pl
  end.
Definition all_pick (n : nat) (i : string) (pl : Pool) : bool :=
  forallb (fun p => bool_decide (p = Some i)) (picks n pl).
Definition count_of (i : string) (l : list (option string)) : nat :=
  length (List.filter (fun p => bool_decide (p = Some i)) l).

Definition a_seeded_count_adds_to_what_the_entry_already_served : bool :=
  let p := seed_served 48213 (record_served 0 one) in
  Z.eqb p.(served) 48214 && Z.eqb p.(served_total) 1.

Definition a_closed_period_leaves_what_was_served_after_its_count_was_taken : bool :=
  let p := subtract_served 10 (times 3 (record_served 0) (seed_served 10 one)) in
  Z.eqb p.(served_total) 3 && Z.eqb p.(served) 3.

Definition a_confirmed_divergence_takes_a_healthy_provider_out : bool :=
  let p := record_integrity Divergence 1204000 healthy_one in
  negb (eligible p) && bool_decide (ineligibility_reason p = Some "integrity"%string).

Definition probe_successes_do_not_readmit_a_diverged_provider_but_a_match_does : bool :=
  let p := times 3 (probed true) (record_integrity Divergence 10 healthy_one) in
  negb (eligible p) && eligible (record_integrity Match 11 p).

Definition stale_and_unknown_leave_the_integrity_gate_as_it_is : bool :=
  let p := record_integrity Unknown 10 healthy_one in
  let q := record_integrity Unknown 13 (record_integrity Stale 12 (record_integrity Divergence 11 p)) in
  eligible p && negb (eligible q) && bool_decide (last_verdict q = Some (Unknown, 13)).

Definition a_diverged_provider_that_is_also_unhealthy_names_its_health_reason : bool :=
  let p := quarantine Chain (record_integrity Divergence 10 healthy_one) in
  bool_decide (ineligibility_reason p = Some "chain"%string) &&
  bool_decide (ineligibility_reason (times 3 (probed true) p) = Some "integrity"%string).

Definition the_last_verdict_is_the_divergence_and_its_height : bool :=
  bool_decide (last_verdict (record_integrity Divergence 1204000 one) = Some (Divergence, 1204000)).

(** The thread sleeps twenty milliseconds between the two moments. *)
Definition a_provider_has_answered_since_a_moment_after_a_served_request_or_a_probe : bool :=
  let before := 0 in
  let p := record_served 0 one in
  let later := 20 * MILLIS in
  negb (answered_since one before) && answered_since p before && negb (answered_since p later) &&
  answered_since (record_answered_probe later p) later.

Definition the_two_gates_are_read_apart : bool :=
  let p := record_integrity Divergence 10 healthy_one in
  let q := record_integrity Match 11 (quarantine Probe p) in
  negb (healthy one) && negb (serving_wrong_data one) && healthy p && serving_wrong_data p &&
  negb (healthy q) && negb (serving_wrong_data q).

Definition every_verdict_survives_the_slot : bool :=
  forallb (fun v => bool_decide (last_verdict (record_integrity v 7 one) = Some (v, 7)))
    [Match; Stale; Divergence; Unknown].

Definition a_provider_never_judged_has_no_verdict : bool := bool_decide (last_verdict one = None).

Definition providers_are_born_ineligible : bool :=
  let pl := pool_of ["a"; "b"]%string in
  forallb (fun r => negb (test_entry pl eligible r)) (snapshot pl) && bool_decide (picks 1 pl = [None]).

Definition empty_pool_selects_nothing : bool := bool_decide (picks 1 (pool_of []) = [None]).

Definition single_eligible_provider_is_always_picked : bool :=
  all_pick 10 "b" (update 1%nat (set_health true) (pool_of ["a"; "b"; "c"]%string)).

Definition an_added_provider_is_selected_once_eligible : bool :=
  let pl := update 0%nat (set_health true) (pool_of ["a"%string]) in
  let added := from_marketplace 0 (repeat_byte 20 187) (repeat_byte 32 1) 20000 in
  let '(r, pl) := pool_add added pl in
  let picked := picks 4 (update r (set_health true) pl) in
  bool_decide (added.(id) = addr_hex (repeat_byte 20 187)) &&
  bool_decide (added.(url) = "http://127.0.0.1:20000/"%string) &&
  all_pick 4 "a" pl &&
  bool_decide (Some "a"%string ∈ picked) && bool_decide (Some added.(id) ∈ picked).

Definition an_unparsable_url_names_its_provider : bool :=
  match pool_new 0 [("good", "http://127.0.0.1:1"); ("broken", "http://")]%string with
  | Err e => bool_decide (e.(invalid_id) = "broken"%string) && bool_decide (e.(invalid_url) = "http://"%string)
  | Ok _ => false
  end.

Definition a_streak_of_agreeing_results_flips_eligibility : bool :=
  let p := times 2 (probed true) one in
  let q := times 3 (probed true) one in
  negb (eligible p) && eligible q && eligible (times 2 (probed false) q) &&
  negb (eligible (times 3 (probed false) q)).

Definition one_disagreeing_result_restarts_the_streak : bool :=
  let p := probed true (times 2 (probed false) one) in
  Z.eqb p.(health_streak) 1 && Z.eqb (times 2 (probed false) p).(health_streak) (-2).

Definition quarantine_evicts_at_once_and_recovery_starts_from_zero : bool :=
  let p := times 5 (probed true) one in
  let q := quarantine Chain p in
  eligible p && negb (eligible q) && Z.eqb q.(health_streak) 0 &&
  negb (eligible (times 2 (probed true) q)) && eligible (times 3 (probed true) q).

(** Only the outer two are in rotation. *)
Definition round_robin_is_even_over_the_eligible : bool :=
  let pl := update 3%nat (set_health true) (update 0%nat (set_health true)
              (pool_of ["a"; "b"; "c"; "d"]%string)) in
  let picked := picks 100 pl in
  Nat.eqb (count_of "a" picked) 50 && Nat.eqb (count_of "d" picked) 50.

Definition pool_tests : list bool :=
  [a_seeded_count_adds_to_what_the_entry_already_served;
   a_closed_period_leaves_what_was_served_after_its_count_was_taken;
   a_confirmed_divergence_takes_a_healthy_provider_out;
   probe_successes_do_not_readmit_a_diverged_provider_but_a_match_does;
   stale_and_unknown_leave_the_integrity_gate_as_it_is;
   a_diverged_provider_that_is_also_unhealthy_names_its_health_reason;
   the_last_verdict_is_the_divergence_and_its_height;
   a_provider_has_answered_since_a_moment_after_a_served_request_or_a_probe; the_two_gates_are_read_apart;
   every_verdict_survives_the_slot; a_provider_never_judged_has_no_verdict; providers_are_born_ineligible;
   empty_pool_selects_nothing; single_eligible_provider_is_always_picked;
   an_added_provider_is_selected_once_eligible; an_unparsable_url_names_its_provider;
   a_streak_of_agreeing_results_flips_eligibility; one_disagreeing_result_restarts_the_streak;
   quarantine_evicts_at_once_and_recovery_starts_from_zero; round_robin_is_even_over_the_eligible].

(** Every test of the module holds of the model. *)
Theorem pool_tests_pass : all_of pool_tests = true.
Proof. by vm_compute. Qed.
