(* ===== verification/RecordTests.v ===== *)
(** The unit tests of [crates/lb/src/chain/records.rs], run against the
    model of the records. JSON documents are their trees. *)

From S2P Require Import Prelude External Concrete Jsonrpc Records Config Settings TestKit.

#[local] Open Scope Z_scope.

#[local] Instance receipt_eq_dec : EqDecision Receipt.
Proof. intros x y. unfold Decision. repeat decide equality. Defined.
#[local] Instance stored_eq_dec T `{EqDecision T} : EqDecision (Stored T).
Proof. solve_decision. Defined.
#[local] Instance result_eq_dec E A `{EqDecision E} `{EqDecision A} : EqDecision (result E A).
Proof. solve_decision. Defined.

Definition LB : string := "0x411e31d7ebbfd636af234954db5f598cd80a878c".
Definition PROVIDER : string := "0xf39fd6e51aad88f6f4ce6ab8827279cfffb92266".
Definition KEY : string := "0x8863000000000000000000000000000000000000000000000000000000009057".
Definition OFFER : string := "0x0ffe000000000000000000000000000000000000000000000000000000000001".
Definition addr_of (text : string) : Address := default 0 (addr_parse text).
Definition key_of (text : string) : EntityKey := default 0 (key_parse text).

Definition payload_tree (encoded : Attributes) : option Value := attributes_payload encoded ≫= from_slice.
(** The entity a read would return for what a write sent. *)
Definition read_back (encoded : Attributes) : ArkivEntity :=
  mkArkivEntity (key_of KEY) (addr_of LB) 401 401 601633 (attributes_to_read encoded).
Definition wire_at (name : string) (encoded : Attributes) : option Value :=
  value_get name (attributes_to_wire encoded).
Definition typed_value (tag : string) (v : Value) : Value := Object [("type", Str tag); ("value", v)]%string.
Definition reads_as {T} `{EqDecision T} `{Record_ T} (encoded : Attributes) (x : T) : bool :=
  bool_decide (decode (read_back encoded) = Ok x).

Definition a_row (created updated : string) (attributes : list (string * Value)) : option ArkivEntity :=
  ArkivEntity_from_json (Object (
    [("key", Str "0xe1d4ab361c0bc9418474a0d4e0700ed5cdb7adcc17fff88737cc15566418f58c");
     ("creator", Str PROVIDER); ("createdAt", Str created); ("updatedAt", Str updated);
     ("expiresAt", Str "0xa93a")]%string ++ attributes)).
Definition schema_row (name tag : string) (indexed : bool) : Value :=
  Object [("name", Str name); ("type", Str tag); ("indexed", Bool indexed)]%string.
Definition read_row (name tag : string) (v : Value) : Value :=
  Object [("name", Str name); ("type", Str tag); ("value", v)]%string.
Definition small_payload : Bytes := b (quotes "{'v':1}").

Definition a_row_as_the_node_sends_it_carries_the_payload_as_an_attribute : bool :=
  match a_row "0x7a" "0x7c"
    [("attributeSchema", Array [schema_row "kind" "str" true; schema_row "offer" "bytes32" true;
                                schema_row "payload" "bytes" false; schema_row "v" "i32" true]);
     ("attributes", Array [read_row "kind" "str" (Str "probe"); read_row "offer" "bytes32" (Str OFFER);
                           read_row "payload" "bytes" (Str "0x7b2276223a317d");
                           read_row "v" "i32" (json_int 1)])]%string with
  | Some e =>
      Z.eqb e.(ent_created_at) 122 && Z.eqb e.(ent_updated_at) 124 &&
      bool_decide (entity_payload e = Some small_payload) && entity_is "probe" e &&
      bool_decide (typed_attributes e !! "offer"%string = Some (AKey (key_of OFFER))) &&
      bool_decide (typed_attributes e !! "payload"%string = Some (ABytes small_payload))
  | None => false
  end &&
  match a_row "0x7a" "0x7a" [] with
  | Some bare => bool_decide (entity_payload bare = None)
  | None => false
  end.

Definition wei_text : Value := Str "1000000000000000".

Definition listing_round_trips : bool :=
  let listing := mkLbListing 1000000000000000 "203.0.113.10:7000" 100 in
  let encoded := encode listing in
  bool_decide (wire_at "kind" encoded = Some (typed_value "str" (Str "rpc.lb_listing"))) &&
  bool_decide (wire_at "v" encoded = Some (typed_value "i32" (json_int 1))) &&
  bool_decide (index "type" (default Null (wire_at "payload" encoded)) = Str "bytes") &&
  bool_decide (index "indexed" (default Null (wire_at "payload" encoded)) = Bool false) &&
  match attributes_to_wire encoded with Object l => Nat.eqb (length l) 3 | _ => false end &&
  bool_decide (payload_tree encoded = Some (Object
    [("wei_per_call", wei_text); ("tunnel_server", Str "203.0.113.10:7000");
     ("max_providers", json_int 100)]%string)) &&
  entity_is KIND_LB_LISTING (read_back encoded) && reads_as encoded listing.

Definition offer_round_trips : bool :=
  let offer := mkOffer (key_of KEY)
    (mkSpecs 7738577 123456 "arkiv-reth/v0.2.0" "lighthouse/v8.2.1" (mkHardware 8 32)) in
  let encoded := encode offer in
  bool_decide (wire_at "lb_listing" encoded = Some (typed_value "key" (Str KEY))) &&
  bool_decide (payload_tree encoded = Some (Object [("specs", Object
    [("chain_id", json_int 7738577); ("head", json_int 123456); ("el", Str "arkiv-reth/v0.2.0");
     ("cl", Str "lighthouse/v8.2.1");
     ("hw", Object [("cpus", json_int 8); ("mem_gb", json_int 32)])])]%string)) &&
  entity_is KIND_OFFER (read_back encoded) && reads_as encoded offer.

Definition agreement_of (wei port : Z) : Agreement := mkAgreement (addr_of PROVIDER) (key_of OFFER) wei port.

Definition agreement_round_trips : bool :=
  let agreement := agreement_of 1000000000000000 20007 in
  let encoded := encode agreement in
  bool_decide (wire_at "provider" encoded = Some (typed_value "addr" (Str PROVIDER))) &&
  bool_decide (wire_at "offer" encoded = Some (typed_value "key" (Str OFFER))) &&
  bool_decide (payload_tree encoded =
    Some (Object [("wei_per_call", wei_text); ("remote_port", json_int 20007)]%string)) &&
  entity_is KIND_AGREEMENT (read_back encoded) && reads_as encoded agreement.

Definition a_stored_record_carries_what_the_chain_added : bool :=
  let agreement := agreement_of 5 20000 in
  bool_decide (stored_decode (read_back (encode agreement)) =
    Ok (mkStored (key_of KEY) (addr_of LB) 401 601633 agreement)).

Definition counter_of (state : CounterState) (count : Z) (closed : option Z) : CounterRecord :=
  mkCounterRecord (key_of KEY) (addr_of PROVIDER) state count 1000000000000000 1204000 closed.

Definition a_counter_record_round_trips_open_and_closed : bool :=
  let open := counter_of Open 48213 None in
  let encoded := encode open in
  bool_decide (wire_at "agreement" encoded = Some (typed_value "key" (Str KEY))) &&
  bool_decide (wire_at "provider" encoded = Some (typed_value "addr" (Str PROVIDER))) &&
  bool_decide (wire_at "state" encoded = Some (typed_value "str" (Str "open"))) &&
  bool_decide (payload_tree encoded = Some (Object
    [("count", json_int 48213); ("wei_per_call", wei_text); ("opened_block", json_int 1204000)]%string)) &&
  entity_is KIND_COUNTER (read_back encoded) && reads_as encoded open &&
  let closed := counter_of Closed 96426 (Some 1506400) in
  let encoded := encode closed in
  bool_decide (wire_at "state" encoded = Some (typed_value "str" (Str "closed"))) &&
  bool_decide (payload_tree encoded = Some (Object
    [("count", json_int 96426); ("wei_per_call", wei_text); ("opened_block", json_int 1204000);
     ("closed_block", json_int 1506400)]%string)) &&
  reads_as encoded closed.

Definition an_unknown_counter_state_is_an_error : bool :=
  let encoded := with_ "state" (AStr "paid")
    (encode (mkCounterRecord (key_of KEY) (addr_of PROVIDER) Open 1 1 1 None)) in
  bool_decide (decode (T := CounterRecord) (read_back encoded) =
    Err (AttributeType "state" "paid" "open or closed")).

Definition receipt_round_trips : bool :=
  let hash := "0x925d000000000000000000000000000000000000000000000000000000000033c7"%string in
  let receipt := mkReceipt (key_of KEY) (addr_of PROVIDER) (key_of OFFER) 48213 1000000000000000
    48213000000000000000 (mkPayout 560048 hash) in
  let encoded := encode receipt in
  bool_decide (wire_at "counter" encoded = Some (typed_value "key" (Str KEY))) &&
  bool_decide (wire_at "provider" encoded = Some (typed_value "addr" (Str PROVIDER))) &&
  bool_decide (wire_at "agreement" encoded = None) &&
  bool_decide (payload_tree encoded = Some (Object
    [("agreement", Str OFFER); ("count", json_int 48213); ("wei_per_call", wei_text);
     ("amount_wei", Str "48213000000000000000");
     ("payout", Object [("chain_id", json_int 560048); ("tx", Str hash)])]%string)) &&
  entity_is KIND_RECEIPT (read_back encoded) && reads_as encoded receipt.

Definition unknown_payload_fields_are_ignored_test : bool :=
  let encoded := with_ PAYLOAD_ATTRIBUTE (ABytes (to_vec (Object
    [("wei_per_call", Str "5"); ("remote_port", json_int 20000); ("added_later", Bool true)]%string)))
    (encode (agreement_of 5 20000)) in
  is_ok (decode (T := Agreement) (read_back encoded)).

Definition another_kind_is_not_this_record : bool :=
  let entity := read_back (encode (mkLbListing 1 "h:1" 1)) in
  negb (entity_is KIND_OFFER entity) &&
  bool_decide (decode (T := Offer) entity = Err (NotThisRecord KIND_OFFER)).

Definition another_schema_version_is_refused_by_name : bool :=
  let encoded := encode (mkLbListing 1 "h:1" 1) in
  let newer := read_back (with_ "v" (AI32 2) encoded) in
  entity_is KIND_LB_LISTING newer &&
  bool_decide (stored_decode (T := LbListing) newer = Err (Version 2)) &&
  bool_decide (decode (T := LbListing) (read_back (base.delete "v"%string encoded)) =
    Err (MissingAttribute "v")).

Definition a_missing_attribute_is_an_error : bool :=
  bool_decide (decode (T := Agreement) (read_back (base.delete "provider"%string (encode (agreement_of 5 20000)))) =
    Err (MissingAttribute "provider")).

(** The provider written as a string, where the record needs an address. *)
Definition an_attribute_of_the_wrong_type_is_an_error : bool :=
  bool_decide (decode (T := Agreement)
      (read_back (with_ "provider" (AStr PROVIDER) (encode (agreement_of 5 20000)))) =
    Err (AttributeType "provider" "str" "addr")).

Definition sixty_four_bit_attributes_read_in_every_encoding : bool :=
  forallb (fun v => bool_decide (from_read (mkArkivAttribute "period" "u64" v) = Some (AU64 1789000000)))
    [json_int 1789000000; Str "1789000000"; Str "0x6aa1f940"].

Definition addresses_and_keys_encode_as_lowercase_hex : bool :=
  bool_decide (index "value" (value_to_wire (AAddr (addr_of "0x411E31d7eBbfd636Af234954db5f598Cd80a878C"))) =
    Str "0x411e31d7ebbfd636af234954db5f598cd80a878c") &&
  bool_decide (index "value" (value_to_wire
      (AKey (key_of "0xABCDEF0000000000000000000000000000000000000000000000000000abcdef"))) =
    Str "0xabcdef0000000000000000000000000000000000000000000000000000abcdef") &&
  bool_decide (addr_parse "0x1234" = None) && bool_decide (key_parse LB = None).

Definition wei_is_a_decimal_string : bool :=
  bool_decide (wei_to_json (2 ^ 128 - 1) = Str "340282366920938463463374607431768211455") &&
  bool_decide (wei_from_json (json_int 1000) = None) && bool_decide (wei_from_json (Str "0x3e8") = None) &&
  bool_decide (wei_from_json (Str "1000") = Some 1000).

Definition record_tests : list bool :=
  [a_row_as_the_node_sends_it_carries_the_payload_as_an_attribute; listing_round_trips; offer_round_trips;
   agreement_round_trips; a_stored_record_carries_what_the_chain_added;
   a_counter_record_round_trips_open_and_closed; an_unknown_counter_state_is_an_error; receipt_round_trips;
   unknown_payload_fields_are_ignored_test; another_kind_is_not_this_record;
   another_schema_version_is_refused_by_name; a_missing_attribute_is_an_error;
   an_attribute_of_the_wrong_type_is_an_error; sixty_four_bit_attributes_read_in_every_encoding;
   addresses_and_keys_encode_as_lowercase_hex; wei_is_a_decimal_string].

(** Every test of the module holds of the model. *)
Theorem record_tests_pass : all_of record_tests = true.
Proof. by vm_compute. Qed.
