(* ===== verification/RequestTests.v ===== *)
(** The unit tests of the modules a request passes through
    ([denylist.rs], [jsonrpc.rs], [forwarder.rs] of [crates/lb/src]), run
    against their models. Bodies that are only searched are their text;
    bodies that are parsed are printed from their trees. *)

From S2P Require Import Prelude External Concrete Denylist Jsonrpc Forwarder Config Settings TestKit.

#[local] Open Scope Z_scope.

(** * [denylist.rs] *)

Definition call_of (method : string) : Bytes :=
  b (quotes "{'jsonrpc':'2.0','id':1,'method':'" ++ method ++ quotes "','params':[]}").
Definition refuses (method : string) : bool := bool_decide (is_Some (denied (call_of method))).
Definition serves (method : string) : bool := bool_decide (denied (call_of method) = None).

Definition each_denied_group_is_caught : bool :=
  forallb refuses
    ["admin_peers"; "engine_forkchoiceUpdatedV3"; "miner_start"; "debug_setHead";
     "debug_setTrieFlushInterval"; "debug_verbosity"; "debug_vmodule"; "debug_freezeClient";
     "eth_sendTransaction"; "eth_sign"; "eth_signTypedData_v4"; "eth_accounts";
     "personal_unlockAccount"; "eth_newFilter"; "eth_getFilterChanges"; "eth_uninstallFilter";
     "eth_subscribe"; "eth_unsubscribe"]%string.

(** The entity-write path and read-only calls are a node's to answer. *)
Definition served_methods_pass : bool :=
  forallb serves
    ["eth_blockNumber"; "eth_getBalance"; "eth_getLogs"; "eth_call"; "eth_getProof"; "arkiv_query";
     "net_version"; "web3_clientVersion"; "eth_sendRawTransaction"; "txpool_status";
     "debug_traceTransaction"; "trace_block"]%string.

Definition case_does_not_evade : bool := refuses "ADMIN_peers" && refuses "eth_SubScribe".

Definition a_batch_is_denied_when_one_entry_is : bool :=
  bool_decide (denied (b (quotes
    "[{'id':1,'method':'eth_blockNumber'},{'id':2,'method':'admin_peers'}]")) = Some (b "admin_")).

(** The accepted false positive. *)
Definition params_carrying_a_denied_name_are_rejected : bool :=
  bool_decide (denied (b (quotes "{'id':1,'method':'arkiv_query','params':['" ++
    "owner = 'admin_bot'" ++ quotes "']}")) = Some (b "admin_")).

(** * [jsonrpc.rs] *)

Definition extract_id_never_fails : bool :=
  bool_decide (extract_id (to_vec (Object [("id"%string, json_int 7)])) = json_int 7) &&
  bool_decide (extract_id (to_vec (Object [("id", Str "abc")]%string)) = Str "abc") &&
  bool_decide (extract_id (b "not json at all") = Null) &&
  bool_decide (extract_id (to_vec (Array [Object [("id"%string, json_int 1)];
                                          Object [("id"%string, json_int 2)]])) = Null) &&
  bool_decide (extract_id (to_vec (Object [("jsonrpc", Str "2.0")]%string)) = Null).

(** * [forwarder.rs] *)

Definition error_item (id : Value) (code : Z) (message : string) : Value :=
  Object [("jsonrpc", Str "2.0"); ("id", id);
          ("error", Object [("code", json_int code); ("message", Str message)])]%string.
Definition is_refusal (v : Value) : bool := is_json_rpc_response (to_vec v).

(** Over the ceiling the body is not parsed, whatever it holds. *)
Definition a_refusal_is_a_json_rpc_object_or_a_batch_of_them_within_the_ceiling : bool :=
  let error := error_item Null (-32700) "Parse error" in
  is_refusal error && is_refusal (Array [error_item (json_int 1) (-32600) "Invalid request"]) &&
  negb (is_refusal (Array [])) &&
  negb (is_refusal (Array
    [Object [("jsonrpc", Str "2.0"); ("id", json_int 1); ("result", Str "ok")]%string;
     Object [("error", Str "x")]%string])) &&
  negb (is_refusal (Object [("error", Str "forbidden")]%string)) &&
  negb (is_json_rpc_response (b "<html>bad request</html>")) && negb (is_json_rpc_response (b "")) &&
  negb (is_json_rpc_response (repeat x20 (Z.to_nat REFUSAL_MAX) ++ to_vec error)).

Definition request_tests : list bool :=
  [each_denied_group_is_caught; served_methods_pass;
   case_does_not_evade; a_batch_is_denied_when_one_entry_is;
   params_carrying_a_denied_name_are_rejected;
   extract_id_never_fails;
   a_refusal_is_a_json_rpc_object_or_a_batch_of_them_within_the_ceiling].

(** Every test of the three modules holds of the models. *)
Theorem request_tests_pass : all_of request_tests = true.
Proof. by vm_compute. Qed.
