(* ===== verification/ChainTests.v ===== *)
(** The unit tests of [crates/lb/src/chain/reader.rs] and
    [crates/lb/src/chain/writer.rs], run against their models. *)

From S2P Require Import Prelude External Concrete Jsonrpc Records Reader Writer Config Settings TestKit.

#[local] Open Scope Z_scope.

(** * [reader.rs] *)

Definition a_query_is_typed_literals_joined_by_and : bool :=
  let lb := default 0 (addr_parse "0x411e31d7ebbfd636af234954db5f598cd80a878c") in
  let listing :=
    default 0 (key_parse "0x8863000000000000000000000000000000000000000000000000000000009057") in
  let query :=
    expires_by 87400 (expires_after 1000
      (attr_key "lb_listing" listing (attr_addr "lb" lb (query_kind KIND_OFFER)))) in
  bool_decide (Reader.text query = Some (
    "kind = str('rpc.offer') AND v = i32(1) " ++
    "AND lb = addr(0x411e31d7ebbfd636af234954db5f598cd80a878c) " ++
    "AND lb_listing = key(0x8863000000000000000000000000000000000000000000000000000000009057) " ++
    "AND $expiresAt > u64(1000) AND $expiresAt <= u64(87400)")%string).

Definition a_query_by_key_names_nothing_but_the_key : bool :=
  let key := repeat_byte 32 171 in
  bool_decide (Reader.text (query_by_key key) = Some ("$key = key(" ++ key_hex key ++ ")")%string).

Definition a_quote_in_a_string_literal_is_doubled : bool :=
  bool_decide (Reader.text (attr_str "state" "o'k" (query_kind "it's")) =
    Some "kind = str('it''s') AND v = i32(1) AND state = str('o''k')"%string).

Definition the_page_limit_is_the_node_maximum : bool := Z.eqb PAGE_LIMIT 100.

(** * [writer.rs] *)

Definition agreement : Attributes := encode (mkAgreement 0 0 1 20000).
(** [wire[a][b]…] *)
Definition at_path (path : list string) (v : Value) : Value := foldl (fun v k => index k v) v path.
Definition seconds (n : Z) : Value := Object [("seconds"%string, json_int n)].

Definition a_create_serializes_to_the_sidecar_shape : bool :=
  let wire := Create_to_json (mkCreate agreement (Seconds 7200)) in
  let payload := at_path ["attributes"; "payload"]%string wire in
  bool_decide (at_path ["expiration"]%string wire = seconds 7200) &&
  bool_decide (at_path ["attributes"; "kind"; "value"]%string wire = Str "rpc.agreement") &&
  bool_decide (value_get "payload" wire = None) &&
  bool_decide (index "type" payload = Str "bytes") &&
  bool_decide (index "indexed" payload = Bool false) &&
  bool_decide ((as_str (index "value" payload) ≫= bytes_parse) = attributes_payload agreement) &&
  bool_decide (is_Some (attributes_payload agreement)).

Definition a_patch_serializes_its_set : bool :=
  let wire := Patch_to_json (mkPatch 0 (with_ PAYLOAD_ATTRIBUTE (ABytes (b "{}")) ∅)) in
  bool_decide (index "entityKey" wire = Str (key_hex 0)) &&
  bool_decide (at_path ["set"; "payload"; "type"]%string wire = Str "bytes") &&
  bool_decide (at_path ["set"; "payload"; "value"]%string wire = Str "0x7b7d").

(** [B256::with_last_byte(i)] *)
Definition extend (i : Z) : Operation := OpExtend (mkExtend i (Seconds 1)).
Definition extends (n : nat) : Batch :=
  foldl (fun batch i => batch_push (extend (Z.of_nat i)) batch) batch_new (seq 0 n).

Definition a_batch_serializes_to_the_sidecar_shape_by_kind : bool :=
  let batch :=
    batch_push (extend 1) (batch_push (OpDelete (mkDelete 0))
      (batch_push (OpCreate (mkCreate agreement (Seconds 2))) batch_new)) in
  let wire := Batch_to_json batch in
  match index "creates" wire with
  | Array [first] => bool_decide (index "expiration" first = seconds 2)
  | _ => false
  end &&
  bool_decide (index "deletes" wire = Array [Object [("entityKey"%string, Str (key_hex 0))]]) &&
  bool_decide (index "extensions" wire =
    Array [Object [("entityKey", Str (key_hex 1)); ("expiration", seconds 1)]%string]) &&
  bool_decide (value_get "patches" wire = None).

Definition halves_split_in_order : bool :=
  match halves (extends 5) with
  | Some (first, second) =>
      Nat.eqb (length first.(operations)) 2 && Nat.eqb (length second.(operations)) 3 &&
      match second.(operations) with
      | OpExtend e :: _ => Z.eqb e.(extend_key) 2
      | _ => false
      end
  | None => false
  end &&
  match halves (extends 1) with None => true | Some _ => false end.

Definition chain_tests : list bool :=
  [a_query_is_typed_literals_joined_by_and;
   a_query_by_key_names_nothing_but_the_key;
   a_quote_in_a_string_literal_is_doubled; the_page_limit_is_the_node_maximum;
   a_create_serializes_to_the_sidecar_shape; a_patch_serializes_its_set;
   a_batch_serializes_to_the_sidecar_shape_by_kind; halves_split_in_order].

(** Every test of the two modules holds of the models. *)
Theorem chain_tests_pass : all_of chain_tests = true.
Proof. by vm_compute. Qed.
