(* ===== verification/CheckTests.v ===== *)
(** The unit tests of [crates/lb/src/monitor.rs] and
    [crates/lb/src/integrity.rs], run against their models. *)

From S2P Require Import Prelude External Concrete Jsonrpc Records Reader Config Settings Pool Monitor Integrity TestKit.

#[local] Open Scope Z_scope.

(** * [monitor.rs] *)

(** Quarantine is never slowed; past it the delay doubles to the cap. *)
Definition probe_delay_spares_quarantine_then_doubles_to_the_cap : bool :=
  let d := default_health in
  let config :=
    mkHealth (from_secs 5) d.(probe_timeout) 3 (from_secs 60) d.(ref_height_interval)
      d.(chainid_check_interval) d.(health_chain_id) d.(lag_tolerance_blocks) d.(disable_probing) in
  let delay failures seconds := Z.eqb (probe_delay config failures) (from_secs seconds) in
  delay 0 5 && delay 1 5 && delay 3 5 && delay 4 10 && delay 5 20 && delay 6 40 &&
  delay 7 60 && delay 1000000 60 && delay u32_max 60.

Definition hex_quantities_parse_and_junk_does_not : bool :=
  bool_decide (hex_quantity (Str "0x0") = Some 0) &&
  bool_decide (hex_quantity (Str "0x2a") = Some 42) &&
  bool_decide (hex_quantity (Str "2a") = None) &&
  bool_decide (hex_quantity (Str "0xzz") = None) &&
  bool_decide (hex_quantity (json_int 42) = None) &&
  bool_decide (hex_quantity Null = None).

(** * [integrity.rs] *)

(** [serde_json]'s text of a value, as far as a test reads it: a string
    in its quotes. *)
#[local] Instance quoting_serde : SerdeJson.
Proof.
  refine {|
    to_vec := @to_vec concrete_serde_json;
    from_slice := @from_slice concrete_serde_json;
    from_slice_error := @from_slice_error concrete_serde_json;
    value_text v := match v with Str s => quotes "'" ++ s ++ quotes "'" | _ => "{}" end%string;
    from_value_error := @from_value_error concrete_serde_json;
  |}.
  apply (@from_slice_to_vec concrete_serde_json).
Defined.
#[local] Instance adding_keccak : Keccak := {|
  keccak256 x := foldl (fun a c => a * 256 + Z.of_N (Byte.to_N c)) 0 x;
|}.

Definition contains (text part : string) : bool :=
  existsb (fun w => bool_decide (w = b part)) (windows (String.length part) (b text)).
Definition a_block (transactions : list EntityKey) (receipts_root : Z) : BlockFields :=
  mkBlockFields 7 (repeat_byte 32 1) (repeat_byte 32 2) (repeat_byte 32 3) (repeat_byte 32 4)
    receipts_root transactions.
Definition reference_block : BlockFields :=
  a_block [repeat_byte 32 16; repeat_byte 32 17] (repeat_byte 32 5).

Definition block_evidence_names_only_the_fields_that_differ : bool :=
  let provider := a_block [repeat_byte 32 16; repeat_byte 32 153] (repeat_byte 32 85) in
  let differing := block_differences reference_block provider in
  contains differing "receiptsRoot reference=0x0505" && contains differing "provider=0x5555" &&
  contains differing "transactions reference=2 provider=2 first difference at 1" &&
  negb (contains differing "stateRoot") && negb (contains differing "hash reference").

Definition a_transaction_list_cut_short_differs_where_it_ends : bool :=
  let provider := a_block [repeat_byte 32 16] (repeat_byte 32 5) in
  bool_decide (block_differences reference_block provider =
    "transactions reference=2 provider=1 first difference at 1"%string) &&
  bool_decide (block_differences reference_block reference_block = EmptyString).

Definition row_of (attributes : list ArkivAttribute) : ArkivEntity :=
  mkArkivEntity (repeat_byte 32 17) (repeat_byte 20 34) 5 5 900 attributes.
Definition text_attribute (name value : string) : ArkivAttribute := mkArkivAttribute name "str" (Str value).

Definition evidence_names_every_attribute_and_hashes_the_payload : bool :=
  let row := row_of [text_attribute "kind" "rpc.offer"; mkArkivAttribute "payload" "bytes" (Str "0x010203")] in
  let described := describe [row] in
  contains described (quotes "kind:str='rpc.offer'") && contains described "expires 900" &&
  contains described (key_hex (keccak256 [x01; x02; x03])) &&
  negb (contains described "0x010203") && bool_decide (describe [] = "no such entity"%string).

(** The order is forgiven, a value is not. The answering entry was never
    probed. *)
Definition the_same_entity_with_its_attributes_in_another_order_is_a_match : bool :=
  let reference_row := row_of [text_attribute "kind" "rpc.offer"; text_attribute "lb" "0x01"] in
  let reordered := row_of [text_attribute "lb" "0x01"; text_attribute "kind" "rpc.offer"] in
  let changed := row_of [text_attribute "lb" "0x02"; text_attribute "kind" "rpc.offer"] in
  let finalized := a_block [] (repeat_byte 32 5) in
  let expected :=
    mkExpected finalized (Some (mkExpectedEntity reference_row.(ent_key) (Ok [reference_row]))) in
  let answers row := mkAnswers 0 (Ok (Some finalized)) (Some (Ok [row])) in
  let probed := last_height (provider_new 0 "node" "http://127.0.0.1:1/" Static) in
  bool_decide ((judge probed (answers reordered) expected).1 = Match) &&
  match judge probed (answers changed) expected with
  | (Divergence, Some (EvEntity _ _ _)) => true
  | _ => false
  end.

Definition check_tests : list bool :=
  [probe_delay_spares_quarantine_then_doubles_to_the_cap;
   hex_quantities_parse_and_junk_does_not;
   block_evidence_names_only_the_fields_that_differ;
   a_transaction_list_cut_short_differs_where_it_ends;
   evidence_names_every_attribute_and_hashes_the_payload;
   the_same_entity_with_its_attributes_in_another_order_is_a_match].

(** Every test of the two modules holds of the models. *)
Theorem check_tests_pass : all_of check_tests = true.
Proof. by vm_compute. Qed.
