(* ===== verification/StatsTests.v ===== *)
(** The unit tests of [crates/lb/src/stats.rs], run against the model of
    the hourly counts. The one on the text of times is left out: it tests
    the [humantime] library. *)

From S2P Require Import Prelude External Concrete Stats TestKit.

#[local] Open Scope Z_scope.

(** The start of an hour. *)
Definition T0 : Z := 1760000000 - 1760000000 mod HOUR.
Definition hour (i : Z) : Z := T0 + i * HOUR.
Definition kept (since : Z) (l : list Bucket) (r : Ring) : bool := bool_decide (ring_since since r = l).
(** Ticks one after another: the hours and the readings. *)
Definition ticks (l : list (Z * Z)) : Ring :=
  foldl (fun r x => ring_tick (hour x.1) x.2 r) default_ring l.
Definition counting (n : nat) : Ring := ticks ((fun i => (Z.of_nat i, Z.of_nat i)) <$> seq 0 n).

Definition a_bucket_is_what_the_reading_grew_by_since_the_last_tick : bool :=
  kept 0 [mkBucket T0 10 true; mkBucket (hour 1) 15 false; mkBucket (hour 2) 0 false]
    (ticks [(0, 10); (1, 25); (2, 25)]).

Definition a_tick_that_found_nothing_is_a_whole_hour_of_nothing : bool :=
  kept 0 [mkBucket T0 0 true; mkBucket (hour 1) 0 false] (ticks [(0, 0); (1, 0)]).

Definition since_cuts_at_the_hour_and_keeps_the_order : bool :=
  bool_decide (bucket_start <$> ring_since (hour 2) (counting 5) = [hour 2; hour 3; hour 4]) &&
  kept (hour 10) [] (counting 5).

(** Five hours fall off the oldest end. *)
Definition the_ring_keeps_the_last_hours_only : bool :=
  let ring := counting (HOURS + 5) in
  let l := ring_since 0 ring in
  Nat.eqb (length l) HOURS &&
  bool_decide (bucket_start <$> l !! 0%nat = Some (hour 5)) &&
  bool_decide (bucket_start <$> l !! (HOURS - 1)%nat = Some (hour (Z.of_nat HOURS + 4))) &&
  bool_decide (newest ring = Some (hour (Z.of_nat HOURS + 4))) &&
  forallb (fun x => Z.eqb x.(bucket_count) 1 && negb x.(partial)) l.

(** A fresh process's counters start at zero; no file is no history. *)
Definition the_file_keeps_the_buckets_and_forgets_the_reading : bool :=
  let file := "stats-test.json"%string in
  let rings := mkProviderRings None (ticks [(0, 10); (1, 25)]) default_ring in
  let saved := mkStats {["p0"%string := rings]} default_stats.(stats_lb) in
  let files := foldl (fun fs o => fs_apply o fs) ∅ (stats_save file saved) in
  match files !! file with
  | Some x =>
      match (stats_load (FileBytes x)).(stats_providers) !! "p0"%string with
      | Some loaded =>
          kept 0 [mkBucket T0 10 true; mkBucket (hour 1) 15 false] loaded.(rings_served) &&
          bool_decide (loaded.(rings_served).(last) = None)
      | None => false
      end
  | None => false
  end &&
  bool_decide (map_to_list (stats_load FileNotFound).(stats_providers) = []).

(** The next process reads the file: its counters start from zero. *)
Definition a_stop_closes_the_hour_in_progress_and_the_next_process_adds_to_it : bool :=
  let stopped := ring_stop (hour 1) 15 (ticks [(0, 10)]) in
  let restored := ring_tick (hour 1) 7 (mkRing stopped.(buckets) None) in
  kept 0 [mkBucket T0 10 true; mkBucket (hour 1) 5 true] stopped &&
  kept 0 [mkBucket T0 10 true; mkBucket (hour 1) 12 true] restored &&
  kept (hour 2) [mkBucket (hour 2) 2 false] (ring_tick (hour 2) 9 restored).

Definition a_reading_below_the_last_one_reads_as_nothing : bool :=
  bool_decide (bucket_count <$> ring_since (hour 1) (ticks [(0, 50); (1, 3)]) !! 0%nat = Some 0).

Definition stats_tests : list bool :=
  [a_bucket_is_what_the_reading_grew_by_since_the_last_tick;
   a_tick_that_found_nothing_is_a_whole_hour_of_nothing; since_cuts_at_the_hour_and_keeps_the_order;
   the_ring_keeps_the_last_hours_only; the_file_keeps_the_buckets_and_forgets_the_reading;
   a_stop_closes_the_hour_in_progress_and_the_next_process_adds_to_it;
   a_reading_below_the_last_one_reads_as_nothing].

(** Every test of the module that is about its own code holds of the
    model. *)
Theorem stats_tests_pass : all_of stats_tests = true.
Proof. by vm_compute. Qed.
