(* ===== verification/RelayTests.v ===== *)
(** The unit tests of [crates/rig/src/relay.rs], run against the model of
    the relay's lies. *)

From S2P Require Import Prelude External Jsonrpc Config Settings Relay TestKit.

#[local] Open Scope Z_scope.

Definition key_query (condition : string) : Value :=
  Object [("method", Str "arkiv_query"); ("params", Array [Str condition; Object []])]%string.
Definition asking (method : string) (params : list Value) : Value :=
  Object [("method", Str method); ("params", Array params)]%string.
Definition answering (result : Value) : Value :=
  Object [("jsonrpc", Str "2.0"); ("id", json_int 1); ("result", result)]%string.
Definition attribute_row (name tag value : string) : Value :=
  Object [("name", Str name); ("type", Str tag); ("value", Str value)]%string.
Definition data_of (attributes : list Value) : list (string * Value) :=
  [("data", Array [Object [("key", Str "0x01"); ("attributes", Array attributes)]])]%string.
Definition answer_with (payload : string) : Value :=
  answering (Object (data_of [attribute_row "kind" "str" "rpc.offer"; attribute_row "payload" "bytes" payload]
                     ++ [("blockNumber", Str "0x10")]%string)).
(** The answer after: whether it is altered, and to what. *)
Definition becomes (altered : bool) (answer : Value) (r : option (bool * Value)) : bool :=
  bool_decide (r = Some (altered, answer)).

(** Only the payload changes. *)
Definition a_query_by_key_gets_a_different_payload : bool :=
  becomes true (answer_with "0xabcd00")
    (alter_entities (key_query "$key = key(0x01)") (answer_with "0xabcd")).

Definition a_row_without_a_payload_is_not_a_lie : bool :=
  bool_decide (fst <$> alter_entities (key_query "$key = key(0x01)")
    (Object [("result"%string, Object (data_of [attribute_row "kind" "str" "x"]))]) = Some false).

(** A batch holding a query by key is none: only single requests are
    altered. *)
Definition other_queries_and_methods_pass_untouched : bool :=
  let answer := answer_with "0xabcd" in
  forallb (fun request => becomes false answer (alter_entities request answer))
    [key_query (quotes "kind = 'rpc.offer'"); asking "eth_blockNumber" []; Array [key_query "$key = key(0x01)"]].

Definition the_head_stays_where_the_relay_first_saw_it : bool :=
  let request := asking "eth_blockNumber" [] in
  match freeze_head request (answering (Str "0x10")) None with
  | Some (first, _, frozen) =>
      negb first &&
      bool_decide (fst <$> freeze_head request (answering (Str "0x20")) frozen =
        Some (true, answering (Str "0x10"))) &&
      bool_decide (fst <$> freeze_head (Object [("method", Str "eth_chainId")]%string)
          (answering (Str "0x1")) frozen = Some (false, answering (Str "0x1")))
  | None => false
  end.

Definition block_of (hash : string) : Value :=
  answering (Object [("number", Str "0x10"); ("hash", Str hash); ("stateRoot", Str "0xcd")]%string).

Definition a_block_gets_another_hash_and_nothing_else_changes : bool :=
  let request := asking "eth_getBlockByNumber" [Str "0x10"; Bool false] in
  becomes true (block_of "0xab11") (alter_block request (block_of "0xab10")) &&
  becomes false (answering Null) (alter_block request (answering Null)) &&
  becomes false (block_of "0xab11")
    (alter_block (Object [("method", Str "eth_blockNumber")]%string) (block_of "0xab11")).

Definition relay_tests : list bool :=
  [a_query_by_key_gets_a_different_payload; a_row_without_a_payload_is_not_a_lie;
   other_queries_and_methods_pass_untouched; the_head_stays_where_the_relay_first_saw_it;
   a_block_gets_another_hash_and_nothing_else_changes].

(** Every test of the module holds of the model. *)
Theorem relay_tests_pass : all_of relay_tests = true.
Proof. by vm_compute. Qed.
